(* ===== verification/_CoqProject ===== *)
-Q . S2P
Prelude.v
GoLang.v
Sha256.v
GoJson.v
K8s.v
Types.v
Heap.v
Effects.v
Api.v
Logic.v
Names.v
ConfigMap.v
Services.v
StatefulSet.v
Resources.v
Plugins.v
Reconciler.v
Samples.v
TierWalk.v
StatefulSetProps.v
ConfigProps.v
PluginProps.v
Store.v
Convergence.v
Server.v
Writes.v
Status.v
Report.v
GoMem.v
GoMemLogic.v
ApiMem.v
DeepCopyGen.v
DeepCopyProps.v
Manager.v
Permissions.v
Main.v
MainProps.v
Faults.v
Tally.v
Liveness.v
Tenants.v
