(* ===== verification/Prelude.v ===== *)
(** * picodata-operator: a verification development

    The operator is a Kubernetes controller in Go.  A user writes a PicoclusterDB
    resource with a list of tiers; [Reconcile] (internal/controller) is called with
    its name and brings the cluster in line: per tier a ConfigMap with Picodata's
    config.yaml, a headless and a client Service, one StatefulSet per replicaset, an
    optional Ingress; it removes the StatefulSets of replicasets that are no longer
    wanted, installs plugins over SQL once the pods are ready, and writes a status.

    ** The parts and where they are modelled

    - api/v1/picoclusterdb_types.go: [Types], field for field.  The structs of
      k8s.io/api that the operator fills in or reads are in [K8s].
    - api/v1/zz_generated.deepcopy.go: every function is in [DeepCopyGen], over a
      memory of cells ([GoMem]: values, arrays of slices, maps) in which all pointers,
      slices and maps are addresses; [ApiMem] has the structs as they lie in it.
      The controller is modelled over a smaller memory, [Heap], with the two kinds
      of cells that it writes through shared pointers, [Affinity.PodAntiAffinity] and
      [PodSpec.SecurityContext]; the copy it takes of a cluster is [Heap.DeepCopy], the
      generated code on these cells.
      There types are indexed by a pointer representation: [Mem] (addresses) or [Wire]
      (as serialized); [freeze] and [thaw] go between the two.
    - api/v1/groupversion_info.go, SetupWithManager and the RBAC markers: [Manager].
    - cmd/main.go: [Main], with Go's flag parsing.
    - service.go (names and labels) and the name functions of statefulset.go and
      configmap.go: [Names]; configmap.go: [ConfigMap], the text byte for byte;
      service.go and ingress.go: [Services]; statefulset.go: [StatefulSet].
    - picoclusterdb_controller.go: the reconcilers of single objects,
      [deleteExtraStatefulSets] and [tierStatus] in [Resources]; [reconcileTier],
      [updateStatus] and [Reconcile] in [Reconciler].
    - plugin.go: [Plugins].
    - The Go language and standard library: [GoLang] (int32, formatting, parsing,
      case), [Sha256], [GoJson].

    Definitions carry the names of the Go functions.  A long function is cut at its
    own paragraphs, which are definitions of their own ([sts_env], [migrate_plugin],
    [reconcile_replicaset]).

    ** Calls and how they are reasoned about

    A handler is a program that makes calls ([Api.Op]: the API server, the database,
    the clock, the order of a map) and threads the heap and Go's errors ([Api.GoM]).
    [Effects] gives programs two meanings: the calls they can make under a monitor
    ([obeys]), a state machine that says which calls are allowed and which answers
    are expected, and their runs in a world ([run]).  [Logic] has one rule per construct
    ([go_ok]).  Properties are monitors:

    - [Store]: the state is what is stored; the expectations are the API's documented
      behaviour, a merge patch of the status included, any call may fail.
      [Convergence]: a successful [Reconcile] leaves every tier in sync, and on every path
      nothing else changes but the status of its cluster.  [Server]: an
      executable server that meets the expectations; [Reconcile] returns when run
      against it; a computed run of the sample.
    - [TierWalk]: what patches and deletions may do; the walk through the handlers
      that other monitors share; the loop at the greatest count.
    - [Writes]: the order of the writes, in full on success, a prefix on failure.
    - [Status]: the counts and their overflow, the soundness of the status that is
      written, when the database is reached.  [Report]: the stored status tells what is
      stored when a successful [Reconcile] returns.
    - [StatefulSetProps]: what is sent for each replicaset; the anti-affinity terms,
      which accumulate through the shared pointer.
    - [PluginProps]: the life cycle of a plugin version as a state machine, the exact
      statements, the steady state, the removal of obsolete versions, the connection.
    - [ConfigProps]: ports, addresses, labels, names, listeners and mounts agree; when
      names and placeholders collide.
    - [Faults]: [Reconcile] stops at the first failed call it does not handle and
      returns that failure under a path that names the tier and the step.
    - [Tally], [Liveness]: faults are counted; a reconciliation fails only where it
      meets one, so on a server that fails finitely often repeating it succeeds.
    - [Tenants]: reconciling one cluster leaves another in sync when their names do not
      meet ([names_collide] in [ConfigProps] says when they do).
    - [Permissions]: every call is granted by the RBAC markers, every written kind is
      watched.

    Two parts are apart from these: [DeepCopyProps] (over [GoMemLogic]: the contract of
    a deep copy, met by each shape and struct; copies of whole objects are isolated)
    and [MainProps] (the steps of the process and its exit codes; what the two servers
    are started with).

    [Samples] has the concrete inputs of the witnesses, after config/samples.

    ** Bounds and fuel

    Programs are finite trees, so they terminate unless they reach [Hang], the call
    that stands for a loop that never exits and for the panic of [Tiers[0]] on a
    cluster without tiers.  The one loop that could diverge is the int32 loop over the
    replicasets, [for_int32]: it is cut after [tier.Replicas] turns, which is enough
    when the count is below 2147483647 ([for_int32_range]); at that count it never
    exits ([reconcileTier_max_replicas]).  The monitors of [Store], [TierWalk] (for the
    writes), [StatefulSetProps], [Writes] and [Status] do not allow [Hang], so their
    theorems include termination; the plugin handlers have no such loop.  So does
    [Tally]'s; [Faults] and [Permissions] allow it.  The fuel of the JSON parser is
    twice the length of the text and that of [Itoa] the number of bits, both enough as
    their comments and lemmas say.  [Liveness.retry] repeats [Reconcile] as often as
    there are faults, which is enough.  The loops of the deep copies run over the
    lengths of slices and the entries of maps.

    ** What is assumed of other code

    [K8sLib]: two functions of resource.Quantity.  The deep copies of k8s.io structs that
    [Heap] takes are deep.  [ControllerLib] and its laws:
    SetControllerReference keeps name, labels and annotations.  [GoUnicode]: the
    Unicode tables behind ToUpper, EqualFold and %q, which have their ASCII paths here.
    [ControllerLibTotal]: SetControllerReference succeeds on a new object.
    [LibLayout], [LibCopy] and its laws: the k8s.io types in memory, their own deep
    copies being deep.  [RangeOrder]: the order of a range over a map.  [ExtraFlags]:
    the flags that imported packages define.
    An object that a create or a patch returns is decoded into memory of its own.

    ** What is not modelled

    What controller-runtime does with what is registered (the queue, the mapping of a
    changed object to its owner, leader election, serving); that it calls [Reconcile]
    again after an error or a requeue is how [Liveness] reads its documentation.  Log
    lines, contexts and their cancellation; the cache of the client (a read answers
    what is stored, or fails); what the API server completes in the objects, beyond the
    fields the operator manages and the status; what the pods do with the configuration.  Tests and manifests are not part of the program. *)

From stdpp Require Export base gmap sets list strings option.
From stdpp Require Import options.
From Stdlib Require Export Ascii ZArith Lia.

Declare Scope operator_scope.
Delimit Scope operator_scope with op.

(** The lemmas that close the routine goals of the components. *)
Create HintDb operator discriminated.
Create Rewrite HintDb operator.

(** ** Go errors and fallible results *)

(** A Go [error] value.  [ErrNotFound] is an API error whose reason is
    [NotFound]; every other library error is [ErrOther] with its text;
    [ErrWrap p e] is [fmt.Errorf("p: %w", e)]. *)
Inductive error :=
| ErrNotFound (what : string)
| ErrOther (msg : string)
| ErrWrap (prefix : string) (e : error).

#[export] Instance error_eq_dec : EqDecision error.
Proof. solve_decision. Defined.

(** [errors.IsNotFound]: the reason is looked up through wrapping. *)
Fixpoint IsNotFound (e : error) : bool :=
  match e with
  | ErrNotFound _ => true
  | ErrOther _ => false
  | ErrWrap _ e' => IsNotFound e'
  end.

(** [e.Error()]: the text of an error. *)
Fixpoint error_text (e : error) : string :=
  match e with
  | ErrNotFound w => w
  | ErrOther m => m
  | ErrWrap p e' => p +:+ ": " +:+ error_text e'
  end.

(** The [(value, error)] pairs of Go, as a sum. *)
Inductive result (A : Type) : Type :=
| Ok (a : A)
| Err (e : error).
Arguments Ok {A} _.
Arguments Err {A} _.

#[export] Instance result_eq_dec `{EqDecision A} : EqDecision (result A).
Proof. solve_decision. Defined.

Definition is_ok {A} (r : result A) : bool :=
  match r with Ok _ => true | Err _ => false end.

(** [client.IgnoreNotFound(err)]: a [NotFound] error becomes nil. *)
Definition IgnoreNotFound {A} (r : result A) : result unit :=
  match r with
  | Ok _ => Ok tt
  | Err e => if IsNotFound e then Ok tt else Err e
  end.

(** ** Strings: appending is a cancellative monoid *)

Lemma append_cons x (a b : string) : String x a +:+ b = String x (a +:+ b).
Proof. reflexivity. Qed.

Lemma append_nil_l (a : string) : "" +:+ a = a.
Proof. reflexivity. Qed.

Lemma append_assoc (a b c : string) : (a +:+ b) +:+ c = a +:+ (b +:+ c).
Proof. induction a as [|x a IH]; [done|exact (f_equal (String x) IH)]. Qed.

Lemma append_nil_r (a : string) : a +:+ "" = a.
Proof. induction a as [|x a IH]; [done|exact (f_equal (String x) IH)]. Qed.

Lemma append_length (a b : string) :
  String.length (a +:+ b) = (String.length a + String.length b)%nat.
Proof. induction a as [|x a IH]; [done|exact (f_equal S IH)]. Qed.

Lemma append_inj_l (p a b : string) : p +:+ a = p +:+ b -> a = b.
Proof.
  induction p as [|x p IH]; [done|]. rewrite !append_cons. intros H.
  apply IH. congruence.
Qed.

Lemma append_eq_split (a b c d : string) :
  a +:+ b = c +:+ d ->
  String.length a = String.length c -> a = c /\ b = d.
Proof.
  revert c. induction a as [|x a IH]; intros [|y c] H L; simpl in *; try lia; [done|].
  rewrite !append_cons in H. injection H as -> H.
  destruct (IH c H ltac:(lia)) as [-> ->]. done.
Qed.

Lemma append_inj_r (s a b : string) : a +:+ s = b +:+ s -> a = b.
Proof.
  intros H. apply (append_eq_split a s b s H).
  apply (f_equal String.length) in H. rewrite !append_length in H. lia.
Qed.

(** Characters of a string, as a list, and [c] not occurring in it. *)
Fixpoint chars (s : string) : list Ascii.ascii :=
  match s with "" => [] | String c s' => c :: chars s' end.

Fixpoint unchars (l : list Ascii.ascii) : string :=
  match l with [] => "" | c :: l' => String c (unchars l') end.

Lemma chars_unchars l : chars (unchars l) = l.
Proof. induction l as [|c l IH]; simpl; [done|by rewrite IH]. Qed.

Lemma unchars_chars s : unchars (chars s) = s.
Proof. induction s as [|c s IH]; simpl; [done|by rewrite IH]. Qed.

Lemma chars_app a b : chars (a +:+ b) = chars a ++ chars b.
Proof. induction a as [|c a IH]; [done|exact (f_equal (cons c) IH)]. Qed.

Lemma chars_inj a b : chars a = chars b -> a = b.
Proof. intros H. by rewrite <-(unchars_chars a), H, unchars_chars. Qed.

Lemma unchars_app a b : unchars (a ++ b) = unchars a +:+ unchars b.
Proof. induction a as [|c a IH]; [done|exact (f_equal (String c) IH)]. Qed.

(** If a separator occurs in neither tail, the last separator splits a
    string in only one way. *)
Lemma list_last_sep {A} (c : A) (p q u v : list A) :
  c ∉ u -> c ∉ v -> p ++ c :: u = q ++ c :: v -> p = q /\ u = v.
Proof.
  intros Hu Hv. revert q. induction p as [|x p IH]; intros [|y q] H.
  - by simplify_eq/=.
  - exfalso. apply Hu. injection H as -> ->. set_solver +.
  - exfalso. apply Hv. injection H as -> <-. set_solver +.
  - injection H as -> H. destruct (IH q H) as [-> ->]. done.
Qed.

Lemma append_last_sep (c : Ascii.ascii) (p q u v : string) :
  c ∉ chars u -> c ∉ chars v ->
  p +:+ String c u = q +:+ String c v -> p = q /\ u = v.
Proof.
  intros Hu Hv H%(f_equal chars). rewrite !chars_app in H.
  destruct (list_last_sep c _ _ _ _ Hu Hv H) as [?%chars_inj ?%chars_inj]. done.
Qed.

(** Two texts joined by a separator read alike: they have the same parts, or the first
    part of one extends that of the other by the separator and a text [x], with which the
    second part of the other begins. *)
Definition joins_alike (sep p u q v : string) : Prop :=
  p = q /\ u = v \/
  (exists x, p = q +:+ sep +:+ x /\ v = x +:+ sep +:+ u) \/
  (exists x, q = p +:+ sep +:+ x /\ u = x +:+ sep +:+ v).

Lemma list_sep_cases {A} (c : A) (p q u v : list A) :
  p ++ c :: u = q ++ c :: v <->
  p = q /\ u = v \/ (exists x, p = q ++ c :: x /\ v = x ++ c :: u) \/
  (exists x, q = p ++ c :: x /\ u = x ++ c :: v).
Proof.
  split.
  - revert q. induction p as [|a p IH]; intros [|b q] H; simpl in H.
    + injection H as ->. by left.
    + injection H as -> ->. right; right. by exists q.
    + injection H as -> <-. right; left. by exists p.
    + injection H as -> H. destruct (IH q H) as [[-> ->]|[(x & -> & ->)|(x & -> & ->)]];
        [by left|right; left|right; right]; by exists x.
  - intros [[-> ->]|[(x & -> & ->)|(x & -> & ->)]]; [done|..]; by rewrite <-app_assoc.
Qed.

Lemma joins_alike_spec (c : Ascii.ascii) (p q u v : string) :
  p +:+ String c "" +:+ u = q +:+ String c "" +:+ v <-> joins_alike (String c "") p u q v.
Proof.
  assert (forall a b, chars (a +:+ String c "" +:+ b) = chars a ++ c :: chars b) as E
    by (intros a b; by rewrite !chars_app).
  assert (forall a b, a = b <-> chars a = chars b) as Ei
    by (intros a b; split; [by intros ->|apply chars_inj]).
  rewrite Ei, !E, list_sep_cases. unfold joins_alike. rewrite <-!Ei.
  assert (forall a b d e,
    (exists x, chars a = chars b ++ c :: x /\ chars e = x ++ c :: chars d) <->
    (exists x, a = b +:+ String c "" +:+ x /\ e = x +:+ String c "" +:+ d)) as Ex.
  { intros a b d e. split; intros (x & H1 & H2).
    - exists (unchars x). by rewrite (Ei a), (Ei e), !E, chars_unchars.
    - exists (chars x). by rewrite (Ei a), (Ei e), !E in *. }
  by rewrite !Ex.
Qed.

#[export] Hint Resolve append_inj_l append_inj_r : operator.
#[export] Hint Rewrite append_assoc append_nil_r append_length chars_app : operator.

(** [strings.Join]. *)
Fixpoint Join (l : list string) (sep : string) : string :=
  match l with
  | [] => ""
  | [x] => x
  | x :: l' => x +:+ sep +:+ Join l' sep
  end.

(** Characters that a string literal cannot hold readably. *)
Definition dquote : string := String (Ascii.ascii_of_nat 34) "".
Definition newline : string := String (Ascii.ascii_of_nat 10) "".

(** ** Tactics *)

(** Split the conjunctions of the context and clean its equations. *)
Ltac crush := repeat match goal with
  | H : _ /\ _ |- _ => destruct H
  | H : exists _, _ |- _ => destruct H
  | _ => progress simplify_eq/=
  end.
