(* ===== verification/GoLang.v ===== *)
(** * Go's own arithmetic and standard-library functions

    The parts of the Go language and standard library that the operator uses:
    [int32] arithmetic, [strconv.ParseInt(s, 10, 32)], the [%d], [%v] and [%x]
    and [%q] verbs of [fmt.Sprintf], [strings.ToUpper] and [strings.EqualFold].  A Go
    string is its bytes.  The two functions of package [strings] and [%q] are defined
    on their ASCII paths; the Unicode tables behind their other path are the
    operations of class [GoUnicode]. *)

From S2P Require Import Prelude.
From stdpp Require Import options.
Local Open Scope Z_scope.

(** ** [int32] *)

Definition int32_min : Z := - 2 ^ 31.
Definition int32_max : Z := 2 ^ 31 - 1.

Definition in_int32 (z : Z) : Prop := int32_min <= z <= int32_max.

#[export] Instance in_int32_dec z : Decision (in_int32 z).
Proof. unfold in_int32. apply _. Defined.

(** The value an [int32] holds after an operation whose exact result is [z]. *)
Definition int32 (z : Z) : Z := (z + 2 ^ 31) mod 2 ^ 32 - 2 ^ 31.

Definition int32_add (a b : Z) : Z := int32 (a + b).
Definition int32_mul (a b : Z) : Z := int32 (a * b).

Lemma int32_id z : in_int32 z -> int32 z = z.
Proof. unfold in_int32, int32, int32_min, int32_max. intros. rewrite Z.mod_small; lia. Qed.

Lemma int32_range z : in_int32 (int32 z).
Proof.
  unfold in_int32, int32, int32_min, int32_max.
  pose proof (Z.mod_pos_bound (z + 2 ^ 31) (2 ^ 32) ltac:(lia)). lia.
Qed.

Lemma int32_add_l a b : int32_add (int32 a) b = int32 (a + b).
Proof.
  unfold int32_add, int32.
  replace ((a + 2 ^ 31) mod 2 ^ 32 - 2 ^ 31 + b + 2 ^ 31)
    with ((a + 2 ^ 31) mod 2 ^ 32 + b) by lia.
  rewrite Zplus_mod_idemp_l. by replace (a + 2 ^ 31 + b) with (a + b + 2 ^ 31) by lia.
Qed.

#[export] Hint Resolve int32_range : operator.

(** ** Decimal digits: the [%d] verb and [strconv.ParseInt] *)

Definition digit_char (d : Z) : Ascii.ascii := Ascii.ascii_of_nat (48 + Z.to_nat d).

Definition digit_val (c : Ascii.ascii) : option Z :=
  let n := Z.of_nat (Ascii.nat_of_ascii c) in
  if (48 <=? n) && (n <=? 57) then Some (n - 48) else None.

(** The digits of [n >= 0], most significant first. *)
Fixpoint digits_go (fuel : nat) (n : Z) (acc : list Z) : list Z :=
  match fuel with
  | O => acc
  | S f => if n <? 10 then n :: acc else digits_go f (n / 10) (n mod 10 :: acc)
  end.

Definition digits (n : Z) : list Z := digits_go (S (Z.to_nat (Z.log2 n))) n [].

Definition undigits (l : list Z) : Z := fold_left (fun a d => a * 10 + d) l 0.

(** [fmt.Sprintf("%d", n)]. *)
Definition Itoa (n : Z) : string :=
  if n <? 0 then String "-"%char (unchars (map digit_char (digits (- n))))
  else unchars (map digit_char (digits n)).

(** The value of a non-empty run of digits. *)
Definition parse_nat (s : list Ascii.ascii) : option Z :=
  match s with [] => None | _ => undigits <$> mapM digit_val s end.

(** The optional sign: whether the number is negative, and what follows. *)
Definition split_sign (s : list Ascii.ascii) : bool * list Ascii.ascii :=
  match s with
  | c :: r =>
      if bool_decide (c = "-"%char) then (true, r)
      else if bool_decide (c = "+"%char) then (false, r)
      else (false, s)
  | [] => (false, s)
  end.

(** [strconv.ParseInt(s, 10, 32)], [None] when it returns an error: an optional
    sign, at least one digit, only digits, and a value an [int32] holds. *)
Definition ParseInt (s : string) : option Z :=
  let '(neg, ds) := split_sign (chars s) in
  n ← parse_nat ds;
  let z := if neg then - n else n in
  if bool_decide (in_int32 z) then Some z else None.

Definition dec_digit (d : Z) : Prop := 0 <= d <= 9.

Lemma digit_val_char d : dec_digit d -> digit_val (digit_char d) = Some d.
Proof.
  unfold dec_digit. intros Hd.
  assert (d = 0 \/ d = 1 \/ d = 2 \/ d = 3 \/ d = 4 \/ d = 5 \/ d = 6 \/ d = 7 \/ d = 8
    \/ d = 9) as H by lia.
  repeat destruct H as [->|H]; try reflexivity. by subst.
Qed.

Lemma digit_vals_chars l :
  Forall dec_digit l -> mapM digit_val (map digit_char l) = Some l.
Proof.
  induction 1 as [|d l Hd _ IH]; [done|].
  cbn. rewrite (digit_val_char d Hd). cbn. by rewrite IH.
Qed.

Lemma digits_go_spec fuel n acc :
  0 <= n < 2 ^ Z.of_nat fuel -> (0 < fuel)%nat -> Forall dec_digit acc ->
  exists pre, digits_go fuel n acc = pre ++ acc /\ pre <> [] /\
    Forall dec_digit pre /\ undigits pre = n.
Proof.
  revert n acc. induction fuel as [|f IH]; intros n acc Hn Hf Hacc; [lia|]. cbn.
  destruct (Z.ltb_spec n 10) as [H|H].
  - exists [n]. split_and!; [done|done| |unfold undigits; cbn; lia].
    repeat constructor; unfold dec_digit; lia.
  - rewrite Nat2Z.inj_succ, Z.pow_succ_r in Hn by lia.
    pose proof (Z.mod_pos_bound n 10 ltac:(lia)).
    pose proof (Z_div_mod_eq_full n 10).
    destruct (IH (n / 10) (n mod 10 :: acc)) as (pre & E & Hne & Hd & Hv).
    + lia.
    + destruct f; [cbn in Hn|]; lia.
    + constructor; [unfold dec_digit; lia|done].
    + exists (pre ++ [n mod 10]). rewrite E, <-app_assoc. split_and!; [done|by destruct pre|..].
      * apply Forall_app; split; [done|]. constructor; [unfold dec_digit; lia|done].
      * unfold undigits in *. rewrite fold_left_app, Hv. cbn. lia.
Qed.

Lemma digits_spec n :
  0 <= n -> digits n <> [] /\ Forall dec_digit (digits n) /\ undigits (digits n) = n.
Proof.
  intros Hn. unfold digits.
  destruct (digits_go_spec (S (Z.to_nat (Z.log2 n))) n []) as (pre & E & Hne & Hd & Hv).
  - split; [done|]. pose proof (Z.log2_nonneg n).
    rewrite Nat2Z.inj_succ, Z2Nat.id by done.
    destruct (Z.eq_dec n 0) as [->|]; [cbn; lia|].
    apply Z.log2_spec. lia.
  - lia.
  - done.
  - rewrite E, app_nil_r. done.
Qed.

Lemma digit_char_not_dash d : dec_digit d -> digit_char d <> "-"%char.
Proof.
  intros Hd E. pose proof (digit_val_char d Hd) as H. rewrite E in H. discriminate.
Qed.

Lemma digit_char_not_plus d : dec_digit d -> digit_char d <> "+"%char.
Proof.
  intros Hd E. pose proof (digit_val_char d Hd) as H. rewrite E in H. discriminate.
Qed.

Lemma parse_nat_digits n :
  0 <= n -> parse_nat (map digit_char (digits n)) = Some n.
Proof.
  intros Hn. destruct (digits_spec n Hn) as (Hne & Hd & Hv). unfold parse_nat.
  rewrite digit_vals_chars by done. cbn [fmap option_fmap option_map]. rewrite Hv.
  by destruct (digits n).
Qed.

Lemma split_sign_digits l :
  Forall dec_digit l -> split_sign (map digit_char l) = (false, map digit_char l).
Proof.
  destruct 1 as [|d l Hd _]; [done|]. cbn.
  rewrite bool_decide_eq_false_2 by (by apply digit_char_not_dash).
  by rewrite bool_decide_eq_false_2 by (by apply digit_char_not_plus).
Qed.

(** [ParseInt] undoes [%d] on every [int32]. *)
Lemma ParseInt_Itoa n : in_int32 n -> ParseInt (Itoa n) = Some n.
Proof.
  intros Hn. unfold ParseInt, Itoa. destruct (Z.ltb_spec n 0) as [Hs|Hs].
  - cbn [chars]. rewrite chars_unchars. cbn [split_sign].
    rewrite bool_decide_eq_true_2, parse_nat_digits by (done || lia).
    cbn [mbind option_bind]. rewrite Z.opp_involutive. by rewrite bool_decide_eq_true_2.
  - rewrite chars_unchars, split_sign_digits by (by apply digits_spec).
    rewrite parse_nat_digits by done. cbn [mbind option_bind]. by rewrite bool_decide_eq_true_2.
Qed.

Lemma ParseInt_range s n : ParseInt s = Some n -> in_int32 n.
Proof.
  unfold ParseInt. destruct (split_sign (chars s)) as [neg ds].
  destruct (parse_nat ds) as [m|]; [|done]. cbn [mbind option_bind].
  case_bool_decide; [|done]. by intros [= <-].
Qed.

Lemma Itoa_inj a b : in_int32 a -> in_int32 b -> Itoa a = Itoa b -> a = b.
Proof.
  intros Ha Hb E. pose proof (ParseInt_Itoa a Ha) as H.
  rewrite E, ParseInt_Itoa in H by done. congruence.
Qed.

(** The decimal text of a non-negative number has no dash. *)
Lemma Itoa_no_dash n : 0 <= n -> "-"%char ∉ chars (Itoa n).
Proof.
  intros Hn. unfold Itoa. rewrite (proj2 (Z.ltb_ge n 0) Hn). rewrite chars_unchars.
  destruct (digits_spec n Hn) as (_ & Hd & _). intros Hin.
  apply list_elem_of_In, in_map_iff in Hin as (d & E & Hin).
  rewrite Forall_forall in Hd. apply (digit_char_not_dash d); [|done].
  by apply Hd.
Qed.

(** [fmt.Sprintf("%v", b)] of a boolean. *)
Definition show_bool (b : bool) : string := if b then "true" else "false".

(** ** [%x] of a byte slice, bytes as numbers in [0, 256). *)
Definition hex_digit (n : Z) : Ascii.ascii :=
  if n <? 10 then Ascii.ascii_of_nat (48 + Z.to_nat n)
  else Ascii.ascii_of_nat (87 + Z.to_nat n).

Definition hex_byte (b : Z) : string :=
  String (hex_digit (b / 16)) (String (hex_digit (b mod 16)) "").

Fixpoint hex (l : list Z) : string :=
  match l with [] => "" | b :: l' => hex_byte b +:+ hex l' end.

Lemma hex_length l : String.length (hex l) = (2 * length l)%nat.
Proof.
  induction l as [|b l IH]; [done|]. cbn [hex]. rewrite append_length, IH. cbn. lia.
Qed.

(** ** [strings.ToUpper], [strings.EqualFold] and the [%q] verb *)

Definition byte_of (c : Ascii.ascii) : Z := Z.of_nat (Ascii.nat_of_ascii c).

(** [utf8.RuneSelf]: a byte from here on starts or continues a longer rune. *)
Definition RuneSelf : Z := 128.

Definition is_ascii (s : string) : bool :=
  forallb (fun c => byte_of c <? RuneSelf) (chars s).

Definition upper_char (c : Ascii.ascii) : Ascii.ascii :=
  if (97 <=? byte_of c) && (byte_of c <=? 122)
  then Ascii.ascii_of_nat (Z.to_nat (byte_of c - 32)) else c.

(** What the Unicode tables decide: [ToUpper] of a string with a byte that is not
    ASCII, [EqualFold] from the first position where a byte is not ASCII, and the
    quotation of such a string. *)
Class GoUnicode := {
  unicode_upper : string -> string;
  unicode_equal_fold : string -> string -> bool;
  unicode_quote : string -> string
}.

Section unicode.
Context {U : GoUnicode}.

Definition ToUpper (s : string) : string :=
  if is_ascii s then unchars (map upper_char (chars s)) else unicode_upper s.

(** A character between the quotes of [strconv.Quote]: the quote, the backslash and
    the control characters are escaped. *)
Definition escape_char (c : Ascii.ascii) : string :=
  let n := byte_of c in
  let bs (x : string) := String "\"%char x in
  if (n =? 34) || (n =? 92) then bs (String c "")
  else if (32 <=? n) && (n <? 127) then String c ""
  else if n =? 7 then bs "a"
  else if n =? 8 then bs "b"
  else if n =? 12 then bs "f"
  else if n =? 10 then bs "n"
  else if n =? 13 then bs "r"
  else if n =? 9 then bs "t"
  else if n =? 11 then bs "v"
  else bs ("x" +:+ hex_byte n).

(** The [%q] verb of a string. *)
Definition Quote (s : string) : string :=
  if is_ascii s then dquote +:+ Join (map escape_char (chars s)) "" +:+ dquote
  else unicode_quote s.

(** One step of the loop of [EqualFold] on two ASCII bytes. *)
Definition fold_char_eq (a b : Ascii.ascii) : bool :=
  let lo := Z.min (byte_of a) (byte_of b) in
  let hi := Z.max (byte_of a) (byte_of b) in
  (lo =? hi) || ((65 <=? lo) && (lo <=? 90) && (hi =? lo + 32)).

Fixpoint EqualFold (s t : string) : bool :=
  match s, t with
  | String a s', String b t' =>
      if (byte_of a <? RuneSelf) && (byte_of b <? RuneSelf)
      then fold_char_eq a b && EqualFold s' t'
      else unicode_equal_fold s t
  | "", "" => true
  | _, _ => false
  end.

Lemma EqualFold_refl s : is_ascii s = true -> EqualFold s s = true.
Proof.
  induction s as [|c s IH]; [done|]. unfold is_ascii. cbn. intros [Hc Hs]%andb_prop.
  rewrite Hc. cbn. rewrite (IH Hs), andb_true_r. unfold fold_char_eq.
  rewrite Z.min_id, Z.max_id, Z.eqb_refl. done.
Qed.
End unicode.

(** An instance that leaves bytes outside ASCII alone, for closed examples. *)
Definition ascii_unicode : GoUnicode := {|
  unicode_upper := fun s => unchars (map upper_char (chars s));
  unicode_equal_fold := fun s t => bool_decide (s = t);
  unicode_quote := fun s => dquote +:+ s +:+ dquote
|}.

(** [%q]: a quote and a newline are escaped, a letter is not. *)
Example Quote_escapes : Quote (U := ascii_unicode) (dquote +:+ "k" +:+ newline)
  = dquote +:+ String "\"%char dquote +:+ "k\n" +:+ dquote.
Proof. reflexivity. Qed.
