(* ===== verification/Sha256.v ===== *)
(** * SHA-256

    [crypto/sha256.Sum256], which [configHash] calls: the hash of FIPS 180-4 over
    32-bit words, as [Z] in [0, 2^32). *)

From S2P Require Import Prelude GoLang.
From stdpp Require Import options.
Local Open Scope Z_scope.

Definition w32 (z : Z) : Z := Z.land z 4294967295.
Definition add32 (a b : Z) : Z := w32 (a + b).
Definition shr (n x : Z) : Z := Z.shiftr x n.
Definition rotr (n x : Z) : Z := Z.lor (Z.shiftr x n) (w32 (Z.shiftl x (32 - n))).
Definition not32 (x : Z) : Z := Z.lxor x 4294967295.

Definition Ch (x y z : Z) : Z := Z.lxor (Z.land x y) (Z.land (not32 x) z).
Definition Maj (x y z : Z) : Z := Z.lxor (Z.lxor (Z.land x y) (Z.land x z)) (Z.land y z).
Definition Sigma0 (x : Z) : Z := Z.lxor (Z.lxor (rotr 2 x) (rotr 13 x)) (rotr 22 x).
Definition Sigma1 (x : Z) : Z := Z.lxor (Z.lxor (rotr 6 x) (rotr 11 x)) (rotr 25 x).
Definition sigma0 (x : Z) : Z := Z.lxor (Z.lxor (rotr 7 x) (rotr 18 x)) (shr 3 x).
Definition sigma1 (x : Z) : Z := Z.lxor (Z.lxor (rotr 17 x) (rotr 19 x)) (shr 10 x).

(** The constants of the standard: the first 32 bits of the fractional parts of the
    cube roots of the first 64 primes, and of the square roots of the first eight. *)
Definition is_prime (n : Z) : bool :=
  forallb (fun d => negb (n mod d =? 0)) (seqZ 2 (Z.sqrt n - 1)).

Definition first_primes : list Z := filter (fun n => is_prime n = true) (seqZ 2 310).

(** The integer cube root of [n], bit by bit from bit [k]. *)
Fixpoint cube_root (k : nat) (r n : Z) : Z :=
  let r' := r + 2 ^ Z.of_nat k in
  let next := if r' ^ 3 <=? n then r' else r in
  match k with
  | O => next
  | S k' => cube_root k' next n
  end.

Definition round_constants : list Z := Eval vm_compute in
  map (fun p => w32 (cube_root 40 0 (p * 2 ^ 96))) first_primes.

Record digest := {
  d_a : Z; d_b : Z; d_c : Z; d_d : Z; d_e : Z; d_f : Z; d_g : Z; d_h : Z }.

Definition initial_digest : digest := Eval vm_compute in
  let h (i : nat) := w32 (Z.sqrt (nth i first_primes 0 * 2 ^ 64)) in
  {| d_a := h 0%nat; d_b := h 1%nat; d_c := h 2%nat; d_d := h 3%nat;
     d_e := h 4%nat; d_f := h 5%nat; d_g := h 6%nat; d_h := h 7%nat |}.

Definition words_of (d : digest) : list Z :=
  [d_a d; d_b d; d_c d; d_d d; d_e d; d_f d; d_g d; d_h d].

(** The big-endian words of a run of bytes. *)
Fixpoint words_be (l : list Z) : list Z :=
  match l with
  | a :: b :: c :: d :: r => a * 2 ^ 24 + b * 2 ^ 16 + c * 2 ^ 8 + d :: words_be r
  | _ => []
  end.

Definition bytes_be (w : Z) : list Z :=
  [Z.shiftr w 24; Z.land (Z.shiftr w 16) 255; Z.land (Z.shiftr w 8) 255; Z.land w 255].

(** The message schedule, most recent word first. *)
Fixpoint extend_schedule (n : nat) (ws : list Z) : list Z :=
  match n with
  | O => ws
  | S n' =>
      let w i := nth i ws 0 in
      extend_schedule n'
        (w32 (sigma1 (w 1%nat) + w 6%nat + sigma0 (w 14%nat) + w 15%nat) :: ws)
  end.

Definition schedule (block : list Z) : list Z :=
  rev (extend_schedule 48 (rev (words_be block))).

Definition round (d : digest) (kw : Z * Z) : digest :=
  let t1 := d_h d + Sigma1 (d_e d) + Ch (d_e d) (d_f d) (d_g d) + kw.1 + kw.2 in
  let t2 := Sigma0 (d_a d) + Maj (d_a d) (d_b d) (d_c d) in
  {| d_a := w32 (t1 + t2); d_b := d_a d; d_c := d_b d; d_d := d_c d;
     d_e := w32 (d_d d + t1); d_f := d_e d; d_g := d_f d; d_h := d_g d |}.

Definition compress (d : digest) (block : list Z) : digest :=
  let r := fold_left round (combine round_constants (schedule block)) d in
  {| d_a := add32 (d_a d) (d_a r); d_b := add32 (d_b d) (d_b r);
     d_c := add32 (d_c d) (d_c r); d_d := add32 (d_d d) (d_d r);
     d_e := add32 (d_e d) (d_e r); d_f := add32 (d_f d) (d_f r);
     d_g := add32 (d_g d) (d_g r); d_h := add32 (d_h d) (d_h r) |}.

(** The message, a one bit, zeros, and the length in bits as eight bytes. *)
Definition pad (msg : list Z) : list Z :=
  let len := Z.of_nat (length msg) in
  let zeros := Z.to_nat ((55 - len) mod 64) in
  msg ++ [128] ++ replicate zeros 0 ++
  concat (map bytes_be [Z.shiftr (8 * len) 32; w32 (8 * len)]).

Fixpoint absorb (fuel : nat) (d : digest) (msg : list Z) : digest :=
  match fuel, msg with
  | S f, _ :: _ => absorb f (compress d (take 64 msg)) (drop 64 msg)
  | _, _ => d
  end.

Definition sha256 (s : string) : list Z :=
  let msg := pad (map byte_of (chars s)) in
  concat (map bytes_be (words_of (absorb (length msg) initial_digest msg))).

(** The published test vectors. *)
Example sha256_empty :
  hex (sha256 "") = "e3b0c44298fc1c149afbf4c8996fb92427ae41e4649b934ca495991b7852b855".
Proof. vm_compute. reflexivity. Qed.

Example sha256_abc :
  hex (sha256 "abc") = "ba7816bf8f01cfea414140de5dae2223b00361a396177a9cb410ff61f20015ad".
Proof. vm_compute. reflexivity. Qed.

Example sha256_two_blocks :
  hex (sha256 "abcdbcdecdefdefgefghfghighijhijkijkljklmklmnlmnomnopnopq")
    = "248d6a61d20638b8e5c026930c3e6039a33ce45964ff2167f6ecedd419db06c1".
Proof. vm_compute. reflexivity. Qed.

Lemma sha256_length s : length (sha256 s) = 32%nat.
Proof. reflexivity. Qed.
