(* ===== verification/GoJson.v ===== *)
(** * [json.Unmarshal] into a [[]string]

    [queryPluginServices] decodes the [tiers] column with
    [json.Unmarshal([]byte(tiersJSON), &tiers)] and ignores the error.  What it
    leaves in [tiers]: nothing when the text is not valid JSON or not an array;
    otherwise one string per element, the empty string for an element that is not
    a string.  Strings are unquoted as [encoding/json] does: escapes, surrogate
    pairs, and U+FFFD for bytes that are not UTF-8. *)

From S2P Require Import Prelude GoLang.
From stdpp Require Import options.
Local Open Scope Z_scope.

(** Values, as far as the decoding of a string slice tells them apart. *)
Inductive jval :=
| JString (s : list Z)
| JArray (l : list jval)
| JOther.

Definition between (lo hi b : Z) : bool := (lo <=? b) && (b <=? hi).
Definition is_digit (b : Z) : bool := between 48 57 b.
Definition is_space (b : Z) : bool := (b =? 32) || (b =? 9) || (b =? 10) || (b =? 13).

Fixpoint skip_space (s : list Z) : list Z :=
  match s with b :: r => if is_space b then skip_space r else s | [] => [] end.

Fixpoint skip_digits (s : list Z) : list Z :=
  match s with b :: r => if is_digit b then skip_digits r else s | [] => [] end.

Definition hex_val (b : Z) : option Z :=
  if is_digit b then Some (b - 48)
  else if between 97 102 b then Some (b - 87)
  else if between 65 70 b then Some (b - 55) else None.

(** Four hexadecimal digits, and what follows. *)
Definition hex4 (s : list Z) : option (Z * list Z) :=
  match s with
  | a :: b :: c :: d :: r =>
      a ← hex_val a; b ← hex_val b; c ← hex_val c; d ← hex_val d;
      Some (((a * 16 + b) * 16 + c) * 16 + d, r)
  | _ => None
  end.

(** The UTF-8 encoding of a rune. *)
Definition utf8_encode (r : Z) : list Z :=
  if r <? 128 then [r]
  else if r <? 2048 then [192 + r / 64; 128 + r mod 64]
  else if r <? 65536 then [224 + r / 4096; 128 + r / 64 mod 64; 128 + r mod 64]
  else [240 + r / 262144; 128 + r / 4096 mod 64; 128 + r / 64 mod 64; 128 + r mod 64].

Definition ReplacementChar : list Z := [239; 191; 189].

Definition is_surrogate (r : Z) : bool := between 55296 57343 r.

(** The rune a surrogate pair encodes. *)
Definition surrogate_pair (hi lo : Z) : option Z :=
  if between 55296 56319 hi && between 56320 57343 lo
  then Some ((hi - 55296) * 1024 + (lo - 56320) + 65536) else None.

(** The length of the well-formed multi-byte rune at the front, if there is one. *)
Definition utf8_rune (s : list Z) : option nat :=
  let cont b := between 128 191 b in
  match s with
  | a :: b :: r =>
      if between 194 223 a then (if cont b then Some 2%nat else None)
      else
        let ok2 := if a =? 224 then between 160 191 b
                   else if a =? 237 then between 128 159 b
                   else if a =? 240 then between 144 191 b
                   else if a =? 244 then between 128 143 b
                   else cont b in
        if between 224 239 a then
          match r with c :: _ => if ok2 && cont c then Some 3%nat else None | [] => None end
        else if between 240 244 a then
          match r with
          | c :: d :: _ => if ok2 && cont c && cont d then Some 4%nat else None
          | _ => None
          end
        else None
  | _ => None
  end.

Definition simple_escape (b : Z) : option Z :=
  if b =? 34 then Some 34 else if b =? 92 then Some 92 else if b =? 47 then Some 47
  else if b =? 98 then Some 8 else if b =? 102 then Some 12 else if b =? 110 then Some 10
  else if b =? 114 then Some 13 else if b =? 116 then Some 9 else None.

(** The rest of a string literal after its opening quote: its value, and what
    follows the closing quote. *)
Fixpoint parse_string (fuel : nat) (s acc : list Z) : option (list Z * list Z) :=
  match fuel, s with
  | S f, b :: r =>
      if b =? 34 then Some (acc, r)
      else if b <? 32 then None
      else if b =? 92 then
        match r with
        | 117 :: r' =>
            '(u, r1) ← hex4 r';
            if is_surrogate u then
              let lone := parse_string f r1 (acc ++ ReplacementChar) in
              match r1 with
              | 92 :: 117 :: r2 =>
                  match hex4 r2 with
                  | Some (u2, r3) =>
                      match surrogate_pair u u2 with
                      | Some rune => parse_string f r3 (acc ++ utf8_encode rune)
                      | None => lone
                      end
                  | None => None
                  end
              | _ => lone
              end
            else parse_string f r1 (acc ++ utf8_encode u)
        | e :: r' => c ← simple_escape e; parse_string f r' (acc ++ [c])
        | [] => None
        end
      else if b <? 128 then parse_string f r (acc ++ [b])
      else match utf8_rune s with
           | Some n => parse_string f (drop n s) (acc ++ take n s)
           | None => parse_string f r (acc ++ ReplacementChar)
           end
  | _, _ => None
  end.

(** At least one digit. *)
Definition need_digits (s : list Z) : option (list Z) :=
  match s with b :: r => if is_digit b then Some (skip_digits r) else None | [] => None end.

(** The rest of a number literal after its optional sign. *)
Definition parse_number (s : list Z) : option (list Z) :=
  s1 ← match s with 48 :: r => Some r | _ => need_digits s end;
  s2 ← match s1 with 46 :: r => need_digits r | _ => Some s1 end;
  match s2 with
  | e :: r =>
      if (e =? 101) || (e =? 69) then
        match r with
        | sg :: r' => if (sg =? 43) || (sg =? 45) then need_digits r' else need_digits r
        | [] => None
        end
      else Some s2
  | [] => Some s2
  end.

Definition bytes (s : string) : list Z := map byte_of (chars s).
Definition unbytes (l : list Z) : string :=
  unchars (map (fun b => Ascii.ascii_of_nat (Z.to_nat b)) l).

(** [s] without the literal [lit] at its front. *)
Definition eat (lit : string) (s : list Z) : option (list Z) :=
  let l := bytes lit in
  if bool_decide (take (length l) s = l) then Some (drop (length l) s) else None.

(** A value, after white space; [depth] is how deep it may still nest. *)
Fixpoint parse_value (fuel depth : nat) (s : list Z) {struct fuel}
  : option (jval * list Z) :=
  match fuel with
  | O => None
  | S f =>
      match skip_space s with
      | 34 :: r => '(v, r') ← parse_string (length r) r []; Some (JString v, r')
      | 91 :: r =>
          match depth with
          | O => None
          | S d =>
              match skip_space r with
              | 93 :: r' => Some (JArray [], r')
              | r' => '(l, r2) ← parse_elements f d r'; Some (JArray l, r2)
              end
          end
      | 123 :: r =>
          match depth with
          | O => None
          | S d =>
              match skip_space r with
              | 125 :: r' => Some (JOther, r')
              | r' => r2 ← parse_members f d r'; Some (JOther, r2)
              end
          end
      | 45 :: r => r' ← parse_number r; Some (JOther, r')
      | b :: r =>
          if is_digit b then r' ← parse_number (b :: r); Some (JOther, r')
          else match eat "true" (b :: r), eat "false" (b :: r), eat "null" (b :: r) with
               | Some r', _, _ | _, Some r', _ | _, _, Some r' => Some (JOther, r')
               | _, _, _ => None
               end
      | [] => None
      end
  end
with parse_elements (fuel depth : nat) (s : list Z) {struct fuel}
  : option (list jval * list Z) :=
  match fuel with
  | O => None
  | S f =>
      '(v, r) ← parse_value f depth s;
      match skip_space r with
      | 93 :: r' => Some ([v], r')
      | 44 :: r' => '(l, r2) ← parse_elements f depth r'; Some (v :: l, r2)
      | _ => None
      end
  end
with parse_members (fuel depth : nat) (s : list Z) {struct fuel} : option (list Z) :=
  match fuel with
  | O => None
  | S f =>
      match skip_space s with
      | 34 :: r =>
          '(_, r1) ← parse_string (length r) r [];
          match skip_space r1 with
          | 58 :: r2 =>
              '(_, r3) ← parse_value f depth r2;
              match skip_space r3 with
              | 125 :: r4 => Some r4
              | 44 :: r4 => parse_members f depth r4
              | _ => None
              end
          | _ => None
          end
      | _ => None
      end
  end.

(** A whole document: one value and white space.  Every nested call consumes a
    byte or follows one that did, so twice the length is enough fuel; the decoder
    refuses to nest deeper than 10000. *)
Definition parse_json (s : list Z) : option jval :=
  '(v, r) ← parse_value (2 * length s + 2) (Z.to_nat 10000) s;
  match skip_space r with [] => Some v | _ => None end.

(** The element of the slice a value is decoded into. *)
Definition elem_string (v : jval) : string :=
  match v with JString b => unbytes b | _ => "" end.

(** [var tiers []string; _ = json.Unmarshal([]byte(s), &tiers)] *)
Definition unmarshal_strings (s : string) : list string :=
  match parse_json (bytes s) with
  | Some (JArray l) => map elem_string l
  | _ => []
  end.
