(* ===== verification/K8s.v ===== *)
(** * The Kubernetes objects the operator builds and reads

    The structs of [k8s.io/api] and [metav1] that the operator constructs or
    inspects, with the fields it touches under their Go names (prefixed, since Go
    field names repeat).  Go pointers to immutable data are [option]s; a nil map
    or slice is the empty one, as their JSON encodings agree.  Data the operator
    only passes through is kept as [RawJSON].

    The two pointers through which the operator mutates shared data,
    [Affinity.PodAntiAffinity] and [PodSpec.SecurityContext], have the type the
    representation [R : PtrRep] gives them: [Mem] is an address in the heap of the
    process, [Wire] the pointed-to value itself, as the API server sees it. *)

From S2P Require Import Prelude.
From stdpp Require Import options.

(** Serialized data passed through unread. *)
Record RawJSON := { raw : string }.
Definition no_json : RawJSON := {| raw := "" |}.

(** [resource.Quantity], by its text; what the operator asks of it is in
    class [K8sLib]. *)
Record Quantity := { quantity_text : string }.

Class K8sLib := {
  (** [q.IsZero()] and [resource.MustParse(s)]. *)
  IsZero : Quantity -> bool;
  MustParse : string -> Quantity
}.

Inductive IntOrString := FromInt32 (v : Z) | FromString (s : string).

(** ** Metadata *)

Record OwnerReference := { or_Kind : string; or_Name : string; or_Controller : bool }.

Record ObjectMeta := {
  om_Name : string;
  om_Namespace : string;
  om_Labels : gmap string string;
  om_Annotations : gmap string string;
  om_OwnerReferences : list OwnerReference;
  (** UID, resourceVersion and the other fields only the server writes. *)
  om_rest : RawJSON
}.

(** [metav1.ObjectMeta{Name: n, Namespace: ns, Labels: l, Annotations: a}]. *)
Definition mk_meta (n ns : string) (l a : gmap string string) : ObjectMeta :=
  {| om_Name := n; om_Namespace := ns; om_Labels := l; om_Annotations := a;
     om_OwnerReferences := []; om_rest := no_json |}.

Definition set_labels (l : gmap string string) (m : ObjectMeta) : ObjectMeta :=
  {| om_Name := om_Name m; om_Namespace := om_Namespace m; om_Labels := l;
     om_Annotations := om_Annotations m; om_OwnerReferences := om_OwnerReferences m;
     om_rest := om_rest m |}.

Definition set_annotations (a : gmap string string) (m : ObjectMeta) : ObjectMeta :=
  {| om_Name := om_Name m; om_Namespace := om_Namespace m; om_Labels := om_Labels m;
     om_Annotations := a; om_OwnerReferences := om_OwnerReferences m;
     om_rest := om_rest m |}.

Record NamespacedName := { nn_Name : string; nn_Namespace : string }.

#[export] Instance NamespacedName_eq_dec : EqDecision NamespacedName.
Proof. solve_decision. Defined.

#[export] Instance NamespacedName_countable : Countable NamespacedName.
Proof.
  refine (inj_countable' (fun n => (nn_Name n, nn_Namespace n))
    (fun p => {| nn_Name := p.1; nn_Namespace := p.2 |}) _). by intros [].
Defined.

Definition key_of (m : ObjectMeta) : NamespacedName :=
  {| nn_Name := om_Name m; nn_Namespace := om_Namespace m |}.

(** ** ConfigMap, Secret, Service, Ingress *)

Record ConfigMap := { cm_Meta : ObjectMeta; cm_Data : gmap string string }.

Record Secret := { sec_Meta : ObjectMeta; sec_Data : gmap string string }.

Record ServicePort := {
  sp_Name : string; sp_Protocol : string; sp_Port : Z; sp_TargetPort : IntOrString }.

Record CoreServiceSpec := {
  css_ClusterIP : string;
  css_Type : string;
  css_PublishNotReadyAddresses : bool;
  css_Selector : gmap string string;
  css_Ports : list ServicePort
}.

Record Service := { svc_Meta : ObjectMeta; svc_Spec : CoreServiceSpec }.

Record IngressTLS := { itls_Hosts : list string; itls_SecretName : string }.

Record IngressPath := {
  ip_Path : string; ip_PathType : string; ip_ServiceName : string; ip_ServicePort : Z }.

Record IngressRule := { ir_Host : string; ir_Paths : list IngressPath }.

Record CoreIngressSpec := {
  cis_IngressClassName : option string;
  cis_Rules : list IngressRule;
  cis_TLS : list IngressTLS
}.

Record Ingress := { ing_Meta : ObjectMeta; ing_Spec : CoreIngressSpec }.

(** ** Pods *)

Inductive EnvVarSource :=
| FieldRef (FieldPath : string)
| SecretKeySelector (SecretName Key : string)
| OtherEnvSource (r : RawJSON).

Record EnvVar := { ev_Name : string; ev_Value : string; ev_ValueFrom : option EnvVarSource }.

Definition env_value (n v : string) : EnvVar :=
  {| ev_Name := n; ev_Value := v; ev_ValueFrom := None |}.
Definition env_from (n : string) (s : EnvVarSource) : EnvVar :=
  {| ev_Name := n; ev_Value := ""; ev_ValueFrom := Some s |}.

Record ContainerPort := { cp_Name : string; cp_ContainerPort : Z; cp_Protocol : string }.

Record VolumeMount := { vm_Name : string; vm_MountPath : string; vm_SubPath : string }.

Record HTTPGetAction := { hg_Path : string; hg_Port : IntOrString }.

Record Probe := {
  pr_HTTPGet : option HTTPGetAction;
  pr_PeriodSeconds : Z;
  pr_FailureThreshold : Z;
  pr_TimeoutSeconds : Z;
  pr_rest : RawJSON
}.

Record Container := {
  c_Name : string;
  c_Image : string;
  c_ImagePullPolicy : string;
  c_Command : list string;
  c_Args : list string;
  c_Ports : list ContainerPort;
  c_Env : list EnvVar;
  c_VolumeMounts : list VolumeMount;
  c_Resources : RawJSON;
  c_StartupProbe : option Probe;
  c_LivenessProbe : option Probe;
  c_ReadinessProbe : option Probe
}.

Record LabelSelector := {
  sel_MatchLabels : gmap string string; sel_MatchExpressions : list RawJSON }.

Record PodAffinityTerm := {
  pat_LabelSelector : option LabelSelector;
  pat_TopologyKey : string;
  pat_rest : RawJSON
}.

Record PodAntiAffinity := {
  paa_Required : list PodAffinityTerm;   (* RequiredDuringSchedulingIgnoredDuringExecution *)
  paa_Preferred : list RawJSON           (* PreferredDuringSchedulingIgnoredDuringExecution *)
}.

Record PodSecurityContext := { psc_FSGroup : option Z; psc_rest : RawJSON }.

(** ** Pointer representations *)

Record PtrRep := { AntiAffinityPtr : Type; SecurityContextPtr : Type }.

(** An address in the heap of the operator process. *)
Abbreviation loc := nat (only parsing).

Definition Wire : PtrRep :=
  {| AntiAffinityPtr := PodAntiAffinity; SecurityContextPtr := PodSecurityContext |}.
Definition Mem : PtrRep := {| AntiAffinityPtr := loc; SecurityContextPtr := loc |}.

Record Affinity (R : PtrRep) := {
  aff_NodeAffinity : option RawJSON;
  aff_PodAffinity : option RawJSON;
  aff_PodAntiAffinity : option (AntiAffinityPtr R)
}.
Arguments aff_NodeAffinity {R}. Arguments aff_PodAffinity {R}.
Arguments aff_PodAntiAffinity {R}.

Inductive VolumeSource :=
| ConfigMapVolume (Name : string) (Items : list (string * string))
| EmptyDir.

Record Volume := { v_Name : string; v_VolumeSource : VolumeSource }.

Record PodSpec (R : PtrRep) := {
  ps_SecurityContext : option (SecurityContextPtr R);
  ps_InitContainers : list Container;
  ps_Containers : list Container;
  ps_ImagePullSecrets : list string;
  ps_Affinity : option (Affinity R);
  ps_Tolerations : list RawJSON;
  ps_NodeSelector : gmap string string;
  ps_TopologySpreadConstraints : list RawJSON;
  ps_TerminationGracePeriodSeconds : option Z;
  ps_Volumes : list Volume
}.
Arguments ps_SecurityContext {R}. Arguments ps_InitContainers {R}.
Arguments ps_Containers {R}. Arguments ps_ImagePullSecrets {R}.
Arguments ps_Affinity {R}. Arguments ps_Tolerations {R}.
Arguments ps_NodeSelector {R}. Arguments ps_TopologySpreadConstraints {R}.
Arguments ps_TerminationGracePeriodSeconds {R}. Arguments ps_Volumes {R}.

Record PodTemplateSpec (R : PtrRep) := {
  pt_Labels : gmap string string;
  pt_Annotations : gmap string string;
  pt_Spec : PodSpec R
}.
Arguments pt_Labels {R}. Arguments pt_Annotations {R}. Arguments pt_Spec {R}.

(** ** StatefulSet *)

Record PersistentVolumeClaim := {
  pvc_Name : string;
  pvc_Namespace : string;
  pvc_AccessModes : list string;
  pvc_Storage : Quantity;
  pvc_StorageClassName : option string
}.

Record StatefulSetSpec (R : PtrRep) := {
  sss_Replicas : option Z;
  sss_ServiceName : string;
  sss_Selector : LabelSelector;
  sss_Template : PodTemplateSpec R;
  sss_VolumeClaimTemplates : list PersistentVolumeClaim;
  sss_PodManagementPolicy : string;
  sss_UpdateStrategy : string
}.
Arguments sss_Replicas {R}. Arguments sss_ServiceName {R}. Arguments sss_Selector {R}.
Arguments sss_Template {R}. Arguments sss_VolumeClaimTemplates {R}.
Arguments sss_PodManagementPolicy {R}. Arguments sss_UpdateStrategy {R}.

Record StatefulSet (R : PtrRep) := {
  sts_Meta : ObjectMeta;
  sts_Spec : StatefulSetSpec R;
  sts_ReadyReplicas : Z                  (* Status.ReadyReplicas *)
}.
Arguments sts_Meta {R}. Arguments sts_Spec {R}. Arguments sts_ReadyReplicas {R}.

(** ** Conditions *)

Record Condition := {
  cond_Type : string;
  cond_Status : string;
  cond_Reason : string;
  cond_Message : string;
  cond_LastTransitionTime : Z
}.

#[export] Instance Condition_eq_dec : EqDecision Condition.
Proof. solve_decision. Defined.
