(* ===== verification/Types.v ===== *)
(** * The PicoclusterDB API types

    [api/v1/picoclusterdb_types.go]: the spec a user writes and the status the
    operator reports, field for field.  Integers are the [int32] values they
    hold, as [Z]. *)

From S2P Require Import Prelude K8s.
From stdpp Require Import options.

Record ImageSpec := {
  img_Repository : string; img_Tag : string; img_PullPolicy : string }.

Record SecretKeyRef := { skr_SecretName : string; skr_Key : string }.

Record ClusterSpec := {
  cl_DefaultReplicationFactor : Z;
  cl_DefaultBucketCount : Z;
  cl_Shredding : bool
}.

Record StorageSpec := { st_Size : Quantity; st_StorageClassName : option string }.

Record MemtxSpec := { mx_Memory : string }.

Record VinylSpec := { vy_Memory : string; vy_Cache : string }.

Record PgSpec := { pg_Enabled : bool; pg_SSL : bool }.

Record LogSpec := { lg_Level : string; lg_Format : string; lg_Destination : option string }.

(** Ports of the client-facing Service. *)
Record ServiceSpec := {
  sv_Type : string; sv_BinaryPort : Z; sv_HttpPort : Z; sv_PgPort : Z }.

Record PluginServiceSpec := { pls_Name : string; pls_ListenerPort : Z }.

Record PluginSpec := {
  pl_Name : string;
  pl_Version : string;
  pl_MigrationContext : gmap string string;
  pl_Services : list PluginServiceSpec
}.

Record IngressTLSSpec := { tls_Hosts : list string; tls_SecretName : string }.

Record IngressSpec := {
  is_Enabled : bool;
  is_Host : string;
  is_IngressClassName : option string;
  is_Annotations : gmap string string;
  is_TLS : list IngressTLSSpec
}.

Record TierSpec (R : PtrRep) := {
  t_Name : string;
  t_Replicas : Z;
  t_ReplicationFactor : Z;
  t_CanVote : bool;
  t_Storage : StorageSpec;
  t_Memtx : MemtxSpec;
  t_Vinyl : VinylSpec;
  t_Pg : PgSpec;
  t_Log : LogSpec;
  t_Resources : RawJSON;
  t_ShareDir : string;
  t_Plugins : list PluginSpec;
  t_Env : list EnvVar;
  t_Affinity : option (Affinity R);
  t_Tolerations : list RawJSON;
  t_NodeSelector : gmap string string;
  t_TopologySpreadConstraints : list RawJSON;
  t_SecurityContext : option (SecurityContextPtr R);
  t_Ingress : option IngressSpec;
  t_DisableAutoAntiAffinity : bool
}.
Arguments t_Name {R}. Arguments t_Replicas {R}. Arguments t_ReplicationFactor {R}.
Arguments t_CanVote {R}. Arguments t_Storage {R}. Arguments t_Memtx {R}.
Arguments t_Vinyl {R}. Arguments t_Pg {R}. Arguments t_Log {R}. Arguments t_Resources {R}.
Arguments t_ShareDir {R}. Arguments t_Plugins {R}. Arguments t_Env {R}.
Arguments t_Affinity {R}. Arguments t_Tolerations {R}. Arguments t_NodeSelector {R}.
Arguments t_TopologySpreadConstraints {R}. Arguments t_SecurityContext {R}.
Arguments t_Ingress {R}. Arguments t_DisableAutoAntiAffinity {R}.

Record PicoclusterDBSpec (R : PtrRep) := {
  s_Image : ImageSpec;
  s_ImagePullSecrets : list string;
  s_ClusterName : string;
  s_AdminPassword : SecretKeyRef;
  s_Cluster : ClusterSpec;
  s_Tiers : list (TierSpec R);
  s_Service : ServiceSpec;
  s_StartupProbe : option Probe;
  s_LivenessProbe : option Probe;
  s_ReadinessProbe : option Probe
}.
Arguments s_Image {R}. Arguments s_ImagePullSecrets {R}. Arguments s_ClusterName {R}.
Arguments s_AdminPassword {R}. Arguments s_Cluster {R}. Arguments s_Tiers {R}.
Arguments s_Service {R}. Arguments s_StartupProbe {R}. Arguments s_LivenessProbe {R}.
Arguments s_ReadinessProbe {R}.

(** ** Status *)

Inductive ClusterPhase :=
| ClusterPhasePending
| ClusterPhaseInitializing
| ClusterPhaseReady
| ClusterPhaseDegraded
| ClusterPhaseUnknown.

#[export] Instance ClusterPhase_eq_dec : EqDecision ClusterPhase.
Proof. solve_decision. Defined.

Record PluginStatus := { pst_Name : string; pst_Version : string; pst_Enabled : bool }.

Record TierStatus := {
  tst_Name : string;
  tst_ReadyReplicas : Z;
  tst_DesiredReplicas : Z;
  tst_Plugins : list PluginStatus
}.

#[export] Instance PluginStatus_eq_dec : EqDecision PluginStatus.
Proof. solve_decision. Defined.

#[export] Instance TierStatus_eq_dec : EqDecision TierStatus.
Proof. solve_decision. Defined.

(** [Phase] is [None] while it is the empty string. *)
Record PicoclusterDBStatus := {
  stat_Phase : option ClusterPhase;
  stat_Tiers : list TierStatus;
  stat_Conditions : list Condition
}.

Definition ConditionReady : string := "Ready".

Record PicoclusterDB (R : PtrRep) := {
  db_Meta : ObjectMeta;
  db_Spec : PicoclusterDBSpec R;
  db_Status : PicoclusterDBStatus
}.
Arguments db_Meta {R}. Arguments db_Spec {R}. Arguments db_Status {R}.

(** [cluster.Name] and [cluster.Namespace]. *)
Definition db_Name {R} (c : PicoclusterDB R) : string := om_Name (db_Meta c).
Definition db_Namespace {R} (c : PicoclusterDB R) : string := om_Namespace (db_Meta c).

(** ** What the CRD schema admits

    The numeric bounds and the [MinItems] the kubebuilder markers put on the
    fields the operator computes with. *)

Definition valid_service (s : PluginServiceSpec) : Prop :=
  (1 <= pls_ListenerPort s <= 65535)%Z.

Definition valid_tier {R} (t : TierSpec R) : Prop :=
  (1 <= t_Replicas t)%Z /\ (1 <= t_ReplicationFactor t)%Z /\
  Forall (fun p => Forall valid_service (pl_Services p)) (t_Plugins t).

Definition valid_cluster {R} (c : PicoclusterDB R) : Prop :=
  s_Tiers (db_Spec c) <> [] /\ Forall valid_tier (s_Tiers (db_Spec c)).

#[export] Instance valid_service_dec s : Decision (valid_service s).
Proof. unfold valid_service. apply _. Defined.

#[export] Instance valid_tier_dec {R} (t : TierSpec R) : Decision (valid_tier t).
Proof. unfold valid_tier. apply _. Defined.
