(* ===== verification/Heap.v ===== *)
(** * The heap of the operator process

    The operator mutates user data through two kinds of pointers:
    [Affinity.PodAntiAffinity] (in [mergeReplicasetAntiAffinity]) and
    [PodSpec.SecurityContext] (in [buildStatefulSet]).  Both are shared with the
    [TierSpec] they came from, so they live here, in a heap of cells that only
    grows.  [thaw] allocates the cells of an object that was decoded from the API
    server; [freeze] reads an object as it is serialized at this moment;
    [DeepCopy] is the generated deep copy of [zz_generated.deepcopy.go] as far as
    these cells go; [DeepCopyGen] has the generated code in full. *)

From S2P Require Import Prelude K8s Types.
From stdpp Require Import options.

Record heap := { h_paa : list PodAntiAffinity; h_psc : list PodSecurityContext }.

Definition empty_heap : heap := {| h_paa := []; h_psc := [] |}.

Definition no_paa : PodAntiAffinity := {| paa_Required := []; paa_Preferred := [] |}.
Definition no_psc : PodSecurityContext := {| psc_FSGroup := None; psc_rest := no_json |}.

(** Loads are total; [wf_tier] below says that no dangling address is loaded. *)
Definition load_paa (h : heap) (l : loc) : PodAntiAffinity := default no_paa (h_paa h !! l).
Definition load_psc (h : heap) (l : loc) : PodSecurityContext := default no_psc (h_psc h !! l).

Definition store_paa (l : loc) (v : PodAntiAffinity) (h : heap) : heap :=
  {| h_paa := <[l := v]> (h_paa h); h_psc := h_psc h |}.
Definition store_psc (l : loc) (v : PodSecurityContext) (h : heap) : heap :=
  {| h_paa := h_paa h; h_psc := <[l := v]> (h_psc h) |}.

Definition alloc_paa (v : PodAntiAffinity) (h : heap) : heap * loc :=
  ({| h_paa := h_paa h ++ [v]; h_psc := h_psc h |}, length (h_paa h)).
Definition alloc_psc (v : PodSecurityContext) (h : heap) : heap * loc :=
  ({| h_paa := h_paa h; h_psc := h_psc h ++ [v] |}, length (h_psc h)).

(** Allocation of an optional cell. *)
Definition alloc_opt {V} (alloc : V -> heap -> heap * loc) (v : option V) (h : heap)
  : heap * option loc :=
  match v with
  | None => (h, None)
  | Some x => let '(h', l) := alloc x h in (h', Some l)
  end.

(** ** Objects between the wire and the heap *)

Definition map_affinity {R R'} (f : AntiAffinityPtr R -> AntiAffinityPtr R')
  (a : Affinity R) : Affinity R' :=
  {| aff_NodeAffinity := aff_NodeAffinity a;
     aff_PodAffinity := aff_PodAffinity a;
     aff_PodAntiAffinity := f <$> aff_PodAntiAffinity a |}.

Definition set_tier_ptrs {R R'} (t : TierSpec R) (a : option (Affinity R'))
  (s : option (SecurityContextPtr R')) : TierSpec R' :=
  {| t_Name := t_Name t; t_Replicas := t_Replicas t;
     t_ReplicationFactor := t_ReplicationFactor t; t_CanVote := t_CanVote t;
     t_Storage := t_Storage t; t_Memtx := t_Memtx t; t_Vinyl := t_Vinyl t;
     t_Pg := t_Pg t; t_Log := t_Log t; t_Resources := t_Resources t;
     t_ShareDir := t_ShareDir t; t_Plugins := t_Plugins t; t_Env := t_Env t;
     t_Affinity := a; t_Tolerations := t_Tolerations t;
     t_NodeSelector := t_NodeSelector t;
     t_TopologySpreadConstraints := t_TopologySpreadConstraints t;
     t_SecurityContext := s; t_Ingress := t_Ingress t;
     t_DisableAutoAntiAffinity := t_DisableAutoAntiAffinity t |}.

Definition set_tiers {R R'} (c : PicoclusterDB R) (ts : list (TierSpec R'))
  : PicoclusterDB R' :=
  let s := db_Spec c in
  {| db_Meta := db_Meta c;
     db_Spec := {| s_Image := s_Image s; s_ImagePullSecrets := s_ImagePullSecrets s;
                   s_ClusterName := s_ClusterName s; s_AdminPassword := s_AdminPassword s;
                   s_Cluster := s_Cluster s; s_Tiers := ts; s_Service := s_Service s;
                   s_StartupProbe := s_StartupProbe s;
                   s_LivenessProbe := s_LivenessProbe s;
                   s_ReadinessProbe := s_ReadinessProbe s |};
     db_Status := db_Status c |}.

Section freeze.
Variable h : heap.

Definition freeze_affinity (a : Affinity Mem) : Affinity Wire :=
  map_affinity (R := Mem) (R' := Wire) (load_paa h) a.

Definition freeze_tier (t : TierSpec Mem) : TierSpec Wire :=
  set_tier_ptrs (R' := Wire) t (freeze_affinity <$> t_Affinity t)
    (load_psc h <$> t_SecurityContext t).

Definition freeze_cluster (c : PicoclusterDB Mem) : PicoclusterDB Wire :=
  set_tiers c (freeze_tier <$> s_Tiers (db_Spec c)).

Definition freeze_podspec (p : PodSpec Mem) : PodSpec Wire :=
  {| ps_SecurityContext := (load_psc h <$> ps_SecurityContext p : option (SecurityContextPtr Wire));
     ps_InitContainers := ps_InitContainers p; ps_Containers := ps_Containers p;
     ps_ImagePullSecrets := ps_ImagePullSecrets p;
     ps_Affinity := freeze_affinity <$> ps_Affinity p;
     ps_Tolerations := ps_Tolerations p; ps_NodeSelector := ps_NodeSelector p;
     ps_TopologySpreadConstraints := ps_TopologySpreadConstraints p;
     ps_TerminationGracePeriodSeconds := ps_TerminationGracePeriodSeconds p;
     ps_Volumes := ps_Volumes p |}.

Definition freeze_sts (s : StatefulSet Mem) : StatefulSet Wire :=
  let sp := sts_Spec s in
  {| sts_Meta := sts_Meta s;
     sts_Spec :=
       {| sss_Replicas := sss_Replicas sp; sss_ServiceName := sss_ServiceName sp;
          sss_Selector := sss_Selector sp;
          sss_Template := {| pt_Labels := pt_Labels (sss_Template sp);
                             pt_Annotations := pt_Annotations (sss_Template sp);
                             pt_Spec := freeze_podspec (pt_Spec (sss_Template sp)) |};
          sss_VolumeClaimTemplates := sss_VolumeClaimTemplates sp;
          sss_PodManagementPolicy := sss_PodManagementPolicy sp;
          sss_UpdateStrategy := sss_UpdateStrategy sp |};
     sts_ReadyReplicas := sts_ReadyReplicas s |}.
End freeze.

Definition thaw_affinity (a : Affinity Wire) (h : heap) : heap * Affinity Mem :=
  let '(h', p) := alloc_opt alloc_paa (aff_PodAntiAffinity a) h in
  (h', {| aff_NodeAffinity := aff_NodeAffinity a; aff_PodAffinity := aff_PodAffinity a;
          aff_PodAntiAffinity := (p : option (AntiAffinityPtr Mem)) |}).

Definition thaw_tier (t : TierSpec Wire) (h : heap) : heap * TierSpec Mem :=
  let '(h1, a) :=
    match t_Affinity t with
    | None => (h, None)
    | Some a => let '(h', a') := thaw_affinity a h in (h', Some a')
    end in
  let '(h2, s) := alloc_opt alloc_psc (t_SecurityContext t) h1 in
  (h2, set_tier_ptrs (R' := Mem) t a s).

Fixpoint thaw_tiers (ts : list (TierSpec Wire)) (h : heap) : heap * list (TierSpec Mem) :=
  match ts with
  | [] => (h, [])
  | t :: ts' =>
      let '(h1, t') := thaw_tier t h in
      let '(h2, r) := thaw_tiers ts' h1 in (h2, t' :: r)
  end.

Definition thaw_cluster (c : PicoclusterDB Wire) (h : heap) : heap * PicoclusterDB Mem :=
  let '(h', ts) := thaw_tiers (s_Tiers (db_Spec c)) h in (h', set_tiers c ts).

(** ** Deep copies

    [TierSpec.DeepCopyInto] and [PicoclusterDB.DeepCopyInto] on the two kinds of
    cells: [*out = *in], then every field with a pointer that is not nil gets a new
    cell with what the old one holds. *)

(** [if in.F != nil { out.F = new(T); *out.F = *in.F }]. *)
Definition copy_cell {V} (load : heap -> loc -> V) (alloc : V -> heap -> heap * loc)
  (p : option loc) (h : heap) : heap * option loc :=
  match p with
  | None => (h, None)
  | Some l => let '(h', l') := alloc (load h l) h in (h', Some l')
  end.

(** [Affinity.DeepCopyInto] of k8s.io/api, as it is documented: a copy that is deep. *)
Definition DeepCopy_affinity (a : Affinity Mem) (h : heap) : heap * Affinity Mem :=
  let '(h', p) := copy_cell load_paa alloc_paa (aff_PodAntiAffinity a) h in
  (h', {| aff_NodeAffinity := aff_NodeAffinity a; aff_PodAffinity := aff_PodAffinity a;
          aff_PodAntiAffinity := (p : option (AntiAffinityPtr Mem)) |}).

Definition DeepCopy_tier (t : TierSpec Mem) (h : heap) : heap * TierSpec Mem :=
  let '(h1, affinity) :=
    match t_Affinity t with
    | None => (h, None)
    | Some a => let '(h', a') := DeepCopy_affinity a h in (h', Some a')
    end in
  let '(h2, securityContext) := copy_cell load_psc alloc_psc (t_SecurityContext t) h1 in
  (h2, set_tier_ptrs (R' := Mem) t affinity securityContext).

Fixpoint DeepCopy_tiers (ts : list (TierSpec Mem)) (h : heap) : heap * list (TierSpec Mem) :=
  match ts with
  | [] => (h, [])
  | t :: ts' =>
      let '(h1, t') := DeepCopy_tier t h in
      let '(h2, r) := DeepCopy_tiers ts' h1 in (h2, t' :: r)
  end.

Definition DeepCopy (c : PicoclusterDB Mem) (h : heap) : heap * PicoclusterDB Mem :=
  let '(h', ts) := DeepCopy_tiers (s_Tiers (db_Spec c)) h in (h', set_tiers c ts).

(** ** Well-formed addresses *)

Definition wf_affinity (h : heap) (a : Affinity Mem) : Prop :=
  match aff_PodAntiAffinity a with None => True | Some l => l < length (h_paa h) end.

Definition wf_tier (h : heap) (t : TierSpec Mem) : Prop :=
  match t_Affinity t with None => True | Some a => wf_affinity h a end /\
  match t_SecurityContext t with None => True | Some l => l < length (h_psc h) end.

(** The heap only grows: old cells keep their contents. *)
Definition heap_le (h h' : heap) : Prop :=
  h_paa h `prefix_of` h_paa h' /\ h_psc h `prefix_of` h_psc h'.

#[export] Instance heap_le_preorder : PreOrder heap_le.
Proof.
  split.
  - intros h. by split.
  - intros h1 h2 h3 [? ?] [? ?]. split; by etrans.
Qed.

Lemma load_paa_le h h' l :
  heap_le h h' -> l < length (h_paa h) -> load_paa h' l = load_paa h l.
Proof.
  intros [H _] Hl. unfold load_paa. apply lookup_lt_is_Some_2 in Hl as [v Hv].
  by rewrite (prefix_lookup_Some _ _ _ _ Hv H), Hv.
Qed.

Lemma load_psc_le h h' l :
  heap_le h h' -> l < length (h_psc h) -> load_psc h' l = load_psc h l.
Proof.
  intros [_ H] Hl. unfold load_psc. apply lookup_lt_is_Some_2 in Hl as [v Hv].
  by rewrite (prefix_lookup_Some _ _ _ _ Hv H), Hv.
Qed.

Lemma heap_le_lengths h h' :
  heap_le h h' -> length (h_paa h) <= length (h_paa h') /\ length (h_psc h) <= length (h_psc h').
Proof. intros [?%prefix_length ?%prefix_length]. done. Qed.

Lemma wf_tier_le h h' t : heap_le h h' -> wf_tier h t -> wf_tier h' t.
Proof.
  intros [Ha Hs]%heap_le_lengths [H1 H2]. unfold wf_tier, wf_affinity in *. split.
  - destruct (t_Affinity t) as [[? ? [l|]]|]; simpl in *; [lia|done..].
  - destruct (t_SecurityContext t); simpl in *; [lia|done].
Qed.

Lemma freeze_tier_le h h' t :
  heap_le h h' -> wf_tier h t -> freeze_tier h' t = freeze_tier h t.
Proof.
  intros Hle [H1 H2]. unfold freeze_tier. f_equal.
  - destruct (t_Affinity t) as [[? ? [l|]]|]; simpl in *; [|done..].
    unfold freeze_affinity, map_affinity. simpl. by rewrite (load_paa_le h h').
  - destruct (t_SecurityContext t) as [l|]; simpl in *; [|done].
    by rewrite (load_psc_le h h').
Qed.

Lemma freeze_tiers_le h h' ts :
  heap_le h h' -> Forall (wf_tier h) ts -> freeze_tier h' <$> ts = freeze_tier h <$> ts.
Proof.
  intros Hle. induction 1 as [|t ts Ht _ IH]; [done|].
  rewrite !fmap_cons, IH. by rewrite (freeze_tier_le h h').
Qed.

(** ** Decoding and copying allocate fresh cells and keep the contents *)

(** The addresses of a tier are those allocated between [h] and [h']. *)
Definition fresh_between (h h' : heap) (t : TierSpec Mem) : Prop :=
  match t_Affinity t ≫= aff_PodAntiAffinity with
  | None => True
  | Some l => length (h_paa h) <= l < length (h_paa h')
  end /\
  match t_SecurityContext t with
  | None => True
  | Some l => length (h_psc h) <= l < length (h_psc h')
  end.

Lemma fresh_between_wf h h' t : fresh_between h h' t -> wf_tier h' t.
Proof.
  intros [H1 H2]. unfold wf_tier, wf_affinity. split.
  - destruct (t_Affinity t) as [[? ? [l|]]|]; simpl in *; lia || done.
  - destruct (t_SecurityContext t); simpl in *; lia || done.
Qed.

Lemma fresh_between_mono h0 h1 h2 h3 t :
  heap_le h0 h1 -> heap_le h2 h3 -> fresh_between h1 h2 t -> fresh_between h0 h3 t.
Proof.
  intros [? ?]%heap_le_lengths [? ?]%heap_le_lengths [A B]. split.
  - destruct (t_Affinity t ≫= _); [lia|done].
  - destruct (t_SecurityContext t); [lia|done].
Qed.

Lemma alloc_paa_le v h : heap_le h (alloc_paa v h).1.
Proof. split; simpl; [by apply prefix_app_r|done]. Qed.

Lemma alloc_psc_le v h : heap_le h (alloc_psc v h).1.
Proof. split; simpl; [done|by apply prefix_app_r]. Qed.

#[export] Hint Resolve alloc_paa_le alloc_psc_le : operator.

Lemma load_alloc_paa v h : load_paa (alloc_paa v h).1 (length (h_paa h)) = v.
Proof. unfold load_paa. simpl. by rewrite lookup_app_r, Nat.sub_diag by done. Qed.

Lemma load_alloc_psc v h : load_psc (alloc_psc v h).1 (length (h_psc h)) = v.
Proof. unfold load_psc. simpl. by rewrite lookup_app_r, Nat.sub_diag by done. Qed.

Lemma thaw_tier_spec t h h' t' :
  thaw_tier t h = (h', t') ->
  heap_le h h' /\ fresh_between h h' t' /\ freeze_tier h' t' = t.
Proof.
  intros E. unfold thaw_tier, thaw_affinity in E.
  destruct t as [n r rf cv st mx vy pg lg re sh pl en [[na pa [p|]]|] tol ns tsc [s|] ig d];
    simpl in E; injection E as <- <-; split_and!;
    unfold fresh_between, freeze_tier, freeze_affinity, map_affinity, set_tier_ptrs;
    simpl; rewrite ?length_app; simpl; try done; try lia; try (split; simpl;
      try done; by apply prefix_app_r); repeat f_equal;
    unfold load_paa, load_psc; simpl; by rewrite lookup_app_r, Nat.sub_diag by done.
Qed.

Lemma thaw_tiers_spec ts h h' ts' :
  thaw_tiers ts h = (h', ts') ->
  heap_le h h' /\ Forall (fresh_between h h') ts' /\ freeze_tier h' <$> ts' = ts.
Proof.
  revert h h' ts'. induction ts as [|t ts IH]; intros h h' ts' E; simpl in E.
  { by injection E as <- <-. }
  destruct (thaw_tier t h) as [h1 t1] eqn:E1.
  destruct (thaw_tiers ts h1) as [h2 r] eqn:E2. injection E as <- <-.
  destruct (thaw_tier_spec _ _ _ _ E1) as (L1 & F1 & Z1).
  destruct (IH _ _ _ E2) as (L2 & F2 & Z2).
  pose proof (heap_le_lengths _ _ L1). pose proof (heap_le_lengths _ _ L2).
  split_and!; [by etrans|constructor|].
  - by apply (fresh_between_mono h h h1 h2 t1).
  - revert F2. apply Forall_impl. intros x. by apply fresh_between_mono.
  - rewrite fmap_cons, Z2. f_equal. rewrite <-Z1.
    apply freeze_tier_le; [done|]. by eapply fresh_between_wf.
Qed.

Lemma set_tiers_same {R} (c : PicoclusterDB R) : set_tiers c (s_Tiers (db_Spec c)) = c.
Proof. by destruct c as [m [] st]. Qed.

(** Decoding a cluster allocates: what is read back is what was decoded. *)
Lemma freeze_thaw_cluster c h h' c' :
  thaw_cluster c h = (h', c') ->
  heap_le h h' /\ Forall (fresh_between h h') (s_Tiers (db_Spec c')) /\
  freeze_cluster h' c' = c.
Proof.
  unfold thaw_cluster. destruct (thaw_tiers _ h) as [h1 ts] eqn:E. intros [= <- <-].
  destruct (thaw_tiers_spec _ _ _ _ E) as (L & F & Z). split_and!; [done..|].
  unfold freeze_cluster. simpl. rewrite Z. unfold set_tiers. simpl.
  exact (set_tiers_same c).
Qed.

(** Copying is reading and decoding: the cells of the copy hold what the original's did
    before anything was allocated. *)
Lemma DeepCopy_tier_thaw t h : wf_tier h t -> DeepCopy_tier t h = thaw_tier (freeze_tier h t) h.
Proof.
  intros _. unfold DeepCopy_tier, thaw_tier, freeze_tier. simpl.
  destruct (t_Affinity t) as [[na pa [l|]]|]; simpl; destruct (t_SecurityContext t); done.
Qed.

Lemma DeepCopy_tiers_spec ts h h' ts' :
  Forall (wf_tier h) ts -> DeepCopy_tiers ts h = (h', ts') ->
  heap_le h h' /\ Forall (fresh_between h h') ts' /\
  freeze_tier h' <$> ts' = freeze_tier h <$> ts.
Proof.
  intros Hwf E. assert (DeepCopy_tiers ts h = thaw_tiers (freeze_tier h <$> ts) h) as Eq.
  { enough (forall k, heap_le h k ->
      DeepCopy_tiers ts k = thaw_tiers (freeze_tier h <$> ts) k) as H by by apply H.
    clear E. induction Hwf as [|t ts Ht Hts IH]; intros k Hk; [done|]. simpl.
    rewrite DeepCopy_tier_thaw by by apply (wf_tier_le h). rewrite (freeze_tier_le h k t) by done.
    destruct (thaw_tier _ k) as [k1 t1] eqn:E1.
    destruct (thaw_tier_spec _ _ _ _ E1) as (L1 & _ & _).
    rewrite IH; [done|by etrans]. }
  rewrite Eq in E. by apply thaw_tiers_spec.
Qed.

(** A deep copy shares no cell with its original, so it still reads as the
    original did after any later store through the original's pointers. *)
Lemma DeepCopy_spec c h h' c' :
  Forall (wf_tier h) (s_Tiers (db_Spec c)) -> DeepCopy c h = (h', c') ->
  heap_le h h' /\ Forall (fresh_between h h') (s_Tiers (db_Spec c')) /\
  freeze_cluster h' c' = freeze_cluster h c.
Proof.
  intros Hwf. unfold DeepCopy. destruct (DeepCopy_tiers _ h) as [h1 ts] eqn:E.
  intros [= <- <-]. destruct (DeepCopy_tiers_spec _ _ _ _ Hwf E) as (L & F & Z).
  split_and!; [done..|]. unfold freeze_cluster. simpl. by rewrite Z.
Qed.

Lemma load_store_paa h l v :
  l < length (h_paa h) -> load_paa (store_paa l v h) l = v.
Proof. intros. unfold load_paa. simpl. by rewrite list_lookup_insert_eq. Qed.

Lemma load_store_paa_ne h l l' v :
  l <> l' -> load_paa (store_paa l v h) l' = load_paa h l'.
Proof. intros. unfold load_paa. simpl. by rewrite list_lookup_insert_ne. Qed.

Lemma load_store_psc h l v :
  l < length (h_psc h) -> load_psc (store_psc l v h) l = v.
Proof. intros. unfold load_psc. simpl. by rewrite list_lookup_insert_eq. Qed.

Lemma load_store_psc_ne h l l' v :
  l <> l' -> load_psc (store_psc l v h) l' = load_psc h l'.
Proof. intros. unfold load_psc. simpl. by rewrite list_lookup_insert_ne. Qed.

(** Fresh tiers read the same in heaps that agree on the fresh cells. *)
Lemma freeze_fresh_tiers h0 h h' ts :
  Forall (fresh_between h0 h) ts ->
  (forall l, length (h_paa h0) <= l -> load_paa h' l = load_paa h l) ->
  (forall l, length (h_psc h0) <= l -> load_psc h' l = load_psc h l) ->
  freeze_tier h' <$> ts = freeze_tier h <$> ts.
Proof.
  intros Hf Ha Hs. induction Hf as [|t ts [H1 H2] _ IH]; [done|].
  rewrite !fmap_cons, IH. f_equal. unfold freeze_tier, freeze_affinity, map_affinity.
  f_equal.
  - destruct (t_Affinity t) as [[na pa [l|]]|]; simpl in *; [|done..].
    rewrite Ha by lia. done.
  - destruct (t_SecurityContext t) as [l|]; simpl in *; [|done]. by rewrite Hs by lia.
Qed.

Lemma load_store_paa_psc h l l' v : load_paa (store_psc l v h) l' = load_paa h l'.
Proof. done. Qed.

Lemma load_store_psc_paa h l l' v : load_psc (store_paa l v h) l' = load_psc h l'.
Proof. done. Qed.

#[export] Hint Rewrite load_store_paa_psc load_store_psc_paa : operator.
