(* ===== verification/Effects.v ===== *)
(** * Programs that call the outside world

    The operator's code is Go that calls an API server and a database.  [prog E A]
    is a program that makes calls from [E] and returns an [A]: a finite tree that
    branches on the answers, so a program terminates whatever it is answered.  Two
    ways to reason about one:

    - [obeys]: a monitor, a state machine that watches the calls and their
      answers, accepts every call the program can make, whatever the answers;
    - [run]: the result against a given world, a handler with a state, that may leave
      a call unanswered; [obeys_sound] relates the two. *)

From S2P Require Import Prelude.
From stdpp Require Import options.

Inductive prog (E : Type -> Type) (A : Type) : Type :=
| Ret (a : A)
| Vis {X : Type} (e : E X) (k : X -> prog E A).
Arguments Ret {E A} _.
Arguments Vis {E A X} _ _.

Section monad.
Context {E : Type -> Type}.

Fixpoint pbind {A B} (p : prog E A) (f : A -> prog E B) : prog E B :=
  match p with
  | Ret a => f a
  | Vis e k => Vis e (fun x => pbind (k x) f)
  end.

Definition call {X} (e : E X) : prog E X := Vis e Ret.
End monad.

(** ** Monitors *)

(** A monitor: the calls it allows in a state, the answers it expects to them, and
    the state after a call and its answer. *)
Record monitor (E : Type -> Type) (S : Type) := {
  allowed : S -> forall X, E X -> Prop;
  expected : S -> forall X, E X -> X -> Prop;
  advance : S -> forall X, E X -> X -> S
}.
Arguments allowed {E S}. Arguments expected {E S}. Arguments advance {E S}.

Section monitor.
Context {E : Type -> Type} {S : Type} (M : monitor E S).

(** From state [s], every call of [p] is allowed, and when [p] returns the final
    state and the result satisfy [Q]; whatever the expected answers. *)
Fixpoint obeys {A} (p : prog E A) (s : S) (Q : S -> A -> Prop) : Prop :=
  match p with
  | Ret a => Q s a
  | @Vis _ _ X e k =>
      allowed M s X e /\
      forall x, expected M s X e x -> obeys (k x) (advance M s X e x) Q
  end.

Lemma obeys_mono {A} (p : prog E A) s (Q Q' : S -> A -> Prop) :
  (forall s' a, Q s' a -> Q' s' a) -> obeys p s Q -> obeys p s Q'.
Proof.
  intros HQ. revert s. induction p as [a|X e k IH]; intros s; simpl; [by apply HQ|].
  intros [? H]. split; [done|]. intros x Hx. by apply IH, H.
Qed.

Lemma obeys_bind {A B} (p : prog E A) (f : A -> prog E B) s Q :
  obeys (pbind p f) s Q <-> obeys p s (fun s' a => obeys (f a) s' Q).
Proof.
  revert s. induction p as [a|X e k IH]; intros s; simpl; [done|].
  split; intros [? H]; (split; [done|]); intros x Hx; by apply IH, H.
Qed.

Lemma obeys_and {A} (p : prog E A) s (Q Q' : S -> A -> Prop) :
  obeys p s Q -> obeys p s Q' -> obeys p s (fun s' a => Q s' a /\ Q' s' a).
Proof.
  revert s. induction p as [a|X e k IH]; intros s; simpl; [done|].
  intros [? H] [_ H']. split; [done|]. intros x Hx. by apply IH; [apply H|apply H'].
Qed.
End monitor.

(** A monitor that accepts every step another one accepts accepts its programs. *)
Lemma obeys_sim {E S1 S2} (M1 : monitor E S1) (M2 : monitor E S2) (R : S1 -> S2 -> Prop)
  {A} (p : prog E A) s1 s2 (Q : S1 -> A -> Prop) :
  (forall s1 s2 X (e : E X), R s1 s2 -> allowed M1 s1 X e ->
     allowed M2 s2 X e /\
     forall x, expected M2 s2 X e x ->
       expected M1 s1 X e x /\ R (advance M1 s1 X e x) (advance M2 s2 X e x)) ->
  R s1 s2 -> obeys M1 p s1 Q ->
  obeys M2 p s2 (fun s2' a => exists s1', R s1' s2' /\ Q s1' a).
Proof.
  intros Hsim. revert s1 s2. induction p as [a|X e k IH]; intros s1 s2 HR; simpl.
  - intros HQ. by exists s1.
  - intros [Ha H]. destruct (Hsim s1 s2 X e HR Ha) as [Ha' Hx]. split; [done|].
    intros x Hx2. destruct (Hx x Hx2) as [Hx1 HR']. by eapply IH; [|apply H].
Qed.

(** ** Runs *)

Section runs.
Context {E : Type -> Type} {W : Type}.
(** A world answers a call and moves on, or never answers. *)
Context (handle : forall X, E X -> W -> option (X * W)).

Fixpoint run {A} (p : prog E A) (w : W) : option (A * W) :=
  match p with
  | Ret a => Some (a, w)
  | @Vis _ _ X e k =>
      match handle X e w with
      | Some (x, w') => run (k x) w'
      | None => None
      end
  end.

Lemma run_bind {A B} (p : prog E A) (f : A -> prog E B) w :
  run (pbind p f) w
    = match run p w with Some (a, w') => run (f a) w' | None => None end.
Proof.
  revert w. induction p as [a|X e k IH]; intros w; simpl; [done|].
  destruct (handle X e w) as [[x w']|]; [apply IH|done].
Qed.

(** A program that obeys a monitor returns in every world that answers the allowed
    calls as expected, and what the monitor promises holds of its result.  [R]
    relates the states of the monitor to those of the world. *)
Lemma obeys_sound {S A} (M : monitor E S) (R : S -> W -> Prop) (p : prog E A) s w Q :
  (forall s w X (e : E X), R s w -> allowed M s X e ->
     exists x w', handle X e w = Some (x, w') /\ expected M s X e x /\
                  R (advance M s X e x) w') ->
  R s w -> obeys M p s Q ->
  exists a w' s', run p w = Some (a, w') /\ R s' w' /\ Q s' a.
Proof.
  intros HR. revert s w. induction p as [a|X e k IH]; intros s w Hw; simpl.
  - intros HQ. by exists a, w, s.
  - intros [Ha H]. destruct (HR s w X e Hw Ha) as (x & w' & -> & Hx & Hw').
    by eapply IH; [|apply H].
Qed.
End runs.

#[export] Hint Rewrite @obeys_bind @run_bind : operator.
