(* ===== verification/Api.v ===== *)
(** * Calls of the operator and the monad its handlers run in

    The API server (through controller-runtime's [client.Client]), the database
    (through [pgx]) and the clock are not code of this repository: their calls are
    the constructors of [Op], answered by whoever runs the program.  A handler is
    a [GoM]: it reads and writes the heap, makes calls, and returns a value or an
    [error]; [x <- m; k] is Go's [x, err := m; if err != nil { return err }; k]. *)

From S2P Require Import Prelude GoLang K8s Types Heap Effects.
From stdpp Require Import options.

(** ** Kinds of API objects *)

Inductive Kind :=
| KPicoclusterDB | KSecret | KConfigMap | KService | KStatefulSet | KIngress.

#[export] Instance Kind_eq_dec : EqDecision Kind.
Proof. solve_decision. Defined.

(** The objects of a kind, as they travel to and from the server. *)
Definition obj (k : Kind) : Type :=
  match k with
  | KPicoclusterDB => PicoclusterDB Wire
  | KSecret => Secret
  | KConfigMap => ConfigMap
  | KService => Service
  | KStatefulSet => StatefulSet Wire
  | KIngress => Ingress
  end.

Definition obj_meta (k : Kind) : obj k -> ObjectMeta :=
  match k with
  | KPicoclusterDB => db_Meta
  | KSecret => sec_Meta
  | KConfigMap => cm_Meta
  | KService => svc_Meta
  | KStatefulSet => sts_Meta
  | KIngress => ing_Meta
  end.

Definition obj_key (k : Kind) (o : obj k) : NamespacedName := key_of (obj_meta k o).

(** ** Rows of a query

    What [rows.Next]/[rows.Scan] yield in order, each row scanned or failed, and
    what [rows.Err] says at the end. *)

Record rows (A : Type) := { rows_scans : list (result A); rows_err : option error }.
Arguments rows_scans {A}. Arguments rows_err {A}.

Record installed_plugin := { in_name : string; in_version : string; in_enabled : bool }.
Record service_row := { sr_name : string; sr_tiersJSON : string }.

(** The three queries by the columns they scan. *)
Inductive RowType := REnabled | RService | RInstalled.

Definition row (t : RowType) : Type :=
  match t with
  | REnabled => bool
  | RService => service_row
  | RInstalled => installed_plugin
  end.

(** ** The calls *)

Inductive Op : Type -> Type :=
| Get (k : Kind) (n : NamespacedName) : Op (result (obj k))
| Create (k : Kind) (o : obj k) : Op (result (obj k))
(** The object as the server stored it is the answer of a create or a patch. *)
| Patch (k : Kind) (base new : obj k) : Op (result (obj k))
| Delete (k : Kind) (o : obj k) : Op (result unit)
| ListObjs (k : Kind) (namespace : string) (labels : gmap string string)
    : Op (result (list (obj k)))
| StatusPatch (base new : PicoclusterDB Wire) : Op (result unit)
| Now : Op Z
| Connect (connStr : string) : Op (result unit)
| Exec (sql : string) : Op (result unit)
| Query (t : RowType) (sql : string) : Op (result (rows (row t)))
| Close : Op unit
(** The order in which [range] visits a map: some permutation of its entries. *)
| RangeMap (m : gmap string string) : Op { l : list (string * string) | l ≡ₚ map_to_list m }
(** A loop that never exits. *)
| Hang : Op Empty_set.

(** ** The monad of the handlers *)

Definition GoM (A : Type) : Type := heap -> prog Op (heap * result A).

Definition go_ret {A} (a : A) : GoM A := fun h => Ret (h, Ok a).

Definition go_bind {A B} (m : GoM A) (f : A -> GoM B) : GoM B := fun h =>
  pbind (m h) (fun '(h', r) =>
    match r with Ok a => f a h' | Err e => Ret (h', Err e) end).

Declare Scope go_scope.
Delimit Scope go_scope with go.
Notation "x <- m ; k" := (go_bind m (fun x => k))
  (at level 20, m at level 100, k at level 200, right associativity) : go_scope.
Notation "m ;; k" := (go_bind m (fun _ => k))
  (at level 100, k at level 200, right associativity) : go_scope.

Definition throw {A} (e : error) : GoM A := fun h => Ret (h, Err e).
Definition lift {A} (r : result A) : GoM A := fun h => Ret (h, r).

(** [err := m] with the error kept as a value. *)
Definition try {A} (m : GoM A) : GoM (result A) := fun h =>
  pbind (m h) (fun '(h', r) => Ret (h', Ok r)).

(** [fmt.Errorf("p: %w", err)] around the error of [m]. *)
Definition wrap_err {A} (p : string) (m : GoM A) : GoM A := fun h =>
  pbind (m h) (fun '(h', r) =>
    Ret (h', match r with Ok a => Ok a | Err e => Err (ErrWrap p e) end)).

(** A call whose answer is a value, and one whose answer may be an error. *)
Definition ask {X} (e : Op X) : GoM X := fun h => Vis e (fun x => Ret (h, Ok x)).
Definition request {X} (e : Op (result X)) : GoM X := fun h => Vis e (fun r => Ret (h, r)).

(** Code that only touches the heap. *)
Definition with_heap {A} (f : heap -> heap * A) : GoM A := fun h =>
  let '(h', a) := f h in Ret (h', Ok a).

Definition hang {A} : GoM A := fun h => Vis Hang (fun x : Empty_set => match x with end).

Fixpoint for_each {A} (l : list A) (f : A -> GoM unit) : GoM unit :=
  match l with
  | [] => go_ret tt
  | x :: l' => go_bind (f x) (fun _ => for_each l' f)
  end.

(** The statuses a loop appends to a slice. *)
Fixpoint collect {A B} (l : list A) (f : A -> GoM B) : GoM (list B) :=
  match l with
  | [] => go_ret []
  | x :: l' => go_bind (f x) (fun y => go_bind (collect l' f) (fun r => go_ret (y :: r)))
  end.

(** [for i := int32(i); i <= n; i++ { body(i) }], with the wrap-around of [i++];
    the loop is cut after [fuel] turns, where it never ends: [fuel] is enough when
    it is at least [n - i + 1] and [n] is not the greatest [int32]. *)
Fixpoint for_int32 (fuel : nat) (i n : Z) (body : Z -> GoM unit) : GoM unit :=
  if (i <=? n)%Z then
    match fuel with
    | O => hang
    | S f => go_bind (body i) (fun _ => for_int32 f (int32_add i 1) n body)
    end
  else go_ret tt.

(** The integers from [i] to [n]. *)
Definition z_range (i n : Z) : list Z := seqZ i (n - i + 1).

Lemma for_int32_range fuel i n body :
  (Z.of_nat fuel >= n - i + 1)%Z -> (int32_min <= i)%Z -> (n < int32_max)%Z ->
  for_int32 fuel i n body = for_each (z_range i n) body.
Proof.
  revert i. induction fuel as [|f IH]; intros i Hf Hi Hn; unfold z_range; simpl.
  - destruct (Z.leb_spec i n); [lia|]. by rewrite seqZ_nil by lia.
  - destruct (Z.leb_spec i n) as [H|H]; [|by rewrite seqZ_nil by lia].
    rewrite seqZ_cons by lia. simpl.
    replace (int32_add i 1) with (i + 1)%Z
      by (unfold int32_add; rewrite int32_id; unfold in_int32, int32_max in *; lia).
    rewrite IH by lia. unfold z_range.
    replace (n - (i + 1) + 1)%Z with (Z.pred (n - i + 1)) by lia. done.
Qed.

(** ** Library functions of controller-runtime

    [controllerutil.SetControllerReference(owner, o, scheme)], on metadata. *)
Class ControllerLib := {
  SetControllerReference : ObjectMeta -> ObjectMeta -> result ObjectMeta
}.

(** What its documentation promises: it only adds an owner reference. *)
Class ControllerLibLaws (C : ControllerLib) := {
  owned_key : forall o m m', SetControllerReference o m = Ok m' -> key_of m' = key_of m;
  owned_labels : forall o m m',
    SetControllerReference o m = Ok m' -> om_Labels m' = om_Labels m;
  owned_annotations : forall o m m',
    SetControllerReference o m = Ok m' -> om_Annotations m' = om_Annotations m
}.
