(* ===== verification/Logic.v ===== *)
(** * Reasoning about handlers against a monitor

    [go_ok M m s h Q]: started with heap [h] while the monitor is in state [s],
    the handler [m] makes only allowed calls, and [Q] holds of the monitor's
    state, the heap and the result when it returns.  One rule per construct of the
    monad; the loop rules take an invariant. *)

From S2P Require Import Prelude GoLang K8s Types Heap Effects Api.
From stdpp Require Import options.
Local Open Scope go_scope.

Section logic.
Context {S : Type} (M : monitor Op S).

Definition go_ok {A} (m : GoM A) (s : S) (h : heap)
  (Q : S -> heap -> result A -> Prop) : Prop :=
  obeys M (m h) s (fun s' '(h', r) => Q s' h' r).

Lemma go_ok_mono {A} (m : GoM A) s h (Q Q' : S -> heap -> result A -> Prop) :
  go_ok m s h Q -> (forall s' h' r, Q s' h' r -> Q' s' h' r) -> go_ok m s h Q'.
Proof.
  intros H HQ. revert H. apply obeys_mono. intros s' [h' r]. apply HQ.
Qed.

Lemma go_ok_ret {A} (a : A) s h Q : Q s h (Ok a) -> go_ok (go_ret a) s h Q.
Proof. done. Qed.

Lemma go_ok_throw {A} e s h (Q : S -> heap -> result A -> Prop) :
  Q s h (Err e) -> go_ok (throw e) s h Q.
Proof. done. Qed.

Lemma go_ok_lift {A} (r : result A) s h Q : Q s h r -> go_ok (lift r) s h Q.
Proof. done. Qed.

Lemma go_ok_bind {A B} (m : GoM A) (f : A -> GoM B) s h Q :
  go_ok m s h (fun s' h' r =>
    match r with Ok a => go_ok (f a) s' h' Q | Err e => Q s' h' (Err e) end) ->
  go_ok (go_bind m f) s h Q.
Proof.
  intros H. unfold go_ok, go_bind. apply obeys_bind. revert H.
  apply obeys_mono. by intros s' [h' [a|e]].
Qed.

Lemma go_ok_try {A} (m : GoM A) s h Q :
  go_ok m s h (fun s' h' r => Q s' h' (Ok r)) -> go_ok (try m) s h Q.
Proof.
  intros H. apply obeys_bind. revert H. apply obeys_mono. by intros s' [h' r].
Qed.

Lemma go_ok_wrap {A} p (m : GoM A) s h Q :
  go_ok m s h (fun s' h' r =>
    Q s' h' (match r with Ok a => Ok a | Err e => Err (ErrWrap p e) end)) ->
  go_ok (wrap_err p m) s h Q.
Proof.
  intros H. apply obeys_bind. revert H. apply obeys_mono. by intros s' [h' r].
Qed.

Lemma go_ok_ask {X} (e : Op X) s h Q :
  allowed M s X e ->
  (forall x, expected M s X e x -> Q (advance M s X e x) h (Ok x)) ->
  go_ok (ask e) s h Q.
Proof. done. Qed.

Lemma go_ok_request {X} (e : Op (result X)) s h Q :
  allowed M s _ e ->
  (forall r, expected M s _ e r -> Q (advance M s _ e r) h r) ->
  go_ok (request e) s h Q.
Proof. done. Qed.

Lemma go_ok_heap {A} (f : heap -> heap * A) s h Q :
  Q s (f h).1 (Ok (f h).2) -> go_ok (with_heap f) s h Q.
Proof. unfold go_ok, with_heap. by destruct (f h). Qed.

(** A loop: [I done s h] holds after the elements [done]; an error leaves the
    loop with [R]. *)
Lemma go_ok_for_each {A} (l : list A) (f : A -> GoM unit)
  (I : list A -> S -> heap -> Prop) (R : S -> heap -> error -> Prop) s h :
  I [] s h ->
  (forall pre x post s h, l = pre ++ x :: post -> I pre s h ->
    go_ok (f x) s h (fun s' h' r =>
      match r with Ok _ => I (pre ++ [x]) s' h' | Err e => R s' h' e end)) ->
  go_ok (for_each l f) s h (fun s' h' r =>
    match r with Ok _ => I l s' h' | Err e => R s' h' e end).
Proof.
  intros H0 Hstep.
  enough (forall post pre s h, l = pre ++ post -> I pre s h ->
    go_ok (for_each post f) s h (fun s' h' r =>
      match r with Ok _ => I l s' h' | Err e => R s' h' e end)) as H by by apply (H l []).
  clear H0 s h. induction post as [|x post IH]; intros pre s h Hl HI; simpl.
  - rewrite app_nil_r in Hl. subst. by apply go_ok_ret.
  - apply go_ok_bind. eapply go_ok_mono; [by apply (Hstep pre x post)|].
    intros s' h' [[]|e]; [|done]. simpl. intros HI'.
    apply (IH (pre ++ [x])); [by rewrite Hl, <-app_assoc|done].
Qed.

(** The same with an invariant that does not depend on the elements done. *)
Lemma go_ok_for_each_inv {A} (l : list A) (f : A -> GoM unit)
  (I : S -> heap -> Prop) s h :
  I s h ->
  (forall x s h, x ∈ l -> I s h -> go_ok (f x) s h (fun s' h' _ => I s' h')) ->
  go_ok (for_each l f) s h (fun s' h' _ => I s' h').
Proof.
  intros H0 Hstep. eapply go_ok_mono.
  - apply (go_ok_for_each l f (fun _ => I) (fun s' h' _ => I s' h')); [done|].
    intros pre x post s' h' -> HI. eapply go_ok_mono; [apply Hstep; [set_solver|done]|].
    by intros ? ? [].
  - by intros ? ? [].
Qed.

Lemma go_ok_collect_inv {A B} (l : list A) (f : A -> GoM B)
  (I : S -> heap -> Prop) (P : A -> B -> Prop) s h :
  I s h ->
  (forall x s h, x ∈ l -> I s h -> go_ok (f x) s h (fun s' h' r =>
    I s' h' /\ match r with Ok y => P x y | Err _ => True end)) ->
  go_ok (collect l f) s h (fun s' h' r =>
    I s' h' /\ match r with Ok ys => Forall2 P l ys | Err _ => True end).
Proof.
  revert s h. induction l as [|x l IH]; intros s h H0 Hstep; simpl.
  { apply go_ok_ret. by split; [|constructor]. }
  apply go_ok_bind. eapply go_ok_mono; [apply Hstep; [set_solver|done]|].
  intros s' h' [y|e] [HI Hy]; [|done]. apply go_ok_bind.
  eapply go_ok_mono; [apply IH; [done|]|].
  { intros x' s2 h2 Hx'. apply Hstep. set_solver. }
  intros s2 h2 [ys|e] [HI' Hys]; [|done]. apply go_ok_ret. by split; [|constructor].
Qed.
End logic.

(** Step through a handler: one rule per construct. *)
Ltac go_step :=
  lazymatch goal with
  | |- go_ok _ (go_bind _ _) _ _ _ => apply go_ok_bind
  | |- go_ok _ (go_ret _) _ _ _ => apply go_ok_ret
  | |- go_ok _ (throw _) _ _ _ => apply go_ok_throw
  | |- go_ok _ (lift _) _ _ _ => apply go_ok_lift
  | |- go_ok _ (try _) _ _ _ => apply go_ok_try
  | |- go_ok _ (wrap_err _ _) _ _ _ => apply go_ok_wrap
  | |- go_ok _ (request _) _ _ _ => apply go_ok_request
  | |- go_ok _ (ask _) _ _ _ => apply go_ok_ask
  | |- go_ok _ (with_heap _) _ _ _ => apply go_ok_heap
  | |- go_ok _ (if ?b then _ else _) _ _ _ => destruct b eqn:?
  end.

(** As many steps as there are, with the easy goals closed. *)
Ltac go_auto := try done; repeat (go_step; simpl; try done).
