(* ===== verification/Names.v ===== *)
(** * Names and labels

    [internal/controller/service.go] lines 29 to 57, [statefulSetName]
    ([statefulset.go]), [configMapName] ([configmap.go]) and [servicePort]: how the
    operator names and labels the objects of a tier.  The theorems say when two
    objects of a cluster can share a name, and that a replicaset's label reads back
    as its index. *)

From S2P Require Import Prelude GoLang K8s Types.
From stdpp Require Import options.

Section names.
Context {R : PtrRep}.
Implicit Types (cluster : PicoclusterDB R) (tier : TierSpec R).

Definition configMapName cluster tier : string :=
  t_Name tier +:+ "-" +:+ db_Name cluster.

Definition interconnectServiceName cluster tier : string :=
  t_Name tier +:+ "-" +:+ db_Name cluster +:+ "-interconnect".

Definition clientServiceName cluster tier : string :=
  t_Name tier +:+ "-" +:+ db_Name cluster.

Definition statefulSetName cluster tier (rsIndex : Z) : string :=
  t_Name tier +:+ "-" +:+ db_Name cluster +:+ "-" +:+ Itoa rsIndex.

Definition tierLabels cluster tier : gmap string string :=
  <["app.kubernetes.io/name" := t_Name tier +:+ "-" +:+ db_Name cluster]>
  (<["app.kubernetes.io/cluster" := s_ClusterName (db_Spec cluster)]>
  (<["app.kubernetes.io/instance" := db_Name cluster]> ∅)).

Definition replicasetLabels cluster tier (rsIndex : Z) : gmap string string :=
  <["picodata.io/replicaset" := Itoa rsIndex]> (tierLabels cluster tier).
End names.

(** [servicePort] of [configmap.go]. *)
Definition servicePort (v defaultV : Z) : Z := if (v =? 0)%Z then defaultV else v.

(** [client.MatchingLabels(want)] selects an object with labels [have]. *)
Definition labels_match (want have : gmap string string) : bool :=
  bool_decide (want ⊆ have).

(** ** The names of one cluster *)

Section injectivity.
Context {R : PtrRep} (cluster : PicoclusterDB R).
Implicit Types (tier : TierSpec R).

Lemma configMapName_inj t1 t2 :
  configMapName cluster t1 = configMapName cluster t2 -> t_Name t1 = t_Name t2.
Proof. unfold configMapName. apply append_inj_r. Qed.

Lemma clientServiceName_inj t1 t2 :
  clientServiceName cluster t1 = clientServiceName cluster t2 -> t_Name t1 = t_Name t2.
Proof. apply configMapName_inj. Qed.

Lemma interconnectServiceName_inj t1 t2 :
  interconnectServiceName cluster t1 = interconnectServiceName cluster t2 ->
  t_Name t1 = t_Name t2.
Proof. unfold interconnectServiceName. apply append_inj_r. Qed.

(** A StatefulSet's name determines its tier and its index. *)
Lemma statefulSetName_inj_aux t1 t2 i j :
  (0 <= i)%Z -> (0 <= j)%Z -> in_int32 i -> in_int32 j ->
  statefulSetName cluster t1 i = statefulSetName cluster t2 j ->
  t_Name t1 = t_Name t2 /\ i = j.
Proof.
  intros Hi Hj Hi' Hj'. unfold statefulSetName. rewrite <-!append_assoc.
  rewrite (append_assoc _ "-" (Itoa i)), (append_assoc _ "-" (Itoa j)).
  change ("-" +:+ Itoa i) with (String "-"%char (Itoa i)).
  change ("-" +:+ Itoa j) with (String "-"%char (Itoa j)).
  intros [E1 E2]%append_last_sep; [|by apply Itoa_no_dash..].
  split; [|by apply Itoa_inj]. rewrite !append_assoc in E1. by eapply append_inj_r.
Qed.

End injectivity.

(** ** Labels *)

Section labels.
Context {R : PtrRep} (cluster : PicoclusterDB R).
Implicit Types (tier : TierSpec R).

Lemma replicaset_label tier i :
  replicasetLabels cluster tier i !! "picodata.io/replicaset" = Some (Itoa i).
Proof. apply lookup_insert_eq. Qed.

Lemma tierLabels_sub_replicasetLabels tier i :
  tierLabels cluster tier ⊆ replicasetLabels cluster tier i.
Proof. apply insert_subseteq. unfold tierLabels. by simplify_map_eq. Qed.

Lemma tierLabels_name tier :
  tierLabels cluster tier !! "app.kubernetes.io/name"
    = Some (t_Name tier +:+ "-" +:+ db_Name cluster).
Proof. unfold tierLabels. by simplify_map_eq. Qed.

(** The selector of a tier matches a replicaset of tier [t2] only for [t2]
    itself (tiers are told apart by name). *)
Lemma labels_match_tier t1 t2 i :
  labels_match (tierLabels cluster t1) (replicasetLabels cluster t2 i) = true <->
  t_Name t1 = t_Name t2.
Proof.
  unfold labels_match. rewrite bool_decide_eq_true. split.
  - intros H. pose proof (lookup_weaken _ _ _ _ (tierLabels_name t1) H) as E.
    unfold replicasetLabels in E. rewrite lookup_insert_ne in E by done.
    rewrite tierLabels_name in E. injection E as E.
    by apply append_inj_r in E.
  - intros E. transitivity (tierLabels cluster t2).
    + unfold tierLabels. by rewrite E.
    + apply tierLabels_sub_replicasetLabels.
Qed.

(** The selectors of two replicasets of a tier exclude each other's pods. *)
Lemma replicasetLabels_select t i j :
  in_int32 i -> in_int32 j ->
  labels_match (replicasetLabels cluster t i) (replicasetLabels cluster t j) = true ->
  i = j.
Proof.
  intros Hi Hj. unfold labels_match. rewrite bool_decide_eq_true. intros H.
  pose proof (lookup_weaken _ _ _ _ (replicaset_label t i) H) as E.
  rewrite replicaset_label in E. injection E as E. symmetry. by apply Itoa_inj.
Qed.
End labels.

#[export] Hint Resolve tierLabels_sub_replicasetLabels : operator.
