(* ===== verification/ConfigMap.v ===== *)
(** * The generated Picodata configuration

    [internal/controller/configmap.go]: [buildConfigMap] renders the [config.yaml]
    of a tier, [buildPluginListenerConfig] its plugin section. *)

From S2P Require Import Prelude GoLang K8s Types Names.
From stdpp Require Import options.
Local Open Scope Z_scope.

Definition instanceDir : string := "/pico".

(** [if v == "" { v = d }] and [if n == 0 { n = d }]. *)
Definition or_default (v d : string) : string := if bool_decide (v = "") then d else v.
Definition or_default_int (n d : Z) : Z := if n =? 0 then d else n.

Section config.
Context {U : GoUnicode} {R : PtrRep}.

(** ** The plugin section *)

(** The services of the plugin with a listener port ([svcEntry]). *)
Definition listener_services (p : PluginSpec) : list PluginServiceSpec :=
  filter (fun s => 0 < pls_ListenerPort s) (pl_Services p).

(** The plugins with at least one such service ([pluginEntry]). *)
Definition listener_plugins (tier : TierSpec R) : list (string * list PluginServiceSpec) :=
  filter (fun e => e.2 <> [])
    (map (fun p => (pl_Name p, listener_services p)) (t_Plugins tier)).

(** ["__PLUGIN_ADVERTISE_%s_%s__"] *)
Definition advertise_placeholder (plugin svc : string) : string :=
  "__PLUGIN_ADVERTISE_" +:+ ToUpper plugin +:+ "_" +:+ ToUpper svc +:+ "__".

Definition listener_entry (plugin : string) (s : PluginServiceSpec) : string :=
  "        " +:+ pls_Name s +:+ ":" +:+ newline +:+
  "          listener:" +:+ newline +:+
  "            enabled: true" +:+ newline +:+
  "            listen: " +:+ dquote +:+ "0.0.0.0:" +:+ Itoa (pls_ListenerPort s)
    +:+ dquote +:+ newline +:+
  "            advertise: " +:+ dquote +:+ advertise_placeholder plugin (pls_Name s)
    +:+ dquote +:+ newline.

Definition plugin_entry (e : string * list PluginServiceSpec) : string :=
  "    " +:+ e.1 +:+ ":" +:+ newline +:+ "      service:" +:+ newline +:+
  Join (map (listener_entry e.1) e.2) "".

Definition buildPluginListenerConfig (tier : TierSpec R) : string :=
  match listener_plugins tier with
  | [] => ""
  | plugins => "  plugin:" +:+ newline +:+ Join (map plugin_entry plugins) ""
  end.

(** ** The cluster topology *)

Definition tier_entry (t : TierSpec R) : string :=
  "          " +:+ t_Name t +:+ ":" +:+ newline +:+
  "            replication_factor: " +:+ Itoa (or_default_int (t_ReplicationFactor t) 1)
    +:+ newline +:+
  "            can_vote: " +:+ show_bool (t_CanVote t) +:+ newline.

Definition tiersYAML (cluster : PicoclusterDB R) : string :=
  Join (map tier_entry (s_Tiers (db_Spec cluster))) "".

(** The address of instance 0 of replicaset 1 of the first tier. *)
Definition peerFQDN (cluster : PicoclusterDB R) (firstTier : TierSpec R) : string :=
  t_Name firstTier +:+ "-" +:+ db_Name cluster +:+ "-1-0." +:+
  t_Name firstTier +:+ "-" +:+ db_Name cluster +:+ "-interconnect." +:+
  db_Namespace cluster +:+ ".svc.cluster.local:" +:+
  Itoa (servicePort (sv_BinaryPort (s_Service (db_Spec cluster))) 3301).

(** The listen address of pgproto. *)
Definition pgListen (cluster : PicoclusterDB R) (tier : TierSpec R) : string :=
  let pgPort := servicePort (sv_PgPort (s_Service (db_Spec cluster))) 5432 in
  if pg_Enabled (t_Pg tier) then "0.0.0.0:" +:+ Itoa pgPort
  else "127.0.0.1:" +:+ Itoa pgPort.

(** ** [config.yaml] *)

Definition configYAML (cluster : PicoclusterDB R) (firstTier tier : TierSpec R) : string :=
  let svc := s_Service (db_Spec cluster) in
  let cl := s_Cluster (db_Spec cluster) in
  let line (s : string) := s +:+ newline in
  line "cluster:" +:+
  line ("  name: " +:+ s_ClusterName (db_Spec cluster)) +:+
  line ("  default_replication_factor: "
          +:+ Itoa (or_default_int (cl_DefaultReplicationFactor cl) 1)) +:+
  line ("  default_bucket_count: "
          +:+ Itoa (or_default_int (cl_DefaultBucketCount cl) 3000)) +:+
  line ("  shredding: " +:+ show_bool (cl_Shredding cl)) +:+
  line "  tier:" +:+
  tiersYAML cluster +:+
  line "instance:" +:+
  line ("  instance_dir: " +:+ instanceDir) +:+
  line ("  tier: " +:+ t_Name tier) +:+
  line ("  share_dir: " +:+ or_default (t_ShareDir tier) "/usr/share/picodata") +:+
  line "  peer:" +:+
  line ("  - " +:+ peerFQDN cluster firstTier) +:+
  line ("  admin_socket: " +:+ instanceDir +:+ "/admin.sock") +:+
  line "  log:" +:+
  line ("    level: " +:+ or_default (lg_Level (t_Log tier)) "info") +:+
  line ("    destination: " +:+ default "null" (lg_Destination (t_Log tier))) +:+
  line ("    format: " +:+ or_default (lg_Format (t_Log tier)) "plain") +:+
  line "  memtx:" +:+
  line ("    memory: " +:+ or_default (mx_Memory (t_Memtx tier)) "128M") +:+
  line "  vinyl:" +:+
  line ("    memory: " +:+ or_default (vy_Memory (t_Vinyl tier)) "64M") +:+
  line ("    cache: " +:+ or_default (vy_Cache (t_Vinyl tier)) "32M") +:+
  line "  http:" +:+
  line ("    listen: 0.0.0.0:" +:+ Itoa (servicePort (sv_HttpPort svc) 8081)) +:+
  line "  iproto:" +:+
  line ("    listen: 0.0.0.0:" +:+ Itoa (servicePort (sv_BinaryPort svc) 3301)) +:+
  line "  pgproto:" +:+
  line ("    enabled: " +:+ show_bool (pg_Enabled (t_Pg tier))) +:+
  line ("    listen: " +:+ pgListen cluster tier) +:+
  line "    tls:" +:+
  line ("      enabled: " +:+ show_bool (pg_SSL (t_Pg tier))) +:+
  buildPluginListenerConfig tier.

(** [None] is the panic of [cluster.Spec.Tiers[0]] on a cluster without tiers. *)
Definition buildConfigMap (cluster : PicoclusterDB R) (tier : TierSpec R)
  : option ConfigMap :=
  firstTier ← head (s_Tiers (db_Spec cluster));
  Some {| cm_Meta := mk_meta (configMapName cluster tier) (db_Namespace cluster) ∅ ∅;
          cm_Data := {["config.yaml" := configYAML cluster firstTier tier]} |}.
End config.
