(* ===== verification/Services.v ===== *)
(** * Services and Ingress

    [buildInterconnectService], [buildClientService] ([service.go]) and
    [buildIngress] ([ingress.go]). *)

From S2P Require Import Prelude GoLang K8s Types Names.
From stdpp Require Import options.
Local Open Scope Z_scope.

(** A TCP port that targets the same number. *)
Definition tcp_port (name : string) (port : Z) : ServicePort :=
  {| sp_Name := name; sp_Protocol := "TCP"; sp_Port := port;
     sp_TargetPort := FromInt32 port |}.

Section services.
Context {R : PtrRep}.
Implicit Types (cluster : PicoclusterDB R) (tier : TierSpec R).

Definition buildInterconnectService cluster tier : Service :=
  let svc := s_Service (db_Spec cluster) in
  let binaryPort := servicePort (sv_BinaryPort svc) 3301 in
  let pgPort := servicePort (sv_PgPort svc) 5432 in
  {| svc_Meta := mk_meta (interconnectServiceName cluster tier) (db_Namespace cluster)
                   (tierLabels cluster tier) ∅;
     svc_Spec :=
       {| css_ClusterIP := "None";
          css_Type := "";
          css_PublishNotReadyAddresses := true;
          css_Selector := tierLabels cluster tier;
          css_Ports := [tcp_port "binary" binaryPort; tcp_port "pg" pgPort] |} |}.

(** The ports that the loop over the plugins appends, one per service. *)
Definition service_plugin_ports tier : list ServicePort :=
  p ← t_Plugins tier; s ← pl_Services p;
  [{| sp_Name := pl_Name p +:+ "-" +:+ pls_Name s; sp_Protocol := "TCP";
      sp_Port := pls_ListenerPort s;
      sp_TargetPort := FromInt32 (pls_ListenerPort s) |}].

Definition buildClientService cluster tier : Service :=
  let svc := s_Service (db_Spec cluster) in
  let binaryPort := servicePort (sv_BinaryPort svc) 3301 in
  let httpPort := servicePort (sv_HttpPort svc) 8081 in
  let pgPort := servicePort (sv_PgPort svc) 5432 in
  let svcType := if bool_decide (sv_Type svc = "") then "ClusterIP" else sv_Type svc in
  {| svc_Meta := mk_meta (clientServiceName cluster tier) (db_Namespace cluster)
                   (tierLabels cluster tier) ∅;
     svc_Spec :=
       {| css_ClusterIP := "";
          css_Type := svcType;
          css_PublishNotReadyAddresses := false;
          css_Selector := tierLabels cluster tier;
          css_Ports := [tcp_port "binary" binaryPort; tcp_port "http" httpPort;
                        tcp_port "pg" pgPort] ++ service_plugin_ports tier |} |}.

(** [spec] is [tier.Ingress], which the caller has checked not to be nil. *)
Definition buildIngress cluster tier (spec : IngressSpec) : Ingress :=
  let svcName := clientServiceName cluster tier in
  let httpPort := servicePort (sv_HttpPort (s_Service (db_Spec cluster))) 8081 in
  {| ing_Meta := mk_meta svcName (db_Namespace cluster) (tierLabels cluster tier)
                   (is_Annotations spec);
     ing_Spec :=
       {| cis_IngressClassName := is_IngressClassName spec;
          cis_Rules := [{| ir_Host := is_Host spec;
                           ir_Paths := [{| ip_Path := "/"; ip_PathType := "Prefix";
                                           ip_ServiceName := svcName;
                                           ip_ServicePort := httpPort |}] |}];
          cis_TLS := map (fun t => {| itls_Hosts := tls_Hosts t;
                                      itls_SecretName := tls_SecretName t |})
                       (is_TLS spec) |} |}.
End services.
