(* ===== verification/StatefulSet.v ===== *)
(** * The StatefulSet of a replicaset

    [internal/controller/statefulset.go].  [buildStatefulSet] is cut into the
    pieces of its body (environment, ports, container, pod spec, claim), each over
    the arguments it reads.  It mutates the tier it is given through two shared
    pointers, so it maps a heap to a heap. *)

From S2P Require Import Prelude GoLang K8s Types Heap Sha256 Names ConfigMap Services.
From stdpp Require Import options.
Local Open Scope Z_scope.

Definition dataVolumeName : string := "picodata".
Definition configVolumeName : string := "pico-conf".
Definition configOutVolumeName : string := "pico-conf-out".
Definition configOutDir : string := "/pico-conf-out".
Definition configMountPath : string := instanceDir +:+ "/config.yaml".
Definition configTemplatePath : string := "/etc/picodata-tpl/config.yaml".

(** The first eight bytes of the SHA-256 of the configuration, in hex. *)
Definition configHash (configData : string) : string :=
  hex (take 8 (sha256 configData)).

(** ** Probes *)

Definition http_probe (path : string) (port period failure timeout : Z) : Probe :=
  {| pr_HTTPGet := Some {| hg_Path := path; hg_Port := FromInt32 port |};
     pr_PeriodSeconds := period; pr_FailureThreshold := failure;
     pr_TimeoutSeconds := timeout; pr_rest := no_json |}.

Definition defaultStartupProbe (httpPort : Z) : Probe :=
  http_probe "/api/v1/health/startup" httpPort 30 20 3.
Definition defaultLivenessProbe (httpPort : Z) : Probe :=
  http_probe "/api/v1/health/live" httpPort 20 3 3.
Definition defaultReadinessProbe (httpPort : Z) : Probe :=
  http_probe "/api/v1/health/ready" httpPort 20 3 3.

(** ** Anti-affinity *)

(** The term that keeps two pods with these labels on different nodes. *)
Definition replicaset_term (rsLabels : gmap string string) : PodAffinityTerm :=
  {| pat_LabelSelector := Some {| sel_MatchLabels := rsLabels; sel_MatchExpressions := [] |};
     pat_TopologyKey := "kubernetes.io/hostname";
     pat_rest := no_json |}.

Definition add_required (term : PodAffinityTerm) (p : PodAntiAffinity) : PodAntiAffinity :=
  {| paa_Required := paa_Required p ++ [term]; paa_Preferred := paa_Preferred p |}.

Definition set_paa (a : Affinity Mem) (l : loc) : Affinity Mem :=
  {| aff_NodeAffinity := aff_NodeAffinity a; aff_PodAffinity := aff_PodAffinity a;
     aff_PodAntiAffinity := (Some l : option (AntiAffinityPtr Mem)) |}.

(** [copy := *base] copies the struct and therefore the pointer to
    [PodAntiAffinity]: the append goes through the pointer of [base]. *)
Definition mergeReplicasetAntiAffinity (base : option (Affinity Mem))
  (rsLabels : gmap string string) (h : heap) : heap * Affinity Mem :=
  let term := replicaset_term rsLabels in
  let affinity :=
    match base with
    | Some b => b
    | None => {| aff_NodeAffinity := None; aff_PodAffinity := None;
                 aff_PodAntiAffinity := (None : option (AntiAffinityPtr Mem)) |}
    end in
  let '(h1, l) :=
    match aff_PodAntiAffinity affinity with
    | Some l => (h, l)
    | None => alloc_paa no_paa h
    end in
  (store_paa l (add_required term (load_paa h1 l)) h1, set_paa affinity l).

(** ** The init container *)

Section containers.
Context {U : GoUnicode} {R : PtrRep}.
Implicit Types (cluster : PicoclusterDB R) (tier : TierSpec R).

(** One substitution of the sed script: the placeholder of a listener becomes
    the pod's own FQDN and the port of the listener. *)
Definition sed_expr cluster tier (plugin : string) (s : PluginServiceSpec) : string :=
  "-e " +:+ dquote +:+ "s|" +:+ advertise_placeholder plugin (pls_Name s) +:+
  "|$INSTANCE_NAME." +:+ t_Name tier +:+ "-" +:+ db_Name cluster +:+
  "-interconnect.$INSTANCE_NAMESPACE.svc.cluster.local:" +:+
  Itoa (pls_ListenerPort s) +:+ "|g" +:+ dquote.

Definition sedExprs cluster tier : list string :=
  p ← t_Plugins tier; s ← pl_Services p;
  if pls_ListenerPort s <=? 0 then [] else [sed_expr cluster tier (pl_Name p) s].

Definition init_script cluster tier : string :=
  match sedExprs cluster tier with
  | [] => "cp " +:+ configTemplatePath +:+ " " +:+ configOutDir +:+ "/config.yaml"
  | exprs => "sed " +:+ Join exprs " " +:+ " " +:+ configTemplatePath +:+ " > "
               +:+ configOutDir +:+ "/config.yaml"
  end.

Definition buildConfigInitContainer cluster tier (image pullPolicy : string) : Container :=
  {| c_Name := "config-init"; c_Image := image; c_ImagePullPolicy := pullPolicy;
     c_Command := ["/bin/sh"; "-c"];
     c_Args := [init_script cluster tier];
     c_Ports := [];
     c_Env := [env_from "INSTANCE_NAME" (FieldRef "metadata.name");
               env_from "INSTANCE_NAMESPACE" (FieldRef "metadata.namespace")];
     c_VolumeMounts :=
       [{| vm_Name := configVolumeName; vm_MountPath := configTemplatePath;
           vm_SubPath := "config.yaml" |};
        {| vm_Name := configOutVolumeName; vm_MountPath := configOutDir;
           vm_SubPath := "" |}];
     c_Resources := no_json;
     c_StartupProbe := None; c_LivenessProbe := None; c_ReadinessProbe := None |}.

(** ** The pieces of [buildStatefulSet] *)

Definition sts_image cluster : string :=
  img_Repository (s_Image (db_Spec cluster)) +:+ "/" +:+ img_Tag (s_Image (db_Spec cluster)).

Definition sts_pullPolicy cluster : string :=
  or_default (img_PullPolicy (s_Image (db_Spec cluster))) "IfNotPresent".

(** The FQDN of the pod in the headless Service, and a port. *)
Definition advertise cluster tier (port : Z) : string :=
  "$(INSTANCE_NAME)." +:+ t_Name tier +:+ "-" +:+ db_Name cluster +:+
  "-interconnect.$(INSTANCE_NAMESPACE).svc.cluster.local:" +:+ Itoa port.

Definition sts_env cluster tier (rsIndex : Z) : list EnvVar :=
  let svc := s_Service (db_Spec cluster) in
  let binaryPort := servicePort (sv_BinaryPort svc) 3301 in
  let httpPort := servicePort (sv_HttpPort svc) 8081 in
  let pgPort := servicePort (sv_PgPort svc) 5432 in
  let pw := s_AdminPassword (db_Spec cluster) in
  [env_from "POD_IP" (FieldRef "status.podIP");
   env_from "INSTANCE_NAME" (FieldRef "metadata.name");
   env_from "INSTANCE_NAMESPACE" (FieldRef "metadata.namespace");
   env_value "PICODATA_IPROTO_LISTEN" ("$(INSTANCE_NAME):" +:+ Itoa binaryPort);
   env_value "PICODATA_IPROTO_ADVERTISE" (advertise cluster tier binaryPort);
   env_value "PICODATA_HTTP_LISTEN" ("0.0.0.0:" +:+ Itoa httpPort);
   env_value "PICODATA_HTTP_ADVERTISE" (advertise cluster tier httpPort);
   env_value "PICODATA_PG_LISTEN" ("0.0.0.0:" +:+ Itoa pgPort);
   env_value "PICODATA_PG_ADVERTISE" (advertise cluster tier pgPort);
   env_value "PICODATA_REPLICASET_NAME" (t_Name tier +:+ "_" +:+ Itoa rsIndex);
   env_value "PICODATA_FAILURE_DOMAIN" "HOST=$(INSTANCE_NAME)";
   env_value "PICODATA_CONFIG_FILE" configMountPath;
   env_value "PICODATA_ADMIN_SOCK" (instanceDir +:+ "/admin.sock");
   env_from "PICODATA_ADMIN_PASSWORD" (SecretKeySelector (skr_SecretName pw) (skr_Key pw))]
  ++ t_Env tier.

(** The container ports that the loop over the plugins appends, one per service. *)
Definition container_plugin_ports tier : list ContainerPort :=
  p ← t_Plugins tier; s ← pl_Services p;
  [{| cp_Name := pl_Name p +:+ "-" +:+ pls_Name s;
      cp_ContainerPort := pls_ListenerPort s; cp_Protocol := "TCP" |}].

Definition sts_container cluster tier (rsIndex : Z) : Container :=
  let spec := db_Spec cluster in
  let svc := s_Service spec in
  let binaryPort := servicePort (sv_BinaryPort svc) 3301 in
  let httpPort := servicePort (sv_HttpPort svc) 8081 in
  let pgPort := servicePort (sv_PgPort svc) 5432 in
  let port name p := {| cp_Name := name; cp_ContainerPort := p; cp_Protocol := "TCP" |} in
  {| c_Name := "picodata";
     c_Image := sts_image cluster;
     c_ImagePullPolicy := sts_pullPolicy cluster;
     c_Command := []; c_Args := [];
     c_Ports := [port "binary" binaryPort; port "http" httpPort; port "pg" pgPort]
                  ++ container_plugin_ports tier;
     c_Env := sts_env cluster tier rsIndex;
     c_VolumeMounts :=
       [{| vm_Name := configOutVolumeName; vm_MountPath := configMountPath;
           vm_SubPath := "config.yaml" |};
        {| vm_Name := dataVolumeName; vm_MountPath := instanceDir; vm_SubPath := "" |}];
     c_Resources := t_Resources tier;
     c_StartupProbe := Some (default (defaultStartupProbe httpPort) (s_StartupProbe spec));
     c_LivenessProbe := Some (default (defaultLivenessProbe httpPort) (s_LivenessProbe spec));
     c_ReadinessProbe := Some (default (defaultReadinessProbe httpPort) (s_ReadinessProbe spec)) |}.

Definition podAnnotations cluster (configData : string) : gmap string string :=
  <["prometheus.io/scrape" := "true"]>
  (<["prometheus.io/port" :=
      Itoa (servicePort (sv_HttpPort (s_Service (db_Spec cluster))) 8081)]>
  (<["checksum/config" := configHash configData]> ∅)).

Definition sts_claim `{K8sLib} cluster tier : PersistentVolumeClaim :=
  let size := st_Size (t_Storage tier) in
  {| pvc_Name := dataVolumeName;
     pvc_Namespace := db_Namespace cluster;
     pvc_AccessModes := ["ReadWriteOnce"];
     pvc_Storage := if IsZero size then MustParse "1Gi" else size;
     pvc_StorageClassName := st_StorageClassName (t_Storage tier) |}.
End containers.

(** ** [buildStatefulSet] *)

(** The pod security context: the tier's own, given a group if it has none. *)
Definition pod_security_context (tier : TierSpec Mem) (h : heap) : heap * loc :=
  let '(h1, l) :=
    match t_SecurityContext tier with
    | Some l => (h, l)
    | None => alloc_psc no_psc h
    end in
  let c := load_psc h1 l in
  match psc_FSGroup c with
  | Some _ => (h1, l)
  | None => (store_psc l {| psc_FSGroup := Some 1000; psc_rest := psc_rest c |} h1, l)
  end.

(** The affinity of the pods: merged unless the tier disables it. *)
Definition pod_affinity (cluster : PicoclusterDB Mem) (tier : TierSpec Mem) (rsIndex : Z)
  (h : heap) : heap * option (Affinity Mem) :=
  if t_DisableAutoAntiAffinity tier then (h, t_Affinity tier)
  else let '(h1, a) := mergeReplicasetAntiAffinity (t_Affinity tier)
                         (replicasetLabels cluster tier rsIndex) h in
       (h1, Some a).

Section build.
Context {U : GoUnicode} {K : K8sLib}.

Definition sts_volumes {R} (cluster : PicoclusterDB R) (tier : TierSpec R) : list Volume :=
  [{| v_Name := configVolumeName;
      v_VolumeSource := ConfigMapVolume (configMapName cluster tier)
                          [("config.yaml", "config.yaml")] |};
   {| v_Name := configOutVolumeName; v_VolumeSource := EmptyDir |}].

(** The pods of a replicaset, given their security context and affinity. *)
Definition sts_podSpec (cluster : PicoclusterDB Mem) (tier : TierSpec Mem) (rsIndex : Z)
  (podSecCtx : loc) (affinity : option (Affinity Mem)) : PodSpec Mem :=
  {| ps_SecurityContext := (Some podSecCtx : option (SecurityContextPtr Mem));
     ps_InitContainers :=
       [buildConfigInitContainer cluster tier (sts_image cluster) (sts_pullPolicy cluster)];
     ps_Containers := [sts_container cluster tier rsIndex];
     ps_ImagePullSecrets := s_ImagePullSecrets (db_Spec cluster);
     ps_Affinity := affinity;
     ps_Tolerations := t_Tolerations tier;
     ps_NodeSelector := t_NodeSelector tier;
     ps_TopologySpreadConstraints := t_TopologySpreadConstraints tier;
     ps_TerminationGracePeriodSeconds := Some 30;
     ps_Volumes := sts_volumes cluster tier |}.

(** The object that is returned. *)
Definition sts_object (cluster : PicoclusterDB Mem) (tier : TierSpec Mem) (rsIndex : Z)
  (configData : string) (podSpec : PodSpec Mem) : StatefulSet Mem :=
  let labels := replicasetLabels cluster tier rsIndex in
  {| sts_Meta := mk_meta (statefulSetName cluster tier rsIndex) (db_Namespace cluster)
                   labels ∅;
     sts_Spec :=
       {| sss_Replicas := Some (t_ReplicationFactor tier);
          sss_ServiceName := interconnectServiceName cluster tier;
          sss_Selector := {| sel_MatchLabels := labels; sel_MatchExpressions := [] |};
          sss_Template := {| pt_Labels := labels;
                             pt_Annotations := podAnnotations cluster configData;
                             pt_Spec := podSpec |};
          sss_VolumeClaimTemplates := [sts_claim cluster tier];
          sss_PodManagementPolicy := "Parallel";
          sss_UpdateStrategy := "RollingUpdate" |};
     sts_ReadyReplicas := 0 |}.

Definition buildStatefulSet (cluster : PicoclusterDB Mem) (tier : TierSpec Mem)
  (rsIndex : Z) (configData : string) (h : heap) : heap * StatefulSet Mem :=
  let '(h1, podSecCtx) := pod_security_context tier h in
  let '(h2, affinity) := pod_affinity cluster tier rsIndex h1 in
  (h2, sts_object cluster tier rsIndex configData
         (sts_podSpec cluster tier rsIndex podSecCtx affinity)).
End build.
