(* ===== verification/Resources.v ===== *)
(** * Bringing single resources in sync

    The individual resource reconcilers of [picoclusterdb_controller.go] and the
    two operations that list the StatefulSets of a tier. *)

From S2P Require Import Prelude GoLang K8s Types Heap Effects Api Names.
From stdpp Require Import options.
Local Open Scope go_scope.

(** The shape the four reconcilers share: read the object; create it when there is
    none; otherwise patch the one that was read with the fields of the desired one
    ([merge existing desired]).  The result is the desired object as the call left
    it: [Create] stores the server's answer into its argument. *)
Definition get_create_or_patch (k : Kind) (merge : obj k -> obj k -> obj k)
  (desired : obj k) : GoM (obj k) :=
  r <- try (request (Get k (obj_key k desired)));
  match r with
  | Err e => if IsNotFound e then request (Create k desired) else throw e
  | Ok existing =>
      request (Patch k existing (merge existing desired));; go_ret desired
  end.

Definition merge_ConfigMap (existing desired : ConfigMap) : ConfigMap :=
  {| cm_Meta := set_labels (om_Labels (cm_Meta desired)) (cm_Meta existing);
     cm_Data := cm_Data desired |}.

Definition reconcileConfigMap (desired : ConfigMap) : GoM ConfigMap :=
  get_create_or_patch KConfigMap merge_ConfigMap desired.

(** Only ports, selector and labels: the ClusterIP is immutable. *)
Definition merge_Service (existing desired : Service) : Service :=
  {| svc_Meta := set_labels (om_Labels (svc_Meta desired)) (svc_Meta existing);
     svc_Spec :=
       {| css_ClusterIP := css_ClusterIP (svc_Spec existing);
          css_Type := css_Type (svc_Spec existing);
          css_PublishNotReadyAddresses := css_PublishNotReadyAddresses (svc_Spec existing);
          css_Selector := css_Selector (svc_Spec desired);
          css_Ports := css_Ports (svc_Spec desired) |} |}.

Definition reconcileService (desired : Service) : GoM Service :=
  get_create_or_patch KService merge_Service desired.

Definition merge_Ingress (existing desired : Ingress) : Ingress :=
  {| ing_Meta := set_labels (om_Labels (ing_Meta desired))
                   (set_annotations (om_Annotations (ing_Meta desired)) (ing_Meta existing));
     ing_Spec := ing_Spec desired |}.

Definition reconcileIngress (desired : Ingress) : GoM Ingress :=
  get_create_or_patch KIngress merge_Ingress desired.

Definition merge_StatefulSet (existing desired : StatefulSet Wire) : StatefulSet Wire :=
  let es := sts_Spec existing in
  {| sts_Meta := set_labels (om_Labels (sts_Meta desired)) (sts_Meta existing);
     sts_Spec :=
       {| sss_Replicas := sss_Replicas (sts_Spec desired);
          sss_ServiceName := sss_ServiceName es;
          sss_Selector := sss_Selector es;
          sss_Template := sss_Template (sts_Spec desired);
          sss_VolumeClaimTemplates := sss_VolumeClaimTemplates es;
          sss_PodManagementPolicy := sss_PodManagementPolicy es;
          sss_UpdateStrategy := sss_UpdateStrategy es |};
     sts_ReadyReplicas := sts_ReadyReplicas existing |}.

(** The desired StatefulSet is in memory; what is sent is read off the heap. *)
Definition reconcileStatefulSet (desired : StatefulSet Mem) : GoM unit :=
  frozen <- with_heap (fun h => (h, freeze_sts h desired));
  get_create_or_patch KStatefulSet merge_StatefulSet frozen;; go_ret tt.

(** ** The StatefulSets of a tier *)

(** The listed StatefulSet carries a replicaset index above the tier's count. *)
Definition is_extra {R} (tier : TierSpec R) (sts : StatefulSet Wire) : bool :=
  match om_Labels (sts_Meta sts) !! "picodata.io/replicaset" with
  | None => false
  | Some rsStr =>
      match ParseInt rsStr with
      | None => false
      | Some rsIndex => (t_Replicas tier <? int32 rsIndex)%Z
      end
  end.

Definition deleteExtraStatefulSets {R} (cluster : PicoclusterDB R) (tier : TierSpec R)
  : GoM unit :=
  items <- request (ListObjs KStatefulSet (db_Namespace cluster) (tierLabels cluster tier));
  for_each items (fun sts =>
    if is_extra tier sts then
      r <- try (request (Delete KStatefulSet sts));
      lift (IgnoreNotFound r)
    else go_ret tt).

(** The sum of ready pods, in [int32]. *)
Definition sum_ready (items : list (StatefulSet Wire)) : Z :=
  fold_left (fun acc sts => int32_add acc (sts_ReadyReplicas sts)) items 0%Z.

Definition tierStatus {R} (cluster : PicoclusterDB R) (tier : TierSpec R)
  : GoM (TierStatus * bool) :=
  items <- request (ListObjs KStatefulSet (db_Namespace cluster) (tierLabels cluster tier));
  let desiredPods := int32_mul (t_Replicas tier) (t_ReplicationFactor tier) in
  let readyPods := sum_ready items in
  go_ret ({| tst_Name := t_Name tier; tst_ReadyReplicas := readyPods;
             tst_DesiredReplicas := desiredPods; tst_Plugins := [] |},
          (desiredPods <=? readyPods)%Z).
