(* ===== verification/Plugins.v ===== *)
(** * Plugins: installation and removal through SQL

    [internal/controller/plugin.go]. *)

From S2P Require Import Prelude GoLang GoJson K8s Types Heap Effects Api Names.
From stdpp Require Import options.
Local Open Scope go_scope.

(** ** The statements *)

Definition sql_create (name version : string) : string :=
  "CREATE PLUGIN " +:+ name +:+ " " +:+ version.

Definition sql_add_service (name version svc tier : string) : string :=
  "ALTER PLUGIN " +:+ name +:+ " " +:+ version +:+ " ADD SERVICE " +:+ svc
    +:+ " TO TIER " +:+ tier.

Definition sql_set_context (name version key value : string) : string :=
  "ALTER PLUGIN " +:+ name +:+ " " +:+ version +:+ " SET migration_context." +:+ key
    +:+ "='" +:+ value +:+ "' OPTION(TIMEOUT=1200)".

Definition sql_migrate (name version : string) : string :=
  "ALTER PLUGIN " +:+ name +:+ " MIGRATE TO " +:+ version.

Definition sql_enable (name version : string) : string :=
  "ALTER PLUGIN " +:+ name +:+ " " +:+ version +:+ " ENABLE".

Definition sql_disable (name version : string) : string :=
  "ALTER PLUGIN " +:+ name +:+ " " +:+ version +:+ " DISABLE".

Definition sql_drop (name version : string) : string :=
  "DROP PLUGIN " +:+ name +:+ " " +:+ version.

Definition sql_state (name version : string) : string :=
  "SELECT enabled FROM _pico_plugin WHERE name = '" +:+ name
    +:+ "' AND version = '" +:+ version +:+ "'".

Definition sql_services (name version : string) : string :=
  "SELECT name, tiers FROM _pico_service WHERE plugin_name = '" +:+ name
    +:+ "' AND version = '" +:+ version +:+ "'".

Definition sql_installed : string := "SELECT name, version, enabled FROM _pico_plugin".

(** ** Queries *)

Record pluginService := { ps_name : string; ps_tiers : list string }.

(** [rows.Err()], as the last return of a query function. *)
Definition rows_result {A B} (rs : rows A) (v : B) : result B :=
  match rows_err rs with None => Ok v | Some e => Err e end.

(** Only the first row is scanned; its error is returned. *)
Definition queryPluginState (name version : string) : GoM (bool * bool) :=
  rs <- request (Query REnabled (sql_state name version));
  match rows_scans rs with
  | Ok enabled :: _ => lift (rows_result rs (true, enabled))
  | Err e :: _ => throw e
  | [] => lift (rows_result rs (false, false))
  end.

(** The rows that scan; a row that does not is skipped. *)
Definition scanned {A} (rs : rows A) : list A :=
  omap (fun r => match r with Ok a => Some a | Err _ => None end) (rows_scans rs).

Definition queryPluginServices `{GoUnicode} (name version : string) : GoM (list pluginService) :=
  rs <- request (Query RService (sql_services name version));
  lift (rows_result rs
    (map (fun r => {| ps_name := sr_name r; ps_tiers := unmarshal_strings (sr_tiersJSON r) |})
      (scanned rs))).

Definition containsString `{GoUnicode} (slice : list string) (s : string) : bool :=
  existsb (fun v => EqualFold v s) slice.

(** ** One plugin *)

Definition exec_wrapped (what sql : string) : GoM unit := wrap_err what (request (Exec sql)).

Section plugin.
Context {U : GoUnicode}.

Definition add_service (plugin : PluginSpec) (svc tierName : string) : GoM unit :=
  exec_wrapped ("ADD SERVICE " +:+ svc +:+ " TO TIER")
    (sql_add_service (pl_Name plugin) (pl_Version plugin) svc tierName).

(** What an installation does before the services are read back: bind the
    services of the spec, set the migration context, migrate. *)
Definition migrate_plugin (plugin : PluginSpec) (tierName : string) : GoM unit :=
  for_each (pl_Services plugin) (fun svc => add_service plugin (pls_Name svc) tierName);;
  order <- ask (RangeMap (pl_MigrationContext plugin));
  for_each (proj1_sig order) (fun kv =>
    exec_wrapped ("SET migration_context." +:+ kv.1)
      (sql_set_context (pl_Name plugin) (pl_Version plugin) kv.1 kv.2));;
  exec_wrapped "MIGRATE PLUGIN" (sql_migrate (pl_Name plugin) (pl_Version plugin)).

(** Bind the services found in [_pico_service] that miss the tier. *)
Definition bind_services (plugin : PluginSpec) (tierName : string) : GoM unit :=
  services <- queryPluginServices (pl_Name plugin) (pl_Version plugin);
  for_each services (fun svc =>
    if containsString (ps_tiers svc) tierName then go_ret tt
    else add_service plugin (ps_name svc) tierName).

Definition reconcilePlugin (plugin : PluginSpec) (tierName : string) : GoM PluginStatus :=
  st <- queryPluginState (pl_Name plugin) (pl_Version plugin);
  let '(exists_, enabled) := st in
  (if exists_ then go_ret tt
   else exec_wrapped "CREATE PLUGIN" (sql_create (pl_Name plugin) (pl_Version plugin)));;
  (if enabled then go_ret tt else migrate_plugin plugin tierName);;
  bind_services plugin tierName;;
  enabled' <-
    (if enabled then go_ret enabled
     else exec_wrapped "ENABLE PLUGIN" (sql_enable (pl_Name plugin) (pl_Version plugin));;
          go_ret true);
  go_ret {| pst_Name := pl_Name plugin; pst_Version := pl_Version plugin;
            pst_Enabled := enabled' |}.

(** ** Versions that are not in the spec *)

(** [desired]: plugin name to version, a later plugin of a name winning. *)
Definition desired_versions {R} (tier : TierSpec R) : gmap string string :=
  fold_left (fun m p => <[pl_Name p := pl_Version p]> m) (t_Plugins tier) ∅.

Definition is_desired {R} (tier : TierSpec R) (inst : installed_plugin) : bool :=
  bool_decide (desired_versions tier !! in_name inst = Some (in_version inst)).

Definition drop_plugin (inst : installed_plugin) : GoM unit :=
  let id := in_name inst +:+ " " +:+ in_version inst in
  (if in_enabled inst
   then exec_wrapped ("DISABLE PLUGIN " +:+ id) (sql_disable (in_name inst) (in_version inst))
   else go_ret tt);;
  exec_wrapped ("DROP PLUGIN " +:+ id) (sql_drop (in_name inst) (in_version inst)).

Definition dropObsoletePlugins {R} (tier : TierSpec R) : GoM unit :=
  rs <- request (Query RInstalled sql_installed);
  match rows_err rs with
  | Some e => throw e
  | None =>
      for_each (scanned rs) (fun inst =>
        if is_desired tier inst then go_ret tt else drop_plugin inst)
  end.

(** ** All plugins of a tier *)

Definition getAdminPassword {R} (cluster : PicoclusterDB R) : GoM string :=
  let ref := s_AdminPassword (db_Spec cluster) in
  secret <- request (Get KSecret {| nn_Name := skr_SecretName ref;
                                    nn_Namespace := db_Namespace cluster |});
  match sec_Data (secret : Secret) !! skr_Key ref with
  | None => throw (ErrOther ("key " +:+ Quote (skr_Key ref) +:+ " not found in secret "
              +:+ Quote (skr_SecretName ref)))
  | Some val => go_ret val
  end.

Definition svcHost {R} (cluster : PicoclusterDB R) (tier : TierSpec R) : string :=
  t_Name tier +:+ "-" +:+ db_Name cluster +:+ "." +:+ db_Namespace cluster
    +:+ ".svc.cluster.local".

Definition connStr {R} (cluster : PicoclusterDB R) (tier : TierSpec R)
  (password : string) : string :=
  "host=" +:+ svcHost cluster tier +:+ " port="
    +:+ Itoa (servicePort (sv_PgPort (s_Service (db_Spec cluster))) 5432)
    +:+ " user=admin password=" +:+ password +:+ " dbname=picodata sslmode=disable".

(** [defer conn.Close(ctx)] around the rest of the function. *)
Definition with_close {A} (m : GoM A) : GoM A :=
  r <- try m; ask Close;; lift r.

Definition reconcileTierPlugins {R} (cluster : PicoclusterDB R) (tier : TierSpec R)
  : GoM (list PluginStatus) :=
  match t_Plugins tier with
  | [] => go_ret []
  | plugins =>
      password <- wrap_err "get admin password" (getAdminPassword cluster);
      wrap_err ("connect to " +:+ svcHost cluster tier)
        (request (Connect (connStr cluster tier password)));;
      with_close (
        statuses <- collect plugins (fun plugin =>
          wrap_err ("plugin " +:+ pl_Name plugin) (reconcilePlugin plugin (t_Name tier)));
        (* a failure to drop is logged and otherwise ignored *)
        try (dropObsoletePlugins tier);;
        go_ret statuses)
  end.
End plugin.
