(* ===== verification/Reconciler.v ===== *)
(** * The reconcile loop

    [reconcileTier], [updateStatus] and [Reconcile] of
    [picoclusterdb_controller.go]. *)

From S2P Require Import Prelude GoLang K8s Types Heap Effects Api Names ConfigMap.
From S2P Require Import Services StatefulSet Resources Plugins.
From stdpp Require Import options.
Local Open Scope go_scope.

(** ** Setting the owner of an object *)

Section owner.
Context {C : ControllerLib}.

Definition own_ConfigMap (owner : ObjectMeta) (o : ConfigMap) : result ConfigMap :=
  match SetControllerReference owner (cm_Meta o) with
  | Ok m => Ok {| cm_Meta := m; cm_Data := cm_Data o |}
  | Err e => Err e
  end.

Definition own_Service (owner : ObjectMeta) (o : Service) : result Service :=
  match SetControllerReference owner (svc_Meta o) with
  | Ok m => Ok {| svc_Meta := m; svc_Spec := svc_Spec o |}
  | Err e => Err e
  end.

Definition own_Ingress (owner : ObjectMeta) (o : Ingress) : result Ingress :=
  match SetControllerReference owner (ing_Meta o) with
  | Ok m => Ok {| ing_Meta := m; ing_Spec := ing_Spec o |}
  | Err e => Err e
  end.

Definition own_StatefulSet {R} (owner : ObjectMeta) (o : StatefulSet R)
  : result (StatefulSet R) :=
  match SetControllerReference owner (sts_Meta o) with
  | Ok m => Ok {| sts_Meta := m; sts_Spec := sts_Spec o;
                  sts_ReadyReplicas := sts_ReadyReplicas o |}
  | Err e => Err e
  end.
End owner.

(** ** Status *)

Definition set_status (st : PicoclusterDBStatus) {R} (c : PicoclusterDB R) : PicoclusterDB R :=
  {| db_Meta := db_Meta c; db_Spec := db_Spec c; db_Status := st |}.

(** The time of the last transition: kept from the first [Ready] condition with
    the same status, [now] when there is none. *)
Definition transition_time (conds : list Condition) (condStatus : string) (now : Z) : Z :=
  match find (fun c => bool_decide (cond_Type c = ConditionReady)
                       && bool_decide (cond_Status c = condStatus)) conds with
  | Some c => cond_LastTransitionTime c
  | None => now
  end.

Definition ready_condition (conds : list Condition) (tiers : list TierStatus)
  (allReady : bool) (now : Z) : Condition :=
  let condStatus := if allReady then "True" else "False" in
  {| cond_Type := ConditionReady;
     cond_Status := condStatus;
     cond_Reason := if allReady then "AllTiersReady" else "TiersNotReady";
     cond_Message :=
       if allReady then "All " +:+ Itoa (Z.of_nat (length tiers)) +:+ " tier(s) are ready"
       else "One or more tiers are not yet ready";
     cond_LastTransitionTime := transition_time conds condStatus now |}.

Definition new_status (old : PicoclusterDBStatus) (tiers : list TierStatus)
  (allReady : bool) (now : Z) : PicoclusterDBStatus :=
  {| stat_Phase := Some (if allReady then ClusterPhaseReady else ClusterPhaseInitializing);
     stat_Tiers := tiers;
     stat_Conditions := [ready_condition (stat_Conditions old) tiers allReady now] |}.

(** The cluster object is mutated, and patched against a deep copy taken before. *)
Definition updateStatus (cluster : PicoclusterDB Mem) (tiers : list TierStatus)
  (allReady : bool) : GoM unit :=
  now <- ask Now;
  base <- with_heap (DeepCopy cluster);
  let cluster' := set_status (new_status (db_Status cluster) tiers allReady now) cluster in
  patch <- with_heap (fun h => (h, (freeze_cluster h base, freeze_cluster h cluster')));
  request (StatusPatch patch.1 patch.2).

(** ** Tiers *)

Section reconciler.
Context {U : GoUnicode} {K : K8sLib} {C : ControllerLib}.

(** The panic of [cluster.Spec.Tiers[0]], which no caller can reach. *)
Definition index_panic {A} : GoM A := hang.

Definition reconcile_replicaset (cluster : PicoclusterDB Mem) (tier : TierSpec Mem)
  (configData : string) (rsIndex : Z) : GoM unit :=
  built <- with_heap (buildStatefulSet cluster tier rsIndex configData);
  desiredSTS <- lift (own_StatefulSet (db_Meta cluster) built);
  wrap_err ("statefulset rs" +:+ Itoa rsIndex) (reconcileStatefulSet desiredSTS).

Definition reconcileTier (cluster : PicoclusterDB Mem) (tier : TierSpec Mem) : GoM unit :=
  builtCM <- match buildConfigMap cluster tier with
             | Some cm => go_ret cm
             | None => index_panic
             end;
  ownedCM <- lift (own_ConfigMap (db_Meta cluster) builtCM);
  desiredCM <- wrap_err "configmap" (reconcileConfigMap ownedCM);

  desiredHeadless <-
    lift (own_Service (db_Meta cluster) (buildInterconnectService cluster tier));
  wrap_err "headless service" (reconcileService desiredHeadless);;

  desiredClient <-
    lift (own_Service (db_Meta cluster) (buildClientService cluster tier));
  wrap_err "client service" (reconcileService desiredClient);;

  let configData := default "" (cm_Data desiredCM !! "config.yaml") in
  for_int32 (Z.to_nat (t_Replicas tier)) 1 (t_Replicas tier)
    (reconcile_replicaset cluster tier configData);;

  wrap_err "cleanup statefulsets" (deleteExtraStatefulSets cluster tier);;

  match t_Ingress tier with
  | Some spec =>
      if is_Enabled spec then
        desiredIngress <-
          lift (own_Ingress (db_Meta cluster) (buildIngress cluster tier spec));
        wrap_err "ingress" (reconcileIngress desiredIngress);; go_ret tt
      else go_ret tt
  | None => go_ret tt
  end.

(** ** [Reconcile] *)

(** [ctrl.Result]: when to be called again, in seconds. *)
Record Result := { RequeueAfter : option Z }.

Definition with_plugins (ps : list PluginStatus) (ts : TierStatus) : TierStatus :=
  {| tst_Name := tst_Name ts; tst_ReadyReplicas := tst_ReadyReplicas ts;
     tst_DesiredReplicas := tst_DesiredReplicas ts; tst_Plugins := ps |}.

(** The loop over the tiers, and the final update of the status. *)
Fixpoint reconcile_tiers (cluster : PicoclusterDB Mem) (tiers : list (TierSpec Mem))
  (tierStatuses : list TierStatus) (allReady : bool) : GoM Result :=
  match tiers with
  | [] => updateStatus cluster tierStatuses allReady;; go_ret {| RequeueAfter := None |}
  | tier :: rest =>
      wrap_err ("tier " +:+ t_Name tier) (reconcileTier cluster tier);;
      st <- tierStatus cluster tier;
      let '(ts, ready) := st in
      let continue ts' :=
        reconcile_tiers cluster rest (tierStatuses ++ [ts']) (if ready then allReady else false) in
      if ready && negb (bool_decide (length (t_Plugins tier) = 0)) then
        plugins <- try (reconcileTierPlugins cluster tier);
        match plugins with
        | Err _ =>
            (* logged; the status of the tiers before this one is written *)
            try (updateStatus cluster tierStatuses false);;
            go_ret {| RequeueAfter := Some 15%Z |}
        | Ok pluginStatuses => continue (with_plugins pluginStatuses ts)
        end
      else continue ts
  end.

Definition Reconcile (req : NamespacedName) : GoM Result :=
  r <- try (request (Get KPicoclusterDB req));
  match r with
  | Err e => if IsNotFound e then go_ret {| RequeueAfter := None |} else throw e
  | Ok wire =>
      cluster <- with_heap (thaw_cluster wire);
      reconcile_tiers cluster (s_Tiers (db_Spec cluster)) [] true
  end.
End reconciler.
