(* ===== verification/Samples.v ===== *)
(** * Concrete inputs

    Instances of the library classes and the sample resources of
    [config/samples/], for the closed witnesses of the properties. *)

From S2P Require Import Prelude GoLang K8s Types Heap Api Names.
From stdpp Require Import options.

(** Quantities by their text: zero is "" or "0". *)
Definition sample_k8s : K8sLib := {|
  IsZero := fun q => bool_decide (quantity_text q = "" \/ quantity_text q = "0");
  MustParse := fun s => {| quantity_text := s |}
|}.

(** An owner reference is put in front of the others. *)
Definition sample_controller_lib : ControllerLib := {|
  SetControllerReference := fun owner m =>
    Ok {| om_Name := om_Name m; om_Namespace := om_Namespace m; om_Labels := om_Labels m;
          om_Annotations := om_Annotations m;
          om_OwnerReferences :=
            {| or_Kind := "PicoclusterDB"; or_Name := om_Name owner; or_Controller := true |}
              :: om_OwnerReferences m;
          om_rest := om_rest m |}
|}.

Lemma sample_controller_laws : ControllerLibLaws sample_controller_lib.
Proof. by split; intros o m m' [= <-]. Qed.

(** ** [config/samples/picodata_v1_picoclusterdb_plugin.yaml] *)

Definition sample_radix : PluginSpec := {|
  pl_Name := "radix"; pl_Version := "1.0.0";
  pl_MigrationContext := {["tier_for_db_0" := "default"; "unlogged" := ""]};
  pl_Services := [{| pls_Name := "radix"; pls_ListenerPort := 8082 |}]
|}.

Definition sample_tier {R} (name : string) (replicas rf : Z) (vote : bool)
  (plugins : list PluginSpec) (aff : option (Affinity R)) (ing : option IngressSpec)
  : TierSpec R := {|
  t_Name := name; t_Replicas := replicas; t_ReplicationFactor := rf; t_CanVote := vote;
  t_Storage := {| st_Size := {| quantity_text := "1Gi" |}; st_StorageClassName := None |};
  t_Memtx := {| mx_Memory := "256M" |}; t_Vinyl := {| vy_Memory := ""; vy_Cache := "" |};
  t_Pg := {| pg_Enabled := true; pg_SSL := false |};
  t_Log := {| lg_Level := "info"; lg_Format := "plain"; lg_Destination := None |};
  t_Resources := no_json; t_ShareDir := ""; t_Plugins := plugins; t_Env := [];
  t_Affinity := aff; t_Tolerations := []; t_NodeSelector := ∅;
  t_TopologySpreadConstraints := []; t_SecurityContext := None; t_Ingress := ing;
  t_DisableAutoAntiAffinity := false
|}.

Definition sample_ingress : IngressSpec := {|
  is_Enabled := true; is_Host := "picodata.local"; is_IngressClassName := Some "nginx";
  is_Annotations := ∅; is_TLS := [] |}.

Definition sample_cluster {R} (tiers : list (TierSpec R)) : PicoclusterDB R := {|
  db_Meta := mk_meta "picodata-sample" "picodata" ∅ ∅;
  db_Spec := {|
    s_Image := {| img_Repository := "docker.binary.picodata.io"; img_Tag := "picodata:master";
                  img_PullPolicy := "" |};
    s_ImagePullSecrets := []; s_ClusterName := "picodata-sample";
    s_AdminPassword := {| skr_SecretName := "picodata-admin-secret"; skr_Key := "password" |};
    s_Cluster := {| cl_DefaultReplicationFactor := 1; cl_DefaultBucketCount := 16384;
                    cl_Shredding := false |};
    s_Tiers := tiers;
    s_Service := {| sv_Type := ""; sv_BinaryPort := 0; sv_HttpPort := 0; sv_PgPort := 0 |};
    s_StartupProbe := None; s_LivenessProbe := None; s_ReadinessProbe := None |};
  db_Status := {| stat_Phase := None; stat_Tiers := []; stat_Conditions := [] |}
|}.

(** The two tiers of the sample, as they arrive from the server. *)
Definition sample_arbiter : TierSpec Wire :=
  sample_tier "arbiter" 2 1 true [] None (Some sample_ingress).
Definition sample_default : TierSpec Wire :=
  sample_tier "default" 2 2 false [sample_radix] None None.
Definition sample_wire : PicoclusterDB Wire := sample_cluster [sample_arbiter; sample_default].

(** A tier whose user asks for anti-affinity between arbiters. *)
Definition sample_user_term : PodAffinityTerm := {|
  pat_LabelSelector := Some {| sel_MatchLabels := {["app" := "noisy"]};
                               sel_MatchExpressions := [] |};
  pat_TopologyKey := "kubernetes.io/hostname"; pat_rest := no_json |}.

Definition sample_heap : heap :=
  {| h_paa := [{| paa_Required := [sample_user_term]; paa_Preferred := [] |}]; h_psc := [] |}.

Definition sample_affinity : Affinity Mem := {|
  aff_NodeAffinity := None; aff_PodAffinity := None;
  aff_PodAntiAffinity := (Some 0 : option (AntiAffinityPtr Mem)) |}.

Definition sample_aff_tier : TierSpec Mem :=
  sample_tier "default" 2 2 true [] (Some sample_affinity) None.
Definition sample_plain_tier : TierSpec Mem :=
  sample_tier "arbiter" 2 1 true [] None (Some sample_ingress).
Definition sample_mem : PicoclusterDB Mem := sample_cluster [sample_plain_tier; sample_aff_tier].

(** A StatefulSet with the labels of replicaset [i], as the server would list it. *)
Definition labelled_sts {R} (cluster : PicoclusterDB R) (tier : TierSpec R) (i : Z)
  : StatefulSet Wire := {|
  sts_Meta := mk_meta (statefulSetName cluster tier i) (db_Namespace cluster)
                (replicasetLabels cluster tier i) ∅;
  sts_Spec := {|
    sss_Replicas := Some (t_ReplicationFactor tier); sss_ServiceName := "";
    sss_Selector := {| sel_MatchLabels := ∅; sel_MatchExpressions := [] |};
    sss_Template := {|
      pt_Labels := ∅; pt_Annotations := ∅;
      pt_Spec := {|
        ps_SecurityContext := (None : option (SecurityContextPtr Wire));
        ps_InitContainers := []; ps_Containers := []; ps_ImagePullSecrets := [];
        ps_Affinity := None; ps_Tolerations := []; ps_NodeSelector := ∅;
        ps_TopologySpreadConstraints := []; ps_TerminationGracePeriodSeconds := None;
        ps_Volumes := [] |} |};
    sss_VolumeClaimTemplates := []; sss_PodManagementPolicy := "";
    sss_UpdateStrategy := "" |};
  sts_ReadyReplicas := t_ReplicationFactor tier |}.
