(* ===== verification/TierWalk.v ===== *)
(** * The calls of a tier's reconciliation

    [tier_call] lists the calls [reconcileTier] and [tierStatus] can make: reads,
    creations, patches that come from one of the merges, lists, and deletions of
    StatefulSets above the tier's count.  [reconcileTier_walk] walks through the
    handlers once for all monitors: an invariant that those calls and the builds
    keep holds at the end.  The properties of the patches and the deletions follow. *)

From S2P Require Import Prelude GoLang K8s Types Heap Effects Api Logic Names ConfigMap.
From S2P Require Import Services StatefulSet Resources Plugins Reconciler Samples.
From stdpp Require Import options.

(** The merge of each kind. *)
Definition merged (k : Kind) : obj k -> obj k -> Prop :=
  match k with
  | KConfigMap => fun o n => exists d, n = merge_ConfigMap o d
  | KService => fun o n => exists d, n = merge_Service o d
  | KStatefulSet => fun o n => exists d, n = merge_StatefulSet o d
  | KIngress => fun o n => exists d, n = merge_Ingress o d
  | _ => fun _ _ => False
  end.

(** The label of the StatefulSet is the decimal text of an index above the count. *)
Definition above_count {R} (tier : TierSpec R) (s : StatefulSet Wire) : Prop :=
  exists text i, om_Labels (sts_Meta s) !! "picodata.io/replicaset" = Some text /\
    ParseInt text = Some i /\ (t_Replicas tier < i)%Z.

Lemma is_extra_above {R} (tier : TierSpec R) s : is_extra tier s = true <-> above_count tier s.
Proof.
  unfold is_extra, above_count. split.
  - destruct (om_Labels (sts_Meta s) !! _) as [text|]; [|done].
    destruct (ParseInt text) as [i|] eqn:Ei; [|done]. intros H%Z.ltb_lt.
    exists text, i. rewrite int32_id in H by by apply (ParseInt_range text). done.
  - intros (text & i & -> & Ei & H). rewrite Ei, int32_id by by apply (ParseInt_range text).
    by apply Z.ltb_lt.
Qed.

Definition deletable {R} (cluster : PicoclusterDB R) (tier : TierSpec R) (k : Kind)
  : obj k -> Prop :=
  match k with
  | KStatefulSet => fun s => above_count tier s
  | _ => fun _ => False
  end.

(** The kinds of the objects of a tier. *)
Definition tier_kind (k : Kind) : Prop :=
  match k with KPicoclusterDB | KSecret => False | _ => True end.

Definition tier_call {R} (cluster : PicoclusterDB R) (tier : TierSpec R) {X} (e : Op X)
  : Prop :=
  match e with
  | Get k _ | Create k _ => tier_kind k
  | Patch k base new => merged k base new
  | Delete k o => deletable cluster tier k o
  | ListObjs k ns l =>
      k = KStatefulSet /\ ns = db_Namespace cluster /\ l = tierLabels cluster tier
  | _ => False
  end.

Section walk.
Context {U : GoUnicode} {K : K8sLib} {C : ControllerLib}.
Context {S : Type} (M : monitor Op S) (I : S -> heap -> Prop).
Variables (cluster : PicoclusterDB Mem) (tier : TierSpec Mem).
Hypothesis Hcall : forall X (e : Op X) s h, tier_call cluster tier e -> I s h ->
  allowed M s X e /\ forall x, expected M s X e x -> I (advance M s X e x) h.
Hypothesis Hbuild : forall i cd s h, I s h -> I s (buildStatefulSet cluster tier i cd h).1.

(** [m] keeps the invariant. *)
Definition walks {A} (m : GoM A) : Prop := forall s h, I s h ->
  go_ok M m s h (fun s' h' _ => I s' h').

Lemma walks_ret {A} (a : A) : walks (go_ret a).
Proof. by intros s h HI. Qed.

Lemma walks_throw {A} e : walks (throw (A := A) e).
Proof. by intros s h HI. Qed.

Lemma walks_lift {A} (r : result A) : walks (lift r).
Proof. by intros s h HI. Qed.

Lemma walks_bind {A B} (m : GoM A) (f : A -> GoM B) :
  walks m -> (forall a, walks (f a)) -> walks (go_bind m f).
Proof.
  intros Hm Hf s h HI. go_step. eapply go_ok_mono; [by apply Hm|].
  intros s' h' [a|e] HI'; [by apply Hf|done].
Qed.

Lemma walks_wrap {A} p (m : GoM A) : walks m -> walks (wrap_err p m).
Proof. intros Hm s h HI. go_step. eapply go_ok_mono; [by apply Hm|done]. Qed.

Lemma walks_try {A} (m : GoM A) : walks m -> walks (try m).
Proof. intros Hm s h HI. go_step. eapply go_ok_mono; [by apply Hm|done]. Qed.

Lemma walks_for_each {A} (l : list A) (f : A -> GoM unit) :
  (forall x, x ∈ l -> walks (f x)) -> walks (for_each l f).
Proof.
  intros Hf. induction l as [|x l IH]; [apply walks_ret|].
  apply walks_bind; [apply Hf; left|]. intros _. apply IH. intros y Hy. apply Hf. by right.
Qed.

Lemma walks_request {X} (e : Op (result X)) :
  tier_call cluster tier e -> walks (request e).
Proof using Hcall.
  intros He s h HI. destruct (Hcall _ e s h He HI) as [Ha Hx]. by go_step.
Qed.

Lemma get_create_or_patch_walks k merge (d : obj k) :
  tier_kind k -> (forall e, merged k e (merge e d)) -> walks (get_create_or_patch k merge d).
Proof using Hcall.
  intros Hk Hm. apply walks_bind; [by apply walks_try, walks_request|]. intros [o|e].
  - apply walks_bind; [by apply walks_request; simpl|]. intros _. apply walks_ret.
  - destruct (IsNotFound e); [by apply walks_request|apply walks_throw].
Qed.

Lemma replicaset_walks cd i : walks (reconcile_replicaset cluster tier cd i).
Proof using Hcall Hbuild.
  apply walks_bind; [intros s h HI; go_step; by apply Hbuild|]. intros b.
  apply walks_bind; [apply walks_lift|]. intros d. apply walks_wrap.
  apply walks_bind; [by intros s h HI; go_step|]. intros w.
  apply walks_bind; [|intros _; apply walks_ret].
  apply get_create_or_patch_walks; [done|]. intros e. by eexists.
Qed.

Lemma delete_extra_walks : walks (deleteExtraStatefulSets cluster tier).
Proof using Hcall.
  apply walks_bind; [by apply walks_request; simpl|]. intros items.
  apply walks_for_each. intros s _. destruct (is_extra tier s) eqn:E; [|apply walks_ret].
  apply walks_bind; [|intros r; apply walks_lift].
  by apply walks_try, walks_request, is_extra_above.
Qed.

Lemma tierStatus_walks : walks (tierStatus cluster tier).
Proof using Hcall.
  apply walks_bind; [by apply walks_request; simpl|]. intros items. apply walks_ret.
Qed.

Lemma walks_hang {A} :
  (forall s h, I s h -> allowed M s _ Hang) -> walks (hang (A := A)).
Proof. intros Hh s h HI. split; [by eapply Hh|]. by intros []. Qed.

Lemma walks_for_int32 fuel i n body :
  (forall s h, I s h -> allowed M s _ Hang) -> (forall j, walks (body j)) ->
  walks (for_int32 fuel i n body).
Proof.
  intros Hh Hb. revert i. induction fuel as [|f IH]; intros i; simpl;
    (destruct (i <=? n)%Z; [|apply walks_ret]).
  - by apply walks_hang.
  - by apply walks_bind.
Qed.

(** [reconcileTier], when the monitor lets it hang or when it cannot. *)
Definition hang_excused : Prop :=
  (forall s h, I s h -> allowed M s _ Hang) \/
  s_Tiers (db_Spec cluster) <> [] /\ (t_Replicas tier < int32_max)%Z.

Lemma reconcileTier_walk_hang : hang_excused -> walks (reconcileTier cluster tier).
Proof using Hcall Hbuild.
  intros Hx. unfold reconcileTier.
  apply walks_bind.
  { destruct (buildConfigMap cluster tier) as [cm|] eqn:E; [apply walks_ret|].
    destruct Hx as [Hx|[Ht _]]; [by apply walks_hang|].
    unfold buildConfigMap in E. by destruct (s_Tiers (db_Spec cluster)). }
  intros cm. apply walks_bind; [apply walks_lift|]. intros cm1.
  apply walks_bind.
  { apply walks_wrap, get_create_or_patch_walks; [done|]. intros e. by eexists. }
  intros cm2. apply walks_bind; [apply walks_lift|]. intros s1.
  apply walks_bind.
  { apply walks_wrap, get_create_or_patch_walks; [done|]. intros e. by eexists. }
  intros _. apply walks_bind; [apply walks_lift|]. intros s2.
  apply walks_bind.
  { apply walks_wrap, get_create_or_patch_walks; [done|]. intros e. by eexists. }
  intros _. apply walks_bind.
  { destruct Hx as [Hx|[_ Hmax]].
    - apply walks_for_int32; [done|]. intros. apply replicaset_walks.
    - rewrite for_int32_range by (unfold int32_min in *; simpl; lia).
      apply walks_for_each. intros. apply replicaset_walks. }
  intros _. apply walks_bind; [apply walks_wrap, delete_extra_walks|]. intros _.
  destruct (t_Ingress tier) as [spec|]; [|apply walks_ret].
  destruct (is_Enabled spec); [|apply walks_ret].
  apply walks_bind; [apply walks_lift|]. intros d.
  apply walks_bind; [|intros _; apply walks_ret].
  apply walks_wrap, get_create_or_patch_walks; [done|]. intros e. by eexists.
Qed.

Lemma reconcileTier_walk :
  s_Tiers (db_Spec cluster) <> [] -> (t_Replicas tier < int32_max)%Z ->
  walks (reconcileTier cluster tier).
Proof using Hcall Hbuild. intros Ht Hmax. apply reconcileTier_walk_hang. by right. Qed.
End walk.

(** ** What patches and deletions may do *)

(** The fields of an object that a patch leaves as the server had them. *)
Definition preserved (k : Kind) : obj k -> obj k -> Prop :=
  match k with
  | KService => fun o n =>
      css_ClusterIP (svc_Spec n) = css_ClusterIP (svc_Spec o) /\
      css_Type (svc_Spec n) = css_Type (svc_Spec o) /\
      css_PublishNotReadyAddresses (svc_Spec n) = css_PublishNotReadyAddresses (svc_Spec o)
  | KStatefulSet => fun o n =>
      sss_ServiceName (sts_Spec n) = sss_ServiceName (sts_Spec o) /\
      sss_Selector (sts_Spec n) = sss_Selector (sts_Spec o) /\
      sss_VolumeClaimTemplates (sts_Spec n) = sss_VolumeClaimTemplates (sts_Spec o) /\
      sss_PodManagementPolicy (sts_Spec n) = sss_PodManagementPolicy (sts_Spec o) /\
      sss_UpdateStrategy (sts_Spec n) = sss_UpdateStrategy (sts_Spec o) /\
      sts_ReadyReplicas n = sts_ReadyReplicas o
  | _ => fun _ _ => True
  end.

Definition preserved_meta (m m' : ObjectMeta) : Prop :=
  key_of m' = key_of m /\ om_OwnerReferences m' = om_OwnerReferences m /\
  om_rest m' = om_rest m.

Lemma merged_preserves k o n :
  merged k o n -> preserved_meta (obj_meta k o) (obj_meta k n) /\ preserved k o n.
Proof. destruct k; simpl; try done; intros [d ->]; by split_and!. Qed.

(** Patches preserve the immutable fields, and only StatefulSets above the tier's
    count are deleted; no loop hangs. *)
Definition safe_writes {R} (cluster : PicoclusterDB R) (tier : TierSpec R)
  : monitor Op unit := {|
  allowed := fun _ _ e =>
    match e with
    | Patch k base new =>
        preserved_meta (obj_meta k base) (obj_meta k new) /\ preserved k base new
    | Delete k o => deletable cluster tier k o
    | StatusPatch _ _ | Hang => False
    | _ => True
    end;
  expected := fun _ _ _ _ => True;
  advance := fun s _ _ _ => s
|}.

(** C8.  The writes of [reconcileTier] are safe, whatever the API server answers:
    every patch keeps the name, the owners and the server's metadata, and the fields
    the API forbids to change or the operator does not own (of a Service the cluster
    IP, type and readiness policy; of a StatefulSet the service name, selector, claim
    templates, policies and status); only StatefulSets whose replicaset label is
    there and is the decimal text of an index above [tier.Replicas] are deleted; the status is not written; and it never
    hangs. *)
Theorem reconcileTier_safe_writes {U : GoUnicode} {K : K8sLib} {C : ControllerLib}
  (cluster : PicoclusterDB Mem) (tier : TierSpec Mem) h :
  s_Tiers (db_Spec cluster) <> [] -> (t_Replicas tier < int32_max)%Z ->
  go_ok (safe_writes cluster tier) (reconcileTier cluster tier) tt h (fun _ _ _ => True).
Proof.
  intros Ht Hmax.
  apply (reconcileTier_walk (safe_writes cluster tier) (fun _ _ => True)); [|done..].
  intros X e [] h' He _. split; [|done]. destruct e; try done. by apply merged_preserves.
Qed.

Lemma reconcileTier_safe_writes_witness :
  go_ok (safe_writes sample_mem sample_plain_tier)
    (@reconcileTier ascii_unicode sample_k8s sample_controller_lib sample_mem
       sample_plain_tier) tt sample_heap (fun _ _ _ => True).
Proof.
  apply (@reconcileTier_safe_writes ascii_unicode sample_k8s sample_controller_lib
    sample_mem sample_plain_tier sample_heap); [discriminate|vm_compute; reflexivity].
Defined.

(** ** The greatest count *)

(** Every call is allowed and every answer expected. *)
Definition anything : monitor Op unit := {|
  allowed := fun _ _ _ => True;
  expected := fun _ _ _ _ => True;
  advance := fun s _ _ _ => s
|}.

Lemma anything_true {A} (m : GoM A) h (Q : unit -> heap -> result A -> Prop) :
  (forall h' r, Q tt h' r) -> go_ok anything m tt h Q.
Proof.
  intros HQ. unfold go_ok. generalize (m h). clear m h.
  induction p as [[h' r]|X e k IH]; simpl; [apply HQ|]. split; [done|]. intros x _. apply IH.
Qed.

Lemma loop_to_max fuel i body h :
  in_int32 i ->
  go_ok anything (for_int32 fuel i int32_max body) tt h (fun _ _ r => is_ok r = false).
Proof.
  revert i h. induction fuel as [|f IH]; intros i h Hi; cbn [for_int32];
    (destruct (Z.leb_spec i int32_max) as [_|Hgt]; [|unfold in_int32 in Hi; lia]).
  - split; [done|]. intros [].
  - go_step. apply anything_true. intros h' [u|e]; [|done]. apply IH, int32_range.
Qed.

(** C39.  For a tier of 2147483647 replicasets, which the CRD admits, the index of
    the loop wraps around before it exceeds the count: whatever the API server
    answers, [reconcileTier] never succeeds; it fails or loops for ever. *)
Theorem reconcileTier_max_replicas {U : GoUnicode} {K : K8sLib} {C : ControllerLib}
  (cluster : PicoclusterDB Mem) (tier : TierSpec Mem) h :
  t_Replicas tier = int32_max ->
  go_ok anything (reconcileTier cluster tier) tt h (fun _ _ r => is_ok r = false).
Proof.
  intros Hmax. unfold reconcileTier. rewrite Hmax.
  generalize (Z.to_nat int32_max) as fuel. intros fuel.
  do 7 (go_step; apply anything_true; intros ? [?|?]; [|done]).
  go_step. eapply go_ok_mono; [apply loop_to_max; done|]. by intros ? ? [].
Qed.

Lemma reconcileTier_max_replicas_witness :
  go_ok anything
    (@reconcileTier ascii_unicode sample_k8s sample_controller_lib sample_mem
       (sample_tier "t" 2147483647 1 true [] None None)) tt sample_heap
    (fun _ _ r => is_ok r = false).
Proof.
  apply (@reconcileTier_max_replicas ascii_unicode sample_k8s sample_controller_lib
    sample_mem (sample_tier "t" 2147483647 1 true [] None None) sample_heap).
  reflexivity.
Defined.
