(* ===== verification/StatefulSetProps.v ===== *)
(** * What is sent for a replicaset

    Properties of [buildStatefulSet] and of the StatefulSets that
    [reconcileTier] sends: their shape, the security context, and the anti-affinity
    terms, which accumulate through the shared pointer. *)

From S2P Require Import Prelude GoLang K8s Types Heap Effects Api Logic Names ConfigMap.
From S2P Require Import Services Sha256 StatefulSet Resources Plugins Reconciler Samples.
From stdpp Require Import options.

(** ** Reading a serialized StatefulSet *)

Definition pod_of (s : StatefulSet Wire) : PodSpec Wire := pt_Spec (sss_Template (sts_Spec s)).

(** The required anti-affinity terms of its pods. *)
Definition required_terms (s : StatefulSet Wire) : list PodAffinityTerm :=
  match ps_Affinity (pod_of s) with
  | Some a => match (aff_PodAntiAffinity a : option PodAntiAffinity) with
              | Some p => paa_Required p
              | None => []
              end
  | None => []
  end.

Definition fs_group (s : StatefulSet Wire) : option Z :=
  match (ps_SecurityContext (pod_of s) : option PodSecurityContext) with
  | Some c => psc_FSGroup c
  | None => None
  end.

(** The address through which a tier's own [PodAntiAffinity] is reached. *)
Definition paa_loc (tier : TierSpec Mem) : option loc :=
  match t_Affinity tier with Some a => aff_PodAntiAffinity a | None => None end.

(** The group the pods get: the user's, or 1000. *)
Definition effective_group (h : heap) (tier : TierSpec Mem) : Z :=
  match t_SecurityContext tier with
  | Some l => default 1000%Z (psc_FSGroup (load_psc h l))
  | None => 1000%Z
  end.

(** The StatefulSet a call writes. *)
Definition written_sts {X} (e : Op X) : option (StatefulSet Wire) :=
  match e with
  | Create k o => match k return obj k -> option (StatefulSet Wire) with
                  | KStatefulSet => Some | _ => fun _ => None end o
  | Patch k _ n => match k return obj k -> option (StatefulSet Wire) with
                   | KStatefulSet => Some | _ => fun _ => None end n
  | _ => None
  end.

(** An object that was read has the key it was asked for. *)
Definition honest_get {X} (e : Op X) : X -> Prop :=
  match e with
  | Get k n => fun r => match r with Ok o => obj_key k o = n | Err _ => True end
  | _ => fun _ => True
  end.

(** Every StatefulSet that is created or patched satisfies [P]; no loop hangs. *)
Definition sts_writes (P : StatefulSet Wire -> Prop) : monitor Op unit := {|
  allowed := fun _ _ e =>
    match e with Hang => False | _ => True end /\
    match written_sts e with Some s => P s | None => True end;
  expected := fun _ _ e x => honest_get e x;
  advance := fun s _ _ _ => s
|}.

(** ** The heap effect of one build *)

Section build.
Context {U : GoUnicode} {K : K8sLib}.
Variables (cluster : PicoclusterDB Mem) (tier : TierSpec Mem).

Definition term (i : Z) : PodAffinityTerm :=
  replicaset_term (replicasetLabels cluster tier i).

Lemma wf_tier_grow h h' :
  wf_tier h tier -> length (h_paa h) <= length (h_paa h') ->
  length (h_psc h) <= length (h_psc h') -> wf_tier h' tier.
Proof.
  intros [Ha Hs] Hl Hl'. unfold wf_tier, wf_affinity in *. split.
  - destruct (t_Affinity tier) as [[? ? [l|]]|]; simpl in *; lia || done.
  - destruct (t_SecurityContext tier); simpl in *; lia || done.
Qed.

Lemma pod_security_context_spec h :
  wf_tier h tier ->
  let '(h', l) := pod_security_context tier h in
  h_paa h' = h_paa h /\ wf_tier h' tier /\
  load_psc h' l = {| psc_FSGroup := Some (effective_group h tier);
                     psc_rest := match t_SecurityContext tier with
                                 | Some l => psc_rest (load_psc h l)
                                 | None => no_json end |} /\
  effective_group h' tier = effective_group h tier.
Proof.
  intros Hwf. unfold pod_security_context, effective_group.
  pose proof (wf_tier_grow h) as Hgrow. pose proof Hwf as [_ Hs].
  destruct (t_SecurityContext tier) as [l|] eqn:E; simpl in *.
  - destruct (psc_FSGroup (load_psc h l)) as [g|] eqn:G.
    + split; [done|]. split; [done|]. rewrite G. simpl.
      destruct (load_psc h l) eqn:L. by simplify_eq/=.
    + split; [done|]. split; [by apply Hgrow; simpl; rewrite ?length_insert|].
      by rewrite !load_store_psc by done.
  - pose proof (load_alloc_psc no_psc h) as L. simpl in L. rewrite L. simpl.
    split; [done|]. split.
    + apply Hgrow; simpl; rewrite ?length_insert, ?length_app; simpl; lia || done.
    + by rewrite load_store_psc by (simpl; rewrite length_app; simpl; lia).
Qed.

Definition base_required (h : heap) : list PodAffinityTerm :=
  match paa_loc tier with Some l => paa_Required (load_paa h l) | None => [] end.

(** The affinity of the pods: the cell it points to ends with the new term. *)
Lemma merge_effect i h :
  wf_tier h tier ->
  let '(h', a) := mergeReplicasetAntiAffinity (t_Affinity tier)
                    (replicasetLabels cluster tier i) h in
  h_psc h' = h_psc h /\ wf_tier h' tier /\
  exists l, aff_PodAntiAffinity a = (Some l : option (AntiAffinityPtr Mem)) /\
    paa_Required (load_paa h' l) = base_required h ++ [term i] /\
    (paa_loc tier = Some l \/ paa_loc tier = None).
Proof.
  intros Hwf. pose proof (wf_tier_grow h) as Hgrow. pose proof Hwf as [Hl _].
  pose proof (load_alloc_paa no_paa h) as L. simpl in L.
  unfold mergeReplicasetAntiAffinity, base_required, paa_loc.
  destruct (t_Affinity tier) as [[na pa [l|]]|] eqn:A; simpl in *;
    (split; [done|]);
    (split; [apply Hgrow; simpl; rewrite ?length_insert, ?length_app; lia || done|]).
  - exists l. rewrite load_store_paa by done. split_and!; [done..|by left].
  - exists (length (h_paa h)).
    rewrite load_store_paa by (simpl; rewrite length_app; simpl; lia).
    rewrite L. split_and!; [done..|by right].
  - exists (length (h_paa h)).
    rewrite load_store_paa by (simpl; rewrite length_app; simpl; lia).
    rewrite L. split_and!; [done..|by right].
Qed.

(** One build: what is serialized, and what is left in the shared cells. *)
Lemma build_effect i cd h :
  wf_tier h tier ->
  let '(h', s) := buildStatefulSet cluster tier i cd h in
  let w := freeze_sts h' s in
  wf_tier h' tier /\
  obj_key KStatefulSet w = {| nn_Name := statefulSetName cluster tier i;
                              nn_Namespace := db_Namespace cluster |} /\
  om_Labels (sts_Meta w) = replicasetLabels cluster tier i /\
  sss_Replicas (sts_Spec w) = Some (t_ReplicationFactor tier) /\
  fs_group w = Some (effective_group h tier) /\
  effective_group h' tier = effective_group h tier /\
  (t_DisableAutoAntiAffinity tier = true ->
    required_terms w = base_required h /\ base_required h' = base_required h) /\
  (t_DisableAutoAntiAffinity tier = false ->
    required_terms w = base_required h ++ [term i] /\
    base_required h' =
      match paa_loc tier with Some _ => base_required h ++ [term i] | None => [] end).
Proof.
  intros Hwf. unfold buildStatefulSet.
  pose proof (pod_security_context_spec h Hwf) as Hs.
  destruct (pod_security_context tier h) as [h1 sl].
  destruct Hs as (Hpaa & Hwf1 & Hsl & Hg).
  assert (base_required h1 = base_required h) as Hb.
  { unfold base_required, load_paa. by rewrite Hpaa. }
  unfold pod_affinity. destruct (t_DisableAutoAntiAffinity tier) eqn:D.
  - split_and!; try done.
    + unfold fs_group. simpl. unfold freeze_podspec. simpl. by rewrite Hsl.
    + intros _. rewrite <-Hb. split; [|done].
      unfold required_terms, base_required, paa_loc. simpl.
      by destruct (t_Affinity tier) as [[? ? [l|]]|].
  - pose proof (merge_effect i h1 Hwf1) as Hm.
    destruct (mergeReplicasetAntiAffinity _ _ h1) as [h2 a].
    destruct Hm as (Hpsc & Hwf2 & l & Ha & Hreq & Hl).
    assert (forall l', load_psc h2 l' = load_psc h1 l') as Hload.
    { intros l'. unfold load_psc. by rewrite Hpsc. }
    split_and!; try done.
    + unfold fs_group. simpl. by rewrite Hload, Hsl.
    + rewrite <-Hg. unfold effective_group.
      destruct (t_SecurityContext tier); [by rewrite Hload|done].
    + intros _. unfold required_terms. simpl. rewrite Ha. simpl.
      rewrite Hreq, Hb. split; [done|]. unfold base_required at 1.
      destruct Hl as [->| ->]; [by rewrite Hreq, Hb|done].
Qed.
End build.

(** The heap only gets more cells. *)
Definition grows (h h' : heap) : Prop :=
  length (h_paa h) <= length (h_paa h') /\ length (h_psc h) <= length (h_psc h').

#[export] Instance grows_preorder : PreOrder grows.
Proof. split; [by split|]. intros h1 h2 h3 [] []. split; lia. Qed.

Lemma wf_tier_grows tier h h' : grows h h' -> wf_tier h tier -> wf_tier h' tier.
Proof. intros [] ?. by eapply wf_tier_grow. Qed.

Lemma build_grows {U : GoUnicode} {K : K8sLib} cluster tier i cd h :
  grows h (buildStatefulSet cluster tier i cd h).1.
Proof.
  unfold buildStatefulSet, pod_security_context, pod_affinity,
    mergeReplicasetAntiAffinity, grows.
  destruct (t_SecurityContext tier); simpl; (destruct (psc_FSGroup _); simpl);
    (destruct (t_DisableAutoAntiAffinity tier); simpl; [
      rewrite ?length_insert, ?length_app; simpl; lia|]);
    (destruct (t_Affinity tier) as [[? ? [l|]]|]; simpl;
      rewrite ?length_insert, ?length_app; simpl; lia).
Qed.

(** ** The StatefulSets that a tier's reconciliation writes *)

Section writes.
Context {U : GoUnicode} {K : K8sLib} {C : ControllerLib} {CL : ControllerLibLaws C}.
Variables (cluster : PicoclusterDB Mem) (tier : TierSpec Mem).
Variable (P : StatefulSet Wire -> Prop).

Abbreviation M := (sts_writes P).

(** The reconcilers of the other kinds write no StatefulSet and no heap cell. *)
Lemma other_kind_quiet k merge (d : obj k) h Q :
  k <> KStatefulSet -> (forall r, Q tt h r) ->
  go_ok M (get_create_or_patch k merge d) tt h Q.
Proof.
  intros Hk HQ. unfold get_create_or_patch. go_auto.
  intros [o|e] _; go_auto; (try by destruct k);
    intros [] _; go_auto; apply HQ.
Qed.

Lemma delete_quiet h (Q : unit -> heap -> result unit -> Prop) :
  (forall r, Q tt h r) -> go_ok M (deleteExtraStatefulSets cluster tier) tt h Q.
Proof.
  intros HQ. unfold deleteExtraStatefulSets. do 2 (go_step; try done).
  intros [items|e] _; [|apply HQ].
  eapply go_ok_mono; [apply (go_ok_for_each_inv M items _ (fun _ h' => h' = h)); [done|]|].
  - intros x [] h' _ ->. go_auto.
  - intros [] h' r ->. apply HQ.
Qed.

(** What the objects sent for replicaset [i] have in common with the built one. *)
Definition sent_as (i : Z) (built s : StatefulSet Wire) : Prop :=
  obj_key KStatefulSet s = {| nn_Name := statefulSetName cluster tier i;
                              nn_Namespace := db_Namespace cluster |} /\
  pod_of s = pod_of built /\
  om_Labels (sts_Meta s) = om_Labels (sts_Meta built) /\
  sss_Replicas (sts_Spec s) = sss_Replicas (sts_Spec built).

Lemma reconcile_replicaset_writes cd i h :
  (let '(h', b) := buildStatefulSet cluster tier i cd h in
   forall s, sent_as i (freeze_sts h' b) s -> P s) ->
  go_ok M (reconcile_replicaset cluster tier cd i) tt h
    (fun _ h' _ => h' = (buildStatefulSet cluster tier i cd h).1).
Proof using CL.
  assert (Hkey : forall h' b, buildStatefulSet cluster tier i cd h = (h', b) ->
    key_of (sts_Meta b) = {| nn_Name := statefulSetName cluster tier i;
                             nn_Namespace := db_Namespace cluster |}).
  { intros h' b. unfold buildStatefulSet. destruct (pod_security_context _ _).
    destruct (pod_affinity _ _ _ _). by intros [= <- <-]. }
  intros HP. unfold reconcile_replicaset. do 2 (go_step; try done).
  destruct (buildStatefulSet cluster tier i cd h) as [h' b] eqn:E. simpl.
  specialize (Hkey _ _ eq_refl). do 2 (go_step; try done).
  unfold own_StatefulSet. destruct (SetControllerReference _ _) as [m|e] eqn:O; [|done].
  pose proof (owned_key _ _ _ O) as Hm. rewrite Hkey in Hm.
  pose proof (owned_labels _ _ _ O) as Hlab.
  go_step. unfold reconcileStatefulSet. do 3 (go_step; try done).
  unfold get_create_or_patch. go_auto.
  intros [o|e] Ho; simpl in *; go_auto.
  - split; [done|]. apply HP. unfold sent_as, obj_key in *. simpl in *.
    split_and!; try done. by rewrite <-Hm, <-Ho.
  - intros [] _; go_auto.
  - split; [done|]. apply HP. unfold sent_as, obj_key. simpl. done.
  - intros [] _; go_auto.
Qed.

(** The loop over the replicasets keeps [Inv i] before index [i]. *)
Lemma reconcileTier_writes (Inv : Z -> heap -> Prop) h :
  s_Tiers (db_Spec cluster) <> [] -> (t_Replicas tier < int32_max)%Z ->
  Inv 1%Z h ->
  (forall cd i h, (1 <= i <= t_Replicas tier)%Z -> Inv i h ->
    let '(h', b) := buildStatefulSet cluster tier i cd h in
    Inv (i + 1)%Z h' /\ forall s, sent_as i (freeze_sts h' b) s -> P s) ->
  go_ok M (reconcileTier cluster tier) tt h (fun _ _ _ => True).
Proof using CL.
  intros Htiers Hmax H1 Hstep. unfold reconcileTier.
  unfold buildConfigMap. destruct (head (s_Tiers (db_Spec cluster))) as [t0|] eqn:Eh;
    [|by destruct (s_Tiers (db_Spec cluster))].
  simpl. do 4 (go_step; try done). destruct (own_ConfigMap _ _); [|done].
  do 2 go_step. apply other_kind_quiet; [done|]. intros [cm|e]; [|done].
  do 2 go_step. destruct (own_Service _ _); [|done].
  do 2 go_step. apply other_kind_quiet; [done|]. intros [?|e]; [|done].
  do 2 go_step. destruct (own_Service _ _); [|done].
  do 2 go_step. apply other_kind_quiet; [done|]. intros [?|e]; [|done].
  go_step. rewrite for_int32_range
    by (unfold int32_min in *; simpl; lia).
  eapply go_ok_mono; [apply (go_ok_for_each M _ _
    (fun pre _ h => Inv (1 + Z.of_nat (length pre))%Z h) (fun _ _ _ => True)); [done|]|].
  - intros pre i post [] h' Hl HI.
    assert ((1 + Z.of_nat (length pre))%Z = i /\ (1 <= i <= t_Replicas tier)%Z) as [Hi Hb].
    { assert (z_range 1 (t_Replicas tier) !! length pre = Some i) as Hi
        by by rewrite Hl, list_lookup_middle.
      apply lookup_seqZ in Hi. lia. }
    rewrite Hi in HI. specialize (Hstep (default "" (cm_Data cm !! "config.yaml")) i h' Hb HI).
    eapply go_ok_mono; [apply reconcile_replicaset_writes|].
    + destruct (buildStatefulSet _ _ _ _ _). apply Hstep.
    + intros [] h2 [] ->; [|done]. destruct (buildStatefulSet _ _ _ _ _).
      rewrite length_app. simpl.
      replace (1 + Z.of_nat (length pre + 1))%Z with (i + 1)%Z by lia. apply Hstep.
  - intros [] h' [|e] _; [|done]. do 2 go_step. apply delete_quiet.
    intros [|e]; [|done]. destruct (t_Ingress tier) as [spec|]; [|done].
    destruct (is_Enabled spec); [|done]. do 2 go_step.
    destruct (own_Ingress _ _); [|done]. do 2 go_step.
    apply other_kind_quiet; [done|]. by intros [].
Qed.
End writes.

(** ** Properties of the StatefulSets that are sent *)

Lemma z_range_snoc a i : (a <= i)%Z -> z_range a i = z_range a (i - 1) ++ [i].
Proof.
  intros. unfold z_range. replace (i - a + 1)%Z with (i - 1 - a + 1 + 1)%Z by lia.
  rewrite seqZ_app by lia. repeat f_equal. rewrite seqZ_cons, seqZ_nil by lia.
  f_equal. lia.
Qed.

Section properties.
Context {U : GoUnicode} {K : K8sLib} {C : ControllerLib} {CL : ControllerLibLaws C}.
Variables (cluster : PicoclusterDB Mem) (tier : TierSpec Mem) (h : heap).
Hypothesis Htiers : s_Tiers (db_Spec cluster) <> [].
Hypothesis Hmax : (t_Replicas tier < int32_max)%Z.
Hypothesis Hwf : wf_tier h tier.

(** What replicaset [i] of the tier is, whoever reads it back. *)
Definition replicaset_shape (i : Z) (s : StatefulSet Wire) : Prop :=
  obj_key KStatefulSet s = {| nn_Name := statefulSetName cluster tier i;
                              nn_Namespace := db_Namespace cluster |} /\
  om_Labels (sts_Meta s) = replicasetLabels cluster tier i /\
  sss_Replicas (sts_Spec s) = Some (t_ReplicationFactor tier) /\
  fs_group s = Some (effective_group h tier).

(** C10.  Every StatefulSet that the reconciliation of a tier creates or patches is
    one of the replicasets [1 .. tier.Replicas]: it has that replicaset's name and
    labels, [tier.ReplicationFactor] pods, and a security context whose group is
    the user's or 1000, although every build writes through the tier's shared
    pointer; and the reconciliation never hangs. *)
Theorem reconcileTier_sends_replicasets :
  go_ok (sts_writes (fun s => exists i,
      (1 <= i <= t_Replicas tier)%Z /\ replicaset_shape i s))
    (reconcileTier cluster tier) tt h (fun _ _ _ => True).
Proof using CL Htiers Hmax Hwf.
  apply (reconcileTier_writes cluster tier _
    (fun _ h' => wf_tier h' tier /\ effective_group h' tier = effective_group h tier));
    [done..|].
  intros cd i h' Hi [Hwf' Hg]. pose proof (build_effect cluster tier i cd h' Hwf') as B.
  destruct (buildStatefulSet cluster tier i cd h') as [h2 b].
  destruct B as (Hwf2 & _ & Hlab & Hrep & Hfs & Hg2 & _).
  split; [by rewrite Hg2|]. intros s (Hk & Hpod & Hl & Hr).
  exists i. split; [done|]. unfold replicaset_shape.
  rewrite Hl, Hlab, Hr, Hrep. split_and!; try done.
  unfold fs_group in *. by rewrite Hpod, Hfs, Hg.
Qed.


(** C24.  Anti-affinity of a tier with a [podAntiAffinity] of its own: the struct
    copy in [mergeReplicasetAntiAffinity] shares the pointer, so replicaset [i] is
    sent with the user's terms and the terms of ALL the replicasets [1 .. i]. *)
Theorem anti_affinity_accumulates l :
  t_DisableAutoAntiAffinity tier = false -> paa_loc tier = Some l ->
  go_ok (sts_writes (fun s => exists i, replicaset_shape i s /\
      required_terms s =
        paa_Required (load_paa h l) ++ map (term cluster tier) (z_range 1 i)))
    (reconcileTier cluster tier) tt h (fun _ _ _ => True).
Proof using CL Htiers Hmax Hwf.
  intros D L. apply (reconcileTier_writes cluster tier _
    (fun i h' => wf_tier h' tier /\ effective_group h' tier = effective_group h tier /\
       base_required tier h' =
         paa_Required (load_paa h l) ++ map (term cluster tier) (z_range 1 (i - 1))));
    [done..| |].
  { unfold base_required. rewrite L. simpl. by rewrite app_nil_r. }
  intros cd i h' Hi (Hwf' & Hg & Hb).
  pose proof (build_effect cluster tier i cd h' Hwf') as B.
  destruct (buildStatefulSet cluster tier i cd h') as [h2 b].
  destruct B as (Hwf2 & _ & Hlab & Hrep & Hfs & Hg2 & _ & Hreq).
  destruct (Hreq D) as [Hr1 Hr2]. rewrite L in Hr2.
  assert (base_required tier h' ++ [term cluster tier i] =
    paa_Required (load_paa h l) ++ map (term cluster tier) (z_range 1 i)) as Hsnoc.
  { rewrite Hb, <-app_assoc, (z_range_snoc 1 i), map_app by lia. done. }
  split.
  - rewrite Hg2, Hr2, Hsnoc. by replace (i + 1 - 1)%Z with i by lia.
  - intros s (Hk & Hpod & Hl & Hr). exists i.
    unfold replicaset_shape, fs_group, required_terms in *.
    rewrite Hl, Hlab, Hr, Hrep, Hpod, Hr1, Hsnoc. split_and!; try done. by rewrite Hfs, Hg.
Qed.
End properties.

(** ** Witnesses *)

Lemma reconcileTier_sends_replicasets_witness :
  go_ok (sts_writes (fun s => exists i,
      (1 <= i <= t_Replicas sample_aff_tier)%Z /\
      replicaset_shape sample_mem sample_aff_tier sample_heap i s))
    (@reconcileTier ascii_unicode sample_k8s sample_controller_lib sample_mem sample_aff_tier)
    tt sample_heap (fun _ _ _ => True).
Proof.
  apply (@reconcileTier_sends_replicasets ascii_unicode sample_k8s sample_controller_lib
    sample_controller_laws sample_mem sample_aff_tier sample_heap);
    [discriminate|vm_compute; reflexivity|split; [apply Nat.lt_0_succ|exact I]].
Defined.


Lemma anti_affinity_accumulates_witness :
  go_ok (sts_writes (fun s => exists i,
      replicaset_shape sample_mem sample_aff_tier sample_heap i s /\
      required_terms s =
        paa_Required (load_paa sample_heap 0)
          ++ map (term sample_mem sample_aff_tier) (z_range 1 i)))
    (@reconcileTier ascii_unicode sample_k8s sample_controller_lib sample_mem sample_aff_tier)
    tt sample_heap (fun _ _ _ => True).
Proof.
  apply (@anti_affinity_accumulates ascii_unicode sample_k8s sample_controller_lib
    sample_controller_laws sample_mem sample_aff_tier sample_heap);
    [discriminate|vm_compute; reflexivity|split; [apply Nat.lt_0_succ|exact I]|reflexivity|reflexivity].
Defined.
