(* ===== verification/ConfigProps.v ===== *)
(** * The objects of a tier fit together

    Names, labels, ports, and the listener configuration that the ConfigMap and
    the init container share. *)

From S2P Require Import Prelude GoLang K8s Types Heap Sha256 Names ConfigMap Services.
From S2P Require Import StatefulSet Resources Plugins Api Samples.
From stdpp Require Import options.

(** ** Listeners *)

Section listeners.
Context {U : GoUnicode} {R : PtrRep}.
Implicit Types (cluster : PicoclusterDB R) (tier : TierSpec R).

(** The listeners of a tier in the order of the configuration. *)
Definition listeners tier : list (string * PluginServiceSpec) :=
  e ← listener_plugins tier; (fun s => (e.1, s)) <$> e.2.

Lemma sed_of_services cluster tier p (ss : list PluginServiceSpec) :
  (s ← ss; if (pls_ListenerPort s <=? 0)%Z then [] else [sed_expr cluster tier p s])
    = sed_expr cluster tier p <$> filter (fun s => (0 < pls_ListenerPort s)%Z) ss.
Proof.
  induction ss as [|s ss IH]; [done|]. rewrite bind_cons, IH, filter_cons.
  destruct (Z.leb_spec (pls_ListenerPort s) 0); case_decide; done || lia.
Qed.

Lemma sed_of_plugins cluster tier ps :
  (p ← ps; s ← pl_Services p;
     if (pls_ListenerPort s <=? 0)%Z then [] else [sed_expr cluster tier (pl_Name p) s])
    = (fun l => sed_expr cluster tier l.1 l.2) <$>
        (e ← filter (fun e : string * list PluginServiceSpec => e.2 <> [])
               (map (fun p => (pl_Name p, listener_services p)) ps);
         (fun s => (e.1, s)) <$> e.2).
Proof.
  induction ps as [|p ps IH]; [done|]. rewrite bind_cons, IH. simpl map.
  rewrite filter_cons. rewrite sed_of_services. fold (listener_services p).
  case_decide as Hne; simpl in Hne.
  - rewrite bind_cons, fmap_app. simpl. f_equal. by rewrite <-list_fmap_compose.
  - by destruct (listener_services p).
Qed.



(** C30.  Every container port of the database container is exposed by the client
    Service under the same name, and its target port is that container port. *)
Theorem client_service_targets_container_ports cluster tier i :
  Forall2 (fun c s => cp_Name c = sp_Name s /\ cp_ContainerPort c = sp_Port s /\
                      sp_TargetPort s = FromInt32 (cp_ContainerPort c) /\
                      cp_Protocol c = sp_Protocol s)
    (c_Ports (sts_container cluster tier i))
    (css_Ports (svc_Spec (buildClientService cluster tier))).
Proof.
  simpl. do 3 (constructor; [done|]). unfold container_plugin_ports, service_plugin_ports.
  induction (t_Plugins tier) as [|p ps IH]; [constructor|]. rewrite !bind_cons.
  apply Forall2_app; [|done]. induction (pl_Services p) as [|s ss IHs]; [constructor|].
  rewrite !bind_cons. by constructor.
Qed.
End listeners.

(** ** Names *)

(** C34.  Within a cluster, StatefulSets of different tiers or of different
    replicasets have different names. *)
Theorem statefulSetName_injective {R} (cluster : PicoclusterDB R) t1 t2 i j :
  (0 <= i <= int32_max)%Z -> (0 <= j <= int32_max)%Z ->
  statefulSetName cluster t1 i = statefulSetName cluster t2 j ->
  t_Name t1 = t_Name t2 /\ i = j.
Proof.
  intros Hi Hj. apply statefulSetName_inj_aux; unfold in_int32, int32_min in *; lia.
Qed.

Lemma statefulSetName_injective_witness :
  statefulSetName sample_mem sample_plain_tier 1 = statefulSetName sample_mem sample_plain_tier 1
  /\ (t_Name sample_plain_tier = t_Name sample_plain_tier /\ 1 = 1)%Z.
Proof.
  split; [reflexivity|].
  apply (statefulSetName_injective sample_mem sample_plain_tier sample_plain_tier 1 1);
    [vm_compute; split; discriminate..|reflexivity].
Defined.

(** C32.  The selector of a tier's Services matches a replicaset's pods exactly when
    the replicaset is of that tier, and every replicaset's selector matches its own
    pods and, among the replicasets of the tier, no other's. *)
Theorem selectors_partition_pods {R} (cluster : PicoclusterDB R) t1 t2 i j :
  in_int32 i -> in_int32 j ->
  (labels_match (css_Selector (svc_Spec (buildClientService cluster t1)))
     (replicasetLabels cluster t2 i) = true <-> t_Name t1 = t_Name t2) /\
  (labels_match (css_Selector (svc_Spec (buildInterconnectService cluster t1)))
     (replicasetLabels cluster t2 i) = true <-> t_Name t1 = t_Name t2) /\
  (labels_match (replicasetLabels cluster t1 i) (replicasetLabels cluster t1 j) = true
     <-> i = j).
Proof.
  intros Hi Hj. split_and!; [apply labels_match_tier..|]. split.
  - by apply replicasetLabels_select.
  - intros ->. unfold labels_match. by rewrite bool_decide_eq_true.
Qed.

Lemma selectors_partition_pods_witness :
  labels_match (tierLabels sample_mem sample_plain_tier)
    (replicasetLabels sample_mem sample_plain_tier 2) = true.
Proof.
  apply (selectors_partition_pods sample_mem sample_plain_tier sample_plain_tier 2 2);
    [vm_compute; split; discriminate..|reflexivity].
Defined.

(** C33.  The index that [replicasetLabels] writes is the one that
    [deleteExtraStatefulSets] reads: a StatefulSet labelled for replicaset [i] is
    extra exactly when [i] exceeds [tier.Replicas]. *)
Theorem is_extra_reads_label {R} (cluster : PicoclusterDB R) (tier : TierSpec R) i s :
  in_int32 i -> om_Labels (sts_Meta s) = replicasetLabels cluster tier i ->
  is_extra tier s = true <-> (t_Replicas tier < i)%Z.
Proof.
  intros Hi Hl. unfold is_extra. rewrite Hl, replicaset_label, ParseInt_Itoa by done.
  rewrite int32_id by done. lia.
Qed.

Lemma is_extra_reads_label_witness :
  is_extra sample_plain_tier (labelled_sts sample_mem sample_plain_tier 3) = true.
Proof.
  apply (is_extra_reads_label sample_mem sample_plain_tier 3);
    [vm_compute; split; discriminate|reflexivity|reflexivity].
Defined.

(** ** Placeholders *)

Section placeholders.
Context {U : GoUnicode} {R : PtrRep}.

(** The expression of sed that replaces a text by another everywhere. *)
Definition substitution (pattern replacement : string) : string :=
  "-e " +:+ dquote +:+ "s|" +:+ pattern +:+ "|" +:+ replacement +:+ "|g" +:+ dquote.

Lemma sed_expr_substitution (cluster : PicoclusterDB R) tier plugin s :
  sed_expr cluster tier plugin s
    = substitution (advertise_placeholder plugin (pls_Name s))
        ("$INSTANCE_NAME." +:+ interconnectServiceName cluster tier
           +:+ ".$INSTANCE_NAMESPACE.svc.cluster.local:" +:+ Itoa (pls_ListenerPort s)).
Proof.
  unfold sed_expr, substitution, interconnectServiceName. by rewrite !append_assoc.
Qed.

Lemma placeholders_equal p1 s1 p2 s2 :
  advertise_placeholder p1 s1 = advertise_placeholder p2 s2 <->
  joins_alike "_" (ToUpper p1) (ToUpper s1) (ToUpper p2) (ToUpper s2).
Proof.
  rewrite <-joins_alike_spec. unfold advertise_placeholder. split.
  - intros H%append_inj_l. apply (append_inj_r "__"). by rewrite !append_assoc.
  - intros H%(f_equal (fun x => x +:+ "__")). rewrite !append_assoc in H. by rewrite H.
Qed.

Lemma listeners_substituted (cluster : PicoclusterDB R) tier l :
  l ∈ listeners tier -> sed_expr cluster tier l.1 l.2 ∈ sedExprs cluster tier.
Proof.
  intros Hl. unfold sedExprs. rewrite (sed_of_plugins cluster tier (t_Plugins tier)).
  by apply (list_elem_of_fmap_2 (fun l => sed_expr cluster tier l.1 l.2)).
Qed.

(** C36.  When the placeholders of a tier collide.  Two listeners of a tier are both
    substituted by the init container, each for its own placeholder, and the two
    substitutions have the same pattern exactly when the upper-cased names of their
    plugins and services, joined by an underscore, read alike: they are equal, or the
    name of one plugin goes on after that of the other with an underscore and a text
    with which, followed by an underscore, the other's service begins.  The addresses
    put in differ exactly when the ports do, so one pattern then stands for two
    addresses.  When no service name has an underscore, only listeners of the same names
    collide. *)
Theorem placeholders_collide (cluster : PicoclusterDB R) (tier : TierSpec R) l1 l2 :
  l1 ∈ listeners tier -> l2 ∈ listeners tier ->
  in_int32 (pls_ListenerPort l1.2) -> in_int32 (pls_ListenerPort l2.2) ->
  let plugin (l : string * PluginServiceSpec) := ToUpper l.1 in
  let service (l : string * PluginServiceSpec) := ToUpper (pls_Name l.2) in
  exists pat1 addr1 pat2 addr2,
    substitution pat1 addr1 ∈ sedExprs cluster tier /\
    substitution pat1 addr1 = sed_expr cluster tier l1.1 l1.2 /\
    substitution pat2 addr2 ∈ sedExprs cluster tier /\
    substitution pat2 addr2 = sed_expr cluster tier l2.1 l2.2 /\
    (pat1 = pat2 <-> joins_alike "_" (plugin l1) (service l1) (plugin l2) (service l2)) /\
    (addr1 = addr2 <-> pls_ListenerPort l1.2 = pls_ListenerPort l2.2) /\
    ("_"%char ∉ chars (service l1) -> "_"%char ∉ chars (service l2) -> pat1 = pat2 ->
       plugin l1 = plugin l2 /\ service l1 = service l2).
Proof.
  intros H1 H2 Hp1 Hp2 plugin service.
  set (addr (l : string * PluginServiceSpec) := "$INSTANCE_NAME." +:+
    interconnectServiceName cluster tier +:+ ".$INSTANCE_NAMESPACE.svc.cluster.local:" +:+
    Itoa (pls_ListenerPort l.2)).
  exists (advertise_placeholder l1.1 (pls_Name l1.2)), (addr l1),
    (advertise_placeholder l2.1 (pls_Name l2.2)), (addr l2). subst addr. cbv beta.
  rewrite <-!sed_expr_substitution.
  split; [by apply listeners_substituted|]. split; [done|].
  split; [by apply listeners_substituted|]. split; [done|].
  split; [apply placeholders_equal|split].
  - split; [|by intros ->]. intros H%append_inj_l%append_inj_l%append_inj_l. by apply Itoa_inj.
  - intros N1 N2 H%placeholders_equal%joins_alike_spec. by apply append_last_sep in H.
Qed.
End placeholders.

(** Service "c" of plugin "a_b" and service "b_c" of plugin "a", on two ports. *)
Definition colliding_tier : TierSpec Wire :=
  let plugin name svc port := {|
    pl_Name := name; pl_Version := "1.0.0"; pl_MigrationContext := ∅;
    pl_Services := [{| pls_Name := svc; pls_ListenerPort := port |}] |} in
  sample_tier "default" 2 2 false [plugin "a_b" "c" 8082%Z; plugin "a" "b_c" 8083%Z] None None.

Lemma placeholders_collide_witness :
  exists pat addr1 addr2, addr1 <> addr2 /\
    substitution pat addr1 ∈ @sedExprs ascii_unicode _ sample_wire colliding_tier /\
    substitution pat addr2 ∈ @sedExprs ascii_unicode _ sample_wire colliding_tier.
Proof.
  destruct (@placeholders_collide ascii_unicode Wire sample_wire colliding_tier
    ("a_b", {| pls_Name := "c"; pls_ListenerPort := 8082 |})
    ("a", {| pls_Name := "b_c"; pls_ListenerPort := 8083 |}))
    as (pat1 & addr1 & pat2 & addr2 & S1 & _ & S2 & _ & Hpat & Haddr & _).
  - left.
  - right. left.
  - vm_compute. split; discriminate.
  - vm_compute. split; discriminate.
  - assert (pat1 = pat2) as <-.
    { apply Hpat. right. left. exists "B". split; reflexivity. }
    exists pat1, addr1, addr2. split; [|split; [exact S1|exact S2]].
    intros E. apply Haddr in E. discriminate E.
Defined.

(** ** Addresses and references *)


Section references.
Context {U : GoUnicode} {R : PtrRep}.
Variables (cluster : PicoclusterDB R) (tier : TierSpec R).


(** C35.  Every backend of the Ingress is the client Service of the tier, on a port
    that this Service has. *)
Theorem ingress_backend_exists spec rule path :
  rule ∈ cis_Rules (ing_Spec (buildIngress cluster tier spec)) -> path ∈ ir_Paths rule ->
  ip_ServiceName path = om_Name (svc_Meta (buildClientService cluster tier)) /\
  exists p, p ∈ css_Ports (svc_Spec (buildClientService cluster tier)) /\
            sp_Port p = ip_ServicePort path.
Proof.
  intros Hr Hp. simpl in Hr. apply list_elem_of_singleton in Hr as ->. simpl in Hp.
  apply list_elem_of_singleton in Hp as ->. split; [done|].
  eexists. split; [right; left|done].
Qed.

End references.

Lemma ingress_backend_exists_witness :
  exists p, p ∈ css_Ports (svc_Spec (buildClientService sample_mem sample_plain_tier)) /\
            sp_Port p = 8081%Z.
Proof.
  refine (proj2 (ingress_backend_exists sample_mem sample_plain_tier sample_ingress _
    {| ip_Path := "/"; ip_PathType := "Prefix"; ip_ServiceName := "arbiter-picodata-sample";
       ip_ServicePort := 8081 |} (list_elem_of_here _ _) (list_elem_of_here _ _))).
Defined.

Section built.
Context {U : GoUnicode} {K : K8sLib}.
Variables (cluster : PicoclusterDB Mem) (tier : TierSpec Mem) (i : Z) (cd : string).

(** C29.  A built StatefulSet is consistent in itself and with its companions:
    its selector is the labels of its pod template; its pods are named by the
    headless Service; every volume the two containers mount is a volume of the pod
    or a claim template; and the ConfigMap volume names the tier's ConfigMap and a
    key it has. *)
Theorem statefulset_self_contained h :
  let s := (buildStatefulSet cluster tier i cd h).2 in
  let pod := pt_Spec (sss_Template (sts_Spec s)) in
  sel_MatchLabels (sss_Selector (sts_Spec s)) = pt_Labels (sss_Template (sts_Spec s)) /\
  sel_MatchExpressions (sss_Selector (sts_Spec s)) = [] /\
  sss_ServiceName (sts_Spec s)
    = om_Name (svc_Meta (buildInterconnectService cluster tier)) /\
  (forall c m, c ∈ ps_InitContainers pod ++ ps_Containers pod -> m ∈ c_VolumeMounts c ->
     vm_Name m ∈ map v_Name (ps_Volumes pod)
                  ++ map pvc_Name (sss_VolumeClaimTemplates (sts_Spec s))) /\
  (forall v name items, v ∈ ps_Volumes pod -> v_VolumeSource v = ConfigMapVolume name items ->
     forall cm, buildConfigMap cluster tier = Some cm ->
     om_Name (cm_Meta cm) = name /\ forall k p, (k, p) ∈ items -> is_Some (cm_Data cm !! k)).
Proof.
  unfold buildStatefulSet. destruct (pod_security_context tier h) as [h1 l].
  destruct (pod_affinity cluster tier i h1) as [h2 a]. cbn zeta. simpl.
  split_and!; [done..| |].
  - intros c m [->|[->|Hc]%elem_of_cons]%elem_of_cons; [| |by apply elem_of_nil in Hc];
      simpl; intros [->|[->|Hm]%elem_of_cons]%elem_of_cons; simpl; set_solver.
  - intros v name items Hv Hsrc cm Hcm. unfold sts_volumes in Hv.
    apply elem_of_cons in Hv as [->|Hv];
      [|apply list_elem_of_singleton in Hv as ->; discriminate].
    simpl in Hsrc. injection Hsrc as <- <-. unfold buildConfigMap in Hcm.
    destruct (s_Tiers (db_Spec cluster)); [done|]. injection Hcm as <-.
    split; [done|]. intros k p Hk. apply list_elem_of_singleton in Hk as [= -> ->].
    simpl. eexists. apply lookup_insert_eq.
Qed.
End built.

(** ** Tiers that the CRD admits *)

Section admitted.
Context {U : GoUnicode}.

Lemma listener_services_all (p : PluginSpec) :
  Forall valid_service (pl_Services p) -> listener_services p = pl_Services p.
Proof.
  unfold listener_services. induction 1 as [|s ss Hs _ IH]; [done|].
  rewrite filter_cons_True by (unfold valid_service in Hs; lia). by rewrite IH.
Qed.

(** One element per service, in nested loops and in one. *)
Lemma per_service {A} (f : PluginSpec -> PluginServiceSpec -> A) (ps : list PluginSpec) :
  (p ← ps; s ← pl_Services p; [f p s])
    = map (fun e => f e.1 e.2) (p ← ps; (fun s => (p, s)) <$> pl_Services p).
Proof.
  induction ps as [|p ps IH]; [done|]. rewrite !bind_cons, map_app, <-IH. f_equal.
  induction (pl_Services p) as [|s ss IHs]; [done|]. rewrite bind_cons, fmap_cons, IHs. done.
Qed.

(** C28.  In a tier that the CRD schema admits no plugin service is left out: every one,
    in order, has a listener entry in the configuration, a substitution in the init
    script, and, after the three ports of Picodata, a TCP port of the container and one
    of the client Service, called after the plugin and the service, with the number
    of its listener; the Service's targets the same number. *)
Theorem valid_tier_services {R} (cluster : PicoclusterDB R) (tier : TierSpec R) i :
  valid_tier tier ->
  let services := p ← t_Plugins tier; (fun s => (p, s)) <$> pl_Services p in
  listeners tier = map (fun ps => (pl_Name ps.1, ps.2)) services /\
  sedExprs cluster tier = map (fun ps => sed_expr cluster tier (pl_Name ps.1) ps.2) services /\
  drop 3 (c_Ports (sts_container cluster tier i))
    = map (fun ps => {| cp_Name := pl_Name ps.1 +:+ "-" +:+ pls_Name ps.2;
                        cp_ContainerPort := pls_ListenerPort ps.2;
                        cp_Protocol := "TCP" |}) services /\
  map cp_Name (take 3 (c_Ports (sts_container cluster tier i))) = ["binary"; "http"; "pg"] /\
  drop 3 (css_Ports (svc_Spec (buildClientService cluster tier)))
    = map (fun ps => {| sp_Name := pl_Name ps.1 +:+ "-" +:+ pls_Name ps.2;
                        sp_Protocol := "TCP"; sp_Port := pls_ListenerPort ps.2;
                        sp_TargetPort := FromInt32 (pls_ListenerPort ps.2) |}) services /\
  map sp_Name (take 3 (css_Ports (svc_Spec (buildClientService cluster tier))))
    = ["binary"; "http"; "pg"].
Proof.
  intros (_ & _ & Hv). cbn zeta.
  assert (listeners tier = map (fun ps : PluginSpec * PluginServiceSpec => (pl_Name ps.1, ps.2))
    (p ← t_Plugins tier; (fun s => (p, s)) <$> pl_Services p)) as El.
  { unfold listeners, listener_plugins. induction Hv as [|p ps Hp _ IH]; [done|].
    rewrite bind_cons, map_app, <-IH. simpl map. rewrite filter_cons. simpl.
    rewrite listener_services_all by done. case_decide as Hn.
    - rewrite bind_cons. simpl. f_equal. by rewrite map_map.
    - by destruct (pl_Services p). }
  split_and!; [done| | |done| |done].
  - transitivity ((fun l => sed_expr cluster tier l.1 l.2) <$> listeners tier);
      [apply sed_of_plugins|]. rewrite El. apply map_map.
  - apply per_service.
  - apply per_service.
Qed.
End admitted.

Lemma valid_tier_services_witness :
  @listeners Wire sample_default = [("radix", {| pls_Name := "radix"; pls_ListenerPort := 8082 |})].
Proof.
  refine (proj1 (@valid_tier_services ascii_unicode Wire sample_wire sample_default 1 _)).
  split_and!; [vm_compute; discriminate..|repeat constructor; vm_compute; discriminate].
Defined.

(** ** Names across clusters *)

(** The sample cluster and tier under another name. *)
Definition named_cluster (n : string) : PicoclusterDB Wire := {|
  db_Meta := mk_meta n "picodata" ∅ ∅;
  db_Spec := db_Spec sample_wire; db_Status := db_Status sample_wire |}.
Definition named_tier (n : string) : TierSpec Wire := sample_tier n 2 1 true [] None None.

(** C37.  When the objects of two tiers collide, of one cluster or of two: the names
    join those of the tier and of the cluster with a dash, so the ConfigMaps, the client
    Services (and Ingresses), and the StatefulSets of one index have the same name exactly
    when the pairs of names, joined, read alike, which different pairs can; the
    headless Service of one tier is the client Service of another exactly when the pair
    whose cluster's name is followed by "-interconnect" reads like the other's.  Clusters
    without a dash in their names never collide on the first three. *)
Theorem names_collide {R1 R2} (c1 : PicoclusterDB R1) (c2 : PicoclusterDB R2) t1 t2 i j :
  (0 <= i <= int32_max)%Z -> (0 <= j <= int32_max)%Z ->
  let alike := joins_alike "-" (t_Name t1) (db_Name c1) (t_Name t2) (db_Name c2) in
  (configMapName c1 t1 = configMapName c2 t2 <-> alike) /\
  (clientServiceName c1 t1 = clientServiceName c2 t2 <-> alike) /\
  (statefulSetName c1 t1 i = statefulSetName c2 t2 j <-> alike /\ i = j) /\
  (interconnectServiceName c1 t1 = interconnectServiceName c2 t2 <-> alike) /\
  (interconnectServiceName c1 t1 = clientServiceName c2 t2 <->
     joins_alike "-" (t_Name t1) (db_Name c1 +:+ "-interconnect") (t_Name t2) (db_Name c2)) /\
  ("-"%char ∉ chars (db_Name c1) -> "-"%char ∉ chars (db_Name c2) -> alike ->
     t_Name t1 = t_Name t2 /\ db_Name c1 = db_Name c2).
Proof.
  intros Hi Hj alike. subst alike. rewrite <-!joins_alike_spec.
  unfold configMapName, clientServiceName, statefulSetName, interconnectServiceName.
  split; [done|]. split; [done|]. split; [|split; [|split; [by rewrite ?append_assoc|]]].
  - split; [|by intros [H ->]; apply (f_equal (fun x => x +:+ ("-" +:+ Itoa j))) in H;
                rewrite !append_assoc in H].
    rewrite <-!append_assoc. rewrite !(append_assoc _ "-" (Itoa _)).
    intros [E1 E2]%append_last_sep; [|apply Itoa_no_dash; lia..].
    split; [done|].
    apply Itoa_inj; [unfold in_int32, int32_min; lia..|done].
  - split; [|by intros H; apply (f_equal (fun x => x +:+ "-interconnect")) in H;
                rewrite !append_assoc in H].
    intros H. apply (append_inj_r "-interconnect"). by rewrite !append_assoc.
  - intros N1 N2 H. by apply append_last_sep in H.
Qed.

(** Tier "a" of cluster "b-c" and tier "a-b" of cluster "c"; and in a cluster called
    "interconnect", tiers "x" and "x-interconnect". *)
Lemma names_collide_witness :
  statefulSetName (named_cluster "b-c") (named_tier "a") 1
    = statefulSetName (named_cluster "c") (named_tier "a-b") 1 /\
  interconnectServiceName (named_cluster "interconnect") (named_tier "x")
    = clientServiceName (named_cluster "interconnect") (named_tier "x-interconnect").
Proof.
  split.
  - apply (names_collide (named_cluster "b-c") (named_cluster "c") (named_tier "a")
      (named_tier "a-b") 1 1); [vm_compute; split; discriminate..|].
    split; [|reflexivity]. right. right. exists "b". split; reflexivity.
  - apply (names_collide (named_cluster "interconnect") (named_cluster "interconnect")
      (named_tier "x") (named_tier "x-interconnect") 1 1); [vm_compute; split; discriminate..|].
    right. right. exists "interconnect". split; reflexivity.
Defined.
