(* ===== verification/PluginProps.v ===== *)
(** * The life of a plugin

    The SQL conversation of [plugin.go], as a log of calls and answers, against an
    abstract state machine of a plugin version ([lifecycle]); the exact statements
    of a successful installation and of the removal of obsolete versions; the
    discipline of the connection; and the steady state, in which nothing is done. *)

From S2P Require Import Prelude GoLang GoJson K8s Types Heap Effects Api Logic Names.
From S2P Require Import Plugins Samples.
From stdpp Require Import options.

(** ** The log of a conversation *)

Inductive entry :=
| LExec (sql : string) (r : result unit)
| LState (sql : string) (r : result (rows bool))
| LServices (sql : string) (r : result (rows service_row))
| LInstalled (sql : string) (r : result (rows installed_plugin)).

Definition query_entry (t : RowType) (sql : string) : result (rows (row t)) -> entry :=
  match t with
  | REnabled => LState sql
  | RService => LServices sql
  | RInstalled => LInstalled sql
  end.

Definition log_entry {X} (e : Op X) : X -> list entry :=
  match e with
  | Exec sql => fun r => [LExec sql r]
  | Query t sql => fun r => [query_entry t sql r]
  | _ => fun _ => []
  end.

(** Every call is allowed, and logged. *)
Definition logging : monitor Op (list entry) := {|
  allowed := fun _ _ _ => True;
  expected := fun _ _ _ _ => True;
  advance := fun log _ e x => log ++ log_entry e x
|}.

(** The entry of a statement that succeeded. *)
Definition done (sql : string) : entry := LExec sql (Ok tt).

(** ** The state machine of a plugin version *)

Inductive stage := Asking | Absent | Created | Migrated | Enabled | Stopped.

Section lifecycle.
Variables (p : PluginSpec) (tier : string).
Let n := pl_Name p.
Let v := pl_Version p.

(** One call and its answer move the version from a stage to the next.  A failed
    call stops everything: there is no step out of [Stopped]. *)
Inductive lstep : stage -> entry -> stage -> Prop :=
| ask_absent rs :
    rows_scans rs = [] -> rows_err rs = None ->
    lstep Asking (LState (sql_state n v) (Ok rs)) Absent
| ask_present (enabled : bool) l rs :
    rows_scans rs = Ok enabled :: l -> rows_err rs = None ->
    lstep Asking (LState (sql_state n v) (Ok rs)) (if enabled then Enabled else Created)
| ask_unreadable rs :
    rows_err rs <> None \/ (exists e l, rows_scans rs = Err e :: l) ->
    lstep Asking (LState (sql_state n v) (Ok rs)) Stopped
| ask_failed e : lstep Asking (LState (sql_state n v) (Err e)) Stopped
| create : lstep Absent (done (sql_create n v)) Created
| bind s svc :
    s = Created \/ s = Migrated \/ s = Enabled ->
    lstep s (done (sql_add_service n v svc tier)) s
| set_context key value :
    pl_MigrationContext p !! key = Some value ->
    lstep Created (done (sql_set_context n v key value)) Created
| migrate : lstep Created (done (sql_migrate n v)) Migrated
| read_services s rs :
    s = Migrated \/ s = Enabled -> rows_err rs = None ->
    lstep s (LServices (sql_services n v) (Ok rs)) s
| services_unreadable s rs :
    s = Migrated \/ s = Enabled -> rows_err rs <> None ->
    lstep s (LServices (sql_services n v) (Ok rs)) Stopped
| services_failed s e :
    s = Migrated \/ s = Enabled ->
    lstep s (LServices (sql_services n v) (Err e)) Stopped
| enable : lstep Migrated (done (sql_enable n v)) Enabled
| failed s sql e : s <> Stopped -> s <> Asking -> lstep s (LExec sql (Err e)) Stopped.

Inductive lifecycle : stage -> list entry -> stage -> Prop :=
| lifecycle_nil s : lifecycle s [] s
| lifecycle_snoc s log s' e s'' :
    lifecycle s log s' -> lstep s' e s'' -> lifecycle s (log ++ [e]) s''.
End lifecycle.

#[export] Hint Constructors lstep lifecycle : operator.

Section lifecycle_ok.
Context {U : GoUnicode}.
Variables (p : PluginSpec) (tier : string).

Abbreviation n := (pl_Name p).
Abbreviation v := (pl_Version p).
Abbreviation life := (lifecycle p tier Asking).

(** A statement that fits the stage leads to the next stage, or to [Stopped]. *)
Lemma exec_ok what sql s s' log h :
  life log s -> lstep p tier s (done sql) s' -> s <> Asking -> s <> Stopped ->
  go_ok logging (exec_wrapped what sql) log h (fun log' _ r =>
    match r with Ok _ => life log' s' | Err _ => life log' Stopped end).
Proof.
  intros Hl Hs Ha Hst. unfold exec_wrapped. go_auto. intros [[]|e] _; simpl;
    eapply lifecycle_snoc; eauto. by apply failed.
Qed.

Lemma exec_loop {A} (l : list A) (what sql : A -> string) s log h :
  life log s -> s <> Asking -> s <> Stopped ->
  (forall x, x ∈ l -> lstep p tier s (done (sql x)) s) ->
  go_ok logging (for_each l (fun x => exec_wrapped (what x) (sql x))) log h
    (fun log' _ r => match r with Ok _ => life log' s | Err _ => life log' Stopped end).
Proof.
  intros Hl Ha Hst Hstep.
  eapply go_ok_mono; [apply (go_ok_for_each logging l _ (fun _ log' _ => life log' s)
    (fun log' _ _ => life log' Stopped)); [done|]|by intros ? ? []].
  intros pre x post log' h' -> HI. eapply exec_ok; eauto. apply Hstep. set_solver.
Qed.

Lemma migrate_ok log h :
  life log Created ->
  go_ok logging (migrate_plugin p tier) log h (fun log' _ r =>
    match r with Ok _ => life log' Migrated | Err _ => life log' Stopped end).
Proof.
  intros Hl. unfold migrate_plugin, add_service. go_step.
  eapply go_ok_mono; [apply exec_loop; eauto with operator|].
  intros log1 h1 [|e] H1; [|done]. go_auto. intros [order Hord] _. simpl.
  rewrite app_nil_r. go_step. eapply go_ok_mono; [apply exec_loop; eauto|].
  - intros [key value] Hin. apply set_context. rewrite Hord in Hin.
    by apply elem_of_map_to_list in Hin.
  - intros log2 h2 [|e] H2; [|done]. eapply exec_ok; eauto with operator.
Qed.

Lemma bind_services_ok s log h :
  life log s -> s = Migrated \/ s = Enabled ->
  go_ok logging (bind_services p tier) log h (fun log' _ r =>
    match r with Ok _ => life log' s | Err _ => life log' Stopped end).
Proof.
  intros Hl Hs. assert (s <> Asking /\ s <> Stopped) as [? ?] by (destruct Hs; by subst).
  unfold bind_services, queryPluginServices. go_auto. intros [rs|e] _; simpl.
  - unfold rows_result. destruct (rows_err rs) as [e|] eqn:E; go_auto.
    { eapply lifecycle_snoc; [done|]. apply services_unreadable; [done|by rewrite E]. }
    eapply go_ok_mono; [apply (go_ok_for_each logging _ _ (fun _ log' _ => life log' s)
      (fun log' _ _ => life log' Stopped))|by intros ? ? []].
    + eapply lifecycle_snoc; [done|]. by apply read_services.
    + intros pre x post log' h' _ HI. go_auto. eapply exec_ok; eauto.
      apply bind. tauto.
  - eapply lifecycle_snoc; [done|]. by apply services_failed.
Qed.

(** What [reconcilePlugin] claims of its log and result. *)
Definition plugin_outcome (log : list entry) (r : result PluginStatus) : Prop :=
  match r with
  | Ok st => life log Enabled /\
             st = {| pst_Name := n; pst_Version := v; pst_Enabled := true |}
  | Err _ => life log Stopped
  end.

(** The installation of a created version. *)
Lemma install_ok log h :
  life log Created ->
  go_ok logging
    (migrate_plugin p tier;; bind_services p tier;;
     enabled <- exec_wrapped "ENABLE PLUGIN" (sql_enable n v);; go_ret true;
     go_ret {| pst_Name := n; pst_Version := v; pst_Enabled := enabled |})%go
    log h (fun log' _ r => plugin_outcome log' r).
Proof.
  intros Hl. go_step. eapply go_ok_mono; [by apply migrate_ok|].
  intros log2 h2 [|e] H2; [|done]. go_step.
  eapply go_ok_mono; [apply (bind_services_ok Migrated); auto|].
  intros log3 h3 [|e] H3; [|done]. do 2 go_step.
  eapply go_ok_mono; [eapply (exec_ok _ _ Migrated Enabled); eauto with operator|].
  intros log4 h4 [|e] H4; [|done]. by go_auto.
Qed.

(** C11.  Whatever the database answers, the statements [reconcilePlugin] issues
    for a plugin version follow its life cycle: created only if absent, given a
    migration context only before the migration, migrated only after creation,
    its services read only after the migration, enabled only after migration,
    nothing after a failure; and it reports success exactly when the version ends
    up enabled. *)
Theorem reconcilePlugin_follows_lifecycle h :
  go_ok logging (reconcilePlugin p tier) [] h (fun log _ r => plugin_outcome log r).
Proof.
  unfold reconcilePlugin, queryPluginState. go_auto. intros [rs|e] _; simpl.
  2: { eapply (lifecycle_snoc _ _ _ []); eauto with operator. }
  assert (forall s, lstep p tier Asking (LState (sql_state n v) (Ok rs)) s ->
    life [LState (sql_state n v) (Ok rs)] s) as Hfirst.
  { intros s Hs. eapply (lifecycle_snoc _ _ _ []); eauto with operator. }
  unfold rows_result. destruct (rows_scans rs) as [|[enabled|e] l] eqn:Es; simpl.
  - go_step. destruct (rows_err rs) as [e|] eqn:Ee; simpl.
    { apply Hfirst, ask_unreadable. rewrite Ee. by left. }
    go_step. eapply go_ok_mono; [eapply exec_ok; eauto with operator|].
    intros log1 h1 [|e] H1; [by apply install_ok|done].
  - go_step. destruct (rows_err rs) as [e|] eqn:Ee; simpl.
    { apply Hfirst, ask_unreadable. rewrite Ee. by left. }
    pose proof (Hfirst _ (ask_present p tier enabled l rs Es Ee)) as H0.
    go_step. go_step. destruct enabled; simpl; [|by apply install_ok].
    do 3 go_step. eapply go_ok_mono; [apply (bind_services_ok Enabled); auto|].
    intros log3 h3 [|e] H3; [|done]. by go_auto.
  - go_step. apply Hfirst, ask_unreadable. right. eauto.
Qed.
End lifecycle_ok.

(** ** The exact statements of a success *)

Section exact.
Context {U : GoUnicode}.

(** [m] ends without error only with the statements [sqls] done. *)
Definition logs {A} (m : GoM A) (entries : list entry) : Prop := forall log h,
  go_ok logging m log h (fun log' h' r =>
    h' = h /\ match r with Ok _ => log' = log ++ entries | Err _ => True end).

Lemma logs_exec what sql : logs (exec_wrapped what sql) [done sql].
Proof. intros log h. unfold exec_wrapped. go_auto. by intros [[]|e] _. Qed.

Lemma logs_ret {A} (a : A) : logs (go_ret a) [].
Proof. intros log h. apply go_ok_ret. by rewrite app_nil_r. Qed.

Lemma logs_seq {A B} (m : GoM A) (f : A -> GoM B) l1 l2 :
  logs m l1 -> (forall a, logs (f a) l2) -> logs (go_bind m f) (l1 ++ l2).
Proof.
  intros H1 H2 log h. go_step. eapply go_ok_mono; [apply H1|].
  intros log1 h1 [a|e] [-> H]; [|done]. eapply go_ok_mono; [apply H2|].
  intros log2 h2 [b|e] [-> H']; [|done]. by rewrite H', H, app_assoc.
Qed.

Lemma logs_for_each {A} (l : list A) (f : A -> GoM unit) (g : A -> list entry) :
  (forall x, logs (f x) (g x)) -> logs (for_each l f) (l ≫= g).
Proof.
  intros Hf. induction l as [|x l IH]; [apply logs_ret|].
  rewrite bind_cons. apply logs_seq; auto.
Qed.

Lemma logs_if {A} (b : bool) (m1 m2 : GoM A) l1 l2 :
  logs m1 l1 -> logs m2 l2 -> logs (if b then m1 else m2) (if b then l1 else l2).
Proof. by destruct b. Qed.
End exact.

Section success.
Context {U : GoUnicode}.
Variables (p : PluginSpec) (tier : string).

Abbreviation n := (pl_Name p).
Abbreviation v := (pl_Version p).

(** The statements before the services are read back. *)
Definition migrate_plan (order : list (string * string)) : list string :=
  map (fun s => sql_add_service n v (pls_Name s) tier) (pl_Services p) ++
  map (fun kv => sql_set_context n v kv.1 kv.2) order ++ [sql_migrate n v].

(** The statements for the services that were read back. *)
Definition bind_plan (rs : rows service_row) : list string :=
  map (fun r => sql_add_service n v (sr_name r) tier)
    (filter (fun r => containsString (unmarshal_strings (sr_tiersJSON r)) tier = false)
      (scanned rs)).

Definition row_exists (rs : rows bool) : bool :=
  match rows_scans rs with [] => false | _ => true end.
Definition row_enabled (rs : rows bool) : bool :=
  match rows_scans rs with Ok true :: _ => true | _ => false end.

(** The whole conversation of a success. *)
Definition success_log (rs : rows bool) (order : list (string * string))
  (srs : rows service_row) : list entry :=
  [LState (sql_state n v) (Ok rs)] ++
  (if row_exists rs then [] else [done (sql_create n v)]) ++
  (if row_enabled rs then [] else map done (migrate_plan order)) ++
  [LServices (sql_services n v) (Ok srs)] ++
  map done (bind_plan srs) ++
  (if row_enabled rs then [] else [done (sql_enable n v)]).

Lemma bind_one {A B} (l : list A) (f : A -> B) : (l ≫= fun x => [f x]) = map f l.
Proof. induction l as [|x l IH]; [reflexivity|]. rewrite bind_cons, IH. reflexivity. Qed.

Lemma migrate_logs log h :
  go_ok logging (migrate_plugin p tier) log h (fun log' h' r => h' = h /\
    match r with
    | Ok _ => exists order, order ≡ₚ map_to_list (pl_MigrationContext p) /\
                log' = log ++ map done (migrate_plan order)
    | Err _ => True
    end).
Proof.
  unfold migrate_plugin, add_service. go_step.
  eapply go_ok_mono; [apply (logs_for_each _ _ (fun s =>
    [done (sql_add_service n v (pls_Name s) tier)])); intros; apply logs_exec|].
  intros log1 h1 [|e] [-> H1]; [|easy]. go_auto. intros [order Hord] _. simpl.
  eapply go_ok_mono; [apply (logs_seq (for_each order _) _
    (order ≫= fun kv => [done (sql_set_context n v kv.1 kv.2)]) [done (sql_migrate n v)])|].
  - apply logs_for_each. intros. apply logs_exec.
  - intros. apply logs_exec.
  - intros log2 h2 [|e] [-> H2]; [|easy]. split; [easy|]. exists order. split; [easy|].
    rewrite H2, app_nil_r, H1, !bind_one. unfold migrate_plan.
    rewrite !map_app, !map_map. by rewrite <-!app_assoc.
Qed.

Lemma bind_services_logs log h :
  go_ok logging (bind_services p tier) log h (fun log' h' r => h' = h /\
    match r with
    | Ok _ => exists srs, log' =
        log ++ [LServices (sql_services n v) (Ok srs)] ++ map done (bind_plan srs)
    | Err _ => True
    end).
Proof.
  unfold bind_services, queryPluginServices. go_auto. intros [srs|e] _; simpl; [|easy].
  unfold rows_result. destruct (rows_err srs); go_auto.
  eapply go_ok_mono; [apply (logs_for_each _ _ (fun s =>
    if containsString (ps_tiers s) tier then []
    else [done (sql_add_service n v (ps_name s) tier)])); intros;
    apply logs_if; [apply logs_ret|apply logs_exec]|].
  intros log1 h1 [|e] [-> H1]; [|easy]. split; [easy|]. exists srs.
  rewrite H1, <-app_assoc. clear H1. do 2 f_equal. unfold bind_plan.
  induction (scanned srs) as [|r l IH]; [reflexivity|]. cbn [map].
  rewrite bind_cons, filter_cons, IH. simpl.
  destruct (containsString _ _); reflexivity.
Qed.

(** C12.  A successful [reconcilePlugin] has done exactly this: created the
    version if the state query returned no row; and if the version was not
    enabled, bound every service of the spec to the tier, then set the whole
    migration context in some order, then migrated; then bound the services read
    back whose tiers miss the tier; then enabled it. *)
Theorem reconcilePlugin_success_log h :
  go_ok logging (reconcilePlugin p tier) [] h (fun log h' r => h' = h /\
    match r with
    | Ok _ => exists rs order srs,
        order ≡ₚ map_to_list (pl_MigrationContext p) /\ log = success_log rs order srs
    | Err _ => True
    end).
Proof.
  unfold reconcilePlugin, queryPluginState. go_auto. intros [rs|e] _; simpl; [|easy].
  apply (go_ok_mono _ _ _ _ (fun log h' r => h' = h /\
    match r with
    | Ok st => log = [LState (sql_state n v) (Ok rs)] /\ st = (row_exists rs, row_enabled rs)
    | Err _ => True
    end)).
  { unfold row_exists, row_enabled.
    destruct (rows_scans rs) as [|[[]|e] l]; go_auto; unfold rows_result;
      by destruct (rows_err rs). }
  intros log0 h0 [[ex en]|e] [-> H0]; [|easy]. destruct H0 as [-> [= -> ->]].
  unfold success_log. go_step.
  eapply go_ok_mono; [apply logs_if; [apply logs_ret|apply logs_exec]|].
  intros log1 h1 [|e] [-> H1]; [|easy]. go_step. apply (go_ok_mono _ _ _ _ (fun log h' r =>
    h' = h /\ match r with
    | Ok _ => exists order, order ≡ₚ map_to_list (pl_MigrationContext p) /\
        log = log1 ++ (if row_enabled rs then [] else map done (migrate_plan order))
    | Err _ => True
    end)).
  { destruct (row_enabled rs); [|apply migrate_logs]. go_auto. split; [easy|].
    eexists. by rewrite app_nil_r. }
  intros log2 h2 [|e] [-> H2]; [|easy]. destruct H2 as (order & Hord & H2). go_step.
  eapply go_ok_mono; [apply bind_services_logs|].
  intros log3 h3 [|e] [-> H3]; [|easy]. destruct H3 as [srs H3]. go_step.
  eapply go_ok_mono; [apply (logs_if (row_enabled rs) (go_ret (row_enabled rs)) _ []
    [done (sql_enable n v)]); [apply logs_ret|]|].
  { rewrite <-(app_nil_r [_]). apply logs_seq; [apply logs_exec|intros; apply logs_ret]. }
  intros log4 h4 [|e] [-> H4]; [|easy]. go_step. split; [easy|]. exists rs, order, srs.
  split; [easy|]. rewrite H4, H3, H2, H1. simpl. by rewrite <-!app_assoc.
Qed.
End success.

(** ** Removal of obsolete versions *)

Section obsolete.
Context {R : PtrRep}.
Variable tier : TierSpec R.

(** The statements that remove one installed version. *)
Definition drop_plan (inst : installed_plugin) : list string :=
  (if in_enabled inst then [sql_disable (in_name inst) (in_version inst)] else []) ++
  [sql_drop (in_name inst) (in_version inst)].

Lemma drop_logs inst : logs (drop_plugin inst) (map done (drop_plan inst)).
Proof.
  unfold drop_plugin, drop_plan. rewrite map_app.
  apply logs_seq; [|intros; apply logs_exec].
  destruct (in_enabled inst); [apply logs_exec|apply logs_ret].
Qed.

(** What a success leaves in the log. *)
Lemma drop_obsolete_logs h :
  go_ok logging (dropObsoletePlugins tier) [] h (fun log h' r => h' = h /\
    match r with
    | Ok _ => exists rs, log = LInstalled sql_installed (Ok rs) ::
        map done (filter (fun i => is_desired tier i = false) (scanned rs) ≫= drop_plan)
    | Err _ => True
    end).
Proof.
  unfold dropObsoletePlugins. go_auto. intros [rs|e] _; simpl; [|easy].
  destruct (rows_err rs); [easy|].
  eapply go_ok_mono; [apply (logs_for_each _ _ (fun i =>
    if is_desired tier i then [] else map done (drop_plan i))); intros;
    apply logs_if; [apply logs_ret|apply drop_logs]|].
  intros log1 h1 [|e] [-> H1]; [|easy]. split; [easy|]. exists rs. rewrite H1. clear H1.
  simpl. f_equal. induction (scanned rs) as [|i l IH]; [reflexivity|].
  rewrite bind_cons, filter_cons, IH. destruct (is_desired tier i); simpl; [reflexivity|].
  rewrite map_app. reflexivity.
Qed.

(** The version of the last plugin of the tier that has the name. *)
Definition wanted_version (name : string) : option string :=
  pl_Version <$> list.last (filter (fun p => pl_Name p = name) (t_Plugins tier)).

(** The tier's plugins name another version, or none. *)
Definition obsolete (inst : installed_plugin) : Prop :=
  wanted_version (in_name inst) <> Some (in_version inst).

#[export] Instance obsolete_dec inst : Decision (obsolete inst).
Proof. unfold obsolete. apply _. Defined.

Lemma desired_versions_last name : desired_versions tier !! name = wanted_version name.
Proof.
  unfold desired_versions, wanted_version.
  induction (t_Plugins tier) as [|p ps IH] using rev_ind; [reflexivity|].
  rewrite fold_left_app, list.filter_app, list.last_app. simpl. rewrite filter_cons, filter_nil.
  destruct (decide (pl_Name p = name)) as [<-|Hn]; simpl.
  - by rewrite lookup_insert_eq.
  - by rewrite lookup_insert_ne.
Qed.

Lemma is_desired_obsolete inst : is_desired tier inst = false <-> obsolete inst.
Proof. unfold is_desired, obsolete. by rewrite desired_versions_last, bool_decide_eq_false. Qed.

(** The rows that are read without an error. *)
Definition read_rows (rs : rows installed_plugin) : list installed_plugin :=
  r ← rows_scans rs; match r with Ok inst => [inst] | Err _ => [] end.

Lemma scanned_rows rs : scanned rs = read_rows rs.
Proof.
  unfold scanned, read_rows. induction (rows_scans rs) as [|[inst|e] l IH]; [reflexivity|..];
    rewrite bind_cons; simpl; by rewrite <-IH.
Qed.

(** C21.  A successful [dropObsoletePlugins] asks once for the installed versions
    and removes, in order, each one that is not the version that the last plugin of
    this name in [tier.Plugins] has, or whose name none has: it is disabled first when
    it is enabled, then dropped.  The wanted versions are not touched. *)
Theorem dropObsoletePlugins_log h :
  go_ok logging (dropObsoletePlugins tier) [] h (fun log h' r => h' = h /\
    match r with
    | Ok _ => exists rs, log = LInstalled sql_installed (Ok rs) ::
        map done (filter obsolete (read_rows rs) ≫= drop_plan)
    | Err _ => True
    end).
Proof.
  eapply go_ok_mono; [apply drop_obsolete_logs|]. intros log h' [u|e] [-> H]; [|easy].
  split; [easy|]. destruct H as [rs ->]. exists rs. rewrite scanned_rows. do 3 f_equal.
  apply list_filter_iff. intros inst. apply is_desired_obsolete.
Qed.

Lemma desired_versions_not_named name :
  (forall p, p ∈ t_Plugins tier -> pl_Name p <> name) ->
  desired_versions tier !! name = None.
Proof.
  intros Hn. rewrite desired_versions_last. unfold wanted_version.
  destruct (filter _ _) as [|p ps] eqn:E; [reflexivity|].
  assert (p ∈ filter (fun p => pl_Name p = name) (t_Plugins tier)) as Hp
    by (rewrite E; set_solver).
  apply list_elem_of_filter in Hp as [Hname Hin]. destruct (Hn p Hin Hname).
Qed.

(** C25.  [_pico_plugin] lists the plugins of the whole cluster, but the wanted
    versions are those of the one tier being reconciled: a successful
    [dropObsoletePlugins] drops every installed plugin that this tier does not
    name, in whatever version and whichever other tier declares it. *)
Theorem drops_plugins_of_other_tiers inst h :
  (forall q, q ∈ t_Plugins tier -> pl_Name q <> in_name inst) ->
  go_ok logging (dropObsoletePlugins tier) [] h (fun log _ r =>
    match r with
    | Ok _ => forall rs, LInstalled sql_installed (Ok rs) ∈ log -> inst ∈ scanned rs ->
        done (sql_drop (in_name inst) (in_version inst)) ∈ log
    | Err _ => True
    end).
Proof.
  intros Hother. eapply go_ok_mono; [apply drop_obsolete_logs|].
  intros log h' [[]|e] [_ H]; [|easy]. destruct H as [rs ->].
  intros rs' Hin Hrow. apply list_elem_of_In in Hin as [[= <-]|Hin].
  - right. apply (list_elem_of_fmap_2 done). apply list_elem_of_bind. eexists. split.
    2: { apply list_elem_of_filter. split; [|exact Hrow]. unfold is_desired.
         rewrite desired_versions_not_named by exact Hother. reflexivity. }
    unfold drop_plan. apply elem_of_app. right. by apply list_elem_of_singleton.
  - apply in_map_iff in Hin as (sql & Hsql & _). discriminate.
Qed.
End obsolete.

(** Reconciling the tier "arbiter" drops the plugin of the tier "default". *)
Lemma drops_plugins_of_other_tiers_witness :
  go_ok logging (dropObsoletePlugins sample_plain_tier) [] sample_heap (fun log _ r =>
    match r with
    | Ok _ => forall rs, LInstalled sql_installed (Ok rs) ∈ log ->
        {| in_name := "radix"; in_version := "1.0.0"; in_enabled := true |} ∈ scanned rs ->
        done (sql_drop "radix" "1.0.0") ∈ log
    | Err _ => True
    end).
Proof.
  apply (drops_plugins_of_other_tiers sample_plain_tier
    {| in_name := "radix"; in_version := "1.0.0"; in_enabled := true |} sample_heap).
  intros q Hq. inversion Hq.
Defined.

(** ** The connection *)

(** A connection only to one of [dsns]; statements and queries only on an open one; no second connection while
    one is open; nothing is closed twice; and, apart from reading a Secret, no call
    to the API server. *)
Definition connection (dsns : string -> Prop) : monitor Op bool := {|
  allowed := fun opened _ e =>
    match e with
    | Connect dsn => dsns dsn /\ opened = false
    | Exec _ | Query _ _ | Close => opened = true
    | Get KSecret _ | RangeMap _ => True
    | _ => False
    end;
  expected := fun _ _ _ _ => True;
  advance := fun opened _ e =>
    match e in Op X return X -> bool with
    | Connect _ => fun r => is_ok r
    | Close => fun _ => false
    | _ => fun _ => opened
    end
|}.

(** The calls of a plugin reconciliation. *)
Definition plugin_call (dsns : string -> Prop) {X} (e : Op X) : Prop :=
  match e with
  | Connect dsn => dsns dsn
  | Get KSecret _ | Exec _ | Query _ _ | Close | RangeMap _ => True
  | _ => False
  end.

(** The connection strings of a tier. *)
Definition tier_dsn {R} (cluster : PicoclusterDB R) (tier : TierSpec R) (dsn : string) : Prop :=
  exists password, dsn = connStr cluster tier password.

Section keeping.
Context {U : GoUnicode}.
Variable dsns : string -> Prop.

(** [m] leaves an open connection open and the heap alone, and a result of it
    satisfies [P]. *)
Definition keeps {A} (m : GoM A) (P : A -> Prop) : Prop := forall h,
  go_ok (connection dsns) m true h (fun opened h' r =>
    (opened = true /\ h' = h) /\ match r with Ok a => P a | Err _ => True end).

Lemma keeps_ret {A} (a : A) (P : A -> Prop) : P a -> keeps (go_ret a) P.
Proof. intros Ha h. by apply go_ok_ret. Qed.

Lemma keeps_lift {A} (r : result A) (P : A -> Prop) :
  (forall a, r = Ok a -> P a) -> keeps (lift r) P.
Proof. intros Hr h. apply go_ok_lift. split; [easy|]. destruct r; auto. Qed.

Lemma keeps_throw {A} e (P : A -> Prop) : keeps (throw e) P.
Proof. by intros h. Qed.

Lemma keeps_bind {A B} (m : GoM A) (f : A -> GoM B) P Q :
  keeps m P -> (forall a, P a -> keeps (f a) Q) -> keeps (go_bind m f) Q.
Proof.
  intros Hm Hf h. go_step. eapply go_ok_mono; [apply Hm|].
  intros s' h' [a|e] [[-> ->] Ha]; [|easy]. by apply Hf.
Qed.

Lemma keeps_wrap {A} p (m : GoM A) P : keeps m P -> keeps (wrap_err p m) P.
Proof.
  intros Hm h. go_step. eapply go_ok_mono; [apply Hm|]. by intros s' h' [a|e].
Qed.

Lemma keeps_exec what sql P : P tt -> keeps (exec_wrapped what sql) P.
Proof. intros HP. apply keeps_wrap. intros h. go_auto. by intros [[]|] _. Qed.

Lemma keeps_query t sql : keeps (request (Query t sql)) (fun _ => True).
Proof. intros h. go_auto. by intros []. Qed.

Lemma keeps_for_each {A} (l : list A) (f : A -> GoM unit) :
  (forall x, keeps (f x) (fun _ => True)) -> keeps (for_each l f) (fun _ => True).
Proof.
  intros Hf. induction l as [|x l IH]; [by apply keeps_ret|]. by eapply keeps_bind.
Qed.

Lemma keeps_collect {A B} (l : list A) (f : A -> GoM B) (g : A -> B) :
  (forall x, keeps (f x) (fun y => y = g x)) ->
  keeps (collect l f) (fun ys => ys = map g l).
Proof.
  intros Hf. induction l as [|x l IH]; [by apply keeps_ret|].
  eapply keeps_bind; [apply Hf|]. intros y ->. eapply keeps_bind; [apply IH|].
  intros ys ->. by apply keeps_ret.
Qed.

Lemma keeps_map_range m :
  keeps (ask (RangeMap m)) (fun _ => True).
Proof. intros h. by go_auto. Qed.

Lemma keeps_migrate p tier : keeps (migrate_plugin p tier) (fun _ => True).
Proof.
  eapply keeps_bind; [apply keeps_for_each; intros; by apply keeps_exec|]. intros _ _.
  eapply keeps_bind; [apply keeps_map_range|]. intros order _.
  eapply keeps_bind; [apply keeps_for_each; intros; by apply keeps_exec|]. intros _ _.
  by apply keeps_exec.
Qed.

Lemma keeps_bind_services p tier : keeps (bind_services p tier) (fun _ => True).
Proof.
  apply (keeps_bind _ _ (fun _ => True)); [eapply keeps_bind; [apply keeps_query|]|].
  - intros rs _. by apply keeps_lift.
  - intros svcs _. apply keeps_for_each. intros x.
    destruct (containsString _ _); [by apply keeps_ret|by apply keeps_exec].
Qed.

(** The status reported for a plugin of the spec. *)
Definition enabled_status (p : PluginSpec) : PluginStatus :=
  {| pst_Name := pl_Name p; pst_Version := pl_Version p; pst_Enabled := true |}.

Lemma keeps_reconcilePlugin p tier :
  keeps (reconcilePlugin p tier) (fun st => st = enabled_status p).
Proof.
  apply (keeps_bind _ _ (fun _ => True)).
  { eapply keeps_bind; [apply keeps_query|]. intros rs _.
    destruct (rows_scans rs) as [|[]]; [by apply keeps_lift..|by apply keeps_throw]. }
  intros [ex en] _.
  apply (keeps_bind _ _ (fun _ => True));
    [destruct ex; [by apply keeps_ret|by apply keeps_exec]|]. intros _ _.
  apply (keeps_bind _ _ (fun _ => True));
    [destruct en; [by apply keeps_ret|by apply keeps_migrate]|]. intros _ _.
  eapply keeps_bind; [apply keeps_bind_services|]. intros _ _.
  apply (keeps_bind _ _ (fun b => b = true)).
  - destruct en; [by apply keeps_ret|].
    apply (keeps_bind _ _ (fun _ => True)); [by apply keeps_exec|]. intros _ _.
    by apply keeps_ret.
  - intros b ->. by apply keeps_ret.
Qed.

Lemma keeps_dropObsolete {R} (tier : TierSpec R) :
  keeps (dropObsoletePlugins tier) (fun _ => True).
Proof.
  eapply keeps_bind; [apply keeps_query|]. intros rs _.
  destruct (rows_err rs); [apply keeps_throw|]. apply keeps_for_each. intros i.
  destruct (is_desired tier i); [by apply keeps_ret|].
  apply (keeps_bind _ _ (fun _ => True)).
  - destruct (in_enabled i); [by apply keeps_exec|by apply keeps_ret].
  - intros _ _. by apply keeps_exec.
Qed.

End keeping.

Section connected.
Context {U : GoUnicode}.

Lemma plugins_connected {R} (cluster : PicoclusterDB R) (tier : TierSpec R) h :
  go_ok (connection (tier_dsn cluster tier)) (reconcileTierPlugins cluster tier) false h (fun opened h' r =>
    (opened = false /\ h' = h) /\
    match r with Ok sts => sts = map enabled_status (t_Plugins tier) | Err _ => True end).
Proof.
  unfold reconcileTierPlugins. destruct (t_Plugins tier) as [|p ps] eqn:E; [by go_auto|].
  rewrite <-E. clear E p ps. do 2 go_step. unfold getAdminPassword. go_auto.
  intros [sec|e] _; simpl; [|easy].
  destruct (sec_Data (sec : Secret) !! _) as [pw|]; go_auto; [by split; [exists pw|]|].
  intros [[]|e] _; simpl; [|easy]. unfold with_close. go_auto.
  eapply go_ok_mono; [apply (keeps_collect _ (t_Plugins tier) _ enabled_status)|].
  { intros x. apply keeps_wrap, keeps_reconcilePlugin. }
  intros s' h' [sts|e] [[-> ->] Hs]; simpl; go_auto.
  eapply go_ok_mono; [apply keeps_dropObsolete|].
  intros s2 h2 r [[-> ->] _]. by go_auto.
Qed.

(** A monitor that does not mind those calls sees nothing of the plugins. *)
Lemma plugins_quiet {S} (M : monitor Op S) {R} (cluster : PicoclusterDB R)
  (tier : TierSpec R) s h :
  (forall X (e : Op X), plugin_call (tier_dsn cluster tier) e ->
     allowed M s X e /\ forall x, expected M s X e x -> advance M s X e x = s) ->
  go_ok M (reconcileTierPlugins cluster tier) s h (fun s' h' r =>
    (s' = s /\ h' = h) /\
    match r with Ok sts => sts = map enabled_status (t_Plugins tier) | Err _ => True end).
Proof.
  intros HM. eapply obeys_mono;
    [|eapply (obeys_sim (connection (tier_dsn cluster tier)) M (fun _ s' => s' = s)); [| |apply plugins_connected]].
  - intros s' [h' r] (o & -> & [_ ->] & Hr). by split.
  - intros o s' X e -> Ha. destruct (HM X e) as [Ha' Hx].
    { destruct e as [[]| | | | | | | | | | | |]; easy || apply Ha. }
    split; [exact Ha'|]. intros x He. split; [easy|]. by apply Hx.
  - easy.
Qed.

End connected.

(** ** The steady state *)

(** The database of an installed plugin: the version is enabled, and every service
    it lists (and that can be scanned) runs on the tier.  Only queries are allowed. *)
Definition settled `{GoUnicode} (tier : string) : monitor Op unit := {|
  allowed := fun _ _ e =>
    match e with Query REnabled _ | Query RService _ => True | _ => False end;
  expected := fun _ _ e =>
    match e in Op X return X -> Prop with
    | Query t _ =>
        match t return result (rows (row t)) -> Prop with
        | REnabled => fun r => exists rs l,
            r = Ok rs /\ rows_scans rs = Ok true :: l /\ rows_err rs = None
        | RService => fun r => exists rs,
            r = Ok rs /\ rows_err rs = None /\
            Forall (fun s => containsString (unmarshal_strings (sr_tiersJSON s)) tier = true)
              (scanned rs)
        | RInstalled => fun _ => True
        end
    | _ => fun _ => True
    end;
  advance := fun s _ _ _ => s
|}.

(** C22.  Reconciling a plugin that is installed already changes nothing: it issues
    no statement and reports the plugin as enabled. *)
Theorem reconcilePlugin_idempotent {U : GoUnicode} (p : PluginSpec) (tier : string) h :
  go_ok (settled tier) (reconcilePlugin p tier) tt h (fun _ h' r =>
    h' = h /\ r = Ok (enabled_status p)).
Proof.
  unfold reconcilePlugin, queryPluginState. go_auto. intros r (rs & l & -> & Hs & He).
  simpl. rewrite Hs. unfold rows_result. rewrite He. simpl. do 5 go_step.
  unfold bind_services, queryPluginServices. go_auto.
  intros r2 (rs2 & -> & He2 & Hall). simpl. unfold rows_result. rewrite He2. go_step. simpl.
  eapply go_ok_mono; [apply (go_ok_for_each (settled tier) _ _ (fun _ _ h' => h' = h)
    (fun _ _ _ => False)); [reflexivity|]|].
  - intros pre x post [] h' Hl ->.
    assert (containsString (ps_tiers x) tier = true) as ->; [|by go_auto].
    assert (x ∈ pre ++ x :: post) as Hx by (apply elem_of_app; right; left).
    rewrite <-Hl in Hx. apply list_elem_of_fmap in Hx as (s & -> & Hx). simpl.
    rewrite Forall_forall in Hall. apply Hall. by apply list_elem_of_In.
  - intros [] h' [u|e]; [|easy]. intros ->. by go_auto.
Qed.
