(* ===== verification/Store.v ===== *)
(** * An API server without other writers

    A monitor whose state is the set of stored objects.  What it expects of the
    answers is the documented behaviour of the Kubernetes API: a read answers the
    stored object or that there is none; a create answers the stored object, which
    agrees with the one sent on the fields its client manages (the server may
    complete the rest), and only for a fresh name; so does a patch; a patch of the
    status changes the status of the stored object and nothing else of it; a delete
    removes; a list answers exactly the matching objects, each once.  Any call may fail, and a
    failed call changes nothing. *)

From S2P Require Import Prelude GoLang K8s Types Heap Effects Api Logic Names Resources.
From S2P Require Import ConfigMap Services StatefulSet Plugins Reconciler.
From stdpp Require Import options.
From Stdlib Require Import Eqdep_dec.

(** ** Stores *)

Definition store := forall k : Kind, NamespacedName -> option (obj k).

Definition cast {k k' : Kind} (e : k = k') (o : option (obj k)) : option (obj k') :=
  eq_rect k (fun k => option (obj k)) o k' e.

(** [st] with the object under [n] of kind [k] replaced by [o]. *)
Definition upd (k : Kind) (n : NamespacedName) (o : option (obj k)) (st : store) : store :=
  fun k' n' =>
    match decide (k = k') with
    | left e => if decide (n = n') then cast e o else st k' n'
    | right _ => st k' n'
    end.

Lemma cast_refl k (e : k = k) o : cast e o = o.
Proof. by rewrite (UIP_dec Kind_eq_dec e eq_refl). Qed.

Lemma upd_same k n o st : upd k n o st k n = o.
Proof.
  unfold upd. destruct (decide (k = k)) as [e|]; [|done].
  rewrite decide_True by done. apply cast_refl.
Qed.

Lemma upd_other k n o st k' n' : k <> k' \/ n <> n' -> upd k n o st k' n' = st k' n'.
Proof.
  intros H. unfold upd. destruct (decide (k = k')) as [<-|]; [|done].
  rewrite decide_False; [done|]. by destruct H.
Qed.

(** ** The fields a client manages *)

Definition agrees_meta (m m' : ObjectMeta) : Prop :=
  key_of m' = key_of m /\ om_Labels m' = om_Labels m.

(** The stored object [o'] agrees with the object [o] that was sent: on its key, its
    labels and, per kind, the fields the operator reconciles.  A pod template may be
    completed by the server, but not in its labels and annotations. *)
Definition agrees (k : Kind) : obj k -> obj k -> Prop :=
  match k with
  | KConfigMap => fun o o' =>
      agrees_meta (cm_Meta o) (cm_Meta o') /\ cm_Data o' = cm_Data o
  | KService => fun o o' =>
      agrees_meta (svc_Meta o) (svc_Meta o') /\
      css_Selector (svc_Spec o') = css_Selector (svc_Spec o) /\
      css_Ports (svc_Spec o') = css_Ports (svc_Spec o)
  | KStatefulSet => fun o o' =>
      agrees_meta (sts_Meta o) (sts_Meta o') /\
      sss_Replicas (sts_Spec o') = sss_Replicas (sts_Spec o) /\
      pt_Labels (sss_Template (sts_Spec o')) = pt_Labels (sss_Template (sts_Spec o)) /\
      pt_Annotations (sss_Template (sts_Spec o'))
        = pt_Annotations (sss_Template (sts_Spec o))
  | KIngress => fun o o' =>
      agrees_meta (ing_Meta o) (ing_Meta o') /\
      om_Annotations (ing_Meta o') = om_Annotations (ing_Meta o) /\
      cis_Rules (ing_Spec o') = cis_Rules (ing_Spec o) /\
      cis_TLS (ing_Spec o') = cis_TLS (ing_Spec o)
  | KPicoclusterDB => fun o o' => agrees_meta (db_Meta o) (db_Meta o')
  | KSecret => fun o o' => agrees_meta (sec_Meta o) (sec_Meta o')
  end.

Lemma agrees_refl k o : agrees k o o.
Proof. by destruct k. Qed.

Lemma agrees_trans k o1 o2 o3 : agrees k o1 o2 -> agrees k o2 o3 -> agrees k o1 o3.
Proof.
  destruct k; unfold agrees, agrees_meta; intros; destruct_and!; split_and!; congruence.
Qed.

Lemma agrees_key k o o' : agrees k o o' -> obj_key k o' = obj_key k o.
Proof. destruct k; unfold agrees, agrees_meta, obj_key; intros; by destruct_and!. Qed.

(** ** The status

    A JSON merge patch is the difference of two objects: a field of the status that differs
    between them is replaced, as a whole, and the others stay as they are stored. *)

Definition patch_field {A} `{EqDecision A} (base new stored : A) : A :=
  if decide (base = new) then stored else new.

Definition patch_status (base new stored : PicoclusterDBStatus) : PicoclusterDBStatus :=
  {| stat_Phase := patch_field (stat_Phase base) (stat_Phase new) (stat_Phase stored);
     stat_Tiers := patch_field (stat_Tiers base) (stat_Tiers new) (stat_Tiers stored);
     stat_Conditions :=
       patch_field (stat_Conditions base) (stat_Conditions new) (stat_Conditions stored) |}.

(** The stored cluster [c] after a patch through the status subresource, which ignores
    the rest of the objects it is given. *)
Definition status_patched (base new c : PicoclusterDB Wire) : PicoclusterDB Wire :=
  set_status (patch_status (db_Status base) (db_Status new) (db_Status c)) c.

Lemma patch_status_stored base new : patch_status base new base = new.
Proof.
  unfold patch_status, patch_field. destruct base, new; simpl.
  do 3 case_decide; by simplify_eq.
Qed.

(** Nothing but the status of a cluster has changed. *)
Definition same_but_status (o o' : option (PicoclusterDB Wire)) : Prop :=
  match o, o' with
  | Some c, Some c' => db_Meta c' = db_Meta c /\ db_Spec c' = db_Spec c
  | None, None => True
  | _, _ => False
  end.

#[export] Instance same_but_status_preorder : PreOrder same_but_status.
Proof.
  split; [by intros []|]. intros [a|] [b|] [c|]; simpl; try done.
  intros [-> ->] [-> ->]. done.
Qed.

(** ** The monitor *)

Definition matches (k : Kind) (ns : string) (l : gmap string string) (o : obj k) : Prop :=
  om_Namespace (obj_meta k o) = ns /\ labels_match l (om_Labels (obj_meta k o)) = true.

Definition api_expected (st : store) {X} (e : Op X) : X -> Prop :=
  match e in Op X return X -> Prop with
  | Get k n => fun r =>
      match r with
      | Ok o => st k n = Some o /\ obj_key k o = n
      | Err e => IsNotFound e = true -> st k n = None
      end
  | Create k o => fun r =>
      match r with Ok o' => st k (obj_key k o) = None /\ agrees k o o' | Err _ => True end
  | Patch k base new => fun r =>
      match r with
      | Ok o' => obj_key k new = obj_key k base -> st k (obj_key k base) = Some base ->
                 agrees k new o'
      | Err _ => True
      end
  | Delete k o => fun r =>
      match r with
      | Ok _ => True
      | Err e => IsNotFound e = true -> st k (obj_key k o) = None
      end
  | ListObjs k ns l => fun r =>
      match r with
      | Ok items => NoDup items /\
          forall o, o ∈ items <-> st k (obj_key k o) = Some o /\ matches k ns l o
      | Err _ => True
      end
  | StatusPatch _ new => fun r =>
      match r with
      | Ok _ => is_Some (st KPicoclusterDB (obj_key KPicoclusterDB new))
      | Err _ => True
      end
  | _ => fun _ => True
  end.

Definition api_advance (st : store) {X} (e : Op X) : X -> store :=
  match e in Op X return X -> store with
  | Create k o => fun r =>
      match r with Ok o' => upd k (obj_key k o) (Some o') st | Err _ => st end
  | Patch k base _ => fun r =>
      match r with Ok o' => upd k (obj_key k base) (Some o') st | Err _ => st end
  | Delete k o => fun r =>
      match r with Ok _ => upd k (obj_key k o) None st | Err _ => st end
  | StatusPatch base new => fun r =>
      let n := obj_key KPicoclusterDB new in
      match r, st KPicoclusterDB n with
      | Ok _, Some c => upd KPicoclusterDB n (Some (status_patched base new c)) st
      | _, _ => st
      end
  | _ => fun _ => st
  end.

Definition store_api : monitor Op store := {|
  allowed := fun _ _ e => match e with Hang => False | _ => True end;
  expected := fun st _ e => api_expected st e;
  advance := fun st _ e => api_advance st e
|}.

(** ** Each reconciler brings its object in sync *)

Lemma get_create_or_patch_syncs k merge (desired : obj k) st h :
  (forall e, obj_key k e = obj_key k desired ->
     agrees k desired (merge e desired) /\ obj_key k (merge e desired) = obj_key k e) ->
  go_ok store_api (get_create_or_patch k merge desired) st h (fun st' h' r =>
    h' = h /\
    match r with
    | Ok d => agrees k desired d /\ exists o, agrees k desired o /\
        st' = upd k (obj_key k desired) (Some o) st
    | Err _ => st' = st
    end).
Proof.
  intros Hm. unfold get_create_or_patch. go_auto. intros [o|e] Ho; simpl in *; go_auto.
  - intros [o'|e] Ho'; simpl in *; [|done]. destruct Ho as [Hst Hk].
    destruct (Hm o Hk) as [Ha Hmk]. rewrite Hk in Ho', Hmk. specialize (Ho' Hmk Hst).
    split; [done|]. split; [apply agrees_refl|]. exists o'. rewrite Hk.
    split; [by eapply agrees_trans|done].
  - intros [o'|e'] Ho'; simpl in *; [|done]. destruct Ho' as [_ Ha]. split; [done|].
    split; [done|]. by exists o'.
Qed.

Lemma ConfigMap_syncs desired st h :
  go_ok store_api (reconcileConfigMap desired) st h (fun st' h' r =>
    h' = h /\
    match r with
    | Ok d => agrees KConfigMap desired d /\ exists o, agrees KConfigMap desired o /\
        st' = upd KConfigMap (obj_key KConfigMap desired) (Some o) st
    | Err _ => st' = st
    end).
Proof. apply get_create_or_patch_syncs. by intros e Hk. Qed.

Lemma Service_syncs desired st h :
  go_ok store_api (reconcileService desired) st h (fun st' h' r =>
    h' = h /\
    match r with
    | Ok d => agrees KService desired d /\ exists o, agrees KService desired o /\
        st' = upd KService (obj_key KService desired) (Some o) st
    | Err _ => st' = st
    end).
Proof. apply get_create_or_patch_syncs. by intros e Hk. Qed.

Lemma Ingress_syncs desired st h :
  go_ok store_api (reconcileIngress desired) st h (fun st' h' r =>
    h' = h /\
    match r with
    | Ok d => agrees KIngress desired d /\ exists o, agrees KIngress desired o /\
        st' = upd KIngress (obj_key KIngress desired) (Some o) st
    | Err _ => st' = st
    end).
Proof. apply get_create_or_patch_syncs. by intros e Hk. Qed.

Lemma StatefulSet_syncs (desired : StatefulSet Mem) st h :
  go_ok store_api (reconcileStatefulSet desired) st h (fun st' h' r =>
    h' = h /\
    match r with
    | Ok _ => exists o, agrees KStatefulSet (freeze_sts h desired) o /\
        st' = upd KStatefulSet (obj_key KStatefulSet (freeze_sts h desired)) (Some o) st
    | Err _ => st' = st
    end).
Proof.
  unfold reconcileStatefulSet. do 2 go_step. simpl. go_step.
  eapply go_ok_mono;
    [apply (get_create_or_patch_syncs KStatefulSet merge_StatefulSet); by intros e Hk|].
  intros st' h' [d|e] [-> H]; [|done]. go_step. by destruct H.
Qed.

(** ** Setting an owner changes no managed field *)

Section owned.
Context {C : ControllerLib} {CL : ControllerLibLaws C}.

Ltac owned :=
  intros H;
  lazymatch type of H with context [SetControllerReference ?o ?m] =>
    let E := fresh in
    destruct (SetControllerReference o m) as [m'|e] eqn:E; simplify_eq/=;
    unfold agrees, agrees_meta; simpl;
    rewrite ?(owned_key _ _ _ E), ?(owned_labels _ _ _ E), ?(owned_annotations _ _ _ E)
  end; done.

Lemma own_ConfigMap_agrees owner d d' :
  own_ConfigMap owner d = Ok d' -> agrees KConfigMap d d'.
Proof using CL. unfold own_ConfigMap. owned. Qed.

Lemma own_Service_agrees owner d d' :
  own_Service owner d = Ok d' -> agrees KService d d'.
Proof using CL. unfold own_Service. owned. Qed.

Lemma own_Ingress_agrees owner d d' :
  own_Ingress owner d = Ok d' -> agrees KIngress d d'.
Proof using CL. unfold own_Ingress. owned. Qed.

Lemma own_StatefulSet_agrees owner (d d' : StatefulSet Mem) h :
  own_StatefulSet owner d = Ok d' ->
  agrees KStatefulSet (freeze_sts h d) (freeze_sts h d').
Proof using CL. unfold own_StatefulSet. owned. Qed.
End owned.
