(* ===== verification/Convergence.v ===== *)
(** * Convergence of the reconciliation

    Against the API server of [Store], a reconciliation that succeeds leaves every
    object of the tiers in sync with the spec and no replicaset beyond the wanted
    ones; and on every path it touches no object of another tier. *)

From S2P Require Import Prelude GoLang K8s Types Heap Effects Api Logic Names ConfigMap.
From S2P Require Import Services StatefulSet Resources Plugins Reconciler Samples.
From S2P Require Import TierWalk PluginProps Store.
From stdpp Require Import options.

(** ** The objects of a tier *)

Section spec.
Context {U : GoUnicode}.

(** An object that agrees with [d] is stored under its key. *)
Definition stored (k : Kind) (d : obj k) (st : store) : Prop :=
  exists o, st k (obj_key k d) = Some o /\ agrees k d o.

Definition sts_key {R} (cluster : PicoclusterDB R) (tier : TierSpec R) (i : Z)
  : NamespacedName :=
  {| nn_Name := statefulSetName cluster tier i; nn_Namespace := db_Namespace cluster |}.

(** The configuration of the tier, empty for a cluster without tiers. *)
Definition tier_config {R} (cluster : PicoclusterDB R) (tier : TierSpec R) : string :=
  match head (s_Tiers (db_Spec cluster)) with
  | Some t0 => configYAML cluster t0 tier
  | None => ""
  end.

(** Replicaset [i] has its StatefulSet, with its labels, its number of pods, and
    the checksum of the current configuration in its pod template. *)
Definition synced_replicaset {R} (cluster : PicoclusterDB R) (tier : TierSpec R) (i : Z)
  (s : StatefulSet Wire) : Prop :=
  obj_key KStatefulSet s = sts_key cluster tier i /\
  om_Labels (sts_Meta s) = replicasetLabels cluster tier i /\
  sss_Replicas (sts_Spec s) = Some (t_ReplicationFactor tier) /\
  pt_Labels (sss_Template (sts_Spec s)) = replicasetLabels cluster tier i /\
  pt_Annotations (sss_Template (sts_Spec s))
    = podAnnotations cluster (tier_config cluster tier).

(** A stored StatefulSet that the tier should not have. *)
Definition extra {R} (cluster : PicoclusterDB R) (tier : TierSpec R)
  (s : StatefulSet Wire) : Prop :=
  matches KStatefulSet (db_Namespace cluster) (tierLabels cluster tier) s /\
  above_count tier s.

Record tier_synced {R} (cluster : PicoclusterDB R) (tier : TierSpec R) (st : store)
  : Prop := {
  synced_cm : exists cm, buildConfigMap cluster tier = Some cm /\ stored KConfigMap cm st;
  synced_headless : stored KService (buildInterconnectService cluster tier) st;
  synced_client : stored KService (buildClientService cluster tier) st;
  synced_sts : forall i, (1 <= i <= t_Replicas tier)%Z ->
    exists s, st KStatefulSet (sts_key cluster tier i) = Some s /\
              synced_replicaset cluster tier i s;
  synced_no_extra : forall s, st KStatefulSet (obj_key KStatefulSet s) = Some s ->
    ~ extra cluster tier s;
  synced_ingress : forall spec, t_Ingress tier = Some spec -> is_Enabled spec = true ->
    stored KIngress (buildIngress cluster tier spec) st
}.

(** Being in sync is a matter of the kinds of objects that a tier has. *)
Lemma tier_synced_kinds {R} (c : PicoclusterDB R) t st st' :
  (forall k n, tier_kind k -> st' k n = st k n) -> tier_synced c t st -> tier_synced c t st'.
Proof.
  intros E [(cm & Hcm & S1) Sh Sc Ss Sx Si]. unfold stored in *. split.
  - exists cm. split; [done|]. unfold stored. by rewrite E.
  - unfold stored. by rewrite E.
  - unfold stored. by rewrite E.
  - intros i Hi. rewrite E by done. by apply Ss.
  - intros s. rewrite E by done. apply Sx.
  - intros spec Hsp He. unfold stored. rewrite E by done. by apply Si.
Qed.

(** The names the tier's objects go by. *)
Definition tier_key {R} (cluster : PicoclusterDB R) (tier : TierSpec R) (k : Kind)
  (n : NamespacedName) : Prop :=
  nn_Namespace n = db_Namespace cluster /\
  match k with
  | KConfigMap => nn_Name n = configMapName cluster tier
  | KService => nn_Name n = interconnectServiceName cluster tier \/
                nn_Name n = clientServiceName cluster tier
  | KStatefulSet => exists i, (1 <= i <= t_Replicas tier)%Z /\
                              nn_Name n = statefulSetName cluster tier i
  | KIngress => nn_Name n = clientServiceName cluster tier
  | _ => False
  end.

(** Nothing but the tier's own objects and its extra StatefulSets has changed, and a
    StatefulSet that was not there before carries the labels of a replicaset. *)
Definition tier_frame {R} (cluster : PicoclusterDB R) (tier : TierSpec R)
  (st st' : store) : Prop :=
  (forall k n, k <> KStatefulSet -> ~ tier_key cluster tier k n -> st' k n = st k n) /\
  (forall n, ~ tier_key cluster tier KStatefulSet n ->
     st' KStatefulSet n = st KStatefulSet n \/
     st' KStatefulSet n = None /\
     exists s, st KStatefulSet n = Some s /\ extra cluster tier s) /\
  (forall n s, st' KStatefulSet n = Some s -> st KStatefulSet n = Some s \/
     exists i, om_Labels (sts_Meta s) = replicasetLabels cluster tier i).
End spec.

Section frame.
Context {R : PtrRep} (cluster : PicoclusterDB R) (tier : TierSpec R).

#[export] Instance tier_frame_preorder : PreOrder (tier_frame cluster tier).
Proof.
  split.
  - split; [done|]. split; by left.
  - intros st1 st2 st3 (A1 & B1 & D1) (A2 & B2 & D2). split_and!.
    + intros k n Hk Hn. by rewrite A2, A1.
    + intros n Hn. destruct (B1 n Hn) as [<-|[E ?]]; [by apply B2|right].
      destruct (B2 n Hn) as [->|[-> _]]; done.
    + intros n s Hs. destruct (D2 n s Hs) as [Hs2|?]; [by apply D1|by right].
Qed.

Lemma upd_outside k n o st k' n' :
  tier_key cluster tier k n -> ~ tier_key cluster tier k' n' -> upd k n o st k' n' = st k' n'.
Proof.
  intros Hk Hn'. apply upd_other. destruct (decide (k = k')) as [<-|]; [|by left].
  right. by intros <-.
Qed.

Lemma tier_frame_upd k n o st :
  tier_key cluster tier k n -> k <> KStatefulSet -> tier_frame cluster tier st (upd k n o st).
Proof.
  intros Hk Hs. split_and!.
  - intros k' n' _ Hn'. by apply upd_outside.
  - intros n' Hn'. left. by apply upd_outside.
  - intros n' s Hn'. left. by rewrite upd_other in Hn' by by left.
Qed.

Lemma tier_frame_upd_sts n s i st :
  tier_key cluster tier KStatefulSet n ->
  om_Labels (sts_Meta s) = replicasetLabels cluster tier i ->
  tier_frame cluster tier st (upd KStatefulSet n (Some s) st).
Proof.
  intros Hk Hl. split_and!.
  - intros k' n' _ Hn'. by apply upd_outside.
  - intros n' Hn'. left. by apply upd_outside.
  - intros n' s' Hs'. destruct (decide (n = n')) as [<-|Hn].
    + rewrite upd_same in Hs'. injection Hs' as <-. right. by exists i.
    + left. by rewrite upd_other in Hs' by by right.
Qed.
End frame.

#[export] Hint Resolve tier_frame_upd : operator.

Lemma stored_upd_same k (d o : obj k) st :
  agrees k d o -> stored k d (upd k (obj_key k d) (Some o) st).
Proof. intros H. exists o. by rewrite upd_same. Qed.

Lemma stored_upd_other k (d : obj k) k' n (o : option (obj k')) st :
  k' <> k \/ n <> obj_key k d -> stored k d st -> stored k d (upd k' n o st).
Proof. intros Hne [x Hx]. exists x. by rewrite upd_other. Qed.

(** The two Services of a tier have different names. *)
Lemma service_names_differ {R} (cluster : PicoclusterDB R) (tier : TierSpec R) :
  interconnectServiceName cluster tier <> clientServiceName cluster tier.
Proof.
  unfold interconnectServiceName, clientServiceName. intros E%append_inj_l%append_inj_l.
  apply (f_equal String.length) in E. rewrite append_length in E. simpl in E. lia.
Qed.

(** ** Scaling down *)

Section pruning.
Context {R : PtrRep} (cluster : PicoclusterDB R) (tier : TierSpec R).

(** Only extra StatefulSets have disappeared. *)
Definition pruned (st st' : store) : Prop :=
  (forall k n, k <> KStatefulSet -> st' k n = st k n) /\
  (forall n, st' KStatefulSet n = st KStatefulSet n \/
     st' KStatefulSet n = None /\
     exists s, st KStatefulSet n = Some s /\ extra cluster tier s).

Lemma pruned_frame st st' : pruned st st' -> tier_frame cluster tier st st'.
Proof.
  intros [A B]. split_and!; [by intros; apply A| |].
  - intros n _. destruct (B n); auto.
  - intros n s Hs. left. by destruct (B n) as [<-|[E _]]; [|rewrite E in Hs].
Qed.

Lemma pruned_remove st st' s :
  pruned st st' -> st KStatefulSet (obj_key KStatefulSet s) = Some s ->
  extra cluster tier s ->
  pruned st (upd KStatefulSet (obj_key KStatefulSet s) None st').
Proof.
  intros [A B] Hs He. split.
  - intros k n Hk. rewrite upd_other by (left; congruence). by apply A.
  - intros n. destruct (decide (obj_key KStatefulSet s = n)) as [<-|Hn].
    + right. rewrite upd_same. split; [done|]. by exists s.
    + rewrite upd_other by by right. apply B.
Qed.

Lemma delete_extra_syncs st h :
  go_ok store_api (deleteExtraStatefulSets cluster tier) st h (fun st' _ r =>
    pruned st st' /\
    match r with
    | Ok _ => forall s, st' KStatefulSet (obj_key KStatefulSet s) = Some s ->
                ~ extra cluster tier s
    | Err _ => True
    end).
Proof.
  assert (pruned st st) as Hrefl by (split; auto).
  unfold deleteExtraStatefulSets. do 2 (go_step; try done).
  intros [items|e] Hitems; [|done]. destruct Hitems as [_ Hitems]. simpl api_advance.
  set (gone := fun (st' : store) (s : StatefulSet Wire) => is_extra tier s = true ->
    st' KStatefulSet (obj_key KStatefulSet s) = None).
  eapply go_ok_mono; [apply (go_ok_for_each store_api items _
    (fun pre st' _ => pruned st st' /\ forall s, s ∈ pre -> gone st' s)
    (fun st' _ _ => pruned st st'))|].
  - split; [done|]. by intros s Hs%elem_of_nil.
  - intros pre s post st' h' Hl [Hp Hg].
    assert (st KStatefulSet (obj_key KStatefulSet s) = Some s /\
      matches KStatefulSet (db_Namespace cluster) (tierLabels cluster tier) s) as [Hs Hm]
      by (apply Hitems; rewrite Hl; apply elem_of_app; right; left).
    destruct (is_extra tier s) eqn:He; simpl; go_auto.
    2: { split; [done|]. intros s' [Hs'|Hs']%elem_of_app; [by apply Hg|].
         apply list_elem_of_singleton in Hs' as ->. intros He'. congruence. }
    assert (extra cluster tier s) as Hx by by split; [|apply is_extra_above].
    intros [[]|e] Hr; simpl; go_step; simpl.
    + split; [by apply pruned_remove|]. intros s' [Hs'|Hs']%elem_of_app Hx'.
      * destruct (decide (obj_key KStatefulSet s = obj_key KStatefulSet s')) as [<-|Hn];
          [by rewrite upd_same|]. rewrite upd_other by by right. by apply Hg.
      * apply list_elem_of_singleton in Hs' as ->. by rewrite upd_same.
    + unfold IgnoreNotFound. simpl in Hr.
      destruct (IsNotFound e); [|done]. split; [done|].
      intros s' [Hs'|Hs']%elem_of_app Hx'; [by apply Hg|].
      apply list_elem_of_singleton in Hs' as ->. by apply Hr.
  - intros st' h' [u|e]; [|done]. intros [Hp Hg]. split; [done|].
    intros s Hs [Hm He]. destruct Hp as [_ Hp].
    destruct (Hp (obj_key KStatefulSet s)) as [E|[E _]]; [|by rewrite E in Hs].
    assert (s ∈ items) as Hin by (apply Hitems; split; [by rewrite <-E|done]).
    apply is_extra_above in He. specialize (Hg s Hin He). by rewrite Hg in Hs.
Qed.

(** A synced replicaset is never one of them. *)
Lemma pruned_replicaset `{GoUnicode} st st' i s :
  in_int32 i -> (i <= t_Replicas tier)%Z -> pruned st st' ->
  st KStatefulSet (sts_key cluster tier i) = Some s -> synced_replicaset cluster tier i s ->
  st' KStatefulSet (sts_key cluster tier i) = Some s.
Proof.
  intros Hi Hle [_ B] Hs (_ & Hl & _). destruct (B (sts_key cluster tier i)) as
    [->|[_ (s' & Hs' & [_ He])]]; [done|]. simplify_eq.
  destruct He as (text & j & Ht & Hj & Hlt). rewrite Hl, replicaset_label in Ht.
  injection Ht as <-. rewrite ParseInt_Itoa in Hj by done. injection Hj as <-. lia.
Qed.
End pruning.

(** ** One tier *)

Section tier.
Context {U : GoUnicode} {K : K8sLib} {C : ControllerLib} {CL : ControllerLibLaws C}.
Variables (cluster : PicoclusterDB Mem) (tier : TierSpec Mem).

Abbreviation frame := (tier_frame cluster tier).

Lemma build_fields i cd h :
  let '(h', b) := buildStatefulSet cluster tier i cd h in
  let s := freeze_sts h' b in
  obj_key KStatefulSet s = sts_key cluster tier i /\
  om_Labels (sts_Meta s) = replicasetLabels cluster tier i /\
  sss_Replicas (sts_Spec s) = Some (t_ReplicationFactor tier) /\
  pt_Labels (sss_Template (sts_Spec s)) = replicasetLabels cluster tier i /\
  pt_Annotations (sss_Template (sts_Spec s)) = podAnnotations cluster cd.
Proof.
  unfold buildStatefulSet. destruct (pod_security_context _ _).
  by destruct (pod_affinity _ _ _ _).
Qed.

Lemma replicaset_syncs i st h :
  go_ok store_api (reconcile_replicaset cluster tier (tier_config cluster tier) i) st h
    (fun st' _ r =>
      match r with
      | Ok _ => exists s, synced_replicaset cluster tier i s /\
                          st' = upd KStatefulSet (sts_key cluster tier i) (Some s) st
      | Err _ => st' = st
      end).
Proof using CL.
  unfold reconcile_replicaset. do 2 go_step.
  pose proof (build_fields i (tier_config cluster tier) h) as B.
  destruct (buildStatefulSet _ _ _ _ h) as [h' b]. simpl. do 2 go_step.
  destruct (own_StatefulSet _ b) as [d|e] eqn:E; [|done].
  pose proof (own_StatefulSet_agrees _ _ _ h' E) as Ha.
  go_step. eapply go_ok_mono; [apply StatefulSet_syncs|].
  intros st' h2 [u|e] [_ H]; [|done]. destruct H as (o & Ho & ->).
  destruct B as (B1 & B2 & B3 & B4 & B5).
  pose proof (agrees_trans _ _ _ _ Ha Ho) as Hao.
  exists o. rewrite (agrees_key _ _ _ Ha), B1. split; [|done].
  pose proof (agrees_key _ _ _ Hao) as Hk. unfold agrees, agrees_meta in Hao.
  destruct Hao as ((_ & L) & R & T & A).
  unfold synced_replicaset. by rewrite Hk, L, R, T, A.
Qed.

(** The loop over the replicasets. *)
Lemma replicasets_sync st h :
  (t_Replicas tier < int32_max)%Z ->
  go_ok store_api
    (for_each (z_range 1 (t_Replicas tier))
      (reconcile_replicaset cluster tier (tier_config cluster tier))) st h
    (fun st' _ r =>
      (frame st st' /\ forall k n, k <> KStatefulSet -> st' k n = st k n) /\
      match r with
      | Ok _ => forall i, (1 <= i <= t_Replicas tier)%Z ->
          exists s, st' KStatefulSet (sts_key cluster tier i) = Some s /\
                    synced_replicaset cluster tier i s
      | Err _ => True
      end).
Proof using CL.
  intros Hmax. eapply go_ok_mono; [apply (go_ok_for_each store_api _ _
    (fun pre st' _ =>
      (frame st st' /\ forall k n, k <> KStatefulSet -> st' k n = st k n) /\
      forall i, i ∈ pre -> exists s, st' KStatefulSet (sts_key cluster tier i) = Some s /\
                                     synced_replicaset cluster tier i s)
    (fun st' _ _ => frame st st' /\ forall k n, k <> KStatefulSet -> st' k n = st k n))|].
  - split; [by split|]. by intros i Hi%elem_of_nil.
  - intros pre i post st1 h1 Hl [[Hf Ho] Hpre].
    assert (1 <= i <= t_Replicas tier)%Z as Hi.
    { assert (i ∈ z_range 1 (t_Replicas tier)) as Hi
        by (rewrite Hl; apply elem_of_app; right; left).
      apply elem_of_seqZ in Hi. lia. }
    eapply go_ok_mono; [apply replicaset_syncs|]. intros st2 h2 [u|e] H; [|by subst].
    destruct H as (s & Hs & ->). split; [split|].
    + etrans; [exact Hf|]. apply (tier_frame_upd_sts _ _ _ _ i); [|by destruct Hs as (_ & ? & _)].
      split; [done|]. by exists i.
    + intros k n Hk. rewrite upd_other by (left; congruence). by apply Ho.
    + intros j [Hj|Hj]%elem_of_app.
      * destruct (decide (sts_key cluster tier i = sts_key cluster tier j)) as [E|Hn].
        { pose proof E as [= E']. rewrite <-E, upd_same. exists s. split; [done|].
          enough (j = i) as -> by done.
          assert (j ∈ z_range 1 (t_Replicas tier)) as Hj'
            by (rewrite Hl; apply elem_of_app; by left).
          apply elem_of_seqZ in Hj'. symmetry.
          apply (statefulSetName_inj_aux cluster tier tier i j); try done;
            unfold in_int32, int32_min; lia. }
        rewrite upd_other by by right. by apply Hpre.
      * apply list_elem_of_singleton in Hj as ->. rewrite upd_same. by exists s.
  - intros st' h' [u|e]; [|done]. intros [H Hi]. split; [done|]. intros i Hr. apply Hi.
    apply elem_of_seqZ. lia.
Qed.

(** Own the desired object, reconcile it, go on: the store has it. *)
Lemma ensure (k : Kind) (own : result (obj k)) (reconcile : obj k -> GoM (obj k)) p
  (d : obj k) {A} (f : obj k -> GoM A) st h Q :
  (forall d', own = Ok d' -> agrees k d d') ->
  (forall d' st h, go_ok store_api (reconcile d') st h (fun st' h' r => h' = h /\
     match r with
     | Ok c => agrees k d' c /\ exists o, agrees k d' o /\
                 st' = upd k (obj_key k d') (Some o) st
     | Err _ => st' = st
     end)) ->
  (forall c o, agrees k d c -> agrees k d o ->
     go_ok store_api (f c) (upd k (obj_key k d) (Some o) st) h Q) ->
  (forall e, Q st h (Err e)) ->
  go_ok store_api (d' <- lift own; c <- wrap_err p (reconcile d'); f c)%go st h Q.
Proof.
  intros Hown Hrec Hf He. do 2 go_step. destruct own as [d'|e]; [|apply He].
  specialize (Hown d' eq_refl). do 2 go_step. eapply go_ok_mono; [apply Hrec|].
  intros st' h' [c|e] [-> H]; [|subst; apply He]. destruct H as (Hc & o & Ho & ->).
  rewrite (agrees_key _ _ _ Hown). apply Hf; by eapply agrees_trans.
Qed.

(** The optional Ingress at the end. *)
Lemma ingress_syncs st h :
  go_ok store_api
    (match t_Ingress tier with
     | Some spec =>
         if is_Enabled spec then
           (desiredIngress <-
              lift (own_Ingress (db_Meta cluster) (buildIngress cluster tier spec));
            wrap_err "ingress" (reconcileIngress desiredIngress);; go_ret tt)%go
         else go_ret tt
     | None => go_ret tt
     end) st h (fun st' _ r =>
       (frame st st' /\ forall k n, k <> KIngress -> st' k n = st k n) /\
       match r with
       | Ok _ => forall spec, t_Ingress tier = Some spec -> is_Enabled spec = true ->
           stored KIngress (buildIngress cluster tier spec) st'
       | Err _ => True
       end).
Proof using CL.
  destruct (t_Ingress tier) as [spec|]; [|by go_auto].
  destruct (is_Enabled spec) eqn:He; [|go_auto; split; [done|]; congruence].
  apply (ensure KIngress _ _ _ (buildIngress cluster tier spec));
    [apply own_Ingress_agrees|intros; apply Ingress_syncs| |done].
  intros c o _ Ho. go_step. split; [split|].
  - by apply tier_frame_upd.
  - intros k n Hn. apply upd_other. left. congruence.
  - intros spec' [= <-] _. by apply stored_upd_same.
Qed.

(** What is in place before the loop over the replicasets. *)
Definition basics (cm : ConfigMap) (st : store) : Prop :=
  stored KConfigMap cm st /\
  stored KService (buildInterconnectService cluster tier) st /\
  stored KService (buildClientService cluster tier) st.

Lemma basics_other cm st st' :
  (forall k n, k <> KStatefulSet -> k <> KIngress -> st' k n = st k n) ->
  basics cm st -> basics cm st'.
Proof.
  intros E (S1 & S2 & S3). unfold basics, stored. by rewrite !E by done.
Qed.

Lemma basics_upd cm o1 o2 o3 st :
  agrees KConfigMap cm o1 ->
  agrees KService (buildInterconnectService cluster tier) o2 ->
  agrees KService (buildClientService cluster tier) o3 ->
  basics cm (upd KService (obj_key KService (buildClientService cluster tier)) (Some o3)
    (upd KService (obj_key KService (buildInterconnectService cluster tier)) (Some o2)
      (upd KConfigMap (obj_key KConfigMap cm) (Some o1) st))).
Proof.
  intros H1 H2 H3. split_and!; [| |by apply stored_upd_same].
  - do 2 (apply stored_upd_other; [by left|]). by apply stored_upd_same.
  - apply stored_upd_other; [|by apply stored_upd_same]. right. intros [= E].
    by apply (service_names_differ cluster tier).
Qed.

(** The rest of the reconciliation. *)
Lemma replicas_and_ingress_store cm st h :
  (t_Replicas tier < int32_max)%Z -> buildConfigMap cluster tier = Some cm ->
  basics cm st ->
  go_ok store_api
    (for_each (z_range 1 (t_Replicas tier))
       (reconcile_replicaset cluster tier (tier_config cluster tier));;
     wrap_err "cleanup statefulsets" (deleteExtraStatefulSets cluster tier);;
     match t_Ingress tier with
     | Some spec =>
         if is_Enabled spec then
           desiredIngress <-
             lift (own_Ingress (db_Meta cluster) (buildIngress cluster tier spec));
           wrap_err "ingress" (reconcileIngress desiredIngress);; go_ret tt
         else go_ret tt
     | None => go_ret tt
     end)%go st h (fun st' _ r =>
       frame st st' /\ match r with Ok _ => tier_synced cluster tier st' | Err _ => True end).
Proof using CL.
  intros Hmax Hcm HB. go_step. eapply go_ok_mono; [by apply replicasets_sync|].
  intros st4 h4 [u|e] [[F4 O4] H4]; [|done].
  do 2 go_step. eapply go_ok_mono; [apply delete_extra_syncs|].
  intros st5 h5 [u'|e] [P5 H5];
    (assert (frame st st5) as F5
       by (transitivity st4; [done|by apply pruned_frame])); [|done].
  eapply go_ok_mono; [apply ingress_syncs|].
  intros st6 h6 r [[F6 O6] H6]. split; [by transitivity st5|]. destruct r; [|done].
  assert (basics cm st6) as (S1 & S2 & S3).
  { apply (basics_other cm st); [|done]. intros k n Hk Hk'. rewrite O6 by done.
    destruct P5 as [-> _]; [by apply O4|done]. }
  split; [by exists cm|done|done| | |exact H6].
  - intros i Hi. destruct (H4 i Hi) as (s & Hs & Hsync). exists s. split; [|done].
    rewrite O6 by done. apply (pruned_replicaset cluster tier st4 st5 i s); try done; [|lia].
    unfold in_int32, int32_min. lia.
  - intros s. rewrite O6 by done. apply H5.
Qed.

Lemma config_map_built :
  s_Tiers (db_Spec cluster) <> [] -> exists cm, buildConfigMap cluster tier = Some cm /\
    cm_Data cm !! "config.yaml" = Some (tier_config cluster tier) /\
    tier_key cluster tier KConfigMap (obj_key KConfigMap cm).
Proof.
  unfold buildConfigMap, tier_config. destruct (s_Tiers (db_Spec cluster)); [done|].
  intros _. eexists. split; [done|]. split; [apply lookup_insert_eq|done].
Qed.

(** Everything a reconciliation of the tier does to the store. *)
Lemma reconcileTier_store st h :
  s_Tiers (db_Spec cluster) <> [] -> (t_Replicas tier < int32_max)%Z ->
  go_ok store_api (reconcileTier cluster tier) st h (fun st' _ r =>
    frame st st' /\ match r with Ok _ => tier_synced cluster tier st' | Err _ => True end).
Proof using CL.
  intros (cm & Ecm & Hdata & Hcmk)%config_map_built Hmax. unfold reconcileTier.
  rewrite Ecm. do 2 go_step.
  apply (ensure KConfigMap _ _ _ cm);
    [apply own_ConfigMap_agrees|intros; apply ConfigMap_syncs| |done].
  intros cm2 o1 Hcm2 H1. assert (KConfigMap <> KStatefulSet /\ KService <> KStatefulSet) as [Nc Ns] by done.
  pose proof (tier_frame_upd _ _ _ _ (Some o1) st Hcmk Nc) as F1.
  apply (ensure KService _ _ _ (buildInterconnectService cluster tier));
    [apply own_Service_agrees|intros; apply Service_syncs| |done].
  intros _ o2 _ H2. pose proof (tier_frame_upd cluster tier KService
    (obj_key KService (buildInterconnectService cluster tier)) (Some o2)
    (upd KConfigMap (obj_key KConfigMap cm) (Some o1) st) (conj eq_refl (or_introl eq_refl))
    Ns) as F2.
  apply (ensure KService _ _ _ (buildClientService cluster tier));
    [apply own_Service_agrees|intros; apply Service_syncs| |].
  2: { intros e. split; [by etrans|done]. }
  intros _ o3 _ H3. simpl. destruct Hcm2 as [_ ->]. rewrite Hdata. simpl.
  rewrite for_int32_range by (unfold int32_min in *; simpl; lia).
  eapply go_ok_mono; [apply (replicas_and_ingress_store cm); [done..|by apply basics_upd]|].
  intros st' h' r [F H]. split; [|exact H]. etrans; [exact F1|]. etrans; [exact F2|].
  etrans; [|exact F]. apply tier_frame_upd; [|done]. split; [done|by right].
Qed.
End tier.

(** ** Several tiers *)

Section others.
Context {U : GoUnicode} {R : PtrRep} (cluster : PicoclusterDB R).
Implicit Types (tier : TierSpec R).

(** The tiers' objects have different names. *)
Definition tiers_apart (t1 t2 : TierSpec R) : Prop :=
  t_Name t1 <> t_Name t2 /\
  interconnectServiceName cluster t1 <> clientServiceName cluster t2 /\
  interconnectServiceName cluster t2 <> clientServiceName cluster t1.

Lemma tier_key_apart t1 t2 k n :
  tiers_apart t1 t2 -> (t_Replicas t1 < int32_max)%Z -> (t_Replicas t2 < int32_max)%Z ->
  tier_key cluster t1 k n -> ~ tier_key cluster t2 k n.
Proof.
  intros (Hn & H12 & H21) B1 B2 [_ K1] [_ K2]. destruct k; try done.
  - apply Hn, (configMapName_inj cluster). by rewrite <-K1.
  - destruct K1 as [K1|K1], K2 as [K2|K2].
    + apply Hn, (interconnectServiceName_inj cluster). by rewrite <-K1.
    + apply H12. by rewrite <-K1.
    + apply H21. by rewrite <-K2.
    + apply Hn, (clientServiceName_inj cluster). by rewrite <-K1.
  - destruct K1 as (i & Hi & Ei), K2 as (j & Hj & Ej).
    destruct (statefulSetName_inj_aux cluster t1 t2 i j) as [E _]; [..|done];
      try (unfold in_int32, int32_min in *; lia). by rewrite <-Ei.
  - apply Hn, (clientServiceName_inj cluster). by rewrite <-K1.
Qed.

(** A tier stays in sync while another is reconciled. *)
Lemma tier_synced_other t1 t2 st st' :
  tiers_apart t1 t2 -> (t_Replicas t1 < int32_max)%Z -> (t_Replicas t2 < int32_max)%Z ->
  tier_frame cluster t2 st st' -> tier_synced cluster t2 st' ->
  tier_synced cluster t1 st -> tier_synced cluster t1 st'.
Proof.
  intros Hap B1 B2 (Fo & Fs & _) S2 [S1 Sh Sc Ss Sx Si].
  assert (forall k n, k <> KStatefulSet -> tier_key cluster t1 k n -> st' k n = st k n) as E.
  { intros k n Hk Hn. apply Fo; [done|]. by eapply tier_key_apart. }
  split.
  - destruct S1 as (cm & Hcm & o & Ho & Ha). exists cm. split; [done|]. exists o.
    rewrite E; [done..|]. unfold buildConfigMap in Hcm.
    destruct (s_Tiers (db_Spec cluster)); [done|]. by injection Hcm as <-.
  - destruct Sh as (o & Ho & Ha). exists o. rewrite E; [done..|]. split; [done|by left].
  - destruct Sc as (o & Ho & Ha). exists o. rewrite E; [done..|]. split; [done|by right].
  - intros i Hi. destruct (Ss i Hi) as (s & Hs & Hy). exists s. split; [|done].
    destruct (Fs (sts_key cluster t1 i)) as [->|(_ & s' & Hs' & [[_ Hm] _])]; [|done|].
    + eapply tier_key_apart; [done..|]. split; [done|]. by exists i.
    + rewrite Hs in Hs'. injection Hs' as <-. destruct Hy as (_ & Hl & _).
      change (om_Labels (obj_meta KStatefulSet s)) with (om_Labels (sts_Meta s)) in Hm.
      rewrite Hl in Hm. apply labels_match_tier in Hm. by destruct Hap as [[] _].
  - intros s Hs [[Hns Hm] Hx].
    destruct (Fs (obj_key KStatefulSet s)) as [Es|[Es _]]; [| |by rewrite Es in Hs].
    2: { apply (Sx s); [by rewrite <-Es|]. by split. }
    intros (Hkns & i & Hi & Hk). destruct (synced_sts _ _ _ S2 i Hi) as (s' & Hs' & Hy).
    assert (obj_key KStatefulSet s = sts_key cluster t2 i) as Ek.
    { destruct (obj_key KStatefulSet s). by simplify_eq/=. }
    rewrite Ek, Hs' in Hs. injection Hs as ->. destruct Hy as (_ & Hl & _).
    change (om_Labels (obj_meta KStatefulSet s)) with (om_Labels (sts_Meta s)) in Hm.
    rewrite Hl in Hm. apply labels_match_tier in Hm. by destruct Hap as [[] _].
  - intros spec Hsp He. destruct (Si spec Hsp He) as (o & Ho & Ha). exists o.
    by rewrite E.
Qed.
End others.

(** ** The cluster in memory and on the wire *)

Section freeze.
Context {U : GoUnicode}.
Variables (h : heap) (cluster : PicoclusterDB Mem) (tier : TierSpec Mem).

Lemma tiersYAML_freeze : tiersYAML (freeze_cluster h cluster) = tiersYAML cluster.
Proof. unfold tiersYAML. simpl. f_equal. apply map_map. Qed.

Lemma configYAML_freeze t0 :
  configYAML (freeze_cluster h cluster) (freeze_tier h t0) (freeze_tier h tier)
    = configYAML cluster t0 tier.
Proof. unfold configYAML. by rewrite tiersYAML_freeze. Qed.

Lemma buildConfigMap_freeze :
  buildConfigMap (freeze_cluster h cluster) (freeze_tier h tier)
    = buildConfigMap cluster tier.
Proof.
  unfold buildConfigMap. simpl. destruct (s_Tiers (db_Spec cluster)) as [|t0 ts]; [done|].
  simpl. by rewrite configYAML_freeze.
Qed.

Lemma tier_config_freeze :
  tier_config (freeze_cluster h cluster) (freeze_tier h tier) = tier_config cluster tier.
Proof.
  unfold tier_config. simpl. destruct (s_Tiers (db_Spec cluster)) as [|t0 ts]; [done|].
  apply configYAML_freeze.
Qed.

Lemma tier_synced_freeze st :
  tier_synced cluster tier st ->
  tier_synced (freeze_cluster h cluster) (freeze_tier h tier) st.
Proof.
  intros [S1 Sh Sc Ss Sx Si]. split; [|done|done| |done|done].
  - by rewrite buildConfigMap_freeze.
  - intros i Hi. destruct (Ss i Hi) as (s & Hs & Hy). exists s. split; [done|].
    unfold synced_replicaset in *. by rewrite tier_config_freeze.
Qed.
End freeze.

(** ** [Reconcile] *)

(** Clusters the reconciliation is meant for: some tiers, counts below the greatest
    [int32], and tiers whose objects have different names. *)
Definition reconcilable {R} (c : PicoclusterDB R) : Prop :=
  s_Tiers (db_Spec c) <> [] /\
  Forall (fun t => t_Replicas t < int32_max)%Z (s_Tiers (db_Spec c)) /\
  ForallOrdPairs (tiers_apart c) (s_Tiers (db_Spec c)).

(** Neither that nor whether a tier is in sync depends on the status of the cluster. *)
Lemma reconcilable_same (c c' : PicoclusterDB Wire) :
  same_but_status (Some c) (Some c') -> reconcilable c -> reconcilable c'.
Proof. destruct c, c'. simpl. by intros [-> ->]. Qed.

Lemma tier_synced_same `{GoUnicode} (c c' : PicoclusterDB Wire) t st :
  same_but_status (Some c) (Some c') -> tier_synced c' t st -> tier_synced c t st.
Proof. destruct c, c'. simpl. intros [-> ->] [S1 Sh Sc Ss Sx Si]. by split. Qed.

(** The cluster's own name. *)
Definition cluster_key {R} (c : PicoclusterDB R) : NamespacedName := key_of (db_Meta c).

(** Nothing but the objects of the cluster's tiers and the status of the cluster has
    changed, and a StatefulSet that was not there before carries the labels of a
    replicaset of one of the tiers. *)
Definition cluster_frame {R} (c : PicoclusterDB R) (st st' : store) : Prop :=
  (forall k n, k <> KStatefulSet -> (forall t, t ∈ s_Tiers (db_Spec c) -> ~ tier_key c t k n) ->
     k <> KPicoclusterDB \/ n <> cluster_key c -> st' k n = st k n) /\
  same_but_status (st KPicoclusterDB (cluster_key c)) (st' KPicoclusterDB (cluster_key c)) /\
  (forall n, (forall t, t ∈ s_Tiers (db_Spec c) -> ~ tier_key c t KStatefulSet n) ->
     st' KStatefulSet n = st KStatefulSet n \/
     st' KStatefulSet n = None /\
     exists t s, t ∈ s_Tiers (db_Spec c) /\ st KStatefulSet n = Some s /\ extra c t s) /\
  (forall n s, st' KStatefulSet n = Some s -> st KStatefulSet n = Some s \/
     exists t i, t ∈ s_Tiers (db_Spec c) /\
                 om_Labels (sts_Meta s) = replicasetLabels c t i).

#[export] Instance cluster_frame_preorder {R} (c : PicoclusterDB R) :
  PreOrder (cluster_frame c).
Proof.
  split.
  - split; [done|]. split; [done|]. split; by left.
  - intros st1 st2 st3 (A1 & S1 & B1 & D1) (A2 & S2 & B2 & D2). split_and!.
    + intros k n Hk Hn Hc. by rewrite A2, A1.
    + by etrans.
    + intros n Hn. destruct (B1 n Hn) as [<-|[E ?]]; [by apply B2|right].
      destruct (B2 n Hn) as [->|[-> _]]; done.
    + intros n s Hs. destruct (D2 n s Hs) as [Hs2|?]; [by apply D1|by right].
Qed.

Lemma tier_frame_cluster {R} (c : PicoclusterDB R) t st st' :
  t ∈ s_Tiers (db_Spec c) -> tier_frame c t st st' -> cluster_frame c st st'.
Proof.
  intros Ht (A & B & D). split_and!.
  - intros k n Hk Hn _. apply A; [done|]. by apply Hn.
  - rewrite A; [done..|]. by intros [_ []].
  - intros n Hn. destruct (B n (Hn t Ht)) as [?|(? & s & ? & ?)]; [by left|].
    right. split; [done|]. by exists t, s.
  - intros n s Hs. destruct (D n s Hs) as [?|[i Hi]]; [by left|right]. by exists t, i.
Qed.

Section reconcile.
Context {U : GoUnicode} {K : K8sLib} {C : ControllerLib} {CL : ControllerLibLaws C}.
Variable (cluster : PicoclusterDB Mem).

(** The status of the cluster may have changed, and that is all. *)
Definition only_status (st st' : store) : Prop :=
  st' = st \/ exists c s, st KPicoclusterDB (cluster_key cluster) = Some c /\
    st' = upd KPicoclusterDB (cluster_key cluster) (Some (set_status s c)) st.

Lemma only_status_kinds st st' k n : only_status st st' -> tier_kind k -> st' k n = st k n.
Proof. intros [->|(c & s & _ & ->)] Hk; [done|]. apply upd_other. left. by intros <-. Qed.

Lemma only_status_frame st st' : only_status st st' -> cluster_frame cluster st st'.
Proof.
  intros [->|(c & s & Hc & ->)]; [done|]. split_and!.
  - intros k n _ _ Hn. apply upd_other. destruct Hn; [by left|right]; congruence.
  - by rewrite upd_same, Hc.
  - intros n _. left. by apply upd_other; left.
  - intros n x Hx. left. rewrite upd_other in Hx; [done|by left].
Qed.

Lemma updateStatus_store acc ready st h :
  go_ok store_api (updateStatus cluster acc ready) st h (fun st' _ _ => only_status st st').
Proof.
  unfold updateStatus. do 2 (go_step; try done). intros now _. simpl. do 2 go_step.
  do 3 (go_step; try done). intros [[]|e] He; simpl in *; [|by left].
  change (obj_key KPicoclusterDB _) with (cluster_key cluster) in He |- *.
  destruct He as [c Hc]. rewrite Hc. right. by eexists _, _.
Qed.

Lemma tierStatus_store (tier : TierSpec Mem) st h :
  go_ok store_api (tierStatus cluster tier) st h (fun st' _ _ => st' = st).
Proof. unfold tierStatus. go_auto. intros [items|e] _; by go_auto. Qed.

Lemma plugins_store (tier : TierSpec Mem) st h :
  go_ok store_api (reconcileTierPlugins cluster tier) st h (fun st' _ _ => st' = st).
Proof.
  eapply go_ok_mono; [apply plugins_quiet|by intros ? ? ? [[-> _] _]].
  intros X e He. by destruct e.
Qed.

Lemma reconcile_tiers_store after before acc allReady st h :
  s_Tiers (db_Spec cluster) = before ++ after -> reconcilable cluster ->
  Forall (fun t => tier_synced cluster t st) before ->
  go_ok store_api (reconcile_tiers cluster after acc allReady) st h (fun st' _ r =>
    cluster_frame cluster st st' /\
    match r with
    | Ok res => RequeueAfter res = None ->
        Forall (fun t => tier_synced cluster t st') (s_Tiers (db_Spec cluster))
    | Err _ => True
    end).
Proof using CL.
  intros Hsplit Hrec. revert before acc allReady st h Hsplit.
  induction after as [|tier after IH]; intros before acc allReady st h Hsplit Hdone; simpl.
  { go_step. eapply go_ok_mono; [apply updateStatus_store|].
    intros st' h' [u|e] Ho; [|by split; [apply only_status_frame|]]. go_step.
    split; [by apply only_status_frame|]. intros _. rewrite Hsplit, app_nil_r.
    revert Hdone. apply Forall_impl. intros t. apply tier_synced_kinds.
    intros k n. by apply only_status_kinds. }
  assert (tier ∈ s_Tiers (db_Spec cluster)) as Hin by (rewrite Hsplit; set_solver).
  destruct Hrec as (Hne & Hmax & Hpairs). pose proof Hmax as Hmax'.
  rewrite Hsplit in Hmax. apply Forall_app in Hmax as [Hmaxb Hmaxa].
  apply Forall_cons_iff in Hmaxa as [Hmax1 _].
  do 2 go_step. eapply go_ok_mono; [by apply reconcileTier_store|].
  intros st1 h1 [u|e] [F H]; (assert (cluster_frame cluster st st1) as Fc
    by by eapply tier_frame_cluster); [|done].
  assert (Forall (fun t => tier_synced cluster t st1) (before ++ [tier])) as Hdone'.
  { apply Forall_app. split; [|by constructor]. apply Forall_forall. intros t Ht.
    rewrite Forall_forall in Hdone, Hmaxb.
    apply (tier_synced_other cluster t tier st st1); [|by apply Hmaxb|done..|by apply Hdone].
    rewrite Hsplit in Hpairs. clear -Hpairs Ht. induction before as [|b before IH]; [done|].
    inversion Hpairs as [|? ? Hb Hrest]; subst. rewrite Forall_app, Forall_cons_iff in Hb.
    destruct Ht as [<-|Ht]; [apply Hb|by apply IH]. }
  go_step. eapply go_ok_mono; [apply tierStatus_store|].
  intros st2 h2 [[ts ready]|e] ->; [|done].
  assert (s_Tiers (db_Spec cluster) = (before ++ [tier]) ++ after) as Hsplit'
    by by rewrite <-app_assoc.
  assert (forall acc' b h', go_ok store_api (reconcile_tiers cluster after acc' b) st1 h'
    (fun st' _ r => cluster_frame cluster st st' /\
    match r with
    | Ok res => RequeueAfter res = None ->
        Forall (fun t => tier_synced cluster t st') (s_Tiers (db_Spec cluster))
    | Err _ => True
    end)) as Hnext.
  { intros acc' b h'. eapply go_ok_mono; [by eapply IH|]. intros st' h3 r [F' H'].
    split; [by etrans|done]. }
  destruct (ready && _); [|apply Hnext]. do 2 go_step.
  eapply go_ok_mono; [apply plugins_store|]. intros st3 h3 [sts|e] ->; [apply Hnext|].
  do 2 go_step. eapply go_ok_mono; [apply updateStatus_store|]. intros st4 h4 r Ho.
  go_step. split; [|done]. etrans; [exact Fc|]. by apply only_status_frame.
Qed.
End reconcile.

Lemma reconcilable_freeze h cluster :
  reconcilable (freeze_cluster h cluster) -> reconcilable cluster.
Proof.
  intros (Hne & Hmax & Hap). split_and!.
  - intros E. apply Hne. simpl. by rewrite E.
  - by apply Forall_fmap in Hmax.
  - simpl in Hap. revert Hap. clear.
    generalize (tiers_apart (freeze_cluster h cluster)) (tiers_apart cluster)
      (fun t1 t2 (H : tiers_apart (freeze_cluster h cluster) (freeze_tier h t1)
                        (freeze_tier h t2)) => (H : tiers_apart cluster t1 t2)).
    intros P Q HPQ. induction (s_Tiers (db_Spec cluster)) as [|t ts IH]; [constructor|].
    simpl. intros H. inversion H as [|? ? Ht Hts]; subst. constructor; [|exact (IH Hts)].
    change (Forall (P (freeze_tier h t)) (freeze_tier h <$> ts)) in Ht.
    rewrite Forall_fmap in Ht. revert Ht. apply Forall_impl. intros t'. apply HPQ.
Qed.

Lemma cluster_frame_freeze h cluster st st' :
  cluster_frame cluster st st' -> cluster_frame (freeze_cluster h cluster) st st'.
Proof.
  intros (A & S & B & D). split_and!; [|exact S|..].
  - intros k n Hk Hn Hc. apply A; [done| |done]. intros t Ht. apply (Hn (freeze_tier h t)).
    by apply list_elem_of_fmap_2.
  - intros n Hn. destruct (B n) as [?|(? & t & s & Ht & ? & ?)]; [|by left|].
    + intros t Ht. apply (Hn (freeze_tier h t)). by apply list_elem_of_fmap_2.
    + right. split; [done|]. exists (freeze_tier h t), s. split; [|done].
      by apply list_elem_of_fmap_2.
  - intros n s Hs. destruct (D n s Hs) as [?|(t & i & Ht & Hl)]; [by left|right].
    exists (freeze_tier h t), i. split; [|done]. by apply list_elem_of_fmap_2.
Qed.

Section Reconcile.
Context {U : GoUnicode} {K : K8sLib} {C : ControllerLib} {CL : ControllerLibLaws C}.
Variables (req : NamespacedName) (st : store) (h : heap).
Hypothesis Hst : forall wire, st KPicoclusterDB req = Some wire -> reconcilable wire.

Lemma Reconcile_store :
  go_ok store_api (Reconcile req) st h (fun st' _ r =>
    (st' = st \/ exists wire, st KPicoclusterDB req = Some wire /\
       cluster_key wire = req /\ cluster_frame wire st st') /\
    match r with
    | Ok res => RequeueAfter res = None ->
        forall wire, st KPicoclusterDB req = Some wire ->
        Forall (fun t => tier_synced wire t st') (s_Tiers (db_Spec wire))
    | Err _ => True
    end).
Proof using CL Hst.
  unfold Reconcile. do 2 go_step. go_step; [done|]. intros [wire|e] Hw; simpl in *.
  - destruct Hw as [Hw Hkey]. do 2 go_step.
    destruct (thaw_cluster wire h) as [h' cluster] eqn:E. simpl.
    destruct (freeze_thaw_cluster _ _ _ _ E) as (_ & _ & Hfr).
    assert (reconcilable cluster) as Hrec.
    { apply (reconcilable_freeze h'). rewrite Hfr. by apply Hst. }
    eapply go_ok_mono; [by apply (reconcile_tiers_store cluster _ [])|].
    intros st' h2 r [F H]. split.
    + right. exists wire. do 2 (split; [done|]). rewrite <-Hfr. by apply cluster_frame_freeze.
    + destruct r as [res|]; [|done]. intros Hres wire' Hw'. rewrite Hw in Hw'.
      injection Hw' as <-. rewrite <-Hfr. simpl. apply Forall_fmap. specialize (H Hres).
      revert H. apply Forall_impl. intros t. apply tier_synced_freeze.
  - destruct (IsNotFound e); go_step; (split; [by left|]); [|done].
    intros _ wire Hw'. by rewrite Hw in Hw'.
Qed.

(** C1.  Convergence: when [Reconcile] returns without error and does not ask to be
    called again, then, whatever was stored before, every tier of the cluster has
    its ConfigMap with the configuration of the spec, its two Services and its
    Ingress, a StatefulSet for each of its replicasets with the right labels,
    number of pods and checksum of that configuration, and no StatefulSet beyond
    its replicasets. *)
Theorem Reconcile_converges :
  go_ok store_api (Reconcile req) st h (fun st' _ r =>
    match r with
    | Ok res => RequeueAfter res = None ->
        forall wire, st KPicoclusterDB req = Some wire ->
        Forall (fun t => tier_synced wire t st') (s_Tiers (db_Spec wire))
    | Err _ => True
    end).
Proof using CL Hst.
  eapply go_ok_mono; [apply Reconcile_store|]. by intros st' h' r [_ H].
Qed.

(** C4.  Isolation: on every path, errors included, [Reconcile] changes no stored
    object but those that go by a name of one of the cluster's tiers and the cluster
    it was called for, of which it changes the status alone; it otherwise only removes
    StatefulSets that carry a tier's labels and, as their replicaset label, the decimal
    text of an index above its count; and every StatefulSet it adds or changes carries
    the labels of a replicaset of the cluster. *)
Theorem Reconcile_touches_own_objects :
  go_ok store_api (Reconcile req) st h (fun st' _ _ =>
    st' = st \/ exists wire, st KPicoclusterDB req = Some wire /\
       cluster_key wire = req /\ cluster_frame wire st st').
Proof using CL Hst.
  eapply go_ok_mono; [apply Reconcile_store|]. by intros st' h' r [H _].
Qed.
End Reconcile.

(** ** Witnesses *)

Definition sample_req : NamespacedName :=
  {| nn_Name := "picodata-sample"; nn_Namespace := "picodata" |}.

(** Only the cluster is stored. *)
Definition sample_store : store :=
  upd KPicoclusterDB sample_req (Some sample_wire) (fun _ _ => None).

Lemma sample_reconcilable wire :
  sample_store KPicoclusterDB sample_req = Some wire -> reconcilable wire.
Proof.
  unfold sample_store. rewrite upd_same. intros [= <-].
  split; [discriminate|]. split; [repeat constructor; vm_compute; reflexivity|].
  constructor; [|constructor; constructor]. constructor; [|constructor].
  split_and!; vm_compute; discriminate.
Qed.

Lemma Reconcile_converges_witness :
  go_ok store_api
    (@Reconcile ascii_unicode sample_k8s sample_controller_lib sample_req)
    sample_store empty_heap (fun st' _ r =>
      match r with
      | Ok res => RequeueAfter res = None ->
          forall wire, sample_store KPicoclusterDB sample_req = Some wire ->
          Forall (fun t => @tier_synced ascii_unicode _ wire t st') (s_Tiers (db_Spec wire))
      | Err _ => True
      end).
Proof.
  exact (@Reconcile_converges ascii_unicode sample_k8s sample_controller_lib
    sample_controller_laws sample_req sample_store empty_heap sample_reconcilable).
Defined.

Lemma Reconcile_touches_own_objects_witness :
  go_ok store_api
    (@Reconcile ascii_unicode sample_k8s sample_controller_lib sample_req)
    sample_store empty_heap (fun st' _ _ => st' = sample_store \/
      exists wire, sample_store KPicoclusterDB sample_req = Some wire /\
        cluster_key wire = sample_req /\ cluster_frame wire sample_store st').
Proof.
  exact (@Reconcile_touches_own_objects ascii_unicode sample_k8s sample_controller_lib
    sample_controller_laws sample_req sample_store empty_heap sample_reconcilable).
Defined.
