(* ===== verification/Server.v ===== *)
(** * A concrete API server

    An executable world for the calls: a list of stored objects, a database without
    plugins, a clock that stands still.  It answers every call as the monitor
    [store_api] expects, so the expectations are satisfiable, and [Reconcile] returns
    when it is run against it.  [sample_run] is such a run, by computation. *)

From S2P Require Import Prelude GoLang K8s Types Heap Effects Api Logic Names Reconciler.
From S2P Require Import Samples Store Convergence.
From stdpp Require Import options.
From Stdlib Require Import Eqdep_dec.

Definition stored_obj : Type := { k : Kind & obj k }.

(** The object's kind and name. *)
Definition id_of (o : stored_obj) : Kind * NamespacedName :=
  (projT1 o, obj_key (projT1 o) (projT2 o)).

Definition as_kind {k k' : Kind} (e : k = k') (o : obj k) : obj k' := eq_rect k obj o k' e.

Fixpoint find_obj (k : Kind) (n : NamespacedName) (w : list stored_obj) : option (obj k) :=
  match w with
  | [] => None
  | existT k' o :: w' =>
      match decide (k' = k) with
      | left e => if decide (obj_key k' o = n) then Some (as_kind e o) else find_obj k n w'
      | right _ => find_obj k n w'
      end
  end.

Definition remove_obj (i : Kind * NamespacedName) (w : list stored_obj) : list stored_obj :=
  filter (fun o => id_of o <> i) w.

(** The objects of a kind. *)
Definition of_kind (k : Kind) (w : list stored_obj) : list (obj k) :=
  omap (fun o : stored_obj =>
    match decide (projT1 o = k) with
    | left e => Some (as_kind e (projT2 o))
    | right _ => None
    end) w.

#[export] Instance matches_dec k ns l (o : obj k) : Decision (matches k ns l o).
Proof. unfold matches. apply _. Defined.

Definition no_rows {A} : rows A := {| rows_scans := []; rows_err := None |}.

(** The answers.  A loop that never exits is never answered. *)
Definition serve (X : Type) (e : Op X) (w : list stored_obj) : option (X * list stored_obj) :=
  match e in Op X return option (X * list stored_obj) with
  | Get k n =>
      Some (match find_obj k n w with
            | Some o => Ok o
            | None => Err (ErrNotFound (nn_Name n))
            end, w)
  | Create k o =>
      match find_obj k (obj_key k o) w with
      | Some _ => Some (Err (ErrOther "already exists"), w)
      | None => Some (Ok o, existT k o :: w)
      end
  | Patch k base new =>
      match find_obj k (obj_key k base) w with
      | Some _ =>
          if decide (obj_key k new = obj_key k base)
          then Some (Ok new, existT k new :: remove_obj (k, obj_key k base) w)
          else Some (Err (ErrOther "the name is immutable"), w)
      | None => Some (Err (ErrNotFound (nn_Name (obj_key k base))), w)
      end
  | Delete k o =>
      match find_obj k (obj_key k o) w with
      | Some _ => Some (Ok tt, remove_obj (k, obj_key k o) w)
      | None => Some (Err (ErrNotFound (nn_Name (obj_key k o))), w)
      end
  | ListObjs k ns l => Some (Ok (filter (matches k ns l) (of_kind k w)), w)
  | StatusPatch base new =>
      let n := obj_key KPicoclusterDB new in
      match find_obj KPicoclusterDB n w with
      | Some c => Some (Ok tt, existT KPicoclusterDB (status_patched base new c)
                                 :: remove_obj (KPicoclusterDB, n) w)
      | None => Some (Err (ErrNotFound (nn_Name n)), w)
      end
  | Now => Some (0%Z, w)
  | Connect _ => Some (Ok tt, w)
  | Exec _ => Some (Ok tt, w)
  | Query _ _ => Some (Ok no_rows, w)
  | Close => Some (tt, w)
  | RangeMap m => Some (exist _ (map_to_list m) (Permutation_refl _), w)
  | Hang => None
  end.

(** ** The server keeps the promises of [store_api] *)

(** One object per name, and the store is what is found. *)
Definition serves (st : store) (w : list stored_obj) : Prop :=
  NoDup (map id_of w) /\ forall k n, st k n = find_obj k n w.

Lemma as_kind_refl k (e : k = k) o : as_kind e o = o.
Proof. by rewrite (UIP_dec Kind_eq_dec e eq_refl). Qed.

Lemma existT_inj k (o o' : obj k) : existT k o = existT k o' -> o = o'.
Proof. apply (inj_pair2_eq_dec Kind Kind_eq_dec). Qed.

Lemma find_obj_spec k n w o :
  NoDup (map id_of w) ->
  find_obj k n w = Some o <-> existT k o ∈ w /\ obj_key k o = n.
Proof.
  induction w as [|[k' o'] w IH]; simpl; intros Hd.
  { split; [done|]. by intros [?%elem_of_nil _]. }
  apply list.NoDup_cons in Hd as [Hn Hd]. specialize (IH Hd). rewrite elem_of_cons.
  destruct (decide (k' = k)) as [->|Hk].
  - destruct (decide (obj_key k o' = n)) as [Hkey|Hkey].
    + rewrite as_kind_refl. split.
      * intros [= <-]. split; [by left|done].
      * intros [[E|Hin] Ho]; [by apply existT_inj in E as ->|].
        destruct Hn. apply list_elem_of_In, in_map_iff. exists (existT k o).
        split; [|by apply list_elem_of_In]. unfold id_of. simpl. by rewrite Hkey, Ho.
    + rewrite IH. split; [tauto|]. intros [[E|Hin] Ho]; [|done].
      apply existT_inj in E as ->. done.
  - rewrite IH. split; [tauto|]. intros [[E|Hin] Ho]; [|done]. by injection E.
Qed.

Lemma find_remove_same k n w : find_obj k n (remove_obj (k, n) w) = None.
Proof.
  unfold remove_obj. induction w as [|[k' o'] w IH]; [done|]. rewrite filter_cons.
  case_decide as Hi; [|done]. simpl. destruct (decide (k' = k)) as [->|]; [|done].
  destruct (decide (obj_key k o' = n)) as [<-|]; [|done]. by destruct Hi.
Qed.

Lemma find_remove_other k n i w : (k, n) <> i -> find_obj k n (remove_obj i w) = find_obj k n w.
Proof.
  intros Hi. unfold remove_obj. induction w as [|[k' o'] w IH]; [done|]. rewrite filter_cons.
  case_decide as Hd; simpl; rewrite IH; [done|]. destruct (decide (k' = k)) as [->|]; [|done].
  destruct (decide (obj_key k o' = n)) as [<-|]; [|done]. by destruct Hi.
Qed.

Lemma NoDup_remove i w : NoDup (map id_of w) -> NoDup (map id_of (remove_obj i w)).
Proof.
  intros Hd. eapply sublist_NoDup; [exact Hd|]. apply (fmap_sublist id_of).
  apply sublist_filter.
Qed.

Lemma serves_remove st w k n :
  serves st w -> serves (upd k n None st) (remove_obj (k, n) w).
Proof.
  intros [Hd Hf]. split; [by apply NoDup_remove|]. intros k' n'.
  destruct (decide ((k, n) = (k', n'))) as [[= <- <-]|Hn].
  - by rewrite upd_same, find_remove_same.
  - assert (k <> k' \/ n <> n') as H
      by (destruct (decide (k = k')); [right|left]; congruence).
    rewrite upd_other, find_remove_other by congruence || done. apply Hf.
Qed.

Lemma serves_add st w k o :
  serves st w -> find_obj k (obj_key k o) w = None ->
  serves (upd k (obj_key k o) (Some o) st) (existT k o :: w).
Proof.
  intros [Hd Hf] Hnone. split.
  - simpl. apply list.NoDup_cons. split; [|done]. intros Hin.
    apply list_elem_of_fmap in Hin as ([k' o'] & E & Hin).
    pose proof (f_equal fst E) as Ek. pose proof (f_equal snd E) as En. simpl in Ek, En.
    subst k'. enough (find_obj k (obj_key k o) w = Some o') as Hs by congruence.
    by apply find_obj_spec.
  - intros k' n'. simpl. destruct (decide (k = k')) as [<-|Hk].
    + destruct (decide (obj_key k o = n')) as [<-|Hn].
      * by rewrite upd_same, as_kind_refl.
      * rewrite upd_other by by right. apply Hf.
    + rewrite upd_other by by left. apply Hf.
Qed.

(** Removed and added under the same name. *)
Lemma serves_add_again st w k o :
  serves (upd k (obj_key k o) None st) (remove_obj (k, obj_key k o) w) ->
  serves (upd k (obj_key k o) (Some o) st) (existT k o :: remove_obj (k, obj_key k o) w).
Proof.
  intros H. destruct (serves_add _ _ k o H (find_remove_same k _ w)) as [Hd Hf].
  split; [done|]. intros k' n'. rewrite <-Hf.
  destruct (decide (k = k')) as [<-|Hk]; [|by rewrite !upd_other by by left].
  destruct (decide (obj_key k o = n')) as [<-|Hn]; [by rewrite !upd_same|].
  by rewrite !upd_other by by right.
Qed.

Lemma of_kind_spec k w o : o ∈ of_kind k w <-> existT k o ∈ w.
Proof.
  unfold of_kind. rewrite list_elem_of_omap. split.
  - intros ([k' o'] & Hin & E). simpl in E. destruct (decide (k' = k)) as [->|]; [|done].
    rewrite as_kind_refl in E. by injection E as ->.
  - intros Hin. exists (existT k o). split; [done|]. simpl.
    destruct (decide (k = k)); [|done]. by rewrite as_kind_refl.
Qed.

Lemma of_kind_NoDup k w : NoDup (map id_of w) -> NoDup (of_kind k w).
Proof.
  induction w as [|[k' o'] w IH]; [by constructor|]. simpl. intros [Hn Hd]%list.NoDup_cons.
  unfold of_kind. simpl. destruct (decide (k' = k)) as [->|]; [|by apply IH].
  rewrite as_kind_refl. apply list.NoDup_cons. split; [|by apply IH].
  intros Hin%of_kind_spec. apply Hn. by apply (list_elem_of_fmap_2 id_of) in Hin.
Qed.

(** Every call but a loop that never exits is answered as [store_api] expects. *)
Lemma serve_expected st w X (e : Op X) :
  serves st w -> allowed store_api st X e ->
  exists x w', serve X e w = Some (x, w') /\ expected store_api st X e x /\
               serves (advance store_api st X e x) w'.
Proof.
  intros Hs Ha. pose proof Hs as [Hd Hf].
  destruct e as [k n|k o|k base new|k o|k ns l|base new| | | | | | |]; simpl in *;
    try done; try (by eexists _, _).
  - eexists _, _. split; [done|]. rewrite Hf. destruct (find_obj k n w) eqn:E; [|done].
    split; [|done]. split; [done|]. by apply find_obj_spec in E as [_ ?].
  - destruct (find_obj k (obj_key k o) w) eqn:E; eexists _, _; (split; [done|]); [done|].
    rewrite Hf. split; [by split; [|apply agrees_refl]|]. by apply serves_add.
  - destruct (find_obj k (obj_key k base) w) eqn:E; [|by eexists _, _].
    case_decide as Hk; eexists _, _; (split; [done|]); [|done].
    split; [intros; apply agrees_refl|]. rewrite <-Hk.
    apply (serves_add_again st w k new). by apply serves_remove.
  - destruct (find_obj k (obj_key k o) w) eqn:E; eexists _, _; (split; [done|]).
    + split; [done|]. by apply serves_remove.
    + split; [|done]. intros _. by rewrite Hf.
  - eexists _, _. split; [done|]. split; [|done].
    split; [by apply list.NoDup_filter, of_kind_NoDup|]. intros o.
    rewrite list_elem_of_filter, of_kind_spec, Hf, find_obj_spec by done. tauto.
  - rewrite Hf. destruct (find_obj KPicoclusterDB _ w) as [c|] eqn:E; [|by eexists _, _].
    eexists _, _. do 2 (split; [done|]). apply find_obj_spec in E as [_ <-]; [|done].
    apply (serves_add_again st w KPicoclusterDB (status_patched base new c)).
    by apply serves_remove.
Qed.

(** ** Runs *)

(** Being in sync is a matter of what is stored, not of how. *)
Lemma tier_synced_ext `{GoUnicode} {R} (c : PicoclusterDB R) t st st' :
  (forall k n, st' k n = st k n) -> tier_synced c t st -> tier_synced c t st'.
Proof. intros E. by apply tier_synced_kinds. Qed.

(** What is stored, by name. *)
Definition contents (w : list stored_obj) : store := fun k n => find_obj k n w.

Section runs.
Context {U : GoUnicode} {K : K8sLib} {C : ControllerLib} {CL : ControllerLibLaws C}.

(** C3.  Run against the API server above, whatever it has stored, [Reconcile]
    returns; and when it returns without error and without asking to be called
    again, the tiers of the cluster are in sync in what the server then stores. *)
Theorem Reconcile_runs req w h :
  NoDup (map id_of w) ->
  (forall wire, contents w KPicoclusterDB req = Some wire -> reconcilable wire) ->
  exists h' r w', run serve (Reconcile req h) w = Some ((h', r), w') /\
    match r with
    | Ok res => RequeueAfter res = None ->
        forall wire, contents w KPicoclusterDB req = Some wire ->
        Forall (fun t => tier_synced wire t (contents w')) (s_Tiers (db_Spec wire))
    | Err _ => True
    end.
Proof using CL.
  intros Hd Hrec.
  destruct (obeys_sound serve store_api serves (Reconcile req h) (contents w) w
    (fun st' '(h', r) => _) serve_expected (conj Hd (fun _ _ => eq_refl))
    (Reconcile_store req (contents w) h Hrec)) as ([h' r] & w' & st' & Hrun & [_ Hst] & _ & H).
  exists h', r, w'. split; [exact Hrun|]. destruct r as [res|]; [|done].
  intros Hres wire Hw. specialize (H Hres wire Hw). revert H. apply Forall_impl.
  intros t. by apply tier_synced_ext.
Qed.
End runs.

(** The server of the sample: the cluster alone. *)
Definition sample_server : list stored_obj := [existT KPicoclusterDB sample_wire].

Lemma Reconcile_runs_witness :
  exists h' r w', run serve
      (@Reconcile ascii_unicode sample_k8s sample_controller_lib sample_req empty_heap)
      sample_server = Some ((h', r), w') /\
    match r with
    | Ok res => RequeueAfter res = None ->
        forall wire, contents sample_server KPicoclusterDB sample_req = Some wire ->
        Forall (fun t => @tier_synced ascii_unicode _ wire t (contents w'))
          (s_Tiers (db_Spec wire))
    | Err _ => True
    end.
Proof.
  apply (@Reconcile_runs ascii_unicode sample_k8s sample_controller_lib
    sample_controller_laws sample_req sample_server empty_heap).
  - repeat constructor; by intros ?%elem_of_nil.
  - intros wire Hw. apply sample_reconcilable. unfold sample_store. rewrite upd_same.
    injection Hw as <-. reflexivity.
Defined.

(** The run of the sample, computed: the result, the names of what is stored, and the
    status of the stored cluster, whose pods are not ready yet. *)
Example sample_run :
  match run serve
    (@Reconcile ascii_unicode sample_k8s sample_controller_lib sample_req empty_heap)
    sample_server with
  | Some ((_, Ok res), w) =>
      RequeueAfter res = None /\
      match contents w KPicoclusterDB sample_req with
      | Some c => stat_Phase (db_Status c) = Some ClusterPhaseInitializing /\
          map tst_Name (stat_Tiers (db_Status c)) = ["arbiter"; "default"] /\
          map cond_Status (stat_Conditions (db_Status c)) = ["False"]
      | None => False
      end /\
      map (fun o => (projT1 o, nn_Name (id_of o).2)) w =
        [(KPicoclusterDB, "picodata-sample");
         (KStatefulSet, "default-picodata-sample-2");
         (KStatefulSet, "default-picodata-sample-1");
         (KService, "default-picodata-sample");
         (KService, "default-picodata-sample-interconnect");
         (KConfigMap, "default-picodata-sample");
         (KIngress, "arbiter-picodata-sample");
         (KStatefulSet, "arbiter-picodata-sample-2");
         (KStatefulSet, "arbiter-picodata-sample-1");
         (KService, "arbiter-picodata-sample");
         (KService, "arbiter-picodata-sample-interconnect");
         (KConfigMap, "arbiter-picodata-sample")]
  | _ => False
  end.
Proof. vm_compute. split_and!; reflexivity. Qed.
