(* ===== verification/Writes.v ===== *)
(** * The order of the writes

    The creations, patches and deletions of [reconcileTier], as the log of what is
    attempted: the ConfigMap before the Services, these before the StatefulSets in
    the order of their indices, then the deletions and the Ingress; and nothing is
    attempted after a failure. *)

From S2P Require Import Prelude GoLang K8s Types Heap Effects Api Logic Names ConfigMap.
From S2P Require Import Services StatefulSet Resources Plugins Reconciler Samples.
From S2P Require Import StatefulSetProps TierWalk Store.
From stdpp Require Import options.

(** The object a call writes, by kind and name. *)
Definition write_entry {X} (e : Op X) : list (Kind * NamespacedName) :=
  match e with
  | Create k o => [(k, obj_key k o)]
  | Patch k base _ => [(k, obj_key k base)]
  | Delete k o => [(k, obj_key k o)]
  | _ => []
  end.

Definition write_log : monitor Op (list (Kind * NamespacedName)) := {|
  allowed := fun _ _ e => match e with Hang => False | _ => True end;
  expected := fun _ _ e x => honest_get e x;
  advance := fun log _ e _ => log ++ write_entry e
|}.

(** [m] attempts the writes of a list that satisfies [P], in that order: all of them
    when it succeeds, the first few of them when it fails. *)
Definition plans {A} (m : GoM A) (P : list (Kind * NamespacedName) -> Prop) : Prop :=
  forall log h, go_ok write_log m log h (fun log' _ r =>
    exists plan did, P plan /\ did `prefix_of` plan /\ log' = log ++ did /\
      match r with Ok _ => did = plan | Err _ => True end).

(** One list after another. *)
Definition followed (P Q : list (Kind * NamespacedName) -> Prop)
  (l : list (Kind * NamespacedName)) : Prop :=
  exists l1 l2, l = l1 ++ l2 /\ P l1 /\ Q l2.

Lemma followed_ex P Q : (exists l, P l) -> (exists l, Q l) -> exists l, followed P Q l.
Proof. intros [p HP] [q HQ]. exists (p ++ q). by exists p, q. Qed.

Section plans.
Lemma plans_none {A} (m : GoM A) (P : list (Kind * NamespacedName) -> Prop) :
  (forall log h, go_ok write_log m log h (fun log' _ _ => log' = log)) -> P [] -> plans m P.
Proof.
  intros Hm HP log h. eapply go_ok_mono; [apply Hm|]. intros log' h' r ->.
  exists [], []. rewrite app_nil_r. split_and!; [done..|by destruct r].
Qed.

Lemma plans_ret {A} (a : A) : plans (go_ret a) (eq []).
Proof. by apply plans_none. Qed.

Lemma plans_lift_bind {A B} (r : result A) (f : A -> GoM B)
  (P : list (Kind * NamespacedName) -> Prop) :
  (exists plan, P plan) -> (forall a, r = Ok a -> plans (f a) P) ->
  plans (go_bind (lift r) f) P.
Proof.
  intros [plan HP] Hf log h. do 2 go_step. destruct r as [a|e]; [by apply Hf|].
  exists plan, []. rewrite app_nil_r. split_and!; [done| |done..]. apply prefix_nil.
Qed.

Lemma plans_wrap {A} p (m : GoM A) P : plans m P -> plans (wrap_err p m) P.
Proof.
  intros Hm log h. go_step. eapply go_ok_mono; [apply Hm|]. by intros log' h' [a|e].
Qed.

Lemma plans_bind {A B} (m : GoM A) (f : A -> GoM B)
  (P Q : list (Kind * NamespacedName) -> Prop) :
  (exists plan, Q plan) -> plans m P -> (forall a, plans (f a) Q) ->
  plans (go_bind m f) (followed P Q).
Proof.
  intros [q HQ] Hm Hf log h. go_step. eapply go_ok_mono; [apply Hm|].
  intros log1 h1 [a|e] (p1 & d1 & HP & Hpre & -> & Hd).
  - subst d1. eapply go_ok_mono; [apply Hf|].
    intros log2 h2 r (p2 & d2 & HQ2 & Hpre2 & -> & Hr).
    exists (p1 ++ p2), (p1 ++ d2). rewrite app_assoc. split; [by exists p1, p2|].
    split; [by apply prefix_app|]. split; [done|]. destruct r; [by subst|done].
  - exists (p1 ++ q), d1. split; [by exists p1, q|]. split; [by apply prefix_app_r|done].
Qed.

Lemma plans_mono {A} (m : GoM A) (P Q : list (Kind * NamespacedName) -> Prop) :
  (forall l, P l -> Q l) -> plans m P -> plans m Q.
Proof.
  intros HPQ Hm log h. eapply go_ok_mono; [apply Hm|].
  intros log' h' r (plan & did & HP & H). exists plan, did. split; [by apply HPQ|done].
Qed.

Lemma plans_for_each {A} (l : list A) (f : A -> GoM unit)
  (g : A -> Kind * NamespacedName) :
  (forall x, plans (f x) (eq [g x])) -> plans (for_each l f) (eq (map g l)).
Proof.
  intros Hf. induction l as [|x l IH]; [apply plans_ret|]. simpl.
  eapply plans_mono; [|apply (plans_bind _ _ (eq [g x]) (eq (map g l)));
    [by eexists|apply Hf|intros _; apply IH]].
  by intros ? (? & ? & -> & <- & <-).
Qed.

Lemma plans_get_create_or_patch k merge (d : obj k) :
  plans (get_create_or_patch k merge d) (eq [(k, obj_key k d)]).
Proof.
  intros log h. unfold get_create_or_patch. go_auto. intros [o|e] Ho; simpl in *; go_auto.
  - intros [o'|e] _; simpl; rewrite Ho, ?app_nil_r;
      exists [(k, obj_key k d)], [(k, obj_key k d)]; by split_and!.
  - intros r _. simpl. rewrite app_nil_r.
    exists [(k, obj_key k d)], [(k, obj_key k d)]. by destruct r.
  - simpl. exists [(k, obj_key k d)], []. split_and!; [done|apply prefix_nil|done..].
Qed.

(** Owning an object and reconciling it. *)
Lemma plans_owned (k : Kind) (own : result (obj k)) (reconcile : obj k -> GoM (obj k)) p
  (d : obj k) {A} (f : obj k -> GoM A) (Q : list (Kind * NamespacedName) -> Prop) :
  (forall d', own = Ok d' -> agrees k d d') ->
  (forall d', plans (reconcile d') (eq [(k, obj_key k d')])) ->
  (exists plan, Q plan) -> (forall c, plans (f c) Q) ->
  plans (d' <- lift own; c <- wrap_err p (reconcile d'); f c)%go
    (followed (eq [(k, obj_key k d)]) Q).
Proof.
  intros Hown Hrec HQ Hf. apply plans_lift_bind.
  { destruct HQ as [q HQ]. exists ([(k, obj_key k d)] ++ q). by eexists _, _. }
  intros d' Hd'. rewrite <-(agrees_key _ _ _ (Hown d' Hd')).
  apply plans_bind; [done| |done]. apply plans_wrap, Hrec.
Qed.
End plans.

Section order.
Context {U : GoUnicode} {K : K8sLib} {C : ControllerLib} {CL : ControllerLibLaws C}.
Variables (cluster : PicoclusterDB Mem) (tier : TierSpec Mem).

(** An object of the cluster's namespace. *)
Definition entry_of (k : Kind) (name : string) : Kind * NamespacedName :=
  (k, {| nn_Name := name; nn_Namespace := db_Namespace cluster |}).

(** StatefulSets of the tier above its count. *)
Definition extras (l : list (Kind * NamespacedName)) : Prop :=
  Forall (fun e => exists s : StatefulSet Wire,
    e = (KStatefulSet, key_of (sts_Meta s)) /\ is_extra tier s = true) l.

Definition ingress_plan : list (Kind * NamespacedName) :=
  match t_Ingress tier with
  | Some spec => if is_Enabled spec then [entry_of KIngress (clientServiceName cluster tier)]
                 else []
  | None => []
  end.

Definition tier_plan (deleted : list (Kind * NamespacedName))
  : list (Kind * NamespacedName) :=
  [entry_of KConfigMap (configMapName cluster tier);
   entry_of KService (interconnectServiceName cluster tier);
   entry_of KService (clientServiceName cluster tier)] ++
  map (fun i => entry_of KStatefulSet (statefulSetName cluster tier i))
    (z_range 1 (t_Replicas tier)) ++
  deleted ++ ingress_plan.

Lemma replicaset_plans cd i :
  plans (reconcile_replicaset cluster tier cd i)
    (eq [entry_of KStatefulSet (statefulSetName cluster tier i)]).
Proof using CL.
  intros log h. unfold reconcile_replicaset. do 2 go_step.
  assert (key_of (sts_Meta (buildStatefulSet cluster tier i cd h).2)
    = {| nn_Name := statefulSetName cluster tier i;
         nn_Namespace := db_Namespace cluster |}) as Hk.
  { unfold buildStatefulSet. destruct (pod_security_context _ _).
    by destruct (pod_affinity _ _ _ _). }
  destruct (buildStatefulSet cluster tier i cd h) as [h' b]. simpl in Hk |- *.
  apply plans_lift_bind; [by eexists|]. intros d Hd.
  unfold own_StatefulSet in Hd. destruct (SetControllerReference _ _) as [m|e] eqn:E; [|done].
  injection Hd as <-. pose proof (owned_key _ _ _ E) as Hm. rewrite Hk in Hm.
  apply plans_wrap. clear log h. intros log h. unfold reconcileStatefulSet. do 2 go_step.
  pose proof (plans_get_create_or_patch KStatefulSet merge_StatefulSet
    (freeze_sts h (({| sts_Meta := m; sts_Spec := sts_Spec b;
                       sts_ReadyReplicas := sts_ReadyReplicas b |} : StatefulSet Mem)))) as Hp.
  unfold obj_key in Hp. simpl in Hp. rewrite Hm in Hp. unfold entry_of.
  go_step. eapply go_ok_mono; [apply Hp|]. by intros log' h2 [o|e].
Qed.

Lemma delete_extra_plans : plans (deleteExtraStatefulSets cluster tier) extras.
Proof.
  intros log h. unfold deleteExtraStatefulSets. go_step. go_step; [done|].
  intros [items|e] _; simpl; rewrite app_nil_r.
  2: { exists [], []. rewrite app_nil_r. by split_and!; [constructor|..]. }
  enough (plans (for_each items (fun sts => if is_extra tier sts
    then (r <- try (request (Delete KStatefulSet sts)); lift (IgnoreNotFound r))%go
    else go_ret tt)) extras) as H by apply H.
  induction items as [|s items IH]; simpl; [apply plans_none; [done|constructor]|].
  apply (plans_mono _ (followed extras extras)).
  { intros l (l1 & l2 & -> & H1 & H2). by apply Forall_app. }
  apply plans_bind; [exists []; constructor| |by intros _].
  destruct (is_extra tier s) eqn:E; [|apply plans_none; [done|constructor]].
  clear log h. intros log h. go_auto. intros r _. simpl. go_step.
  assert (extras [(KStatefulSet, key_of (sts_Meta s))]) as Hx
    by (constructor; [by exists s|constructor]).
  exists [(KStatefulSet, key_of (sts_Meta s))], [(KStatefulSet, key_of (sts_Meta s))].
  split_and!; [done..|]. by destruct (IgnoreNotFound r).
Qed.

Lemma ingress_plans :
  plans (match t_Ingress tier with
     | Some spec =>
         if is_Enabled spec then
           (desiredIngress <-
              lift (own_Ingress (db_Meta cluster) (buildIngress cluster tier spec));
            wrap_err "ingress" (reconcileIngress desiredIngress);; go_ret tt)%go
         else go_ret tt
     | None => go_ret tt
     end) (eq ingress_plan).
Proof using CL.
  unfold ingress_plan. destruct (t_Ingress tier) as [spec|]; [|apply plans_ret].
  destruct (is_Enabled spec); [|apply plans_ret].
  eapply plans_mono; [|apply (plans_owned KIngress _ _ _ (buildIngress cluster tier spec)
    _ (eq [])); [apply own_Ingress_agrees|apply plans_get_create_or_patch|by eexists|]].
  - by intros ? (? & ? & -> & <- & <-).
  - intros _. apply plans_ret.
Qed.

(** C9.  Order: [reconcileTier] attempts its writes in one order: the ConfigMap,
    the headless Service, the client Service, the StatefulSets of the replicasets
    1 to [tier.Replicas], the deletion of StatefulSets above the count, the
    Ingress; all of them when it succeeds, the first few when it fails. *)
Theorem reconcileTier_order h :
  s_Tiers (db_Spec cluster) <> [] -> (t_Replicas tier < int32_max)%Z ->
  go_ok write_log (reconcileTier cluster tier) [] h (fun log _ r =>
    exists deleted, extras deleted /\ log `prefix_of` tier_plan deleted /\
      match r with Ok _ => log = tier_plan deleted | Err _ => True end).
Proof using CL.
  intros Ht Hmax.
  enough (plans (reconcileTier cluster tier)
    (fun l => exists deleted, extras deleted /\ l = tier_plan deleted)) as Hp.
  { eapply go_ok_mono; [apply Hp|]. intros log h' r (? & did & (del & Hx & ->) & Hd & -> & H).
    by exists del. }
  unfold reconcileTier, buildConfigMap.
  destruct (s_Tiers (db_Spec cluster)) as [|t0 ts] eqn:E; [done|]. clear Ht E. simpl.
  change (go_bind (go_ret ?a) ?f) with (f a). cbv beta.
  set (cm := {| cm_Meta := _; cm_Data := _ |}).
  assert (forall l : list (Kind * NamespacedName), exists l', l = l') as Heq by by eexists.
  assert (exists l, extras l) as Hx by by exists []; constructor.
  eapply plans_mono; [|apply (plans_owned KConfigMap _ _ _ cm);
    [apply own_ConfigMap_agrees|apply plans_get_create_or_patch| |intros cm';
  apply (plans_owned KService _ _ _ (buildInterconnectService cluster tier));
    [apply own_Service_agrees|apply plans_get_create_or_patch| |intros _;
  apply (plans_owned KService _ _ _ (buildClientService cluster tier));
    [apply own_Service_agrees|apply plans_get_create_or_patch| |intros _;
  rewrite for_int32_range by (unfold int32_min in *; simpl; lia);
  apply plans_bind; [|apply plans_for_each; intros i; apply replicaset_plans|intros _;
  apply plans_bind; [|apply plans_wrap, delete_extra_plans|intros _; apply ingress_plans]]]]]];
    [|auto using followed_ex..].
  intros l (l1 & ? & -> & <- & l2 & ? & -> & <- & l3 & ? & -> & <- & l4 & ? & -> & <- &
    del & ? & -> & Hdel & <-). by exists del.
Qed.
End order.

Lemma reconcileTier_order_witness :
  go_ok write_log
    (@reconcileTier ascii_unicode sample_k8s sample_controller_lib sample_mem
       sample_plain_tier) [] sample_heap (fun log _ r =>
      exists deleted, extras sample_plain_tier deleted /\
        log `prefix_of` tier_plan sample_mem sample_plain_tier deleted /\
        match r with
        | Ok _ => log = tier_plan sample_mem sample_plain_tier deleted
        | Err _ => True
        end).
Proof.
  apply (@reconcileTier_order ascii_unicode sample_k8s sample_controller_lib
    sample_controller_laws sample_mem sample_plain_tier sample_heap);
    [discriminate|vm_compute; reflexivity].
Defined.
