(* ===== verification/Status.v ===== *)
(** * The reported status

    What [tierStatus] computes; what [Reconcile] may write to the status of the cluster:
    counts that come from the answered list of each tier, [Ready] exactly when every tier
    is, and nothing but the status; and when it may contact the database of a tier. *)

From S2P Require Import Prelude GoLang K8s Types Heap Effects Api Logic Names ConfigMap.
From S2P Require Import Services StatefulSet Resources Plugins Reconciler Samples.
From S2P Require Import TierWalk StatefulSetProps PluginProps.
From stdpp Require Import options.

(** ** Counting pods *)

(** The number of ready pods, without wrap-around. *)
Definition total_ready (items : list (StatefulSet Wire)) : Z :=
  foldr (fun s n => sts_ReadyReplicas s + n)%Z 0%Z items.

Lemma fold_ready acc items :
  (0 <= acc)%Z -> Forall (fun s => 0 <= sts_ReadyReplicas s)%Z items ->
  (acc + total_ready items <= int32_max)%Z ->
  fold_left (fun acc s => int32_add acc (sts_ReadyReplicas s)) items acc
    = (acc + total_ready items)%Z /\ (0 <= total_ready items)%Z.
Proof.
  intros Hacc Hall. revert acc Hacc.
  induction Hall as [|s items Hs _ IH]; intros acc Hacc Hmax; simpl in *; [lia|].
  assert (0 <= total_ready items)%Z as Hpos.
  { destruct (Z.le_gt_cases 0 (total_ready items)) as [|Hneg]; [done|].
    destruct (IH 0%Z) as [_ ?]; lia. }
  assert (int32_add acc (sts_ReadyReplicas s) = acc + sts_ReadyReplicas s)%Z as ->.
  { apply int32_id. unfold in_int32, int32_min. lia. }
  destruct (IH (acc + sts_ReadyReplicas s)%Z) as [-> _]; lia.
Qed.

Lemma sum_ready_total items :
  Forall (fun s => 0 <= sts_ReadyReplicas s)%Z items -> (total_ready items <= int32_max)%Z ->
  sum_ready items = total_ready items.
Proof.
  intros Hall Hmax. destruct (fold_ready 0 items) as [E _]; [lia|done|lia|].
  unfold sum_ready. by rewrite E.
Qed.

Lemma total_ready_bound rf items :
  Forall (fun s => 0 <= sts_ReadyReplicas s <= rf)%Z items ->
  (total_ready items <= Z.of_nat (length items) * rf)%Z /\
  (total_ready items = Z.of_nat (length items) * rf <->
     Forall (fun s => sts_ReadyReplicas s = rf) items)%Z.
Proof.
  induction 1 as [|s items Hs _ [IH1 IH2]]; [by split; [|split]|]. cbn [total_ready foldr length].
  fold (total_ready items). split; [lia|]. rewrite Forall_cons_iff. split.
  - intros E. split; [|apply IH2]; lia.
  - intros [? ?%IH2]. lia.
Qed.

(** Lists are answered with [items]. *)
Definition listing (items : list (StatefulSet Wire)) : monitor Op unit := {|
  allowed := fun _ _ e =>
    match e with ListObjs KStatefulSet _ _ => True | _ => False end;
  expected := fun _ _ e =>
    match e in Op X return X -> Prop with
    | ListObjs k _ _ =>
        match k return result (list (obj k)) -> Prop with
        | KStatefulSet => fun r => r = Ok items
        | _ => fun _ => True
        end
    | _ => fun _ => True
    end;
  advance := fun s _ _ _ => s
|}.

(** C26.  [tierStatus] with [tier.Replicas] StatefulSets of at most
    [tier.ReplicationFactor] ready pods each, when the product fits an [int32]: it
    reports the exact counts, and the tier is ready exactly when every pod of every
    StatefulSet is. *)
Theorem tierStatus_ready {R} (cluster : PicoclusterDB R) (tier : TierSpec R) items h :
  (0 <= t_ReplicationFactor tier)%Z ->
  Z.of_nat (length items) = t_Replicas tier ->
  Forall (fun s => 0 <= sts_ReadyReplicas s <= t_ReplicationFactor tier)%Z items ->
  (t_Replicas tier * t_ReplicationFactor tier <= int32_max)%Z ->
  go_ok (listing items) (tierStatus cluster tier) tt h (fun _ _ r =>
    exists ts ready, r = Ok (ts, ready) /\
      tst_DesiredReplicas ts = (t_Replicas tier * t_ReplicationFactor tier)%Z /\
      tst_ReadyReplicas ts = total_ready items /\
      (ready = true <-> Forall (fun s => sts_ReadyReplicas s = t_ReplicationFactor tier) items)).
Proof.
  intros Hrf Hlen Hall Hmax. destruct (total_ready_bound _ _ Hall) as [Hb He].
  rewrite Hlen in Hb, He.
  assert (Forall (fun s => 0 <= sts_ReadyReplicas s)%Z items) as Hpos
    by (revert Hall; apply Forall_impl; simpl; lia).
  assert (int32_mul (t_Replicas tier) (t_ReplicationFactor tier)
    = t_Replicas tier * t_ReplicationFactor tier)%Z as Emul.
  { apply int32_id. unfold in_int32, int32_min. nia. }
  unfold tierStatus. go_auto. intros r ->. go_step. eexists _, _. split; [done|]. simpl.
  rewrite Emul, sum_ready_total by (done || lia). split_and!; [done..|].
  rewrite Z.leb_le, <-He. lia.
Qed.

(** The StatefulSets of the sample's tier "arbiter", as a list answers them. *)
Definition sample_items : list (StatefulSet Wire) :=
  [labelled_sts sample_mem sample_plain_tier 1; labelled_sts sample_mem sample_plain_tier 2].

Lemma tierStatus_ready_witness :
  go_ok (listing sample_items) (tierStatus sample_mem sample_plain_tier) tt sample_heap
    (fun _ _ r => exists ts ready, r = Ok (ts, ready) /\
      tst_DesiredReplicas ts = (2 * 1)%Z /\ tst_ReadyReplicas ts = total_ready sample_items /\
      (ready = true <-> Forall (fun s => sts_ReadyReplicas s = 1%Z) sample_items)).
Proof.
  apply (tierStatus_ready sample_mem sample_plain_tier sample_items);
    [vm_compute; discriminate|reflexivity| |vm_compute; discriminate].
  repeat constructor; vm_compute; discriminate.
Defined.

(** The value of a product of two counts in 32 bits of two's complement: what is left of
    it after multiples of 2^32 have been taken away. *)
Lemma int32_wraps z :
  in_int32 (int32 z) /\ exists k, (int32 z = z - k * 2 ^ 32)%Z.
Proof.
  split; [apply int32_range|]. exists ((z + 2 ^ 31) / 2 ^ 32)%Z. unfold int32.
  pose proof (Z.div_mod (z + 2 ^ 31) (2 ^ 32) ltac:(lia)). lia.
Qed.

(** C38.  When the product of a tier's counts exceeds the greatest [int32], the desired
    count is less than the product by a positive multiple of 2^32, and the tier counts as
    ready as soon as the pods reach that wrong count: without a single pod exactly when
    the product wraps around to zero or below, which is when its remainder modulo 2^32 is
    zero or at least 2^31. *)
Theorem tierStatus_overflow {R} (cluster : PicoclusterDB R) (tier : TierSpec R) items h :
  let product := (t_Replicas tier * t_ReplicationFactor tier)%Z in
  (int32_max < product)%Z ->
  Forall (fun s => 0 <= sts_ReadyReplicas s)%Z items -> (total_ready items <= int32_max)%Z ->
  go_ok (listing items) (tierStatus cluster tier) tt h (fun _ _ r =>
    exists ts ready k, r = Ok (ts, ready) /\ (0 < k)%Z /\
      tst_DesiredReplicas ts = (product - k * 2 ^ 32)%Z /\
      (- 2 ^ 31 <= tst_DesiredReplicas ts < 2 ^ 31)%Z /\
      tst_ReadyReplicas ts = total_ready items /\
      (ready = true <-> tst_DesiredReplicas ts <= total_ready items)%Z /\
      (items = [] -> ready = true <-> product mod 2 ^ 32 = 0 \/ 2 ^ 31 <= product mod 2 ^ 32)%Z).
Proof.
  intros product Hover Hpos Hmax. unfold tierStatus. go_auto. intros r ->. go_step.
  destruct (int32_wraps product) as [Hr [k Hk]]. unfold in_int32, int32_min, int32_max in *.
  rewrite sum_ready_total by done. eexists _, _, k. split; [done|]. simpl.
  change (int32_mul _ _) with (int32 product). rewrite Z.leb_le.
  split_and!; [lia|done|lia|lia|done|done|].
  intros ->. simpl. pose proof (Z.mod_pos_bound product (2 ^ 32) ltac:(lia)).
  pose proof (Z.div_mod product (2 ^ 32) ltac:(lia)). lia.
Qed.

(** A tier of 65536 replicasets of 65536 pods, which the CRD admits. *)
Definition sample_large_tier : TierSpec Mem := sample_tier "t" 65536 65536 true [] None None.

Lemma tierStatus_overflow_witness :
  go_ok (listing []) (tierStatus sample_mem sample_large_tier) tt sample_heap
    (fun _ _ r => exists ts, r = Ok (ts, true) /\ tst_ReadyReplicas ts = 0%Z).
Proof.
  eapply go_ok_mono; [apply (tierStatus_overflow sample_mem sample_large_tier [] sample_heap);
    [vm_compute; discriminate..|vm_compute; reflexivity|constructor|vm_compute; discriminate]|].
  intros s h r (ts & ready & k & -> & _ & _ & _ & Hr & _ & H). exists ts.
  assert (ready = true) as -> by (apply H; [reflexivity|left; reflexivity]).
  split; [reflexivity|exact Hr].
Defined.

(** ** Writing the status *)

Definition tier_ready (ts : TierStatus) : bool :=
  (tst_DesiredReplicas ts <=? tst_ReadyReplicas ts)%Z.

(** An answered list of StatefulSets, with what was asked for. *)
Record listed := {
  li_Namespace : string; li_Labels : gmap string string;
  li_Items : list (StatefulSet Wire) }.

(** The status of a tier of [c]: its own name and desired count, the ready pods of an
    answered list of its StatefulSets, and its plugins, all enabled, once it is ready. *)
Definition tier_reported {R} (c : PicoclusterDB R) (answered : list listed) (t : TierSpec R)
  (ts : TierStatus) : Prop :=
  tst_Name ts = t_Name t /\
  tst_DesiredReplicas ts = int32 (t_Replicas t * t_ReplicationFactor t) /\
  (exists l, l ∈ answered /\ li_Namespace l = db_Namespace c /\
     li_Labels l = tierLabels c t /\ tst_ReadyReplicas ts = int32 (total_ready (li_Items l))) /\
  tst_Plugins ts = if tier_ready ts then map enabled_status (t_Plugins t) else [].

(** [t] is the time since when the first "Ready" condition among [conds] that has the
    status [value] has had it, and [now] when there is no such condition. *)
Definition since (conds : list Condition) (value : string) (now t : Z) : Prop :=
  let current c := cond_Type c = "Ready" /\ cond_Status c = value in
  (exists pre c post, conds = pre ++ c :: post /\ Forall (fun c' => ~ current c') pre /\
     current c /\ t = cond_LastTransitionTime c) \/
  Forall (fun c' => ~ current c') conds /\ t = now.

(** The phase and the one condition that [new] has after [old], at the time [now]. *)
Definition says (old new : PicoclusterDBStatus) (now : Z) (phase : ClusterPhase)
  (value reason message : string) : Prop :=
  stat_Phase new = Some phase /\
  exists t, since (stat_Conditions old) value now t /\
    stat_Conditions new =
      [{| cond_Type := "Ready"; cond_Status := value; cond_Reason := reason;
          cond_Message := message; cond_LastTransitionTime := t |}].

(** A status patch for the cluster [read] is sound: it is made on what was read and
    changes the status alone; the tiers it reports are the first ones of the spec, in
    order; and its phase and its one condition say "ready" when every tier of the spec is
    reported and ready, and "initializing" when not. *)
Definition status_sound (answered : list listed) (clock : option Z)
  (read base new : PicoclusterDB Wire) : Prop :=
  db_Meta new = db_Meta base /\ db_Spec new = db_Spec base /\
  db_Meta base = db_Meta read /\ db_Status base = db_Status read /\
  let tiers := stat_Tiers (db_Status new) in
  let spec := s_Tiers (db_Spec read) in
  let all_ready := length tiers = length spec /\ Forall (fun ts => tier_ready ts = true) tiers in
  Forall2 (tier_reported read answered) (take (length tiers) spec) tiers /\
  exists now, clock = Some now /\
    (all_ready /\ says (db_Status read) (db_Status new) now ClusterPhaseReady "True"
        "AllTiersReady" ("All " +:+ Itoa (Z.of_nat (length spec)) +:+ " tier(s) are ready") \/
     ~ all_ready /\ says (db_Status read) (db_Status new) now ClusterPhaseInitializing "False"
        "TiersNotReady" "One or more tiers are not yet ready").

(** How far [Reconcile] has come: the cluster is not read yet, it does not exist, the
    status of the cluster that was read is still to be written, it is written. *)
Inductive writing := Unread | Missing | Pending (read : PicoclusterDB Wire) | Written.

Definition is_pending (w : writing) : Prop := match w with Pending _ => True | _ => False end.

(** The lists of StatefulSets answered so far, the last answer of the clock, and how far
    it has come. *)
Record watch := { lists : list listed; clock : option Z; progress : writing }.

(** The counts of replicasets stay below the greatest [int32]. *)
Definition bounded_tiers {R} (c : PicoclusterDB R) : Prop :=
  s_Tiers (db_Spec c) <> [] /\
  Forall (fun t => t_Replicas t < int32_max)%Z (s_Tiers (db_Spec c)).

(** A cluster that is read goes by the name that was asked for, and is bounded. *)
Definition bounded_answer {X} (e : Op X) : X -> Prop :=
  match e in Op X return X -> Prop with
  | Get k n =>
      match k return result (obj k) -> Prop with
      | KPicoclusterDB => fun r =>
          match r with Ok c => bounded_tiers c /\ key_of (db_Meta c) = n | Err _ => True end
      | _ => fun _ => True
      end
  | _ => fun _ => True
  end.

(** The cluster [req] is read first, once.  All other calls are made while its status is
    to be written: none for a cluster that does not exist, none after the status.
    The status written is that of [req], and sound.  No loop hangs. *)
Definition status_api (req : NamespacedName) : monitor Op watch := {|
  allowed := fun s _ e =>
    match e with
    | Get KPicoclusterDB n => progress s = Unread /\ n = req
    | StatusPatch base new => obj_key KPicoclusterDB new = req /\
        exists read, progress s = Pending read /\
                     status_sound (lists s) (clock s) read base new
    | Hang => False
    | _ => is_pending (progress s)
    end;
  expected := fun _ _ e => bounded_answer e;
  advance := fun s _ e =>
    match e in Op X return X -> watch with
    | Get k _ =>
        match k return result (obj k) -> watch with
        | KPicoclusterDB => fun r =>
            {| lists := lists s; clock := clock s;
               progress := match r with
                           | Ok c => Pending c
                           | Err e => if IsNotFound e then Missing else Unread
                           end |}
        | _ => fun _ => s
        end
    | ListObjs k ns l =>
        match k return result (list (obj k)) -> watch with
        | KStatefulSet => fun r =>
            match r with
            | Ok items =>
                {| lists := lists s ++
                     [{| li_Namespace := ns; li_Labels := l; li_Items := items |}];
                   clock := clock s; progress := progress s |}
            | Err _ => s
            end
        | _ => fun _ => s
        end
    | Now => fun t => {| lists := lists s; clock := Some t; progress := progress s |}
    | StatusPatch _ _ => fun _ =>
        {| lists := lists s; clock := clock s; progress := Written |}
    | _ => fun _ => s
    end
|}.

(** The sum of the ready pods, wrapped once or at every step. *)
Lemma sum_ready_wraps items : sum_ready items = int32 (total_ready items).
Proof.
  unfold sum_ready. assert (forall z, in_int32 z -> fold_left (fun acc s =>
    int32_add acc (sts_ReadyReplicas s)) items z = int32 (z + total_ready items)) as H.
  { induction items as [|s items IH]; intros z Hz; simpl.
    - by rewrite Z.add_0_r, int32_id.
    - rewrite IH by apply int32_range. unfold int32_add at 1.
      change (int32 (int32 ?a + ?b)) with (int32_add (int32 a) b).
      rewrite int32_add_l. by rewrite Z.add_assoc. }
  by rewrite H.
Qed.

(** The first condition that is found is the one whose time is kept. *)
Lemma transition_time_since conds value now :
  since conds value now (transition_time conds value now).
Proof.
  unfold since, transition_time.
  induction conds as [|c conds IH]; simpl; [by right|].
  destruct (bool_decide (cond_Type c = ConditionReady)
            && bool_decide (cond_Status c = value)) eqn:E.
  - apply andb_true_iff in E as [E1%bool_decide_eq_true E2%bool_decide_eq_true].
    left. exists [], c, conds. by split_and!.
  - assert (~ (cond_Type c = "Ready" /\ cond_Status c = value)) as Hc.
    { intros [H1 H2]. by rewrite !bool_decide_true in E by done. }
    destruct IH as [(pre & c' & post & -> & Hp & Hc' & Ht)|[Hf Ht]].
    + left. exists (c :: pre), c', post. split_and!; [done|by constructor|by destruct Hc'..|done].
    + right. split; [by constructor|done].
Qed.

(** What [new_status] says, in words of the API. *)
Lemma new_status_says old tiers (allReady : bool) now :
  if allReady
  then says old (new_status old tiers allReady now) now ClusterPhaseReady "True"
         "AllTiersReady" ("All " +:+ Itoa (Z.of_nat (length tiers)) +:+ " tier(s) are ready")
  else says old (new_status old tiers allReady now) now ClusterPhaseInitializing "False"
         "TiersNotReady" "One or more tiers are not yet ready".
Proof.
  destruct allReady; (split; [done|]); eexists; (split; [apply transition_time_since|done]).
Qed.

Lemma tier_reported_mono {R} (c : PicoclusterDB R) lists lists' (t : TierSpec R) ts :
  lists ⊆ lists' -> tier_reported c lists t ts -> tier_reported c lists' t ts.
Proof. intros Hl (H1 & H2 & (l & Hi & H3) & H4). split_and!; eauto. Qed.

Section status.
Context {U : GoUnicode} {K : K8sLib} {C : ControllerLib}.
(** The cluster that was read, and where it lies in memory. *)
Variables (read : PicoclusterDB Wire) (cluster : PicoclusterDB Mem) (h0 : heap).
Hypothesis Hread : read = freeze_cluster h0 cluster.

Abbreviation req := (key_of (db_Meta read)).

(** What the loop over the tiers has established before the rest of them. *)
Record reported (s : watch) (h : heap)
  (before : list (TierSpec Mem)) (acc : list TierStatus) (allReady : bool) : Prop := {
  pr_open : progress s = Pending read;
  pr_wf : Forall (wf_tier h) (s_Tiers (db_Spec cluster));
  pr_tiers : Forall2 (tier_reported cluster (lists s)) before acc;
  pr_ready : allReady = true <-> Forall (fun ts => tier_ready ts = true) acc
}.

Lemma reported_mono s s' h h' before acc allReady :
  lists s ⊆ lists s' -> progress s' = Pending read -> grows h h' ->
  reported s h before acc allReady -> reported s' h' before acc allReady.
Proof.
  intros Hs Ho Hg [_ Hwf Ht Hr]. split; [done| | |done].
  - revert Hwf. apply Forall_impl. intros t. by apply wf_tier_grows.
  - revert Ht. apply Forall2_impl. intros t ts. by apply tier_reported_mono.
Qed.

(** The tiers of the spec that are reported, and those that are not. *)
Lemma reported_all s h before after acc allReady :
  s_Tiers (db_Spec cluster) = before ++ after -> reported s h before acc allReady ->
  length (s_Tiers (db_Spec read)) = length acc + length after /\
  Forall2 (tier_reported read (lists s)) (take (length acc) (s_Tiers (db_Spec read))) acc.
Proof using Hread.
  intros Hsplit [_ _ Ht _]. pose proof (Forall2_length Ht) as Hlen. subst read. simpl.
  rewrite Hsplit, fmap_app, length_app, !length_fmap. split; [lia|].
  rewrite take_app_length' by (by rewrite length_fmap). by apply Forall2_fmap_l.
Qed.

(** Writing the status of the tiers done. *)
Lemma updateStatus_ok s h before after acc allReady ready :
  s_Tiers (db_Spec cluster) = before ++ after ->
  reported s h before acc allReady ->
  (ready = true <-> allReady = true /\ after = []) ->
  go_ok (status_api req) (updateStatus cluster acc ready) s h
    (fun s' _ _ => progress s' = Written).
Proof using Hread.
  intros Hsplit Hrep Hready. destruct (reported_all _ _ _ _ _ _ Hsplit Hrep) as [Hlen Htiers].
  destruct Hrep as [Ho Hwf _ Hr]. unfold updateStatus. go_step. go_step; [by simpl; rewrite Ho|].
  intros now _. simpl. do 2 go_step.
  destruct (DeepCopy cluster h) as [h1 base] eqn:E.
  destruct (DeepCopy_spec cluster h h1 base Hwf E) as (Hle & _ & Hbase).
  assert (freeze_cluster h1 cluster = freeze_cluster h cluster) as Hsame.
  { unfold freeze_cluster. by rewrite (freeze_tiers_le h h1). }
  assert (db_Meta base = db_Meta cluster /\ db_Status base = db_Status cluster) as [Hm Hst].
  { split; [change (db_Meta (freeze_cluster h1 base) = db_Meta (freeze_cluster h1 cluster))
           |change (db_Status (freeze_cluster h1 base) = db_Status (freeze_cluster h1 cluster))];
    by rewrite Hbase, Hsame. }
  simpl. do 3 go_step; simpl; [|done].
  split; [by rewrite Hread|]. exists read. split; [done|].
  unfold status_sound. split; [by rewrite Hbase, <-Hsame|]. split; [by rewrite Hbase, <-Hsame|].
  split; [by simpl; rewrite Hm, Hread|]. split; [by simpl; rewrite Hst, Hread|].
  simpl. split; [done|]. exists now. split; [done|].
  assert (db_Status read = db_Status cluster) as -> by by rewrite Hread.
  pose proof (new_status_says (db_Status cluster) acc ready now) as Hsays.
  assert (length acc = length (s_Tiers (db_Spec read)) <-> after = []) as Hall.
  { rewrite Hlen. destruct after; simpl; split; done || lia. }
  destruct ready; [left|right].
  - destruct Hready as [[Ha Ha'] _]; [done|]. apply Hr in Ha. apply Hall in Ha'.
    rewrite <-Ha'. done.
  - split; [|done]. intros [Ha Ha']. apply Hall in Ha. apply Hr in Ha'.
    by destruct Hready as [_ H]; specialize (H (conj Ha' Ha)).
Qed.

(** The calls for one tier keep what was established. *)
Definition later (s0 : watch) (hs : heap) (s : watch) (h : heap) : Prop :=
  lists s0 ⊆ lists s /\ progress s = Pending read /\ grows hs h.

Lemma tier_call_later tier s0 h0' X (e : Op X) s h :
  tier_call cluster tier e -> later s0 h0' s h ->
  allowed (status_api req) s X e /\
  forall x, expected (status_api req) s X e x ->
            later s0 h0' (advance (status_api req) s X e x) h.
Proof using Hread.
  intros He (Hs & Ho & Hg).
  split; [by destruct e; try done; try destruct k; simpl; rewrite ?Ho|]. intros x _.
  destruct e as [k n| | | |k ns l| | | | | | | |]; simpl; try done; [by destruct k|].
  destruct He as [-> _]. destruct x; simpl; [|done]. split_and!; [set_solver|done..].
Qed.

Lemma tierStatus_reported tier s h :
  progress s = Pending read ->
  go_ok (status_api req) (tierStatus cluster tier) s h (fun s' h' r =>
    lists s ⊆ lists s' /\ progress s' = Pending read /\ h' = h /\
    match r with
    | Ok (ts, ready) => ready = tier_ready ts /\ tst_Plugins ts = [] /\
        forall ps, ps = (if ready then map enabled_status (t_Plugins tier) else []) ->
          tier_reported cluster (lists s') tier (with_plugins ps ts)
    | Err _ => True
    end).
Proof using Hread.
  intros Ho. unfold tierStatus. go_step. go_step; [by simpl; rewrite Ho|].
  intros [items|e] _; simpl; [|done].
  go_step. split_and!; [set_solver|done..|]. intros ps ->. split_and!; [done..| |done].
  eexists. split; [apply elem_of_app; right; by left|]. split_and!; [done..|].
  apply sum_ready_wraps.
Qed.

Lemma reported_snoc s h before acc allReady tier ts ready :
  reported s h before acc allReady -> tier_reported cluster (lists s) tier ts ->
  ready = tier_ready ts ->
  reported s h (before ++ [tier]) (acc ++ [ts]) (if ready then allReady else false).
Proof.
  intros [Ho Hwf Ht Hr] Hts ->. split; [done..| |].
  - apply Forall2_app; [done|by constructor].
  - rewrite Forall_app, Forall_singleton, <-Hr.
    destruct (tier_ready ts); [tauto|]. split; [done|by intros [_ ?]].
Qed.

Lemma reconcile_tiers_status after s h before acc allReady :
  s_Tiers (db_Spec cluster) = before ++ after ->
  Forall (fun t => t_Replicas t < int32_max)%Z after ->
  reported s h before acc allReady ->
  go_ok (status_api req) (reconcile_tiers cluster after acc allReady) s h (fun s' _ r =>
    match r with Ok _ => progress s' = Written | Err _ => progress s' <> Missing end).
Proof using Hread.
  revert s h before acc allReady. induction after as [|tier after IH];
    intros s h before acc allReady Hsplit Hmax Hpr; simpl.
  { go_step. eapply go_ok_mono; [eapply (updateStatus_ok s h before []);
      [done..|by split; [|intros []]]|].
    intros s' h' [u|e] E; [done|by rewrite E]. }
  apply Forall_cons_iff in Hmax as [Hmax1 Hmax]. pose proof Hpr as [Ho _ _ _].
  do 2 go_step. eapply go_ok_mono;
    [apply (reconcileTier_walk (status_api req) (later s h) cluster tier);
      [intros; by apply (tier_call_later tier)| |by rewrite Hsplit; destruct before|done|]|].
  { intros i cd s1 h1 (? & ? & ?). split_and!; [done..|]. etrans; [done|apply build_grows]. }
  { by split_and!. }
  intros s1 h1 [u|e] (Hs1 & Ho1 & Hg1); [|by rewrite Ho1]. go_step.
  eapply go_ok_mono; [by apply tierStatus_reported|].
  intros s2 h2 [[ts ready]|e] (Hs2 & Ho2 & -> & H); [|by rewrite Ho2].
  destruct H as (-> & Hpl & Hrep).
  assert (reported s2 h1 before acc allReady) as Hpr2
    by (apply (reported_mono s s2 h h1); [by etrans|done..]).
  assert (s_Tiers (db_Spec cluster) = (before ++ [tier]) ++ after) as Hsplit'
    by by rewrite <-app_assoc.
  destruct (tier_ready ts && negb _) eqn:Hb.
  - do 2 go_step. eapply go_ok_mono; [apply plugins_quiet|].
    { intros X e He. destruct e as [k n| | | | | | | | | | | |]; try done;
        try destruct k; simpl; by rewrite ?Ho2. }
    apply andb_true_iff in Hb as [Hb _].
    intros s3 h3 [sts|e] [[-> ->] Hsts].
    + eapply IH; [done..|]. apply reported_snoc; [done| |done].
      apply Hrep. by rewrite Hb, Hsts.
    + do 2 go_step. eapply go_ok_mono; [apply (updateStatus_ok s2 h1 before
        (tier :: after) acc allReady false); [done..|by split; [|intros []]]|]. done.
  - eapply IH; [done..|]. apply reported_snoc; [done| |done].
    assert (with_plugins [] ts = ts) as <- by (destruct ts; simpl in *; by subst).
    apply Hrep. destruct (tier_ready ts); [|done]. simpl in Hb.
    by destruct (t_Plugins tier).
Qed.
End status.

(** C6.  Whatever the API server and the database answer, [Reconcile] makes no call
    for a cluster that does not exist and none after it has written the status, which
    it does at most once, for the cluster it was called for, and soundly: the patch is
    made on the metadata and the status that were read and changes nothing but the
    status, although the builds write through the spec's pointers; it reports tiers of
    the spec, in order, with the ready pods of a list of each tier's own StatefulSets;
    the phase is [Ready], with one condition "Ready" that is "True", when all tiers of
    the spec are reported and ready, and [Initializing] with "False" when not; the time
    of the condition is kept while its status stays the same.  When [Reconcile] returns
    no error, the status has been written or the cluster does not exist. *)
Theorem Reconcile_status_sound {U : GoUnicode} {K : K8sLib} {C : ControllerLib} req h :
  go_ok (status_api req) (Reconcile req)
    {| lists := []; clock := None; progress := Unread |} h (fun s' _ r =>
    match r with
    | Ok _ => progress s' = Written \/ progress s' = Missing
    | Err _ => progress s' <> Missing
    end).
Proof.
  unfold Reconcile. do 2 go_step. go_step; [done|]. intros [wire|e] Hw; simpl in Hw |- *.
  2: { destruct (IsNotFound e); go_step; [by right|done]. }
  do 2 go_step. destruct (thaw_cluster wire h) as [h' cluster] eqn:E. simpl.
  destruct (freeze_thaw_cluster _ _ _ _ E) as (_ & Hfresh & Hfr).
  assert (s_Tiers (db_Spec wire) = freeze_tier h' <$> s_Tiers (db_Spec cluster)) as Ets
    by by rewrite <-Hfr.
  destruct Hw as [[_ Hw] <-].
  eapply go_ok_mono; [apply (reconcile_tiers_status wire cluster h' (eq_sym Hfr) _ _ _ []);
    [done| |]|].
  - rewrite Ets in Hw. by apply Forall_fmap in Hw.
  - split; [done| |by constructor|by split; [constructor|]].
    revert Hfresh. apply Forall_impl. intros t. apply fresh_between_wf.
  - intros s' h2 [x|e] H; [by left|done].
Qed.

(** ** When the database is contacted *)

(** The cluster that was read, and the last list of StatefulSets. *)
Record seen := {
  seen_cluster : option (PicoclusterDB Wire); seen_items : option (list (StatefulSet Wire)) }.

(** The database of a tier is reached only when the tier declares plugins and the
    last list of StatefulSets counted all its pods as ready. *)
Definition may_connect (s : seen) (dsn : string) : Prop :=
  exists c t items password,
    seen_cluster s = Some c /\ seen_items s = Some items /\ t ∈ s_Tiers (db_Spec c) /\
    t_Plugins t <> [] /\ dsn = connStr c t password /\
    (int32_mul (t_Replicas t) (t_ReplicationFactor t) <=? sum_ready items)%Z = true.

Definition ready_gate : monitor Op seen := {|
  allowed := fun s _ e =>
    match e with Connect dsn => may_connect s dsn | Hang => False | _ => True end;
  expected := fun _ _ e => bounded_answer e;
  advance := fun s _ e =>
    match e in Op X return X -> seen with
    | Get k _ =>
        match k return result (obj k) -> seen with
        | KPicoclusterDB => fun r =>
            match r with
            | Ok c => {| seen_cluster := Some c; seen_items := seen_items s |}
            | Err _ => s
            end
        | _ => fun _ => s
        end
    | ListObjs k _ _ =>
        match k return result (list (obj k)) -> seen with
        | KStatefulSet => fun r =>
            match r with
            | Ok items => {| seen_cluster := seen_cluster s; seen_items := Some items |}
            | Err _ => s
            end
        | _ => fun _ => s
        end
    | _ => fun _ => s
    end
|}.

Section gate.
Context {U : GoUnicode} {K : K8sLib} {C : ControllerLib}.
Variables (cluster : PicoclusterDB Mem) (wire : PicoclusterDB Wire) (h0 : heap).
Hypothesis Hwire : wire = freeze_cluster h0 cluster.

Abbreviation known := (fun (s : seen) (h : heap) => seen_cluster s = Some wire).

Lemma updateStatus_gate acc ready s h :
  known s h ->
  go_ok ready_gate (updateStatus cluster acc ready) s h (fun s' h' _ => known s' h').
Proof.
  intros Hs. unfold updateStatus. do 2 (go_step; try done). intros now _. simpl.
  do 2 go_step. do 3 go_step; [done|]. by intros r _.
Qed.

Lemma reconcile_tiers_gate tiers acc allReady s h :
  tiers ⊆ s_Tiers (db_Spec cluster) ->
  Forall (fun t => t_Replicas t < int32_max)%Z tiers -> known s h ->
  go_ok ready_gate (reconcile_tiers cluster tiers acc allReady) s h
    (fun s' h' _ => known s' h').
Proof using Hwire.
  revert acc allReady s h. induction tiers as [|tier tiers IH];
    intros acc allReady s h Hsub Hmax Hs; simpl.
  { go_step. eapply go_ok_mono; [by apply updateStatus_gate|]. by intros s' h' [u|e] ?. }
  apply Forall_cons_iff in Hmax as [Hmax1 Hmax].
  assert (tier ∈ s_Tiers (db_Spec cluster)) as Hin by (apply Hsub; left).
  assert (tiers ⊆ s_Tiers (db_Spec cluster)) as Hsub' by (intros t Ht; apply Hsub; by right).
  do 2 go_step. eapply go_ok_mono;
    [apply (reconcileTier_walk ready_gate known cluster tier); [|done| |done|done]|].
  { intros X e s1 h1 He Hs1. split; [by destruct e|]. intros x _.
    destruct e as [k n| | | |k ns l| | | | | | | |]; simpl; try done; [by destruct k|].
    destruct He as [-> _]. by destruct x. }
  { intros E. by rewrite E in Hin; apply elem_of_nil in Hin. }
  intros s1 h1 [u|e] Hs1; [|done]. go_step. unfold tierStatus. do 2 (go_step; try done).
  intros [items|e] _; simpl; [|done]. go_step.
  destruct ((_ <=? _)%Z && _) eqn:Hb; [|by apply IH].
  apply andb_true_iff in Hb as [Hready Hpl]. do 2 go_step.
  eapply go_ok_mono; [apply plugins_quiet|].
  - intros X e He. split; [|by destruct e as [[]| | | | | | | | | | | |]].
    destruct e; try done. destruct He as [pw ->].
    exists wire, (freeze_tier h0 tier), items, pw. subst wire.
    split_and!; [done..| | |done|done].
    + by apply list_elem_of_fmap_2.
    + intros E. simpl in E. by rewrite E in Hpl.
  - intros s3 h3 [sts|e] [[-> _] _]; [by apply IH|]. do 2 go_step.
    eapply go_ok_mono; [by apply updateStatus_gate|]. by intros s4 h4 r ?.
Qed.
End gate.

(** C16.  Whatever is answered, [Reconcile] opens a connection to the database only
    for a tier of the cluster that declares plugins, to that tier's client Service,
    and only when the last list of StatefulSets counted all the pods of the tier as
    ready. *)
Theorem Reconcile_connects_when_ready {U : GoUnicode} {K : K8sLib} {C : ControllerLib}
  req h :
  go_ok ready_gate (Reconcile req) {| seen_cluster := None; seen_items := None |} h
    (fun _ _ _ => True).
Proof.
  unfold Reconcile. do 2 go_step. go_step; [done|]. intros [wire|e] Hw; simpl in Hw |- *.
  2: { by destruct (IsNotFound e). }
  do 2 go_step. destruct (thaw_cluster wire h) as [h' cluster] eqn:E. simpl.
  destruct (freeze_thaw_cluster _ _ _ _ E) as (_ & _ & Hfr).
  assert (s_Tiers (db_Spec wire) = freeze_tier h' <$> s_Tiers (db_Spec cluster)) as Ets
    by by rewrite <-Hfr.
  eapply go_ok_mono; [apply (reconcile_tiers_gate cluster wire h'); [done..| |done]|done].
  destruct Hw as [[_ Hw] _]. rewrite Ets in Hw. by apply Forall_fmap in Hw.
Qed.
