(* ===== verification/Report.v ===== *)
(** * The stored status tells what is stored

    Against the API server of [Store], a reconciliation that succeeds leaves in the
    stored cluster a status that counts the ready pods of the StatefulSets that are
    stored when it returns: the reconciliation of a tier does not disturb the count of the
    tiers before it. *)

From S2P Require Import Prelude GoLang K8s Types Heap Effects Api Logic Names ConfigMap.
From S2P Require Import Services StatefulSet Resources Plugins Reconciler Samples.
From S2P Require Import TierWalk StatefulSetProps PluginProps Store Convergence Status.
From stdpp Require Import options.

(** ** Counts of what is stored *)

(** The stored StatefulSets of a tier, each once. *)
Definition tier_items {R} (c : PicoclusterDB R) (t : TierSpec R) (st : store)
  (items : list (StatefulSet Wire)) : Prop :=
  NoDup items /\
  forall s, s ∈ items <-> st KStatefulSet (obj_key KStatefulSet s) = Some s /\
                          matches KStatefulSet (db_Namespace c) (tierLabels c t) s.

(** The status of a tier, with the pods of its stored StatefulSets. *)
Definition counted {R} (c : PicoclusterDB R) (st : store) (t : TierSpec R) (ts : TierStatus)
  : Prop :=
  tst_Name ts = t_Name t /\
  tst_DesiredReplicas ts = int32 (t_Replicas t * t_ReplicationFactor t) /\
  (exists items, tier_items c t st items /\ tst_ReadyReplicas ts = int32 (total_ready items)) /\
  tst_Plugins ts = if tier_ready ts then map enabled_status (t_Plugins t) else [].

(** The StatefulSets under the names of a tier's replicasets carry the tier's labels, as
    those do that the operator makes. *)
Definition labelled {R} (c : PicoclusterDB R) (st : store) : Prop :=
  forall t i s, t ∈ s_Tiers (db_Spec c) -> (1 <= i <= t_Replicas t)%Z ->
    st KStatefulSet (sts_key c t i) = Some s ->
    labels_match (tierLabels c t) (om_Labels (sts_Meta s)) = true.

Section counts.
Context {U : GoUnicode} {R : PtrRep} (c : PicoclusterDB R).

(** The labels of two tiers are told apart by the tiers' names. *)
Lemma tier_labels_name t1 t2 l :
  labels_match (tierLabels c t1) l = true -> labels_match (tierLabels c t2) l = true ->
  t_Name t1 = t_Name t2.
Proof.
  unfold labels_match. rewrite !bool_decide_eq_true. intros H1 H2.
  pose proof (lookup_weaken _ _ _ _ (tierLabels_name c t1) H1) as E1.
  rewrite (lookup_weaken _ _ _ _ (tierLabels_name c t2) H2) in E1.
  injection E1 as E1. symmetry. by apply append_inj_r in E1.
Qed.

Lemma replicaset_labels_match t i :
  labels_match (tierLabels c t) (replicasetLabels c t i) = true.
Proof. by apply labels_match_tier. Qed.

(** The name of a replicaset of a tier, from the key of a StatefulSet. *)
Lemma tier_key_replicaset t n :
  tier_key c t KStatefulSet n -> exists i, (1 <= i <= t_Replicas t)%Z /\ n = sts_key c t i.
Proof.
  intros (Hns & i & Hi & Hn). exists i. split; [done|]. destruct n. by simplify_eq/=.
Qed.

(** Reconciling [t2] changes no StatefulSet with the labels of [t1]. *)
Lemma tier_items_other t1 t2 st st' items :
  t2 ∈ s_Tiers (db_Spec c) -> t_Name t1 <> t_Name t2 -> labelled c st ->
  tier_frame c t2 st st' -> tier_items c t1 st items -> tier_items c t1 st' items.
Proof.
  intros Ht2 Hne Hlab (_ & Fs & Fl) [Hd Hi]. split; [done|]. intros s. rewrite Hi.
  split; intros [Hs [Hns Hm]]; (split; [|done]).
  - destruct (Fs (obj_key KStatefulSet s)) as [->|[_ (s' & Hs' & [[_ Hm'] _])]]; [|done|].
    + intros (i & Hik & Hk)%tier_key_replicaset. rewrite Hk in Hs.
      apply Hne, (tier_labels_name t1 t2 (om_Labels (sts_Meta s))); [done|]. by eapply Hlab.
    + rewrite Hs in Hs'. injection Hs' as <-. by destruct Hne; eapply tier_labels_name.
  - destruct (Fl _ _ Hs) as [?|[i Hl]]; [done|]. destruct Hne.
    apply (tier_labels_name t1 t2 (om_Labels (sts_Meta s))); [done|].
    rewrite Hl. apply replicaset_labels_match.
Qed.

Lemma counted_other t1 t2 st st' ts :
  t2 ∈ s_Tiers (db_Spec c) -> t_Name t1 <> t_Name t2 -> labelled c st ->
  tier_frame c t2 st st' -> counted c st t1 ts -> counted c st' t1 ts.
Proof.
  intros Ht2 Hne Hlab Hf (H1 & H2 & (items & Hi & H3) & H4). split_and!; [done..| |done].
  exists items. split; [|done]. by eapply tier_items_other.
Qed.

(** Labels stay in order: new StatefulSets carry those of their replicaset. *)
Lemma labelled_other t2 st st' :
  t2 ∈ s_Tiers (db_Spec c) ->
  Forall (fun t => t_Replicas t < int32_max)%Z (s_Tiers (db_Spec c)) ->
  tier_frame c t2 st st' -> labelled c st -> labelled c st'.
Proof.
  intros Ht2 Hmax (_ & Fs & Fl) Hlab t i s Ht Hi Hs.
  destruct (Fl _ _ Hs) as [Hs0|[j Hl]]; [by eapply Hlab|].
  rewrite Forall_forall in Hmax.
  destruct (decide (t_Name t = t_Name t2)) as [E|Hne].
  - rewrite Hl. by apply labels_match_tier.
  - destruct (Fs (sts_key c t i)) as [E|[E _]]; [| |by rewrite E in Hs].
    + intros (j' & Hj' & Hk)%tier_key_replicaset. injection Hk as Hk.
      apply list_elem_of_In in Ht, Ht2. pose proof (Hmax _ Ht). pose proof (Hmax _ Ht2).
      apply (statefulSetName_inj_aux c t t2 i j') in Hk as [? _]; [done|..];
        unfold in_int32, int32_min in *; lia.
    + rewrite E in Hs. by eapply Hlab.
Qed.
End counts.

(** ** The handlers *)

Section handlers.
Context {U : GoUnicode} {K : K8sLib} {C : ControllerLib} {CL : ControllerLibLaws C}.
(** The cluster that is stored, and where it lies in memory. *)
Variables (wire : PicoclusterDB Wire) (cluster : PicoclusterDB Mem).
Hypothesis Hstatus : db_Status wire = db_Status cluster.

Abbreviation is_stored := (fun st : store =>
  st KPicoclusterDB (cluster_key cluster) = Some wire).

(** All tiers are counted, and the stored status is the one that says so. *)
Definition reported_in (st : store) : Prop :=
  exists tiers ready now,
    st KPicoclusterDB (cluster_key cluster)
      = Some (set_status (new_status (db_Status wire) tiers ready now) wire) /\
    Forall2 (counted cluster st) (s_Tiers (db_Spec cluster)) tiers /\
    (ready = true <-> Forall (fun ts => tier_ready ts = true) tiers).

Lemma updateStatus_report acc ready st h :
  is_stored st ->
  go_ok store_api (updateStatus cluster acc ready) st h (fun st' _ r =>
    match r with
    | Ok _ => exists now, st' = upd KPicoclusterDB (cluster_key cluster)
        (Some (set_status (new_status (db_Status wire) acc ready now) wire)) st
    | Err _ => True
    end).
Proof using Hstatus.
  intros Hst. unfold updateStatus. do 2 (go_step; try done). intros now _. simpl. do 2 go_step.
  assert (db_Status (DeepCopy cluster h).2 = db_Status cluster) as Hbase
    by (unfold DeepCopy; by destruct (DeepCopy_tiers _ h)).
  do 3 (go_step; try done). intros [[]|e] _; simpl; [|done]. exists now.
  change (obj_key KPicoclusterDB _) with (cluster_key cluster). rewrite Hst.
  unfold status_patched. simpl. by rewrite Hbase, Hstatus, patch_status_stored.
Qed.

Lemma tierStatus_counts (tier : TierSpec Mem) st h :
  go_ok store_api (tierStatus cluster tier) st h (fun st' _ r => st' = st /\
    match r with
    | Ok (ts, ready) => ready = tier_ready ts /\ tst_Plugins ts = [] /\
        forall ps, ps = (if ready then map enabled_status (t_Plugins tier) else []) ->
          counted cluster st tier (with_plugins ps ts)
    | Err _ => True
    end).
Proof.
  unfold tierStatus. do 2 (go_step; try done). intros [items|e] Hi; simpl in Hi |- *; [|done].
  go_step. do 3 (split; [done|]). intros ps ->. split_and!; [done..| |done].
  exists items. split; [exact Hi|apply sum_ready_wraps].
Qed.

(** The names of the tiers differ. *)
Lemma names_differ before tier after t :
  s_Tiers (db_Spec cluster) = before ++ tier :: after ->
  ForallOrdPairs (tiers_apart cluster) (s_Tiers (db_Spec cluster)) ->
  t ∈ before -> t_Name t <> t_Name tier.
Proof.
  intros -> Hp Ht. induction before as [|b before IH]; [by apply elem_of_nil in Ht|].
  inversion Hp as [|? ? Hb Hrest]; subst. rewrite Forall_app, Forall_cons_iff in Hb.
  apply elem_of_cons in Ht as [->|Ht]; [apply Hb|by apply IH].
Qed.

Lemma reconcile_tiers_report after before acc allReady st h :
  s_Tiers (db_Spec cluster) = before ++ after -> reconcilable cluster ->
  is_stored st -> labelled cluster st -> Forall2 (counted cluster st) before acc ->
  (allReady = true <-> Forall (fun ts => tier_ready ts = true) acc) ->
  go_ok store_api (reconcile_tiers cluster after acc allReady) st h (fun st' _ r =>
    match r with
    | Ok res => RequeueAfter res = None -> reported_in st'
    | Err _ => True
    end).
Proof using CL Hstatus.
  intros Hsplit Hrec. revert before acc allReady st h Hsplit.
  induction after as [|tier after IH];
    intros before acc allReady st h Hsplit Hst Hlab Hacc Hready; simpl.
  { go_step. eapply go_ok_mono; [by apply updateStatus_report|].
    intros st' h' [u|e] H; [|done]. destruct H as [now ->]. go_step. intros _.
    exists acc, allReady, now. rewrite upd_same. split_and!; [done| |apply Hready..].
    rewrite Hsplit, app_nil_r. revert Hacc. apply Forall2_impl. intros t ts.
    intros (H1 & H2 & (items & [Hd Hi] & H3) & H4). split_and!; [done..| |done].
    exists items. split; [|done]. split; [done|]. intros s. rewrite upd_other by by left.
    apply Hi. }
  destruct (Hrec) as (Hne & Hmax & Hpairs).
  assert (tier ∈ s_Tiers (db_Spec cluster)) as Hin
    by (rewrite Hsplit; apply elem_of_app; right; left).
  assert (t_Replicas tier < int32_max)%Z as Hmax1
    by (rewrite Forall_forall in Hmax; apply Hmax; by apply list_elem_of_In).
  do 2 go_step. eapply go_ok_mono; [by apply reconcileTier_store|].
  intros st1 h1 [u|e] [F H]; [|done].
  assert (is_stored st1) as Hst1
    by (destruct F as [F _]; simpl; rewrite F by (done || by intros [_ []]); exact Hst).
  assert (labelled cluster st1) as Hlab1 by by eapply labelled_other.
  assert (Forall2 (counted cluster st1) before acc) as Hacc1.
  { apply Forall2_same_length_lookup. apply Forall2_same_length_lookup in Hacc as [Hl Hacc].
    split; [done|]. intros i t ts Ht Hts. apply (counted_other cluster t tier st); try done.
    - apply (names_differ before tier after); [done..|]. by eapply list_elem_of_lookup_2.
    - by eapply Hacc. }
  go_step. eapply go_ok_mono; [apply tierStatus_counts|].
  intros st2 h2 [[ts ready]|e] [-> H2]; [|done]. destruct H2 as (-> & Hpl & Hts).
  assert (s_Tiers (db_Spec cluster) = (before ++ [tier]) ++ after) as Hsplit'
    by by rewrite <-app_assoc.
  assert (forall ps h', ps = (if tier_ready ts then map enabled_status (t_Plugins tier) else []) ->
    go_ok store_api (reconcile_tiers cluster after (acc ++ [with_plugins ps ts])
      (if tier_ready ts then allReady else false)) st1 h' (fun st' _ r =>
      match r with Ok res => RequeueAfter res = None -> reported_in st' | Err _ => True end))
    as Hnext.
  { intros ps h' Hps. apply (IH (before ++ [tier])); [done..| |].
    - apply Forall2_app; [done|]. constructor; [by apply Hts|constructor].
    - rewrite Forall_app, Forall_singleton, <-Hready.
      change (tier_ready (with_plugins ps ts)) with (tier_ready ts).
      destruct (tier_ready ts); [tauto|]. split; [done|by intros [_ ?]]. }
  destruct (tier_ready ts && _) eqn:Hb.
  - do 2 go_step. eapply go_ok_mono; [apply plugins_quiet|].
    { intros X e He. by destruct e. }
    apply andb_true_iff in Hb as [Hb _]. intros st3 h3 [sts|e] [[-> ->] Hsts].
    + apply Hnext. by rewrite Hb, Hsts.
    + do 2 go_step. eapply go_ok_mono; [by apply updateStatus_report|]. by intros.
  - assert (with_plugins [] ts = ts) as E by (destruct ts; simpl in *; by subst).
    rewrite <-E at 1. apply Hnext. destruct (tier_ready ts); [|done]. simpl in Hb.
    by destruct (t_Plugins tier).
Qed.
End handlers.

(** ** [Reconcile] *)

(** The status of a cluster tells what is stored: every tier of the spec, in order, with
    the counts of its stored StatefulSets, and whether all of them are ready. *)
Definition status_tells (wire : PicoclusterDB Wire) (st : store)
  (status : PicoclusterDBStatus) : Prop :=
  let tiers := stat_Tiers status in
  let all_ready := Forall (fun ts => tier_ready ts = true) tiers in
  Forall2 (counted wire st) (s_Tiers (db_Spec wire)) tiers /\
  exists now,
    all_ready /\ says (db_Status wire) status now ClusterPhaseReady "True" "AllTiersReady"
      ("All " +:+ Itoa (Z.of_nat (length tiers)) +:+ " tier(s) are ready") \/
    ~ all_ready /\ says (db_Status wire) status now ClusterPhaseInitializing "False"
      "TiersNotReady" "One or more tiers are not yet ready".

Lemma reported_tells wire cluster h st :
  freeze_cluster h cluster = wire -> reported_in wire cluster st ->
  exists c, st KPicoclusterDB (cluster_key wire) = Some c /\
    db_Meta c = db_Meta wire /\ db_Spec c = db_Spec wire /\
    status_tells wire st (db_Status c).
Proof.
  intros <- (tiers & ready & now & Hst & Hacc & Hready). eexists.
  split; [exact Hst|]. do 2 (split; [done|]). split.
  { simpl. apply Forall2_fmap_l. revert Hacc. by apply Forall2_impl. }
  exists now. simpl. pose proof (new_status_says (db_Status cluster) tiers ready now) as Hsays.
  destruct ready; [left; split; [by apply Hready|done]|right; split; [|done]].
  intros Hall. by apply Hready in Hall.
Qed.

(** C20.  The stored status is the truth about what is stored.  When [Reconcile] returns
    without error and does not ask to be called again, the stored cluster has its
    metadata and its spec as before, and a status with one entry for each tier of the
    spec, in order: the name, the wanted number of pods, the number of ready pods of
    exactly those StatefulSets with the tier's labels that are stored at the end, and the
    plugins once the tier is ready.  The phase is [Ready], with the one condition "Ready"
    being "True", when every tier has its pods, and [Initializing] with "False" when
    not. *)
Theorem Reconcile_reports_stored {U : GoUnicode} {K : K8sLib} {C : ControllerLib}
  {CL : ControllerLibLaws C} (req : NamespacedName) (st : store) (h : heap) :
  (forall wire, st KPicoclusterDB req = Some wire -> reconcilable wire /\ labelled wire st) ->
  go_ok store_api (Reconcile req) st h (fun st' _ r =>
    match r with
    | Ok res => RequeueAfter res = None ->
        forall wire, st KPicoclusterDB req = Some wire ->
        exists c, st' KPicoclusterDB req = Some c /\
          db_Meta c = db_Meta wire /\ db_Spec c = db_Spec wire /\
          status_tells wire st' (db_Status c)
    | Err _ => True
    end).
Proof.
  intros Hrec. unfold Reconcile. do 3 (go_step; try done). intros [wire|e] Hw; simpl in Hw |- *.
  - destruct Hw as [Hw Hkey]. destruct (Hrec wire Hw) as [Hr Hl]. do 2 go_step.
    destruct (thaw_cluster wire h) as [h' cluster] eqn:E. simpl.
    destruct (freeze_thaw_cluster _ _ _ _ E) as (_ & _ & Hfr).
    assert (cluster_key cluster = req) as Hck by (by rewrite <-Hfr in Hkey).
    eapply go_ok_mono; [apply (reconcile_tiers_report wire cluster) with (before := []); try done|].
    + by rewrite <-Hfr.
    + apply (reconcilable_freeze h'). by rewrite Hfr.
    + by rewrite Hck.
    + intros t i s Ht. rewrite <-Hfr in Hl. apply (Hl (freeze_tier h' t)).
      by apply list_elem_of_fmap_2.
    + intros st' h2 [res|e] H; [|done]. intros Hres wire' Hw'. rewrite Hw in Hw'.
      injection Hw' as <-. rewrite <-Hkey. by eapply reported_tells; [|apply H].
  - destruct (IsNotFound e); go_step; [|done].
    intros _ wire Hw'. by rewrite Hw in Hw'.
Qed.

Lemma Reconcile_reports_stored_witness :
  go_ok store_api
    (@Reconcile ascii_unicode sample_k8s sample_controller_lib sample_req)
    sample_store empty_heap (fun st' _ r =>
      match r with
      | Ok res => RequeueAfter res = None ->
          forall wire, sample_store KPicoclusterDB sample_req = Some wire ->
          exists c, st' KPicoclusterDB sample_req = Some c /\
            db_Meta c = db_Meta wire /\ db_Spec c = db_Spec wire /\
            status_tells wire st' (db_Status c)
      | Err _ => True
      end).
Proof.
  apply (@Reconcile_reports_stored ascii_unicode sample_k8s sample_controller_lib
    sample_controller_laws sample_req sample_store empty_heap).
  intros wire Hw. split; [by apply sample_reconcilable|].
  intros t i s _ _ Hs. discriminate Hs.
Defined.
