(* ===== verification/GoMem.v ===== *)
(** * The memory of a Go process, with pointers, slices and maps

    A generic memory for code that allocates: cells that hold a value, the backing
    array of a slice, or a map; pointers, slices and maps are addresses.  [M] is
    the monad of code that reads and writes it, where [None] is a run-time panic.
    A [view] reads a value together with everything it points to, as a [tree] that
    keeps the addresses; [deep_copier] says what a deep copy promises. *)

From S2P Require Import Prelude.
From stdpp Require Import options.
From Stdlib Require Import Eqdep_dec.

Abbreviation addr := nat (only parsing).

(** ** Pointers, slices and maps

    [ptr t] is [*T] (nil is [None]); a slice is nil or a window of an array; a
    map is nil or an address. *)

Record ptr {ty : Type} (t : ty) := Ptr { paddr : option addr }.
Arguments Ptr {ty t}. Arguments paddr {ty t}.

Record window := { w_arr : addr; w_off : nat; w_len : nat }.
Record slice {ty : Type} (t : ty) := Slice { swindow : option window }.
Arguments Slice {ty t}. Arguments swindow {ty t}.

(** [map[string]string] *)
Record gomap := Map { maddr : option addr }.

(** The types that cells and array elements may have, with their zero values. *)
Class Layout := {
  ty : Type;
  ty_eq_dec :: EqDecision ty;
  den : ty -> Type;
  zero : forall t, den t
}.

(** ** Trees: a value and what it points to *)

Inductive tree :=
| TString (s : string)
| TInt (z : Z)
| TBool (b : bool)
| TMap (m : gmap string string)
| TNil
| TRef (a : addr) (t : tree)
| TNode (l : list tree).

(** The addresses of a tree, and the tree without them. *)
Fixpoint addrs (t : tree) : list addr :=
  match t with
  | TRef a t' => a :: addrs t'
  | TNode l => (fix go l := match l with [] => [] | t :: l' => addrs t ++ go l' end) l
  | _ => []
  end.

Fixpoint erase (t : tree) : tree :=
  match t with
  | TRef _ t' => TRef 0 (erase t')
  | TNode l => TNode ((fix go l := match l with [] => [] | t :: l' => erase t :: go l' end) l)
  | _ => t
  end.

Lemma addrs_node l : addrs (TNode l) = concat (addrs <$> l).
Proof. induction l as [|t l IH]; [done|]. simpl in *. by rewrite IH. Qed.

Lemma erase_node l : erase (TNode l) = TNode (erase <$> l).
Proof. done. Qed.

Lemma elem_of_addrs_node a l : a ∈ addrs (TNode l) <-> exists t, t ∈ l /\ a ∈ addrs t.
Proof.
  rewrite addrs_node. rewrite list_elem_of_In, in_concat. setoid_rewrite <-list_elem_of_In.
  setoid_rewrite list_elem_of_fmap. split.
  - intros (? & (t & -> & ?) & ?). by exists t.
  - intros (t & ? & ?). eauto.
Qed.

Section memory.
Context {L : Layout}.

(** ** Cells *)

Inductive cell :=
| CVal (t : ty) (v : den t)
| CArr (t : ty) (vs : list (den t))
| CMap (m : gmap string string).

Abbreviation mem := (list cell).

Definition coerce {F : ty -> Type} (t t' : ty) (v : F t) : option (F t') :=
  match decide (t = t') with
  | left e => Some (eq_rect t F v t' e)
  | right _ => None
  end.

Lemma coerce_refl {F : ty -> Type} t (v : F t) : coerce t t v = Some v.
Proof.
  unfold coerce. destruct (decide (t = t)) as [e|]; [|done].
  by rewrite (UIP_dec ty_eq_dec e eq_refl).
Qed.

Definition val_at (m : mem) (t : ty) (a : addr) : option (den t) :=
  match m !! a with Some (CVal t' v) => coerce t' t v | _ => None end.

Definition arr_at (m : mem) (t : ty) (a : addr) : option (list (den t)) :=
  match m !! a with
  | Some (CArr t' vs) => coerce (F := fun t => list (den t)) t' t vs
  | _ => None
  end.

Definition map_at (m : mem) (a : addr) : option (gmap string string) :=
  match m !! a with Some (CMap g) => Some g | _ => None end.

(** ** Code over the memory *)

Definition M (A : Type) : Type := mem -> option (mem * A).

Definition mret {A} (x : A) : M A := fun m => Some (m, x).
Definition mbind {A B} (c : M A) (f : A -> M B) : M B := fun m =>
  match c m with Some (m', x) => f x m' | None => None end.

Definition alloc (c : cell) : M addr := fun m => Some (m ++ [c], length m).

(** [new(T)]; reading and writing through a pointer. *)
Definition new (t : ty) : M addr := alloc (CVal t (zero t)).
Definition load (t : ty) (a : addr) : M (den t) := fun m =>
  match val_at m t a with Some v => Some (m, v) | None => None end.
Definition store (t : ty) (a : addr) (v : den t) : M unit := fun m =>
  match val_at m t a with Some _ => Some (<[a := CVal t v]> m, tt) | None => None end.

(** [make([]T, n)]; [s[i]] and [s[i] = v], which panic outside the window. *)
Definition make_slice (t : ty) (n : nat) : M window := fun m =>
  Some (m ++ [CArr t (replicate n (zero t))],
        {| w_arr := length m; w_off := 0; w_len := n |}).

Definition elems (m : mem) (t : ty) (w : window) : option (list (den t)) :=
  match arr_at m t (w_arr w) with
  | Some vs =>
      if decide (w_off w + w_len w <= length vs)
      then Some (take (w_len w) (drop (w_off w) vs)) else None
  | None => None
  end.

Definition slice_get (t : ty) (w : window) (i : nat) : M (den t) := fun m =>
  match elems m t w with
  | Some vs => match vs !! i with Some v => Some (m, v) | None => None end
  | None => None
  end.

Definition slice_set (t : ty) (w : window) (i : nat) (v : den t) : M unit := fun m =>
  match arr_at m t (w_arr w) with
  | Some vs =>
      if decide (i < w_len w /\ w_off w + w_len w <= length vs)
      then Some (<[w_arr w := CArr t (<[w_off w + i := v]> vs)]> m, tt) else None
  | None => None
  end.

(** The builtin [copy(dst, src)]: as many elements as both have. *)
Definition go_copy (t : ty) (dst src : window) : M unit := fun m =>
  match elems m t src, arr_at m t (w_arr dst), elems m t dst with
  | Some vs, Some arr, Some _ =>
      Some (<[w_arr dst := CArr t (list_inserts (w_off dst) (take (w_len dst) vs) arr)]> m, tt)
  | _, _, _ => None
  end.

Definition map_set (a : addr) (k v : string) : M unit := fun m =>
  match map_at m a with Some g => Some (<[a := CMap (<[k := v]> g)]> m, tt) | None => None end.

Definition range_of (a : addr) : M (gmap string string) := fun m =>
  match map_at m a with Some g => Some (m, g) | None => None end.

Fixpoint mfor {A} (l : list A) (body : A -> M unit) : M unit :=
  match l with
  | [] => mret tt
  | x :: l' => mbind (body x) (fun _ => mfor l' body)
  end.
End memory.
Abbreviation mem := (list cell).
Arguments M {L}.

Declare Scope mem_scope.
Delimit Scope mem_scope with mem.
Notation "x <- c ; k" := (mbind c (fun x => k))
  (at level 20, c at level 100, k at level 200, right associativity) : mem_scope.
Notation "c ;; k" := (mbind c (fun _ => k))
  (at level 100, k at level 200, right associativity) : mem_scope.

(** The order in which [range] visits a map: any, and another one each time (the
    number of cells in use serves as the time). *)
Class RangeOrder := {
  range_order : nat -> gmap string string -> list (string * string);
  range_order_perm : forall n m, range_order n m ≡ₚ map_to_list m
}.

(** ** The shapes of generated copies *)

Section copies.
Context {L : Layout} {RO : RangeOrder}.
Local Open Scope mem_scope.

(** [if in != nil { *out = new(T); in.DeepCopyInto( *out) }] *)
Definition copy_ptr {t : ty} (into : den t -> M (den t)) (p : ptr t) : M (ptr t) :=
  match paddr p with
  | None => mret (Ptr None)
  | Some a =>
      out <- new t;
      v <- load t a;
      w <- into v;
      store t out w;;
      mret (Ptr (Some out))
  end.

(** [if in != nil { *out = make([]T, len( *in)); for i := range *in { ... } }] *)
Definition copy_slice {t : ty} (into : den t -> M (den t)) (s : slice t) : M (slice t) :=
  match swindow s with
  | None => mret (Slice None)
  | Some src =>
      out <- make_slice t (w_len src);
      mfor (seq 0 (w_len src)) (fun i =>
        v <- slice_get t src i;
        w <- into v;
        slice_set t out i w);;
      mret (Slice (Some out))
  end.

(** [if in != nil { *out = make([]T, len( *in)); copy( *out, *in) }] *)
Definition copy_flat_slice {t : ty} (s : slice t) : M (slice t) :=
  match swindow s with
  | None => mret (Slice None)
  | Some src =>
      out <- make_slice t (w_len src);
      go_copy t out src;;
      mret (Slice (Some out))
  end.

(** [if in != nil { *out = make(map[string]string, len( *in));
    for key, val := range *in { ( *out)[key] = val } }] *)
Definition copy_map (g : gomap) : M gomap :=
  match maddr g with
  | None => mret (Map None)
  | Some src =>
      out <- alloc (CMap ∅);
      entries <- range_of src;
      mfor (range_order out entries) (fun kv => map_set out kv.1 kv.2);;
      mret (Map (Some out))
  end.
End copies.
