(* ===== verification/GoMemLogic.v ===== *)
(** * Reading values in memory, and what a deep copy promises

    [Viewed T]: how a value of type [T] reads, with all it points to, and that the
    reading depends on the addresses it reaches and nothing else.  [deep_copier]
    is the contract of a generated [DeepCopyInto]; each shape of [GoMem] meets it,
    and a struct does when its fields do. *)

From S2P Require Import Prelude GoMem.
From stdpp Require Import options.
Local Open Scope mem_scope.

Section views.
Context {L : Layout}.

(** A reading that looks at the addresses it returns and no others. *)
Record local (f : mem -> option tree) : Prop := {
  local_valid : forall m t a, f m = Some t -> a ∈ addrs t -> a < length m;
  local_agree : forall m m' t, f m = Some t ->
    (forall a, a ∈ addrs t -> m' !! a = m !! a) -> f m' = Some t
}.

Class Viewed (T : Type) := {
  view : mem -> T -> option tree;
  view_local : forall x, local (fun m => view m x)
}.

Lemma local_mono f m m' t : local f -> m `prefix_of` m' -> f m = Some t -> f m' = Some t.
Proof.
  intros [Hv Ha] Hp Hf. apply (Ha m m' t Hf). intros a Hin.
  apply (Hv _ _ _ Hf) in Hin. apply lookup_lt_is_Some_2 in Hin as [c Hc].
  by rewrite (prefix_lookup_Some _ _ _ _ Hc Hp), Hc.
Qed.

Lemma view_mono {T} {VT : Viewed T} m m' (x : T) t :
  m `prefix_of` m' -> view m x = Some t -> view m' x = Some t.
Proof. apply (local_mono (fun m => view m x)), view_local. Qed.

(** ** Sequences of readings, and structs *)

Definition view_all (m : mem) (fs : list (mem -> option tree)) : option tree :=
  TNode <$> mapM (fun f => f m) fs.

Lemma view_all_Some m fs t :
  view_all m fs = Some t <-> exists ts, t = TNode ts /\ Forall2 (fun f t => f m = Some t) fs ts.
Proof.
  unfold view_all. rewrite fmap_Some. setoid_rewrite mapM_Some. naive_solver.
Qed.

Lemma view_all_local fs : Forall local fs -> local (fun m => view_all m fs).
Proof.
  intros Hfs. split.
  - intros m ? a (ts & -> & H)%view_all_Some (t & Hin & Ha)%elem_of_addrs_node.
    apply list_elem_of_lookup in Hin as [i Hi].
    destruct (Forall2_lookup_r _ _ _ _ _ H Hi) as (f & Hf & E).
    rewrite Forall_lookup in Hfs. by apply (local_valid _ (Hfs _ _ Hf) m t).
  - intros m m' ? (ts & -> & H)%view_all_Some Hag. apply view_all_Some. exists ts.
    split; [done|]. apply Forall2_same_length_lookup. split; [by eapply Forall2_length|].
    intros i f t Hf Ht. rewrite Forall_lookup in Hfs.
    pose proof (Forall2_lookup_lr _ _ _ _ _ _ H Hf Ht) as E.
    apply (local_agree _ (Hfs _ _ Hf) m m' t E). intros a Ha. apply Hag.
    apply elem_of_addrs_node. exists t. split; [by eapply list_elem_of_lookup_2|done].
Qed.

(** A field of a struct. *)
Record field := { read : mem -> option tree; read_local : local read }.
Definition fld {T} {VT : Viewed T} (x : T) : field :=
  {| read := fun m => view m x; read_local := view_local x |}.

Program Definition struct_view {S : Type} (fields : S -> list field) : Viewed S := {|
  view := fun m s => view_all m (map read (fields s))
|}.
Next Obligation.
  intros S fields x. apply view_all_local, Forall_forall. intros f (g & <- & _)%in_map_iff.
  apply read_local.
Qed.

(** ** Scalars *)

Program Definition scalar_view {T : Type} (f : T -> tree) (H : forall x, addrs (f x) = [])
  : Viewed T := {| view := fun _ x => Some (f x) |}.
Next Obligation.
  intros T f Hf x. split; [|done]. intros m t a [= <-] Ha. rewrite Hf in Ha.
  by apply elem_of_nil in Ha.
Qed.

#[export] Instance view_string : Viewed string := scalar_view TString (fun _ => eq_refl).
#[export] Instance view_Z : Viewed Z := scalar_view TInt (fun _ => eq_refl).
#[export] Instance view_bool : Viewed bool := scalar_view TBool (fun _ => eq_refl).

(** ** Pointers, slices and maps *)

Lemma val_at_valid m t a v : val_at m t a = Some v -> a < length m.
Proof. unfold val_at. destruct (m !! a) eqn:E; [|done]. intros _. by eapply lookup_lt_Some. Qed.

Lemma arr_at_valid m t a v : arr_at m t a = Some v -> a < length m.
Proof. unfold arr_at. destruct (m !! a) eqn:E; [|done]. intros _. by eapply lookup_lt_Some. Qed.

Lemma map_at_valid m a v : map_at m a = Some v -> a < length m.
Proof. unfold map_at. destruct (m !! a) eqn:E; [|done]. intros _. by eapply lookup_lt_Some. Qed.

Lemma val_at_agree m m' t a : m' !! a = m !! a -> val_at m' t a = val_at m t a.
Proof. unfold val_at. by intros ->. Qed.

Lemma arr_at_agree m m' t a : m' !! a = m !! a -> arr_at m' t a = arr_at m t a.
Proof. unfold arr_at. by intros ->. Qed.

Lemma map_at_agree m m' a : m' !! a = m !! a -> map_at m' a = map_at m a.
Proof. unfold map_at. by intros ->. Qed.

Lemma elems_agree m m' t w : m' !! w_arr w = m !! w_arr w -> elems m' t w = elems m t w.
Proof. unfold elems. intros E. by rewrite (arr_at_agree m m'). Qed.

Lemma elems_valid m t w vs : elems m t w = Some vs -> w_arr w < length m.
Proof.
  unfold elems. destruct (arr_at m t (w_arr w)) eqn:E; [|done]. intros _.
  by eapply arr_at_valid.
Qed.

Lemma elems_length m t w vs : elems m t w = Some vs -> length vs = w_len w.
Proof.
  unfold elems. destruct (arr_at m t (w_arr w)); [|done]. case_decide; [|done].
  intros [= <-]. rewrite length_take, length_drop. lia.
Qed.

(** What is under an address, behind a reference to it. *)
Definition behind (a : addr) (o : option tree) : option tree := TRef a <$> o.

(** The common part of the three locality proofs: the cell at [a] is one of the
    addresses, and what is read from it is local. *)
Lemma behind_local {V} (cellv : mem -> option V) (a : addr) (inside : V -> mem -> option tree) :
  (forall m v, cellv m = Some v -> a < length m) ->
  (forall m m', m' !! a = m !! a -> cellv m' = cellv m) ->
  (forall v, local (inside v)) ->
  local (fun m => behind a (v ← cellv m; inside v m)).
Proof.
  intros Hval Hag Hin. split.
  - intros m t b H Hb. unfold behind in H. apply fmap_Some in H as (t' & H & ->).
    apply bind_Some in H as (v & Hc & Hv). simpl in Hb.
    apply elem_of_cons in Hb as [->|Hb]; [by eapply Hval|by eapply (local_valid _ (Hin v))].
  - intros m m' t H Heq. unfold behind in H. apply fmap_Some in H as (t' & H & ->).
    apply bind_Some in H as (v & Hc & Hv). unfold behind. simpl in Heq.
    rewrite (Hag m m') by (apply Heq; left). rewrite Hc. simpl.
    rewrite (local_agree _ (Hin v) m m' t' Hv); [done|]. intros b Hb. apply Heq. by right.
Qed.

Lemma local_const o : (forall t, o = Some t -> addrs t = []) -> local (fun _ => o).
Proof.
  intros H. split; [|done]. intros m t a Ho Ha. rewrite (H t Ho) in Ha.
  by apply elem_of_nil in Ha.
Qed.

Definition read_ptr {t : ty} (V : Viewed (den t)) (m : mem) (p : ptr t) : option tree :=
  match paddr p with
  | None => Some TNil
  | Some a => behind a (v ← val_at m t a; view m v)
  end.

Program Definition view_ptr' {t : ty} (V : Viewed (den t)) : Viewed (ptr t) :=
  {| view := read_ptr V |}.
Next Obligation.
  intros t V [[a|]]; unfold read_ptr; simpl; [|by apply local_const; intros ? [= <-]].
  apply (behind_local (fun m => val_at m t a) a (fun v m => view m v));
    [by intros ? ? ?%val_at_valid|intros; by apply val_at_agree|intros; apply view_local].
Qed.

Definition view_list {T} {V : Viewed T} (m : mem) (vs : list T) : option tree :=
  view_all m (map (fun v m => view m v) vs).

Definition read_slice {t : ty} (V : Viewed (den t)) (m : mem) (s : slice t) : option tree :=
  match swindow s with
  | None => Some TNil
  | Some w => behind (w_arr w) (vs ← elems m t w; view_list m vs)
  end.

Program Definition view_slice' {t : ty} (V : Viewed (den t)) : Viewed (slice t) :=
  {| view := read_slice V |}.
Next Obligation.
  intros t V [[w|]]; unfold read_slice; simpl; [|by apply local_const; intros ? [= <-]].
  apply (behind_local (fun m => elems m t w) (w_arr w) (fun vs m => view_list m vs));
    [by intros ? ? ?%elems_valid|intros; by apply elems_agree|].
  intros vs. apply view_all_local, Forall_forall. intros f (v & <- & _)%in_map_iff.
  apply view_local.
Qed.

Definition read_map (m : mem) (g : gomap) : option tree :=
  match maddr g with
  | None => Some TNil
  | Some a => behind a (e ← map_at m a; Some (TMap e))
  end.

#[export] Program Instance view_gomap : Viewed gomap := {| view := read_map |}.
Next Obligation.
  intros [[a|]]; unfold read_map; simpl; [|by apply local_const; intros ? [= <-]].
  apply (behind_local (fun m => map_at m a) a (fun e _ => Some (TMap e)));
    [by intros ? ? ?%map_at_valid|intros; by apply map_at_agree|].
  intros v. apply local_const. by intros ? [= <-].
Qed.
End views.

(** ** Running code over the memory *)

Section wp.
Context {L : Layout}.

(** [c] does not panic, and [Q] holds of where it ends. *)
Definition wp {A} (c : M A) (m : mem) (Q : mem -> A -> Prop) : Prop :=
  exists m' x, c m = Some (m', x) /\ Q m' x.

Lemma wp_ret {A} (x : A) m (Q : mem -> A -> Prop) : Q m x -> wp (mret x) m Q.
Proof. intros H. by exists m, x. Qed.

Lemma wp_bind {A B} (c : M A) (f : A -> M B) m Q :
  wp c m (fun m' x => wp (f x) m' Q) -> wp (mbind c f) m Q.
Proof.
  intros (m' & x & Hc & m2 & y & Hf & HQ). exists m2, y. unfold mbind. by rewrite Hc.
Qed.

Lemma wp_mono {A} (c : M A) m (Q Q' : mem -> A -> Prop) :
  wp c m Q -> (forall m' x, Q m' x -> Q' m' x) -> wp c m Q'.
Proof. intros (m' & x & Hc & HQ) H. exists m', x. auto. Qed.

Lemma wp_alloc c m (Q : mem -> addr -> Prop) : Q (m ++ [c]) (length m) -> wp (alloc c) m Q.
Proof. intros H. by eexists _, _. Qed.

Lemma wp_make_slice t n m (Q : mem -> window -> Prop) :
  Q (m ++ [CArr t (replicate n (zero t))]) {| w_arr := length m; w_off := 0; w_len := n |} ->
  wp (make_slice t n) m Q.
Proof. intros H. by eexists _, _. Qed.

Lemma wp_load t a v m (Q : mem -> den t -> Prop) :
  val_at m t a = Some v -> Q m v -> wp (load t a) m Q.
Proof. intros H HQ. exists m, v. unfold load. by rewrite H. Qed.

Lemma wp_store t a v v0 m (Q : mem -> unit -> Prop) :
  val_at m t a = Some v0 -> Q (<[a := CVal t v]> m) tt -> wp (store t a v) m Q.
Proof. intros H HQ. eexists _, tt. unfold store. by rewrite H. Qed.

Lemma wp_slice_get t w i vs v m (Q : mem -> den t -> Prop) :
  elems m t w = Some vs -> vs !! i = Some v -> Q m v -> wp (slice_get t w i) m Q.
Proof. intros H Hi HQ. exists m, v. unfold slice_get. by rewrite H, Hi. Qed.

Lemma wp_slice_set t w i v vs m (Q : mem -> unit -> Prop) :
  arr_at m t (w_arr w) = Some vs -> i < w_len w -> w_off w + w_len w <= length vs ->
  Q (<[w_arr w := CArr t (<[w_off w + i := v]> vs)]> m) tt -> wp (slice_set t w i v) m Q.
Proof. intros H Hi Hl HQ. eexists _, tt. unfold slice_set. by rewrite H, decide_True. Qed.

(** Counting loops, with an invariant. *)
Lemma wp_for_seq n (body : nat -> M unit) (I : nat -> mem -> Prop) m :
  I 0 m ->
  (forall i m, i < n -> I i m -> wp (body i) m (fun m' _ => I (S i) m')) ->
  wp (mfor (seq 0 n) body) m (fun m' _ => I n m').
Proof.
  intros H0 Hs.
  enough (forall k i m, i + k = n -> I i m ->
    wp (mfor (seq i k) body) m (fun m' _ => I n m')) as H by by apply (H n 0).
  clear m H0. induction k as [|k IH]; intros i m Hn HI; simpl.
  - apply wp_ret. by replace n with i by lia.
  - apply wp_bind. eapply wp_mono; [apply Hs; [lia|done]|]. intros m' [] HI'.
    apply IH; [lia|done].
Qed.
End wp.

Section deep.
Context {L : Layout} {RO : RangeOrder}.

(** ** The contract of a deep copy *)

(** [y] reads in [m] like the tree [t], and reaches no address below [n]. *)
Definition copied (n : nat) (m : mem) (f : mem -> option tree) (t : tree) : Prop :=
  exists t', f m = Some t' /\ erase t' = erase t /\ forall a, a ∈ addrs t' -> n <= a.

Definition is_copy {T} {VT : Viewed T} (n : nat) (m : mem) (y : T) (t : tree) : Prop :=
  copied n m (fun m => view m y) t.

(** From any memory where [x] is readable the copy ends without a panic; the old
    cells keep their contents, and the result reads like [x] but is all new. *)
Definition deep_copier {T} {VT : Viewed T} (into : T -> M T) : Prop :=
  forall m x t, view m x = Some t ->
    wp (into x) m (fun m' y => m `prefix_of` m' /\ is_copy (length m) m' y t).

Lemma is_copy_mono {T} {VT : Viewed T} n n' m m' (y : T) t :
  m `prefix_of` m' -> n' <= n -> is_copy n m y t -> is_copy n' m' y t.
Proof.
  intros Hp Hn (t' & Hv & He & Ha). exists t'. split_and!; [by eapply view_mono|done|].
  intros a Hin. specialize (Ha a Hin). lia.
Qed.

(** Types without addresses. *)
Class Flat (T : Type) {V : Viewed T} := {
  flat_view : forall m x t, view m x = Some t -> addrs t = []
}.

Lemma flat_copy {T} {VT : Viewed T} {FT : Flat T} n m m' (x : T) t : view m x = Some t -> is_copy n m' x t.
Proof.
  intros Hv. pose proof (flat_view _ _ _ Hv) as Ha. exists t. split_and!; [|done|].
  - apply (local_agree _ (view_local x) m m' t Hv). intros a Hin. rewrite Ha in Hin.
    by apply elem_of_nil in Hin.
  - intros a Hin. rewrite Ha in Hin. by apply elem_of_nil in Hin.
Qed.

Lemma flat_deep {T} {VT : Viewed T} {FT : Flat T} : deep_copier (T := T) mret.
Proof. intros m x t Hv. apply wp_ret. split; [done|by eapply flat_copy]. Qed.

#[export] Instance flat_string : Flat string.
Proof. split. by intros m x t [= <-]. Qed.
#[export] Instance flat_Z : Flat Z.
Proof. split. by intros m x t [= <-]. Qed.
#[export] Instance flat_bool : Flat bool.
Proof. split. by intros m x t [= <-]. Qed.

(** ** Writing where nothing old is *)

Lemma prefix_insert (m m' : mem) a c :
  m `prefix_of` m' -> length m <= a -> m `prefix_of` <[a := c]> m'.
Proof.
  intros [k ->] Ha. rewrite insert_app_r_alt by done. by apply prefix_app_r.
Qed.

Lemma view_insert {T} {VT : Viewed T} m a c (x : T) t :
  view m x = Some t -> a ∉ addrs t -> view (<[a := c]> m) x = Some t.
Proof.
  intros Hv Ha. apply (local_agree _ (view_local x) m _ t Hv). intros b Hb.
  apply list_lookup_insert_ne. by intros ->.
Qed.

Lemma is_copy_insert {T} {VT : Viewed T} n m a c (y : T) t :
  is_copy n m y t -> a < n -> is_copy n (<[a := c]> m) y t.
Proof.
  intros (t' & Hv & He & Ha) Hlt. exists t'. split_and!; [|done..].
  apply view_insert; [done|]. intros Hin. specialize (Ha a Hin). lia.
Qed.

Lemma prefix_snoc (m : mem) c : m `prefix_of` m ++ [c].
Proof. by exists [c]. Qed.

Lemma lookup_snoc_prefix (m m' : mem) c : m ++ [c] `prefix_of` m' -> m' !! length m = Some c.
Proof.
  intros Hp. eapply prefix_lookup_Some; [|done].
  by rewrite lookup_app_r, Nat.sub_diag by done.
Qed.

Lemma lookup_insert_here (m m' : mem) c d :
  m ++ [c] `prefix_of` m' -> (<[length m := d]> m') !! length m = Some d.
Proof.
  intros Hp. apply list_lookup_insert_eq. apply prefix_length in Hp.
  rewrite length_app in Hp. simpl in Hp. lia.
Qed.

Lemma prefix_agree (m m' : mem) a : m `prefix_of` m' -> a < length m -> m' !! a = m !! a.
Proof.
  intros Hp [c Hc]%lookup_lt_is_Some_2. by rewrite (prefix_lookup_Some _ _ _ _ Hc Hp), Hc.
Qed.

Lemma val_at_here m t a v : m !! a = Some (CVal t v) -> val_at m t a = Some v.
Proof. unfold val_at. intros ->. apply coerce_refl. Qed.

Lemma arr_at_here m t a v : m !! a = Some (CArr t v) -> arr_at m t a = Some v.
Proof. unfold arr_at. intros ->. apply (coerce_refl (F := fun t => list (den t))). Qed.

Lemma map_at_here m a g : m !! a = Some (CMap g) -> map_at m a = Some g.
Proof. unfold map_at. by intros ->. Qed.

(** One step of a copy that has begun in the memory [m0]. *)
Lemma deep_step {T B} {V : Viewed T} (into : T -> M T) (x : T) t (k : T -> M B) m0 m Q :
  deep_copier into -> view m0 x = Some t -> m0 `prefix_of` m ->
  (forall m' y, m `prefix_of` m' -> m0 `prefix_of` m' -> is_copy (length m0) m' y t ->
     wp (k y) m' Q) ->
  wp (mbind (into x) k) m Q.
Proof.
  intros Hd Hv Hp Hk. apply wp_bind. eapply wp_mono; [apply (Hd m x t); by eapply view_mono|].
  intros m' y [Hp' Hc]. apply Hk; [done|by etrans|].
  apply (is_copy_mono (length m) _ m'); [done| |done]. by apply prefix_length.
Qed.

(** ** The shapes are deep copies *)

Lemma copy_ptr_deep {t : ty} (V : Viewed (den t)) (into : den t -> M (den t)) :
  deep_copier into -> deep_copier (copy_ptr into) (VT := view_ptr' V).
Proof.
  intros Hinto m [[a|]] tr; simpl; unfold read_ptr, copy_ptr; simpl.
  2: { intros [= <-]. apply wp_ret. split; [done|]. exists TNil. split_and!; [done..|].
       by intros b ?%elem_of_nil. }
  unfold behind. intros (t0 & (v & Hv & Ht0)%bind_Some & ->)%fmap_Some.
  apply wp_bind, wp_alloc. set (m1 := m ++ [_]).
  assert (m `prefix_of` m1) as Hp1 by apply prefix_snoc.
  assert (val_at m1 t a = Some v) as Hv1.
  { rewrite <-Hv. by apply val_at_agree, prefix_agree, (val_at_valid m t a v). }
  apply wp_bind, (wp_load _ _ v); [done|]. apply wp_bind.
  eapply wp_mono; [apply (Hinto m1 v t0); by eapply view_mono|].
  intros m2 y [Hp2 Hy]. pose proof (lookup_snoc_prefix _ _ _ Hp2) as Ho.
  apply wp_bind. eapply wp_store; [by apply val_at_here|]. apply wp_ret.
  split; [apply prefix_insert; [by etrans|done]|].
  apply (is_copy_insert _ _ (length m) (CVal t y)) in Hy as (t' & Hy & He & Ha);
    [|unfold m1; rewrite length_app; simpl; lia].
  exists (TRef (length m) t'). split_and!.
  - simpl. unfold read_ptr. simpl. rewrite (val_at_here _ t _ y) by (by eapply lookup_insert_here). simpl.
    by rewrite Hy.
  - simpl. by rewrite He.
  - intros b [->|Hb]%elem_of_cons; [done|]. apply Ha in Hb. unfold m1 in Hb.
    rewrite length_app in Hb. lia.
Qed.

(** Copies side by side read like the originals side by side. *)
Lemma view_all_copies n m fs ts :
  Forall2 (copied n m) fs ts -> copied n m (fun m => view_all m fs) (TNode ts).
Proof.
  induction 1 as [|f t fs ts (t' & Hv & He & Ha) _ (tr & Hvs & Hes & Has)].
  { exists (TNode []). split_and!; [done..|]. by intros a ?%elem_of_nil. }
  apply view_all_Some in Hvs as (ts' & -> & Hvs). exists (TNode (t' :: ts')). split_and!.
  - apply view_all_Some. eexists. split; [done|]. by constructor.
  - rewrite !erase_node, !fmap_cons, He. rewrite !erase_node in Hes. by injection Hes as ->.
  - intros a (x & [->|Hx]%elem_of_cons & Hin)%elem_of_addrs_node; [by apply Ha|].
    apply Has, elem_of_addrs_node. by exists x.
Qed.

Lemma view_copies {T} {V : Viewed T} n m (ys : list T) ts :
  Forall2 (fun y t => is_copy n m y t) ys ts ->
  copied n m (fun m => view_list m ys) (TNode ts).
Proof. intros H. by apply view_all_copies, Forall2_fmap_l. Qed.

Lemma struct_copy {S} (fields : S -> list field) n m (y : S) ts :
  Forall2 (fun fd t => copied n m (read fd) t) (fields y) ts ->
  is_copy (VT := struct_view fields) n m y (TNode ts).
Proof. intros H. by apply view_all_copies, Forall2_fmap_l. Qed.

Lemma view_list_Some {T} {V : Viewed T} m (vs : list T) t :
  view_list m vs = Some t <->
  exists ts, t = TNode ts /\ Forall2 (fun v t => view m v = Some t) vs ts.
Proof.
  unfold view_list. rewrite view_all_Some.
  by split; intros (ts & Ht & H); exists ts; (split; [done|]); apply Forall2_fmap_l in H || apply Forall2_fmap_l.
Qed.

(** The new array filled up with [ys]: the slice reads like the copied one. *)
Lemma filled_slice {t : ty} (V : Viewed (den t)) n m (a : addr) ys ts :
  arr_at m t a = Some ys -> n <= a ->
  Forall2 (fun y t => is_copy n m y t) ys ts ->
  is_copy (VT := view_slice' V) n m
    (Slice (Some {| w_arr := a; w_off := 0; w_len := length ys |})) (TRef a (TNode ts)).
Proof.
  intros Harr Hn H. destruct (view_copies _ _ _ _ H) as (t' & Hv & He & Ha).
  exists (TRef a t'). split_and!.
  - simpl. unfold read_slice, elems. simpl. rewrite Harr, decide_True by lia.
    rewrite drop_0, firstn_all. simpl. by rewrite Hv.
  - simpl in He |- *. by rewrite He.
  - intros b [->|Hb]%elem_of_cons; [done|by apply Ha].
Qed.

Lemma copy_slice_deep {t : ty} (V : Viewed (den t)) (into : den t -> M (den t)) :
  deep_copier into -> deep_copier (copy_slice into) (VT := view_slice' V).
Proof.
  intros Hinto m [[src|]] tr; simpl; unfold read_slice, copy_slice; simpl.
  2: { intros [= <-]. apply wp_ret. split; [done|]. exists TNil. split_and!; [done..|].
       by intros b ?%elem_of_nil. }
  unfold behind. intros (t0 & (vs & Hvs & Ht0)%bind_Some & ->)%fmap_Some.
  apply view_list_Some in Ht0 as (ts & -> & Hts).
  pose proof (elems_length _ _ _ _ Hvs) as Hlen. pose proof (Forall2_length Hts) as Hlts.
  apply wp_bind, wp_make_slice. set (m1 := m ++ [_]). set (out := {| w_arr := length m |}).
  apply wp_bind. eapply wp_mono; [apply (wp_for_seq (w_len src) _ (fun k mk =>
    m `prefix_of` mk /\ exists ys, length ys = k /\
      mk !! length m = Some (CArr t (ys ++ replicate (w_len src - k) (zero t))) /\
      Forall2 (fun y t => is_copy (S (length m)) mk y t) ys (take k ts)))|].
  - split; [apply prefix_snoc|]. exists []. split_and!; [done| |constructor].
    rewrite Nat.sub_0_r. by apply lookup_snoc_prefix.
  - intros i mi Hi [Hp (ys & Hys & Harr & Hcopies)].
    assert (elems mi t src = Some vs) as Hsrc.
    { rewrite <-Hvs. by apply elems_agree, prefix_agree, (elems_valid m t src vs). }
    destruct (lookup_lt_is_Some_2 vs i) as [v Hv]; [lia|].
    destruct (lookup_lt_is_Some_2 ts i) as [ti Hti]; [lia|].
    apply wp_bind, (wp_slice_get _ _ _ vs v); [done..|]. apply wp_bind.
    eapply wp_mono; [apply (Hinto mi v ti); eapply view_mono; [done|];
      by apply (Forall2_lookup_lr _ _ _ _ _ _ Hts Hv Hti)|].
    intros m2 y [Hp2 Hy]. pose proof (lookup_lt_Some _ _ _ Harr) as Hlt.
    pose proof (prefix_lookup_Some _ _ _ _ Harr Hp2) as Harr2.
    eapply wp_slice_set; [by apply arr_at_here|done| |].
    { simpl. rewrite length_app, length_replicate. lia. }
    simpl. split; [apply prefix_insert; [by etrans|done]|]. exists (ys ++ [y]).
    split_and!; [rewrite length_app; simpl; lia| |].
    + rewrite list_lookup_insert_eq by (apply prefix_length in Hp2; lia). do 2 f_equal.
      rewrite insert_app_r_alt by lia. rewrite Hys, Nat.sub_diag.
      replace (w_len src - i) with (S (w_len src - S i)) by lia. simpl.
      by rewrite <-app_assoc.
    + rewrite (take_S_r ts i ti) by done. apply Forall2_app.
      * revert Hcopies. apply Forall2_impl. intros y' t' Hc.
        apply is_copy_insert; [|lia]. by apply (is_copy_mono (S (length m)) _ mi).
      * constructor; [|done]. apply is_copy_insert; [|lia].
        apply (is_copy_mono (length mi) _ m2); [done|lia|done].
  - intros mk [] [Hp (ys & Hys & Harr & Hcopies)]. apply wp_ret. split; [done|].
    rewrite Nat.sub_diag in Harr. simpl in Harr. rewrite app_nil_r in Harr.
    rewrite firstn_all2 in Hcopies by lia.
    unfold out. rewrite <-Hys.
    destruct (filled_slice V (length m) mk (length m) ys ts) as (t' & ? & He & ?);
      [by apply arr_at_here|done| |by exists t'].
    revert Hcopies. apply Forall2_impl. intros y' t' Hc.
    apply (is_copy_mono (S (length m)) _ mk); [done|lia|done].
Qed.

Lemma copy_flat_slice_deep {t : ty} (V : Viewed (den t)) {F : Flat (den t)} :
  deep_copier (copy_flat_slice (t := t)) (VT := view_slice' V).
Proof.
  intros m [[src|]] tr; simpl; unfold read_slice, copy_flat_slice; simpl.
  2: { intros [= <-]. apply wp_ret. split; [done|]. exists TNil. split_and!; [done..|].
       by intros b ?%elem_of_nil. }
  unfold behind. intros (t0 & (vs & Hvs & Ht0)%bind_Some & ->)%fmap_Some.
  apply view_list_Some in Ht0 as (ts & -> & Hts).
  pose proof (elems_length _ _ _ _ Hvs) as Hlen.
  apply wp_bind, wp_make_slice. set (m1 := m ++ [_]). set (out := {| w_arr := length m |}).
  assert (m1 !! length m = Some (CArr t (replicate (w_len src) (zero t)))) as Ho
    by by apply lookup_snoc_prefix.
  assert (m `prefix_of` m1) as Hp1 by apply prefix_snoc.
  apply wp_bind. eexists _, tt. split.
  { unfold go_copy. rewrite (elems_agree m m1).
    2: { apply prefix_agree; [done|by eapply elems_valid]. }
    rewrite Hvs. unfold elems. simpl. rewrite (arr_at_here _ _ _ _ Ho), decide_True.
    - reflexivity.
    - rewrite length_replicate. lia. }
  rewrite <-Hlen, firstn_all. apply wp_ret. split; [by apply prefix_insert|].
  unfold out. rewrite <-Hlen.
  destruct (filled_slice V (length m) (<[length m := CArr t (list_inserts 0 vs
    (replicate (length vs) (zero t)))]> m1) (length m) vs ts) as (t' & ? & He & ?); [|done| |by exists t'].
  - apply arr_at_here. rewrite (lookup_insert_here m m1 _ _ (reflexivity _)).
    do 2 f_equal. apply list_eq. intros i. destruct (decide (i < length vs)) as [Hi|Hi].
    + rewrite list_lookup_inserts by (rewrite ?length_replicate; lia). f_equal. lia.
    + rewrite !lookup_ge_None_2; [done|lia|]. rewrite length_inserts, length_replicate. lia.
  - revert Hts. apply Forall2_impl. intros v tv. by apply flat_copy.
Qed.

(** Writing the entries of a map into an empty one, in any order, gives the map. *)
Lemma fold_inserts (g : gmap string string) l :
  l ≡ₚ map_to_list g ->
  foldl (fun g kv => <[kv.1 := kv.2]> g) ∅ l = g.
Proof.
  intros Hl.
  replace (foldl _ ∅ l) with (list_to_map (M := gmap string string) (reverse l)).
  - rewrite <-(list_to_map_to_list g). apply list_to_map_proper.
    + by rewrite reverse_Permutation, Hl; apply NoDup_fst_map_to_list.
    + by rewrite reverse_Permutation.
  - induction l as [|[k v] l _] using rev_ind; [done|].
    rewrite reverse_app, foldl_app. simpl. f_equal.
    clear Hl. induction l as [|[k' v'] l IH] using rev_ind; [done|].
    rewrite reverse_app, foldl_app. simpl. by f_equal.
Qed.

Lemma copy_map_deep : deep_copier copy_map.
Proof.
  intros m [[src|]] tr; simpl; unfold read_map, copy_map; simpl.
  2: { intros [= <-]. apply wp_ret. split; [done|]. exists TNil. split_and!; [done..|].
       by intros b ?%elem_of_nil. }
  unfold behind. intros (t0 & (g & Hg & [= <-])%bind_Some & ->)%fmap_Some.
  apply wp_bind, wp_alloc. set (m1 := m ++ [_]).
  assert (m `prefix_of` m1) as Hp1 by apply prefix_snoc.
  apply wp_bind. exists m1, g. split.
  { unfold range_of. rewrite (map_at_agree m m1), Hg; [done|].
    apply prefix_agree; [done|by eapply map_at_valid]. }
  enough (forall l m' g0, m `prefix_of` m' -> m' !! length m = Some (CMap g0) ->
    wp (mfor l (fun kv => map_set (length m) kv.1 kv.2)) m' (fun m2 _ =>
      m `prefix_of` m2 /\
      m2 !! length m = Some (CMap (foldl (fun g kv => <[kv.1 := kv.2]> g) g0 l)))) as H.
  { apply wp_bind. eapply wp_mono; [apply (H _ m1 ∅); [done|by apply lookup_snoc_prefix]|].
    intros m2 [] [Hp2 Hm2]. rewrite (fold_inserts g) in Hm2 by apply range_order_perm.
    apply wp_ret. split; [done|]. exists (TRef (length m) (TMap g)). split_and!; [|done|].
    - simpl. unfold read_map. simpl. by rewrite (map_at_here _ _ _ Hm2).
    - by intros b ->%list_elem_of_singleton. }
  induction l as [|[k v] l IH]; intros m' g0 Hp Hm'; [by apply wp_ret|].
  apply wp_bind. eexists _, tt. split; [unfold map_set; by rewrite (map_at_here _ _ _ Hm')|].
  apply IH; [by apply prefix_insert|]. apply list_lookup_insert_eq.
  by eapply lookup_lt_Some.
Qed.
End deep.
