(* ===== verification/ApiMem.v ===== *)
(** * The API types as they lie in memory

    The structs of [picoclusterdb_types.go] that contain pointers, slices or maps,
    with those as addresses ([go...], beside the value types of [Types]); structs
    without any are the records of [Types] themselves.  [api_layout] lists what a
    cell can hold.  Types of k8s.io packages are parameters ([LibLayout]): what
    they look like in memory, how they read, and their own [DeepCopyInto]. *)

From S2P Require Import Prelude Types GoMem GoMemLogic.
From stdpp Require Import options.

(** The library types that occur in the API types. *)
Inductive libty :=
| LObjectMeta | LListMeta | LQuantity | LResourceRequirements | LEnvVar | LAffinity
| LToleration | LTopologySpreadConstraint | LPodSecurityContext | LProbe | LCondition.

(** Types of cells and array elements. *)
Inductive api_ty :=
| YString | YLocalObjectReference
| YClusterSpec | YImageSpec | YMemtxSpec | YPgSpec | YPluginServiceSpec | YPluginStatus
| YSecretKeyRef | YServiceSpec | YVinylSpec
| YIngressTLSSpec | YIngressSpec | YLogSpec | YPluginSpec | YStorageSpec | YTierSpec
| YTierStatus | YPicoclusterDBSpec | YPicoclusterDBStatus | YPicoclusterDB
| YPicoclusterDBList
| YLib (l : libty)
| YLibCell.

#[export] Instance libty_eq_dec : EqDecision libty.
Proof. solve_decision. Defined.
#[export] Instance api_ty_eq_dec : EqDecision api_ty.
Proof. solve_decision. Defined.

(** Library types in memory, with cells of their own for what they point to. *)
Class LibLayout := {
  lib_rep : libty -> Type;
  lib_zero : forall l, lib_rep l;
  lib_cell : Type;
  lib_cell_zero : lib_cell
}.

Record TypeMeta := { tm_Kind : string; tm_APIVersion : string }.

Section structs.
Context {LL : LibLayout}.
Abbreviation lib := lib_rep.

Record goIngressTLSSpec := {
  gtls_Hosts : slice YString;
  gtls_SecretName : string
}.

Record goIngressSpec := {
  gis_Enabled : bool;
  gis_Host : string;
  gis_IngressClassName : ptr YString;
  gis_Annotations : gomap;
  gis_TLS : slice YIngressTLSSpec
}.

Record goLogSpec := {
  glg_Level : string;
  glg_Format : string;
  glg_Destination : ptr YString
}.

Record goPluginSpec := {
  gpl_Name : string;
  gpl_Version : string;
  gpl_MigrationContext : gomap;
  gpl_Services : slice YPluginServiceSpec
}.

Record goStorageSpec := {
  gst_Size : lib LQuantity;
  gst_StorageClassName : ptr YString
}.

Record goTierSpec := {
  gt_Name : string;
  gt_Replicas : Z;
  gt_ReplicationFactor : Z;
  gt_CanVote : bool;
  gt_Storage : goStorageSpec;
  gt_Memtx : MemtxSpec;
  gt_Vinyl : VinylSpec;
  gt_Pg : PgSpec;
  gt_Log : goLogSpec;
  gt_Resources : lib LResourceRequirements;
  gt_ShareDir : string;
  gt_Plugins : slice YPluginSpec;
  gt_Env : slice (YLib LEnvVar);
  gt_Affinity : ptr (YLib LAffinity);
  gt_Tolerations : slice (YLib LToleration);
  gt_NodeSelector : gomap;
  gt_TopologySpreadConstraints : slice (YLib LTopologySpreadConstraint);
  gt_SecurityContext : ptr (YLib LPodSecurityContext);
  gt_Ingress : ptr YIngressSpec;
  gt_DisableAutoAntiAffinity : bool
}.

Record goPicoclusterDBSpec := {
  gs_Image : ImageSpec;
  gs_ImagePullSecrets : slice YLocalObjectReference;
  gs_ClusterName : string;
  gs_AdminPassword : SecretKeyRef;
  gs_Cluster : ClusterSpec;
  gs_Tiers : slice YTierSpec;
  gs_Service : ServiceSpec;
  gs_StartupProbe : ptr (YLib LProbe);
  gs_LivenessProbe : ptr (YLib LProbe);
  gs_ReadinessProbe : ptr (YLib LProbe)
}.

Record goTierStatus := {
  gts_Name : string;
  gts_ReadyReplicas : Z;
  gts_DesiredReplicas : Z;
  gts_Plugins : slice YPluginStatus
}.

Record goPicoclusterDBStatus := {
  gstat_Phase : option ClusterPhase;
  gstat_Tiers : slice YTierStatus;
  gstat_Conditions : slice (YLib LCondition)
}.

Record goPicoclusterDB := {
  gdb_TypeMeta : TypeMeta;
  gdb_ObjectMeta : lib LObjectMeta;
  gdb_Spec : goPicoclusterDBSpec;
  gdb_Status : goPicoclusterDBStatus
}.

Record goPicoclusterDBList := {
  gl_TypeMeta : TypeMeta;
  gl_ListMeta : lib LListMeta;
  gl_Items : slice YPicoclusterDB
}.

(** ** Zero values *)

Definition nil_ptr {t : api_ty} : ptr t := Ptr None.
Definition nil_slice {t : api_ty} : slice t := Slice None.
Definition nil_map : gomap := Map None.

Definition zeroStorage : goStorageSpec :=
  {| gst_Size := lib_zero LQuantity; gst_StorageClassName := nil_ptr |}.
Definition zeroLog : goLogSpec :=
  {| glg_Level := ""; glg_Format := ""; glg_Destination := nil_ptr |}.
Definition zeroTier : goTierSpec :=
  {| gt_Name := ""; gt_Replicas := 0; gt_ReplicationFactor := 0; gt_CanVote := false;
     gt_Storage := zeroStorage; gt_Memtx := Build_MemtxSpec ""; gt_Vinyl := Build_VinylSpec "" "";
     gt_Pg := Build_PgSpec false false; gt_Log := zeroLog;
     gt_Resources := lib_zero LResourceRequirements; gt_ShareDir := "";
     gt_Plugins := nil_slice; gt_Env := nil_slice; gt_Affinity := nil_ptr;
     gt_Tolerations := nil_slice; gt_NodeSelector := nil_map;
     gt_TopologySpreadConstraints := nil_slice; gt_SecurityContext := nil_ptr;
     gt_Ingress := nil_ptr; gt_DisableAutoAntiAffinity := false |}.
Definition zeroSpec : goPicoclusterDBSpec :=
  {| gs_Image := Build_ImageSpec "" "" ""; gs_ImagePullSecrets := nil_slice;
     gs_ClusterName := ""; gs_AdminPassword := Build_SecretKeyRef "" "";
     gs_Cluster := Build_ClusterSpec 0 0 false; gs_Tiers := nil_slice;
     gs_Service := Build_ServiceSpec "" 0 0 0; gs_StartupProbe := nil_ptr;
     gs_LivenessProbe := nil_ptr; gs_ReadinessProbe := nil_ptr |}.
Definition zeroStatus : goPicoclusterDBStatus :=
  {| gstat_Phase := None; gstat_Tiers := nil_slice; gstat_Conditions := nil_slice |}.
Definition zeroDB : goPicoclusterDB :=
  {| gdb_TypeMeta := Build_TypeMeta "" ""; gdb_ObjectMeta := lib_zero LObjectMeta;
     gdb_Spec := zeroSpec; gdb_Status := zeroStatus |}.

Definition api_den (t : api_ty) : Type :=
  match t with
  | YString | YLocalObjectReference => string
  | YClusterSpec => ClusterSpec
  | YImageSpec => ImageSpec
  | YMemtxSpec => MemtxSpec
  | YPgSpec => PgSpec
  | YPluginServiceSpec => PluginServiceSpec
  | YPluginStatus => PluginStatus
  | YSecretKeyRef => SecretKeyRef
  | YServiceSpec => ServiceSpec
  | YVinylSpec => VinylSpec
  | YIngressTLSSpec => goIngressTLSSpec
  | YIngressSpec => goIngressSpec
  | YLogSpec => goLogSpec
  | YPluginSpec => goPluginSpec
  | YStorageSpec => goStorageSpec
  | YTierSpec => goTierSpec
  | YTierStatus => goTierStatus
  | YPicoclusterDBSpec => goPicoclusterDBSpec
  | YPicoclusterDBStatus => goPicoclusterDBStatus
  | YPicoclusterDB => goPicoclusterDB
  | YPicoclusterDBList => goPicoclusterDBList
  | YLib l => lib l
  | YLibCell => lib_cell
  end.

Definition api_zero (t : api_ty) : api_den t :=
  match t with
  | YString | YLocalObjectReference => ""
  | YClusterSpec => Build_ClusterSpec 0 0 false
  | YImageSpec => Build_ImageSpec "" "" ""
  | YMemtxSpec => Build_MemtxSpec ""
  | YPgSpec => Build_PgSpec false false
  | YPluginServiceSpec => Build_PluginServiceSpec "" 0
  | YPluginStatus => Build_PluginStatus "" "" false
  | YSecretKeyRef => Build_SecretKeyRef "" ""
  | YServiceSpec => Build_ServiceSpec "" 0 0 0
  | YVinylSpec => Build_VinylSpec "" ""
  | YIngressTLSSpec => Build_goIngressTLSSpec nil_slice ""
  | YIngressSpec => Build_goIngressSpec false "" nil_ptr nil_map nil_slice
  | YLogSpec => zeroLog
  | YPluginSpec => Build_goPluginSpec "" "" nil_map nil_slice
  | YStorageSpec => zeroStorage
  | YTierSpec => zeroTier
  | YTierStatus => Build_goTierStatus "" 0 0 nil_slice
  | YPicoclusterDBSpec => zeroSpec
  | YPicoclusterDBStatus => zeroStatus
  | YPicoclusterDB => zeroDB
  | YPicoclusterDBList => Build_goPicoclusterDBList (Build_TypeMeta "" "") (lib_zero LListMeta) nil_slice
  | YLib l => lib_zero l
  | YLibCell => lib_cell_zero
  end.

#[export] Instance api_layout : Layout :=
  {| ty := api_ty; den := api_den; zero := api_zero |}.
End structs.

(** How library types read, and their own deep copies, with what they promise. *)
Class LibCopy {LL : LibLayout} := {
  lib_view :: forall l, Viewed (lib_rep l);
  lib_DeepCopyInto : forall l, lib_rep l -> M (lib_rep l)
}.

Class LibCopyLaws {LL : LibLayout} (LC : LibCopy) := {
  lib_deep : forall l, deep_copier (lib_DeepCopyInto l)
}.

(** ** How the structs read *)

Section views.
Context {LL : LibLayout} {LC : LibCopy}.

#[export] Instance view_ptr (t : api_ty) {V : Viewed (api_den t)} : Viewed (ptr t) :=
  view_ptr' (t := t) V.
#[export] Instance view_slice (t : api_ty) {V : Viewed (api_den t)} : Viewed (slice t) :=
  view_slice' (t := t) V.

Definition phase_text (p : option ClusterPhase) : string :=
  match p with
  | None => ""
  | Some ClusterPhasePending => "Pending"
  | Some ClusterPhaseInitializing => "Initializing"
  | Some ClusterPhaseReady => "Ready"
  | Some ClusterPhaseDegraded => "Degraded"
  | Some ClusterPhaseUnknown => "Unknown"
  end.

#[export] Instance view_phase : Viewed (option ClusterPhase) :=
  scalar_view (fun p => TString (phase_text p)) (fun _ => eq_refl).

#[export] Instance view_TypeMeta : Viewed TypeMeta :=
  struct_view (fun s => [fld (tm_Kind s); fld (tm_APIVersion s)]).
#[export] Instance view_ImageSpec : Viewed ImageSpec :=
  struct_view (fun s => [fld (img_Repository s); fld (img_Tag s); fld (img_PullPolicy s)]).
#[export] Instance view_SecretKeyRef : Viewed SecretKeyRef :=
  struct_view (fun s => [fld (skr_SecretName s); fld (skr_Key s)]).
#[export] Instance view_ClusterSpec : Viewed ClusterSpec :=
  struct_view (fun s => [fld (cl_DefaultReplicationFactor s); fld (cl_DefaultBucketCount s);
                         fld (cl_Shredding s)]).
#[export] Instance view_MemtxSpec : Viewed MemtxSpec :=
  struct_view (fun s => [fld (mx_Memory s)]).
#[export] Instance view_VinylSpec : Viewed VinylSpec :=
  struct_view (fun s => [fld (vy_Memory s); fld (vy_Cache s)]).
#[export] Instance view_PgSpec : Viewed PgSpec :=
  struct_view (fun s => [fld (pg_Enabled s); fld (pg_SSL s)]).
#[export] Instance view_ServiceSpec : Viewed ServiceSpec :=
  struct_view (fun s => [fld (sv_Type s); fld (sv_BinaryPort s); fld (sv_HttpPort s);
                         fld (sv_PgPort s)]).
#[export] Instance view_PluginServiceSpec : Viewed PluginServiceSpec :=
  struct_view (fun s => [fld (pls_Name s); fld (pls_ListenerPort s)]).
#[export] Instance view_PluginStatus : Viewed PluginStatus :=
  struct_view (fun s => [fld (pst_Name s); fld (pst_Version s); fld (pst_Enabled s)]).

#[export] Instance view_goIngressTLSSpec : Viewed goIngressTLSSpec :=
  struct_view (fun s => [fld (gtls_Hosts s); fld (gtls_SecretName s)]).
#[export] Instance view_goIngressSpec : Viewed goIngressSpec :=
  struct_view (fun s => [fld (gis_Enabled s); fld (gis_Host s); fld (gis_IngressClassName s);
                         fld (gis_Annotations s); fld (gis_TLS s)]).
#[export] Instance view_goLogSpec : Viewed goLogSpec :=
  struct_view (fun s => [fld (glg_Level s); fld (glg_Format s); fld (glg_Destination s)]).
#[export] Instance view_goPluginSpec : Viewed goPluginSpec :=
  struct_view (fun s => [fld (gpl_Name s); fld (gpl_Version s); fld (gpl_MigrationContext s);
                         fld (gpl_Services s)]).
#[export] Instance view_goStorageSpec : Viewed goStorageSpec :=
  struct_view (fun s => [fld (gst_Size s); fld (gst_StorageClassName s)]).
#[export] Instance view_goTierSpec : Viewed goTierSpec :=
  struct_view (fun s =>
    [fld (gt_Name s); fld (gt_Replicas s); fld (gt_ReplicationFactor s); fld (gt_CanVote s);
     fld (gt_Storage s); fld (gt_Memtx s); fld (gt_Vinyl s); fld (gt_Pg s); fld (gt_Log s);
     fld (gt_Resources s); fld (gt_ShareDir s); fld (gt_Plugins s); fld (gt_Env s);
     fld (gt_Affinity s); fld (gt_Tolerations s); fld (gt_NodeSelector s);
     fld (gt_TopologySpreadConstraints s); fld (gt_SecurityContext s); fld (gt_Ingress s);
     fld (gt_DisableAutoAntiAffinity s)]).
#[export] Instance view_goPicoclusterDBSpec : Viewed goPicoclusterDBSpec :=
  struct_view (fun s =>
    [fld (gs_Image s); fld (gs_ImagePullSecrets s); fld (gs_ClusterName s);
     fld (gs_AdminPassword s); fld (gs_Cluster s); fld (gs_Tiers s); fld (gs_Service s);
     fld (gs_StartupProbe s); fld (gs_LivenessProbe s); fld (gs_ReadinessProbe s)]).
#[export] Instance view_goTierStatus : Viewed goTierStatus :=
  struct_view (fun s => [fld (gts_Name s); fld (gts_ReadyReplicas s);
                         fld (gts_DesiredReplicas s); fld (gts_Plugins s)]).
#[export] Instance view_goPicoclusterDBStatus : Viewed goPicoclusterDBStatus :=
  struct_view (fun s => [fld (gstat_Phase s); fld (gstat_Tiers s); fld (gstat_Conditions s)]).
#[export] Instance view_goPicoclusterDB : Viewed goPicoclusterDB :=
  struct_view (fun s => [fld (gdb_TypeMeta s); fld (gdb_ObjectMeta s); fld (gdb_Spec s);
                         fld (gdb_Status s)]).
#[export] Instance view_goPicoclusterDBList : Viewed goPicoclusterDBList :=
  struct_view (fun s => [fld (gl_TypeMeta s); fld (gl_ListMeta s); fld (gl_Items s)]).
End views.
