(* ===== verification/DeepCopyGen.v ===== *)
(** * The generated deep copies

    [api/v1/zz_generated.deepcopy.go], function by function.  [X_DeepCopyInto in]
    returns what the function leaves in [*out]: it starts with [*out = *in], so
    what was there before does not matter.  [X_DeepCopy] takes and returns a
    pointer. *)

From S2P Require Import Prelude Types GoMem GoMemLogic ApiMem.
From stdpp Require Import options.
Local Open Scope mem_scope.

Section generated.
Context {LL : LibLayout} {LC : LibCopy} {RO : RangeOrder}.

(** [if in == nil { return nil }; out := new(T); in.DeepCopyInto(out); return out] *)
Definition deep_copy (t : api_ty) (into : api_den t -> M (api_den t)) : ptr t -> M (ptr t) :=
  copy_ptr (t := t) into.

(** ** Structs without addresses: [*out = *in] *)

Definition ClusterSpec_DeepCopyInto (in_ : ClusterSpec) : M ClusterSpec := mret in_.
Definition ClusterSpec_DeepCopy := deep_copy YClusterSpec ClusterSpec_DeepCopyInto.

Definition ImageSpec_DeepCopyInto (in_ : ImageSpec) : M ImageSpec := mret in_.
Definition ImageSpec_DeepCopy := deep_copy YImageSpec ImageSpec_DeepCopyInto.

Definition MemtxSpec_DeepCopyInto (in_ : MemtxSpec) : M MemtxSpec := mret in_.
Definition MemtxSpec_DeepCopy := deep_copy YMemtxSpec MemtxSpec_DeepCopyInto.

Definition PgSpec_DeepCopyInto (in_ : PgSpec) : M PgSpec := mret in_.
Definition PgSpec_DeepCopy := deep_copy YPgSpec PgSpec_DeepCopyInto.

Definition PluginServiceSpec_DeepCopyInto (in_ : PluginServiceSpec) : M PluginServiceSpec :=
  mret in_.
Definition PluginServiceSpec_DeepCopy :=
  deep_copy YPluginServiceSpec PluginServiceSpec_DeepCopyInto.

Definition PluginStatus_DeepCopyInto (in_ : PluginStatus) : M PluginStatus := mret in_.
Definition PluginStatus_DeepCopy := deep_copy YPluginStatus PluginStatus_DeepCopyInto.

Definition SecretKeyRef_DeepCopyInto (in_ : SecretKeyRef) : M SecretKeyRef := mret in_.
Definition SecretKeyRef_DeepCopy := deep_copy YSecretKeyRef SecretKeyRef_DeepCopyInto.

Definition ServiceSpec_DeepCopyInto (in_ : ServiceSpec) : M ServiceSpec := mret in_.
Definition ServiceSpec_DeepCopy := deep_copy YServiceSpec ServiceSpec_DeepCopyInto.

Definition VinylSpec_DeepCopyInto (in_ : VinylSpec) : M VinylSpec := mret in_.
Definition VinylSpec_DeepCopy := deep_copy YVinylSpec VinylSpec_DeepCopyInto.

(** ** Structs with pointers, slices and maps *)

Definition IngressTLSSpec_DeepCopyInto (in_ : goIngressTLSSpec) : M goIngressTLSSpec :=
  hosts <- copy_flat_slice (gtls_Hosts in_);
  mret {| gtls_Hosts := hosts; gtls_SecretName := gtls_SecretName in_ |}.
Definition IngressTLSSpec_DeepCopy := deep_copy YIngressTLSSpec IngressTLSSpec_DeepCopyInto.

Definition IngressSpec_DeepCopyInto (in_ : goIngressSpec) : M goIngressSpec :=
  className <- copy_ptr mret (gis_IngressClassName in_);
  annotations <- copy_map (gis_Annotations in_);
  tls <- copy_slice (t := YIngressTLSSpec) IngressTLSSpec_DeepCopyInto (gis_TLS in_);
  mret {| gis_Enabled := gis_Enabled in_; gis_Host := gis_Host in_;
          gis_IngressClassName := className; gis_Annotations := annotations;
          gis_TLS := tls |}.
Definition IngressSpec_DeepCopy := deep_copy YIngressSpec IngressSpec_DeepCopyInto.

Definition LogSpec_DeepCopyInto (in_ : goLogSpec) : M goLogSpec :=
  destination <- copy_ptr mret (glg_Destination in_);
  mret {| glg_Level := glg_Level in_; glg_Format := glg_Format in_;
          glg_Destination := destination |}.
Definition LogSpec_DeepCopy := deep_copy YLogSpec LogSpec_DeepCopyInto.

Definition PluginSpec_DeepCopyInto (in_ : goPluginSpec) : M goPluginSpec :=
  context <- copy_map (gpl_MigrationContext in_);
  services <- copy_flat_slice (gpl_Services in_);
  mret {| gpl_Name := gpl_Name in_; gpl_Version := gpl_Version in_;
          gpl_MigrationContext := context; gpl_Services := services |}.
Definition PluginSpec_DeepCopy := deep_copy YPluginSpec PluginSpec_DeepCopyInto.

Definition StorageSpec_DeepCopyInto (in_ : goStorageSpec) : M goStorageSpec :=
  size <- lib_DeepCopyInto LQuantity (gst_Size in_);
  className <- copy_ptr mret (gst_StorageClassName in_);
  mret {| gst_Size := size; gst_StorageClassName := className |}.
Definition StorageSpec_DeepCopy := deep_copy YStorageSpec StorageSpec_DeepCopyInto.

Definition TierSpec_DeepCopyInto (in_ : goTierSpec) : M goTierSpec :=
  storage <- StorageSpec_DeepCopyInto (gt_Storage in_);
  log <- LogSpec_DeepCopyInto (gt_Log in_);
  resources <- lib_DeepCopyInto LResourceRequirements (gt_Resources in_);
  plugins <- copy_slice (t := YPluginSpec) PluginSpec_DeepCopyInto (gt_Plugins in_);
  env <- copy_slice (t := YLib LEnvVar) (lib_DeepCopyInto LEnvVar) (gt_Env in_);
  affinity <- copy_ptr (t := YLib LAffinity) (lib_DeepCopyInto LAffinity) (gt_Affinity in_);
  tolerations <- copy_slice (t := YLib LToleration) (lib_DeepCopyInto LToleration)
                   (gt_Tolerations in_);
  nodeSelector <- copy_map (gt_NodeSelector in_);
  spread <- copy_slice (t := YLib LTopologySpreadConstraint)
              (lib_DeepCopyInto LTopologySpreadConstraint) (gt_TopologySpreadConstraints in_);
  security <- copy_ptr (t := YLib LPodSecurityContext) (lib_DeepCopyInto LPodSecurityContext)
                (gt_SecurityContext in_);
  ingress <- copy_ptr (t := YIngressSpec) IngressSpec_DeepCopyInto (gt_Ingress in_);
  mret {| gt_Name := gt_Name in_; gt_Replicas := gt_Replicas in_;
          gt_ReplicationFactor := gt_ReplicationFactor in_; gt_CanVote := gt_CanVote in_;
          gt_Storage := storage; gt_Memtx := gt_Memtx in_; gt_Vinyl := gt_Vinyl in_;
          gt_Pg := gt_Pg in_; gt_Log := log; gt_Resources := resources;
          gt_ShareDir := gt_ShareDir in_; gt_Plugins := plugins; gt_Env := env;
          gt_Affinity := affinity; gt_Tolerations := tolerations;
          gt_NodeSelector := nodeSelector; gt_TopologySpreadConstraints := spread;
          gt_SecurityContext := security; gt_Ingress := ingress;
          gt_DisableAutoAntiAffinity := gt_DisableAutoAntiAffinity in_ |}.
Definition TierSpec_DeepCopy := deep_copy YTierSpec TierSpec_DeepCopyInto.

Definition TierStatus_DeepCopyInto (in_ : goTierStatus) : M goTierStatus :=
  plugins <- copy_flat_slice (gts_Plugins in_);
  mret {| gts_Name := gts_Name in_; gts_ReadyReplicas := gts_ReadyReplicas in_;
          gts_DesiredReplicas := gts_DesiredReplicas in_; gts_Plugins := plugins |}.
Definition TierStatus_DeepCopy := deep_copy YTierStatus TierStatus_DeepCopyInto.

Definition PicoclusterDBSpec_DeepCopyInto (in_ : goPicoclusterDBSpec) : M goPicoclusterDBSpec :=
  secrets <- copy_flat_slice (gs_ImagePullSecrets in_);
  tiers <- copy_slice (t := YTierSpec) TierSpec_DeepCopyInto (gs_Tiers in_);
  startup <- copy_ptr (t := YLib LProbe) (lib_DeepCopyInto LProbe) (gs_StartupProbe in_);
  liveness <- copy_ptr (t := YLib LProbe) (lib_DeepCopyInto LProbe) (gs_LivenessProbe in_);
  readiness <- copy_ptr (t := YLib LProbe) (lib_DeepCopyInto LProbe) (gs_ReadinessProbe in_);
  mret {| gs_Image := gs_Image in_; gs_ImagePullSecrets := secrets;
          gs_ClusterName := gs_ClusterName in_; gs_AdminPassword := gs_AdminPassword in_;
          gs_Cluster := gs_Cluster in_; gs_Tiers := tiers; gs_Service := gs_Service in_;
          gs_StartupProbe := startup; gs_LivenessProbe := liveness;
          gs_ReadinessProbe := readiness |}.
Definition PicoclusterDBSpec_DeepCopy :=
  deep_copy YPicoclusterDBSpec PicoclusterDBSpec_DeepCopyInto.

Definition PicoclusterDBStatus_DeepCopyInto (in_ : goPicoclusterDBStatus)
  : M goPicoclusterDBStatus :=
  tiers <- copy_slice (t := YTierStatus) TierStatus_DeepCopyInto (gstat_Tiers in_);
  conditions <- copy_slice (t := YLib LCondition) (lib_DeepCopyInto LCondition)
                  (gstat_Conditions in_);
  mret {| gstat_Phase := gstat_Phase in_; gstat_Tiers := tiers;
          gstat_Conditions := conditions |}.
Definition PicoclusterDBStatus_DeepCopy :=
  deep_copy YPicoclusterDBStatus PicoclusterDBStatus_DeepCopyInto.

Definition PicoclusterDB_DeepCopyInto (in_ : goPicoclusterDB) : M goPicoclusterDB :=
  meta <- lib_DeepCopyInto LObjectMeta (gdb_ObjectMeta in_);
  spec <- PicoclusterDBSpec_DeepCopyInto (gdb_Spec in_);
  status <- PicoclusterDBStatus_DeepCopyInto (gdb_Status in_);
  mret {| gdb_TypeMeta := gdb_TypeMeta in_; gdb_ObjectMeta := meta; gdb_Spec := spec;
          gdb_Status := status |}.
Definition PicoclusterDB_DeepCopy := deep_copy YPicoclusterDB PicoclusterDB_DeepCopyInto.

Definition PicoclusterDBList_DeepCopyInto (in_ : goPicoclusterDBList) : M goPicoclusterDBList :=
  meta <- lib_DeepCopyInto LListMeta (gl_ListMeta in_);
  items <- copy_slice (t := YPicoclusterDB) PicoclusterDB_DeepCopyInto (gl_Items in_);
  mret {| gl_TypeMeta := gl_TypeMeta in_; gl_ListMeta := meta; gl_Items := items |}.
Definition PicoclusterDBList_DeepCopy :=
  deep_copy YPicoclusterDBList PicoclusterDBList_DeepCopyInto.

(** ** [runtime.Object]

    An interface value: a pointer of one of the two kinds of objects, or nil. *)

Inductive Object :=
| ObjPicoclusterDB (p : ptr YPicoclusterDB)
| ObjPicoclusterDBList (p : ptr YPicoclusterDBList).

(** [if c := in.DeepCopy(); c != nil { return c }; return nil] *)
Definition PicoclusterDB_DeepCopyObject (in_ : ptr YPicoclusterDB) : M (option Object) :=
  c <- PicoclusterDB_DeepCopy in_;
  mret (match paddr c with Some _ => Some (ObjPicoclusterDB c) | None => None end).

Definition PicoclusterDBList_DeepCopyObject (in_ : ptr YPicoclusterDBList) : M (option Object) :=
  c <- PicoclusterDBList_DeepCopy in_;
  mret (match paddr c with Some _ => Some (ObjPicoclusterDBList c) | None => None end).

(** [o.DeepCopyObject()], by the dynamic type of [o]. *)
Definition DeepCopyObject (o : Object) : M (option Object) :=
  match o with
  | ObjPicoclusterDB p => PicoclusterDB_DeepCopyObject p
  | ObjPicoclusterDBList p => PicoclusterDBList_DeepCopyObject p
  end.
End generated.
