(* ===== verification/DeepCopyProps.v ===== *)
(** * The generated deep copies are deep

    Every [DeepCopyInto] meets [deep_copier], by one proof per struct from those of
    its fields.  For whole API objects: the copy reads the same, none of its
    addresses existed before, and neither the original nor the copy sees what is
    written through the other. *)

From S2P Require Import Prelude Types GoMem GoMemLogic ApiMem DeepCopyGen.
From stdpp Require Import options.

Create HintDb deep.

(** The steps of a struct's copy: one per field that is not assigned, then the
    struct itself, field by field. *)
Tactic Notation "deep_struct" reference(into) :=
  unfold into;
  let m := fresh "m" in let t := fresh "t" in let Hv := fresh "Hv" in
  intros m ? t Hv; apply view_all_Some in Hv as (? & -> & Hv);
  cbn [map] in Hv;
  repeat match type of Hv with
  | Forall2 _ (_ :: _) _ =>
      let E := fresh "E" in
      apply Forall2_cons_inv_l in Hv as (? & ? & E & Hv & ->);
      match type of E with read (fld ?x) ?m = ?t => change (view m x = t) in E end
  end;
  apply Forall2_nil_inv_l in Hv as ->;
  let Hp := fresh "Hp" in assert (m `prefix_of` m) as Hp by done;
  repeat (
    eapply deep_step; [solve [eauto with deep]|eassumption|exact Hp|]; clear Hp;
    let m' := fresh "m" in let S := fresh "S" in
    intros m' ? S Hp ?;
    repeat match goal with
    | H : is_copy _ ?mp _ _ |- _ =>
        lazymatch type of S with mp `prefix_of` _ =>
          apply (is_copy_mono _ _ _ _ _ _ S (le_n _)) in H end
    end; clear S);
  apply wp_ret; split; [exact Hp|]; apply struct_copy;
  repeat constructor; first [eassumption|by eapply flat_copy].

Section deep.
Context {LL : LibLayout} {LC : LibCopy} {RO : RangeOrder} {LCL : LibCopyLaws LC}.

(** Structs of scalars. *)
Ltac flat := split; intros m x t [= <-]; reflexivity.

#[export] Instance flat_TypeMeta : Flat TypeMeta. Proof. flat. Qed.
#[export] Instance flat_phase : Flat (option ClusterPhase). Proof. flat. Qed.
#[export] Instance flat_ImageSpec : Flat ImageSpec. Proof. flat. Qed.
#[export] Instance flat_SecretKeyRef : Flat SecretKeyRef. Proof. flat. Qed.
#[export] Instance flat_ClusterSpec : Flat ClusterSpec. Proof. flat. Qed.
#[export] Instance flat_MemtxSpec : Flat MemtxSpec. Proof. flat. Qed.
#[export] Instance flat_VinylSpec : Flat VinylSpec. Proof. flat. Qed.
#[export] Instance flat_PgSpec : Flat PgSpec. Proof. flat. Qed.
#[export] Instance flat_ServiceSpec : Flat ServiceSpec. Proof. flat. Qed.
#[export] Instance flat_PluginServiceSpec : Flat PluginServiceSpec. Proof. flat. Qed.
#[export] Instance flat_PluginStatus : Flat PluginStatus. Proof. flat. Qed.

#[local] Hint Resolve lib_deep copy_map_deep : deep.

(** The shapes at the layout of the API types. *)
Lemma ptr_deep (t : api_ty) {V : Viewed (api_den t)} (into : api_den t -> M (api_den t)) :
  deep_copier into -> deep_copier (T := ptr t) (copy_ptr (t := t) into).
Proof. apply (copy_ptr_deep (L := api_layout) (t := t)). Qed.

Lemma slice_deep (t : api_ty) {V : Viewed (api_den t)} (into : api_den t -> M (api_den t)) :
  deep_copier into -> deep_copier (T := slice t) (copy_slice (t := t) into).
Proof. apply (copy_slice_deep (L := api_layout) (t := t)). Qed.

Lemma flat_slice_deep (t : api_ty) {V : Viewed (api_den t)} {F : Flat (api_den t)} :
  deep_copier (T := slice t) (copy_flat_slice (t := t)).
Proof. by apply (copy_flat_slice_deep (L := api_layout) (t := t)). Qed.

#[local] Hint Extern 1 (deep_copier (copy_ptr _)) => simple apply ptr_deep : deep.
#[local] Hint Extern 1 (deep_copier (copy_slice _)) => simple apply slice_deep : deep.
#[local] Hint Extern 1 (deep_copier copy_flat_slice) =>
  apply flat_slice_deep; typeclasses eauto : deep.
#[local] Hint Extern 1 (deep_copier mret) => apply flat_deep : deep.

Lemma IngressTLSSpec_deep : deep_copier IngressTLSSpec_DeepCopyInto.
Proof using LCL. deep_struct IngressTLSSpec_DeepCopyInto. Qed.
#[local] Hint Resolve IngressTLSSpec_deep : deep.

Lemma IngressSpec_deep : deep_copier IngressSpec_DeepCopyInto.
Proof using LCL. deep_struct IngressSpec_DeepCopyInto. Qed.
#[local] Hint Resolve IngressSpec_deep : deep.

Lemma LogSpec_deep : deep_copier LogSpec_DeepCopyInto.
Proof using LCL. deep_struct LogSpec_DeepCopyInto. Qed.
#[local] Hint Resolve LogSpec_deep : deep.

Lemma PluginSpec_deep : deep_copier PluginSpec_DeepCopyInto.
Proof using LCL. deep_struct PluginSpec_DeepCopyInto. Qed.
#[local] Hint Resolve PluginSpec_deep : deep.

Lemma StorageSpec_deep : deep_copier StorageSpec_DeepCopyInto.
Proof using LCL. deep_struct StorageSpec_DeepCopyInto. Qed.
#[local] Hint Resolve StorageSpec_deep : deep.

Lemma TierSpec_deep : deep_copier TierSpec_DeepCopyInto.
Proof using LCL. deep_struct TierSpec_DeepCopyInto. Qed.
#[local] Hint Resolve TierSpec_deep : deep.

Lemma TierStatus_deep : deep_copier TierStatus_DeepCopyInto.
Proof using LCL. deep_struct TierStatus_DeepCopyInto. Qed.
#[local] Hint Resolve TierStatus_deep : deep.

Lemma PicoclusterDBSpec_deep : deep_copier PicoclusterDBSpec_DeepCopyInto.
Proof using LCL. deep_struct PicoclusterDBSpec_DeepCopyInto. Qed.
#[local] Hint Resolve PicoclusterDBSpec_deep : deep.

Lemma PicoclusterDBStatus_deep : deep_copier PicoclusterDBStatus_DeepCopyInto.
Proof using LCL. deep_struct PicoclusterDBStatus_DeepCopyInto. Qed.
#[local] Hint Resolve PicoclusterDBStatus_deep : deep.

Lemma PicoclusterDB_deep : deep_copier PicoclusterDB_DeepCopyInto.
Proof using LCL. deep_struct PicoclusterDB_DeepCopyInto. Qed.
#[local] Hint Resolve PicoclusterDB_deep : deep.

Lemma PicoclusterDBList_deep : deep_copier PicoclusterDBList_DeepCopyInto.
Proof using LCL. deep_struct PicoclusterDBList_DeepCopyInto. Qed.
#[local] Hint Resolve PicoclusterDBList_deep : deep.


(** ** API objects *)

Definition view_object (m : mem) (o : Object) : option tree :=
  match o with ObjPicoclusterDB p => view m p | ObjPicoclusterDBList p => view m p end.

Definition nil_object (o : Object) : bool :=
  match o with
  | ObjPicoclusterDB p => bool_decide (paddr p = None)
  | ObjPicoclusterDBList p => bool_decide (paddr p = None)
  end.

(** Two memories with the same contents except at some addresses. *)
Definition agree_except (except : list addr) (m m' : mem) : Prop :=
  forall a, a ∉ except -> m' !! a = m !! a.

Lemma view_except {T} {V : Viewed T} m m' (x : T) t except :
  view m x = Some t -> agree_except except m m' ->
  (forall a, a ∈ addrs t -> a ∉ except) -> view m' x = Some t.
Proof.
  intros Hv Hag Hd. apply (local_agree _ (view_local x) m m' t Hv). intros a Ha.
  by apply Hag, Hd.
Qed.

(** What a copy of a pointer promises, with the isolation that follows. *)
Lemma deep_copy_isolated (t : api_ty) {V : Viewed (api_den t)}
  (into : api_den t -> M (api_den t)) m a tr :
  deep_copier into -> view m (Ptr (t := t) (Some a)) = Some tr ->
  exists m' b tr', deep_copy t into (Ptr (Some a)) m = Some (m', Ptr (Some b)) /\
    m `prefix_of` m' /\ view m' (Ptr (t := t) (Some b)) = Some tr' /\
    erase tr' = erase tr /\ (forall c, c ∈ addrs tr' -> length m <= c) /\
    (forall m2, agree_except (addrs tr') m' m2 ->
       view m2 (Ptr (t := t) (Some a)) = Some tr) /\
    (forall m2, agree_except (addrs tr) m' m2 ->
       view m2 (Ptr (t := t) (Some b)) = Some tr').
Proof.
  intros Hi Hv.
  destruct (ptr_deep t into Hi m _ tr Hv) as (m' & [q] & Hr & Hp & Hc).
  unfold is_copy in Hc. destruct Hc as (tr' & Hv' & He & Ha).
  assert (forall c, c ∈ addrs tr -> c < length m) as Hold
    by (intros c; by apply (local_valid _ (view_local (Ptr (t := t) (Some a))) m tr)).
  destruct q as [b|].
  2: { injection Hv' as <-. apply fmap_Some in Hv as (? & _ & ->). done. }
  exists m', b, tr'. split_and!; try done.
  - intros m2 Hag. eapply view_except; [by eapply view_mono|done|].
    intros c Hc1%Hold Hc2%Ha. lia.
  - intros m2 Hag. eapply view_except; [done..|]. intros c Hc1%Ha Hc2%Hold. lia.
Qed.
End deep.

Section objects.
Context {LL : LibLayout} {LC : LibCopy} {RO : RangeOrder} {LCL : LibCopyLaws LC}.

(** C14.  [DeepCopyObject] of any API object of the package that is well-formed in
    memory returns without a panic.  The copy is an object of the same kind and reads
    exactly like the original, nil pointers, slices and maps included, whatever the
    order in which the maps are visited; the old cells are unchanged; every address
    reachable from the copy is new; and from then on writes through the copy cannot
    be seen through the original, nor the other way round.  A nil pointer gives the
    nil interface. *)
Theorem DeepCopyObject_independent (o : Object) (m : mem) (t : tree) :
  view_object m o = Some t ->
  if nil_object o then DeepCopyObject o m = Some (m, None)
  else exists m' c t', DeepCopyObject o m = Some (m', Some c) /\
    match o, c with
    | ObjPicoclusterDB _, ObjPicoclusterDB _ => True
    | ObjPicoclusterDBList _, ObjPicoclusterDBList _ => True
    | _, _ => False
    end /\
    m `prefix_of` m' /\ view_object m' c = Some t' /\ erase t' = erase t /\
    (forall a, a ∈ addrs t' -> length m <= a) /\
    (forall m2, agree_except (addrs t') m' m2 -> view_object m2 o = Some t) /\
    (forall m2, agree_except (addrs t) m' m2 -> view_object m2 c = Some t').
Proof using LCL.
  destruct o as [[[a|]]|[[a|]]]; simpl; intros Hv; try done.
  - destruct (deep_copy_isolated YPicoclusterDB _ m a t PicoclusterDB_deep Hv)
      as (m' & b & t' & Hr & H).
    exists m', (ObjPicoclusterDB (Ptr (Some b))), t'. split; [|by split].
    unfold PicoclusterDB_DeepCopyObject, mbind, PicoclusterDB_DeepCopy. by rewrite Hr.
  - destruct (deep_copy_isolated YPicoclusterDBList _ m a t PicoclusterDBList_deep Hv)
      as (m' & b & t' & Hr & H).
    exists m', (ObjPicoclusterDBList (Ptr (Some b))), t'. split; [|by split].
    unfold PicoclusterDBList_DeepCopyObject, mbind, PicoclusterDBList_DeepCopy. by rewrite Hr.
Qed.
End objects.

(** ** A concrete instance

    Library values that are pointers to a text, and a list of one cluster whose tier
    has a plugin, an affinity and an Ingress, with a slice that is a window of a
    longer array. *)

Definition text_layout : LibLayout :=
  {| lib_rep := fun _ => ptr YLibCell; lib_zero := fun _ => Ptr None;
     lib_cell := string; lib_cell_zero := "" |}.

Definition text_copy : @LibCopy text_layout :=
  {| lib_view := fun _ => @view_ptr text_layout YLibCell view_string;
     lib_DeepCopyInto := fun _ => copy_ptr (L := @api_layout text_layout) (t := YLibCell) mret |}.

Lemma text_copy_laws : @LibCopyLaws text_layout text_copy.
Proof.
  split. intros l. apply (@ptr_deep text_layout YLibCell view_string mret).
  apply flat_deep.
Qed.

Definition map_order : RangeOrder :=
  {| range_order := fun _ m => map_to_list m; range_order_perm := fun _ m => reflexivity _ |}.

Section sample.
#[local] Existing Instance text_layout.

Definition window_of (a off len : nat) : window :=
  {| w_arr := a; w_off := off; w_len := len |}.

Definition sample_goIngress : goIngressSpec :=
  {| gis_Enabled := true; gis_Host := "pico.example.com";
     gis_IngressClassName := Ptr (Some 4); gis_Annotations := Map None;
     gis_TLS := Slice (Some (window_of 6 0 1)) |}.

Definition sample_goTier : goTierSpec :=
  {| gt_Name := "default"; gt_Replicas := 2; gt_ReplicationFactor := 3; gt_CanVote := true;
     gt_Storage := zeroStorage; gt_Memtx := Build_MemtxSpec "64M";
     gt_Vinyl := Build_VinylSpec "" ""; gt_Pg := Build_PgSpec true false; gt_Log := zeroLog;
     gt_Resources := Ptr (Some 3); gt_ShareDir := "";
     gt_Plugins := Slice (Some (window_of 2 0 1)); gt_Env := Slice (Some (window_of 9 0 0));
     gt_Affinity := Ptr (Some 10); gt_Tolerations := nil_slice; gt_NodeSelector := Map (Some 1);
     gt_TopologySpreadConstraints := nil_slice; gt_SecurityContext := nil_ptr;
     gt_Ingress := Ptr (Some 7); gt_DisableAutoAntiAffinity := false |}.

Definition sample_goDB : goPicoclusterDB :=
  {| gdb_TypeMeta := Build_TypeMeta "PicoclusterDB" "picodata.picodata.io/v1";
     gdb_ObjectMeta := Ptr (Some 3);
     gdb_Spec :=
       {| gs_Image := Build_ImageSpec "picodata" "25.3" ""; gs_ImagePullSecrets := nil_slice;
          gs_ClusterName := "sample"; gs_AdminPassword := Build_SecretKeyRef "s" "password";
          gs_Cluster := Build_ClusterSpec 1 3000 false;
          gs_Tiers := Slice (Some (window_of 8 0 1));
          gs_Service := Build_ServiceSpec "" 0 0 0; gs_StartupProbe := nil_ptr;
          gs_LivenessProbe := nil_ptr; gs_ReadinessProbe := nil_ptr |};
     gdb_Status := zeroStatus |}.

Definition sample_memory : list (@cell (@api_layout text_layout)) :=
  [CArr YPluginServiceSpec [Build_PluginServiceSpec "http" 8081];
   CMap {["disk" := "ssd"; "zone" := "a"]};
   CArr YPluginSpec [Build_goPluginSpec "radix" "0.1" (Map (Some 1))
                       (Slice (Some (window_of 0 0 1)))];
   CVal YLibCell "metadata";
   CVal YString "nginx";
   CArr YString ["unused"; "pico.example.com"; "www.example.com"];
   CArr YIngressTLSSpec [Build_goIngressTLSSpec (Slice (Some (window_of 5 1 2))) "tls"];
   CVal YIngressSpec sample_goIngress;
   CArr YTierSpec [sample_goTier];
   CArr (YLib LEnvVar) [];
   CVal (YLib LAffinity) (Ptr (Some 3));
   CArr YPicoclusterDB [sample_goDB];
   CVal YPicoclusterDBList (Build_goPicoclusterDBList
     (Build_TypeMeta "PicoclusterDBList" "picodata.picodata.io/v1") (Ptr None)
     (Slice (Some (window_of 11 0 1))))].

Definition sample_object : Object := ObjPicoclusterDBList (Ptr (Some 12)).
End sample.

Lemma DeepCopyObject_independent_witness :
  exists t, @view_object text_layout text_copy sample_memory sample_object = Some t /\
    length (addrs t) = 16 /\
    exists m' c t',
      @DeepCopyObject text_layout text_copy map_order sample_object sample_memory
        = Some (m', Some c) /\
      @view_object text_layout text_copy m' c = Some t' /\ erase t' = erase t /\
      (forall a, a ∈ addrs t' -> length sample_memory <= a).
Proof.
  eexists. split; [vm_compute; reflexivity|]. split; [vm_compute; reflexivity|].
  destruct (@DeepCopyObject_independent text_layout text_copy map_order text_copy_laws
    sample_object sample_memory _ ltac:(vm_compute; reflexivity))
    as (m' & c & t' & Hr & _ & _ & Hv & He & Ha & _).
  exists m', c, t'. exact (conj Hr (conj Hv (conj He Ha))).
Defined.
