(* ===== verification/Manager.v ===== *)
(** * What the operator registers

    The scheme ([api/v1/groupversion_info.go] and the [init] of
    [picoclusterdb_types.go]), the controller ([SetupWithManager]) and the RBAC
    markers of [picoclusterdb_controller.go], from which the role of the manager is
    generated.  The builders are those of controller-runtime, as plain data. *)

From S2P Require Import Prelude K8s Types Effects Api.
From stdpp Require Import options.

(** ** The scheme *)

Record SchemeGroupVersion := { gv_Group : string; gv_Version : string }.

(** [scheme.Builder]: a group version and the Go types registered so far. *)
Record SchemeBuilder := { sb_GroupVersion : SchemeGroupVersion; sb_Types : list string }.

Definition Register (types : list string) (b : SchemeBuilder) : SchemeBuilder :=
  {| sb_GroupVersion := sb_GroupVersion b; sb_Types := sb_Types b ++ types |}.

Definition GroupVersion : SchemeGroupVersion :=
  {| gv_Group := "picodata.picodata.io"; gv_Version := "v1" |}.

(** The builder as the variable declarations of the package leave it, and as it is
    after [init].  [AddToScheme] is a method of the pointer, so it adds what is
    registered when it is called. *)
Definition SchemeBuilder_var : SchemeBuilder :=
  {| sb_GroupVersion := GroupVersion; sb_Types := [] |}.

Definition types_init (b : SchemeBuilder) : SchemeBuilder :=
  Register ["PicoclusterDB"; "PicoclusterDBList"] b.

Definition AddToScheme_builder : SchemeBuilder := types_init SchemeBuilder_var.

(** ** The controller *)

(** [ctrl.Builder]: the reconciled kind, the owned kinds, the name. *)
Record ControllerBuilder := {
  cb_For : option Kind; cb_Owns : list Kind; cb_Name : string }.

Definition NewControllerManagedBy : ControllerBuilder :=
  {| cb_For := None; cb_Owns := []; cb_Name := "" |}.
Definition For (k : Kind) (b : ControllerBuilder) : ControllerBuilder :=
  {| cb_For := Some k; cb_Owns := cb_Owns b; cb_Name := cb_Name b |}.
Definition Owns (k : Kind) (b : ControllerBuilder) : ControllerBuilder :=
  {| cb_For := cb_For b; cb_Owns := cb_Owns b ++ [k]; cb_Name := cb_Name b |}.
Definition Named (n : string) (b : ControllerBuilder) : ControllerBuilder :=
  {| cb_For := cb_For b; cb_Owns := cb_Owns b; cb_Name := n |}.

(** What [SetupWithManager] completes with the reconciler. *)
Definition SetupWithManager_builder : ControllerBuilder :=
  let b := NewControllerManagedBy in
  let b := For KPicoclusterDB b in
  let b := Owns KStatefulSet b in
  let b := Owns KService b in
  let b := Owns KConfigMap b in
  let b := Owns KIngress b in
  Named "picoclusterdb" b.

(** A change of an object of such a kind leads to a reconciliation. *)
Definition watched (b : ControllerBuilder) (k : Kind) : bool :=
  bool_decide (cb_For b = Some k) || bool_decide (k ∈ cb_Owns b).

(** ** RBAC *)

Inductive Verb := VGet | VList | VWatch | VCreate | VUpdate | VPatch | VDelete.

#[export] Instance Verb_eq_dec : EqDecision Verb.
Proof. solve_decision. Defined.

Record PolicyRule := { rule_group : string; rule_resource : string; rule_verbs : list Verb }.

Definition all_verbs : list Verb := [VGet; VList; VWatch; VCreate; VUpdate; VPatch; VDelete].

Definition rbac_markers : list PolicyRule := [
  {| rule_group := "picodata.picodata.io"; rule_resource := "picoclusterdbs";
     rule_verbs := all_verbs |};
  {| rule_group := "picodata.picodata.io"; rule_resource := "picoclusterdbs/status";
     rule_verbs := [VGet; VUpdate; VPatch] |};
  {| rule_group := "picodata.picodata.io"; rule_resource := "picoclusterdbs/finalizers";
     rule_verbs := [VUpdate] |};
  {| rule_group := "apps"; rule_resource := "statefulsets"; rule_verbs := all_verbs |};
  {| rule_group := "core"; rule_resource := "services"; rule_verbs := all_verbs |};
  {| rule_group := "core"; rule_resource := "configmaps"; rule_verbs := all_verbs |};
  {| rule_group := "core"; rule_resource := "serviceaccounts"; rule_verbs := all_verbs |};
  {| rule_group := "core"; rule_resource := "secrets"; rule_verbs := [VGet; VList; VWatch] |};
  {| rule_group := "networking.k8s.io"; rule_resource := "ingresses";
     rule_verbs := all_verbs |}
].

Definition grants (rules : list PolicyRule) (group resource : string) (v : Verb) : bool :=
  existsb (fun r => String.eqb (rule_group r) group && String.eqb (rule_resource r) resource
                    && bool_decide (v ∈ rule_verbs r)) rules.

(** The API resource of a kind. *)
Definition resource_of (k : Kind) : string * string :=
  match k with
  | KPicoclusterDB => ("picodata.picodata.io", "picoclusterdbs")
  | KSecret => ("core", "secrets")
  | KConfigMap => ("core", "configmaps")
  | KService => ("core", "services")
  | KStatefulSet => ("apps", "statefulsets")
  | KIngress => ("networking.k8s.io", "ingresses")
  end.

(** The verbs a call needs.  Reads are served by the cache of the manager's client,
    which lists and watches the kinds that are read. *)
Definition needs (k : Kind) (vs : list Verb) : list (string * string * Verb) :=
  map (fun v => (resource_of k, v)) vs.

Definition required {X} (e : Op X) : list (string * string * Verb) :=
  match e with
  | Get k _ | ListObjs k _ _ => needs k [VGet; VList; VWatch]
  | Create k _ => needs k [VCreate]
  | Patch k _ _ => needs k [VPatch]
  | Delete k _ => needs k [VDelete]
  | StatusPatch _ _ =>
      [("picodata.picodata.io", "picoclusterdbs/status", VPatch)]
  | _ => []
  end.

Definition permitted {X} (rules : list PolicyRule) (e : Op X) : bool :=
  forallb (fun '(g, r, v) => grants rules g r v) (required e).

(** The kind a call writes objects of. *)
Definition writes {X} (e : Op X) : option Kind :=
  match e with
  | Create k _ | Patch k _ _ | Delete k _ => Some k
  | StatusPatch _ _ => Some KPicoclusterDB
  | _ => None
  end.
