(* ===== verification/Permissions.v ===== *)
(** * What the operator is allowed to do, and what it watches

    The calls of [Reconcile] as a whole, against the RBAC markers and the kinds
    that [SetupWithManager] registers. *)

From S2P Require Import Prelude GoLang K8s Types Heap Effects Api Logic Names ConfigMap.
From S2P Require Import Services StatefulSet Resources Plugins Reconciler Samples.
From S2P Require Import TierWalk PluginProps Manager.
From stdpp Require Import options.

(** Only the calls that satisfy [P]. *)
Definition only (P : forall X, Op X -> Prop) : monitor Op unit := {|
  allowed := fun _ => P;
  expected := fun _ _ _ _ => True;
  advance := fun s _ _ _ => s
|}.

(** The calls of [Reconcile], on any path. *)
Definition reconcile_call {X} (e : Op X) : Prop :=
  match e with
  | Create k _ => tier_kind k
  | Patch k base new => merged k base new
  | Delete k _ | ListObjs k _ _ => k = KStatefulSet
  | _ => True
  end.

Section calls.
Context {U : GoUnicode} {K : K8sLib} {C : ControllerLib}.

Abbreviation M := (only (fun X e => reconcile_call e)).
Abbreviation fine := (walks M (fun _ _ => True)).

Lemma fine_request {X} (e : Op (result X)) : reconcile_call e -> fine (request e).
Proof. intros He s h _. by go_step. Qed.

Lemma fine_heap {A} (f : heap -> heap * A) : fine (with_heap f).
Proof. intros s h _. by go_step. Qed.

Lemma reconcileTier_fine cluster tier : fine (reconcileTier cluster tier).
Proof.
  apply reconcileTier_walk_hang; [|done|by left].
  intros X e s h He _. split; [|done]. destruct e; simpl in *; try done.
  - by destruct k.
  - by destruct He.
Qed.

Lemma plugins_fine (cluster : PicoclusterDB Mem) tier : fine (reconcileTierPlugins cluster tier).
Proof.
  intros s h _. eapply go_ok_mono; [apply plugins_quiet|done].
  intros X e He. split; [|done]. by destruct e.
Qed.

Lemma updateStatus_fine cluster tiers ready : fine (updateStatus cluster tiers ready).
Proof.
  apply walks_bind; [by intros s h _; go_step|]. intros now.
  apply walks_bind; [apply fine_heap|]. intros base.
  apply walks_bind; [apply fine_heap|]. intros patch. by apply fine_request.
Qed.

Lemma tierStatus_fine (cluster : PicoclusterDB Mem) (tier : TierSpec Mem) :
  fine (tierStatus cluster tier).
Proof. apply walks_bind; [by apply fine_request|]. intros items. apply walks_ret. Qed.

Lemma reconcile_tiers_fine cluster tiers acc ready :
  fine (reconcile_tiers cluster tiers acc ready).
Proof.
  revert acc ready. induction tiers as [|tier tiers IH]; intros acc ready; simpl.
  { apply walks_bind; [apply updateStatus_fine|]. intros _. apply walks_ret. }
  apply walks_bind; [apply walks_wrap, reconcileTier_fine|]. intros _.
  apply walks_bind; [apply tierStatus_fine|]. intros [ts rd].
  destruct (rd && _); [|apply IH].
  apply walks_bind; [apply walks_try, plugins_fine|]. intros [sts|e]; [apply IH|].
  apply walks_bind; [apply walks_try, updateStatus_fine|]. intros _. apply walks_ret.
Qed.

Lemma Reconcile_calls req : fine (Reconcile req).
Proof.
  apply walks_bind; [by apply walks_try, fine_request|]. intros [wire|e].
  - apply walks_bind; [apply fine_heap|]. intros cluster. apply reconcile_tiers_fine.
  - destruct (IsNotFound e); [apply walks_ret|apply walks_throw].
Qed.

(** What the markers grant, and what the controller watches. *)
Definition authorized {X} (e : Op X) : Prop :=
  permitted rbac_markers e = true /\
  match writes e with
  | Some k => watched SetupWithManager_builder k = true
  | None => True
  end.

(** C17.  Whatever the API server and the database answer, every call that
    [Reconcile] makes to the API server is covered by the RBAC markers, the list and
    watch behind its cached reads included; and every kind of object it creates,
    patches or deletes is one that [SetupWithManager] registers, so that a later
    change of such an object leads to another reconciliation. *)
Theorem Reconcile_authorized req h :
  go_ok (only (fun X e => authorized e)) (Reconcile req) tt h (fun _ _ _ => True).
Proof.
  eapply obeys_mono; [|apply (obeys_sim M _ (fun _ _ => True) (Reconcile req h) tt tt
    (fun _ _ => True)); [|done|]].
  - by intros s [h' r] _.
  - intros s1 s2 X e _ He. split; [|done]. unfold authorized.
    destruct e; try destruct k; simpl in He; try done; (split; [reflexivity|done]).
  - eapply obeys_mono; [|apply (Reconcile_calls req tt h I)]. done.
Qed.
End calls.
