(* ===== verification/Main.v ===== *)
(** * The process: flags, options, start of the manager

    [cmd/main.go].  Flags are parsed the way Go's [flag] package does it; the flags
    that imported packages define (zap's, [kubeconfig]) are a parameter.  The rest
    of [main] is a program of calls to controller-runtime ([MainOp]) that stops at
    the first failure. *)

From S2P Require Import Prelude K8s Types Effects Api Manager.
From stdpp Require Import options.

(** ** Package [flag] *)

(** Flags of imported packages: whether a name is one, and then whether it is
    boolean; and whether it accepts a value. *)
Class ExtraFlags := {
  extra_flag : string -> option bool;
  extra_accepts : string -> string -> bool
}.

(** The flags of [main] with their default values.  What a flag is set to is found
    under its name; the settings of other flags are kept in order. *)
Definition string_flags : gmap string string :=
  {["metrics-bind-address" := "0";
    "health-probe-bind-address" := ":8081";
    "webhook-cert-path" := "";
    "webhook-cert-name" := "tls.crt";
    "webhook-cert-key" := "tls.key";
    "metrics-cert-path" := "";
    "metrics-cert-name" := "tls.crt";
    "metrics-cert-key" := "tls.key"]}.

Definition bool_flags : gmap string bool :=
  {["leader-elect" := false; "metrics-secure" := true; "enable-http2" := false]}.

Record Flags := {
  fl_strings : gmap string string;
  fl_bools : gmap string bool;
  fl_extra : list (string * string)
}.

Definition default_flags : Flags :=
  {| fl_strings := string_flags; fl_bools := bool_flags; fl_extra := [] |}.

Definition set_string (n v : string) (f : Flags) : Flags :=
  {| fl_strings := <[n := v]> (fl_strings f); fl_bools := fl_bools f; fl_extra := fl_extra f |}.
Definition set_bool (n : string) (v : bool) (f : Flags) : Flags :=
  {| fl_strings := fl_strings f; fl_bools := <[n := v]> (fl_bools f); fl_extra := fl_extra f |}.
Definition set_extra (n v : string) (f : Flags) : Flags :=
  {| fl_strings := fl_strings f; fl_bools := fl_bools f; fl_extra := fl_extra f ++ [(n, v)] |}.

Definition string_var (f : Flags) (n : string) : string := default "" (fl_strings f !! n).
Definition bool_var (f : Flags) (n : string) : bool := default false (fl_bools f !! n).

(** [strconv.ParseBool] *)
Definition ParseBool (s : string) : option bool :=
  if bool_decide (s ∈ ["1"; "t"; "T"; "TRUE"; "true"; "True"]) then Some true
  else if bool_decide (s ∈ ["0"; "f"; "F"; "FALSE"; "false"; "False"]) then Some false
  else None.

(** One argument: not a flag, the terminator [--], bad syntax, or a flag with the
    value after its first [=]. *)
Inductive argument :=
| NotFlag
| Terminator
| BadSyntax
| IsFlag (name : string) (value : option string).

Fixpoint split_eq (s : string) : string * option string :=
  match s with
  | "" => ("", None)
  | String "=" s' => ("", Some s')
  | String c s' => let '(n, v) := split_eq s' in (String c n, v)
  end.

Definition named (name : string) : argument :=
  match name with
  | "" | String "-" _ | String "=" _ => BadSyntax
  | String c s => let '(n, v) := split_eq s in IsFlag (String c n) v
  end.

Definition classify (s : string) : argument :=
  match s with
  | String "-" "" => NotFlag
  | String "-" (String "-" "") => Terminator
  | String "-" (String "-" name) => named name
  | String "-" name => named name
  | _ => NotFlag
  end.

(** What [flag.Parse] does: go on with the flags and the remaining arguments, or
    end the process. *)
Inductive parsed := Parsed (f : Flags) (rest : list string) | Help | BadUsage.

Section parse.
Context {X : ExtraFlags}.

(** Whether a name is defined, and then whether it is a boolean flag. *)
Definition flag_kind (name : string) : option bool :=
  match bool_flags !! name with
  | Some _ => Some true
  | None =>
      match string_flags !! name with
      | Some _ => Some false
      | None => extra_flag name
      end
  end.

(** [flag.Value.Set(value)] *)
Definition set_flag (name value : string) (f : Flags) : option Flags :=
  match bool_flags !! name with
  | Some _ => match ParseBool value with Some b => Some (set_bool name b f) | None => None end
  | None =>
      match string_flags !! name with
      | Some _ => Some (set_string name value f)
      | None => if extra_accepts name value then Some (set_extra name value f) else None
      end
  end.

Fixpoint parse_flags (f : Flags) (args : list string) : parsed :=
  match args with
  | [] => Parsed f []
  | s :: args' =>
      match classify s with
      | NotFlag => Parsed f args
      | Terminator => Parsed f args'
      | BadSyntax => BadUsage
      | IsFlag name value =>
          match flag_kind name, value with
          | None, _ => if bool_decide (name = "help" \/ name = "h") then Help else BadUsage
          | Some true, _ =>
              match set_flag name (default "true" value) f with
              | Some f' => parse_flags f' args'
              | None => BadUsage
              end
          | Some false, Some v =>
              match set_flag name v f with Some f' => parse_flags f' args' | None => BadUsage end
          | Some false, None =>
              match args' with
              | [] => BadUsage
              | v :: args'' =>
                  match set_flag name v f with
                  | Some f' => parse_flags f' args''
                  | None => BadUsage
                  end
              end
          end
      end
  end.
End parse.

(** ** Options *)

(** [tls.Config], by the protocols it offers. *)
Record tlsConfig := { NextProtos : list string; tls_rest : RawJSON }.
Definition TLSOption : Type := tlsConfig -> tlsConfig.

Definition disableHTTP2 : TLSOption := fun c =>
  {| NextProtos := ["http/1.1"]; tls_rest := tls_rest c |}.

Record WebhookOptions := {
  wo_TLSOpts : list TLSOption; wo_CertDir : string; wo_CertName : string; wo_KeyName : string }.

Inductive FilterProvider := WithAuthenticationAndAuthorization.

Record MetricsOptions := {
  mo_BindAddress : string;
  mo_SecureServing : bool;
  mo_TLSOpts : list TLSOption;
  mo_FilterProvider : option FilterProvider;
  mo_CertDir : string;
  mo_CertName : string;
  mo_KeyName : string
}.

Definition tlsOpts (f : Flags) : list TLSOption :=
  if negb (bool_var f "enable-http2") then [disableHTTP2] else [].

Definition webhookServerOptions (f : Flags) : WebhookOptions :=
  if (0 <? String.length (string_var f "webhook-cert-path"))%nat then
    {| wo_TLSOpts := tlsOpts f; wo_CertDir := string_var f "webhook-cert-path";
       wo_CertName := string_var f "webhook-cert-name";
       wo_KeyName := string_var f "webhook-cert-key" |}
  else {| wo_TLSOpts := tlsOpts f; wo_CertDir := ""; wo_CertName := ""; wo_KeyName := "" |}.

Definition metricsServerOptions (f : Flags) : MetricsOptions :=
  let cert := (0 <? String.length (string_var f "metrics-cert-path"))%nat in
  {| mo_BindAddress := string_var f "metrics-bind-address";
     mo_SecureServing := bool_var f "metrics-secure";
     mo_TLSOpts := tlsOpts f;
     mo_FilterProvider :=
       if bool_var f "metrics-secure" then Some WithAuthenticationAndAuthorization else None;
     mo_CertDir := if cert then string_var f "metrics-cert-path" else "";
     mo_CertName := if cert then string_var f "metrics-cert-name" else "";
     mo_KeyName := if cert then string_var f "metrics-cert-key" else "" |}.

(** The client and the scheme of a manager, by handles. *)
Record Manager := { GetClient : nat; GetScheme : nat }.
Record PicoclusterDBReconciler := { rec_Client : nat; rec_Scheme : nat }.

(** [ctrl.Options]; its Scheme is the one scheme of the process. *)
Record ManagerOptions := {
  opt_Metrics : MetricsOptions;
  opt_WebhookServer : WebhookOptions;
  opt_HealthProbeBindAddress : string;
  opt_LeaderElection : bool;
  opt_LeaderElectionID : string
}.

Definition manager_options (f : Flags) : ManagerOptions :=
  {| opt_Metrics := metricsServerOptions f;
     opt_WebhookServer := webhookServerOptions f;
     opt_HealthProbeBindAddress := string_var f "health-probe-bind-address";
     opt_LeaderElection := bool_var f "leader-elect";
     opt_LeaderElectionID := "ff578ea0.picodata.io" |}.

(** ** The start *)

Inductive MainOp : Type -> Type :=
| AddClientGoScheme : MainOp (result unit)
| AddToScheme (b : SchemeBuilder) : MainOp (result unit)
| SetLogger (settings : list (string * string)) : MainOp unit
| NewWebhookServer (o : WebhookOptions) : MainOp unit
| GetConfig : MainOp (result unit)
| NewManager (o : ManagerOptions) : MainOp (result Manager)
| CompleteController (b : ControllerBuilder) (r : PicoclusterDBReconciler) : MainOp (result unit)
| AddHealthzCheck (name : string) : MainOp (result unit)
| AddReadyzCheck (name : string) : MainOp (result unit)
| SetupSignalHandler : MainOp unit
| Start : MainOp (result unit).

(** How the process ends: [os.Exit], or the panic of [utilruntime.Must]. *)
Inductive outcome := Exit (code : Z) | Panic (e : error).

Definition or_exit {A} (c : prog MainOp (result A)) (k : A -> prog MainOp outcome)
  : prog MainOp outcome :=
  pbind c (fun r => match r with Ok a => k a | Err _ => Ret (Exit 1) end).

(** [utilruntime.Must] *)
Definition must (c : prog MainOp (result unit)) (k : prog MainOp outcome)
  : prog MainOp outcome :=
  pbind c (fun r => match r with Ok _ => k | Err e => Ret (Panic e) end).

Definition SetupWithManager (r : PicoclusterDBReconciler) : prog MainOp (result unit) :=
  call (CompleteController SetupWithManager_builder r).

Section main.
Context {X : ExtraFlags}.

Definition start (f : Flags) : prog MainOp outcome :=
  pbind (call (SetLogger (fl_extra f))) (fun _ =>
  pbind (call (NewWebhookServer (webhookServerOptions f))) (fun _ =>
  or_exit (call GetConfig) (fun _ =>
  or_exit (call (NewManager (manager_options f))) (fun mgr =>
  or_exit (SetupWithManager {| rec_Client := GetClient mgr; rec_Scheme := GetScheme mgr |})
    (fun _ =>
  or_exit (call (AddHealthzCheck "healthz")) (fun _ =>
  or_exit (call (AddReadyzCheck "readyz")) (fun _ =>
  pbind (call SetupSignalHandler) (fun _ =>
  or_exit (call Start) (fun _ =>
  Ret (Exit 0)))))))))).

(** The [init] functions, then [main] with the arguments of the process. *)
Definition main (args : list string) : prog MainOp outcome :=
  must (call AddClientGoScheme) (
  must (call (AddToScheme AddToScheme_builder)) (
  match parse_flags default_flags args with
  | Parsed f _ => start f
  | Help => Ret (Exit 0)
  | BadUsage => Ret (Exit 2)
  end)).
End main.

(** With the arguments of config/manager and the metrics patch of config/default. *)
Example deployed_flags `{ExtraFlags} :
  match parse_flags default_flags
    ["--metrics-bind-address=:8443"; "--leader-elect"; "-health-probe-bind-address"; ":8082";
     "--metrics-secure=F"; "--"; "-x"] with
  | Parsed f rest =>
      string_var f "metrics-bind-address" = ":8443" /\ bool_var f "leader-elect" = true /\
      string_var f "health-probe-bind-address" = ":8082" /\
      bool_var f "metrics-secure" = false /\ bool_var f "enable-http2" = false /\
      rest = ["-x"]
  | _ => False
  end.
Proof. vm_compute. by split_and!. Qed.
