(* ===== verification/MainProps.v ===== *)
(** * The start of the process

    The steps of [main] come in one order and end at the first failure, with the
    exit code that says so; what the two HTTP servers are started with follows
    from the arguments. *)

From S2P Require Import Prelude K8s Types Effects Api Manager Main.
From stdpp Require Import options.

(** ** The steps *)

Inductive step :=
| SClientGoScheme | SScheme | SLogger | SWebhookServer | SConfig | SManager | SController
| SHealthz | SReadyz | SSignals | SStart.

Definition all_steps : list step :=
  [SClientGoScheme; SScheme; SLogger; SWebhookServer; SConfig; SManager; SController;
   SHealthz; SReadyz; SSignals; SStart].

Definition step_of {X} (e : MainOp X) : step :=
  match e with
  | AddClientGoScheme => SClientGoScheme
  | AddToScheme _ => SScheme
  | SetLogger _ => SLogger
  | NewWebhookServer _ => SWebhookServer
  | GetConfig => SConfig
  | NewManager _ => SManager
  | CompleteController _ _ => SController
  | AddHealthzCheck _ => SHealthz
  | AddReadyzCheck _ => SReadyz
  | SetupSignalHandler => SSignals
  | Start => SStart
  end.

(** The error a step failed with. *)
Definition failure {X} (e : MainOp X) : X -> option error :=
  match e in MainOp X return X -> option error with
  | SetLogger _ | NewWebhookServer _ | SetupSignalHandler => fun _ => None
  | AddClientGoScheme | AddToScheme _ | GetConfig | CompleteController _ _
  | AddHealthzCheck _ | AddReadyzCheck _ | Start =>
      fun r => match r with Ok _ => None | Err e => Some e end
  | NewManager _ => fun r => match r with Ok _ => None | Err e => Some e end
  end.

(** The steps still to come, and the step that failed.  After a failure nothing is
    allowed. *)
Record progress := { todo : list step; broken : option (step * error) }.

Definition startup : monitor MainOp progress := {|
  allowed := fun s _ e => broken s = None /\ head (todo s) = Some (step_of e);
  expected := fun _ _ _ _ => True;
  advance := fun s _ e x =>
    {| todo := tail (todo s);
       broken := match failure e x with Some er => Some (step_of e, er) | None => None end |}
|}.

(** How the process ends, given the arguments and the progress made. *)
Definition ending `{ExtraFlags} (args : list string) (s : progress) (o : outcome) : Prop :=
  match broken s with
  | Some (SClientGoScheme, e) | Some (SScheme, e) => o = Panic e
  | Some _ => o = Exit 1
  | None =>
      match parse_flags default_flags args with
      | Parsed _ _ => todo s = [] /\ o = Exit 0
      | Help => todo s = drop 2 all_steps /\ o = Exit 0
      | BadUsage => todo s = drop 2 all_steps /\ o = Exit 2
      end
  end.

Section startup.
Context {X : ExtraFlags}.

Ltac next := split; [done|]; intros ? _; simpl.

(** C18.  The steps of the process come in one order (schemes, logger, webhook
    server, configuration, manager, controller, health and readiness checks,
    signals, start), each at most once; after a step that fails nothing else is
    done.  A scheme that cannot be built is a panic with its error; any other failed
    step makes the exit code 1.  Without a failure the process ends with code 0
    after all steps when the arguments parse; a request for help ends it with 0 and
    bad usage with 2, before anything but the schemes is set up. *)
Theorem main_stops_at_first_failure (args : list string) :
  obeys startup (main args) {| todo := all_steps; broken := None |} (ending args).
Proof.
  unfold main, must, ending. next. destruct x as [[]|e]; simpl; [|done].
  next. destruct x as [[]|e]; simpl; [|done].
  destruct (parse_flags default_flags args) as [f rest| |] eqn:E; [|done..].
  do 2 next. do 5 (next; match goal with x : result _ |- _ => destruct x as [?|?] end;
    simpl; [|done]). do 2 next.
  match goal with x : result _ |- _ => destruct x as [?|?] end; done.
Qed.
End startup.

(** ** The servers *)

(** Applying TLS options in order. *)
Definition apply_tls (opts : list TLSOption) (c : tlsConfig) : tlsConfig :=
  fold_left (fun c o => o c) opts c.

(** No argument is a flag of this name. *)
Definition unmentioned (name : string) (args : list string) : Prop :=
  Forall (fun s => match classify s with IsFlag n _ => n <> name | _ => True end) args.

(** The servers offer HTTP/1.1 only, unless the arguments enable HTTP/2; the metrics
    are served over TLS, to authenticated and authorized clients, unless the
    arguments say otherwise. *)
Definition http1_only (opts : list TLSOption) : Prop :=
  forall c, NextProtos (apply_tls opts c) = ["http/1.1"].

Definition guarded (o : MetricsOptions) : Prop :=
  mo_SecureServing o = true /\ mo_FilterProvider o = Some WithAuthenticationAndAuthorization.

Definition hardened (args : list string) : monitor MainOp unit := {|
  allowed := fun _ _ e =>
    match e with
    | NewWebhookServer o => unmentioned "enable-http2" args -> http1_only (wo_TLSOpts o)
    | NewManager o =>
        (unmentioned "enable-http2" args ->
           http1_only (mo_TLSOpts (opt_Metrics o)) /\
           http1_only (wo_TLSOpts (opt_WebhookServer o))) /\
        (unmentioned "metrics-secure" args -> guarded (opt_Metrics o)) /\
        (mo_SecureServing (opt_Metrics o) = true <-> guarded (opt_Metrics o))
    | _ => True
    end;
  expected := fun _ _ _ _ => True;
  advance := fun s _ _ _ => s
|}.

Section servers.
Context {X : ExtraFlags}.

Lemma set_flag_other name n v f f' :
  set_flag name v f = Some f' -> name <> n -> bool_var f' n = bool_var f n.
Proof.
  unfold set_flag, bool_var. intros H Hn.
  destruct (bool_flags !! name); [destruct (ParseBool v); [|done]|
    destruct (string_flags !! name); [|destruct (extra_accepts name v); [|done]]];
    injection H as <-; simpl; [by rewrite lookup_insert_ne|done..].
Qed.

(** A flag keeps its value when no argument names it. *)
Lemma parse_unmentioned n args f f' rest :
  unmentioned n args -> parse_flags f args = Parsed f' rest -> bool_var f' n = bool_var f n.
Proof.
  remember (length args) as k eqn:Hk. revert args f Hk.
  induction k as [k IH] using lt_wf_ind. intros [|s args] f -> Hu; simpl; [by intros [= ->]|].
  apply Forall_cons_iff in Hu as [Hs Hu].
  destruct (classify s) as [| | |name value] eqn:Ec; try done; [by intros [= ->]..|].
  assert (forall v f1 args1, length args1 <= length args -> unmentioned n args1 ->
    set_flag name v f = Some f1 -> parse_flags f1 args1 = Parsed f' rest ->
    bool_var f' n = bool_var f n) as Hstep.
  { intros v f1 args1 Hl Hu1 Hset Hp. rewrite <-(set_flag_other name n v f f1) by done.
    eapply IH; [|reflexivity|done..]. simpl. lia. }
  destruct (flag_kind name) as [[|]|]; [| |by case_bool_decide].
  - destruct (set_flag name _ f) as [f1|] eqn:Ef; [|done]. by eapply Hstep.
  - destruct value as [v|].
    + destruct (set_flag name v f) as [f1|] eqn:Ef; [|done]. by eapply Hstep.
    + destruct args as [|v args]; [done|].
      destruct (set_flag name v f) as [f1|] eqn:Ef; [|done].
      apply Forall_cons_iff in Hu as [_ Hu]. eapply Hstep; [|done..]. simpl. lia.
Qed.

Lemma tlsOpts_http1 f : bool_var f "enable-http2" = false -> http1_only (tlsOpts f).
Proof. intros E c. unfold tlsOpts. by rewrite E. Qed.

Lemma webhook_tls f : wo_TLSOpts (webhookServerOptions f) = tlsOpts f.
Proof. unfold webhookServerOptions. by destruct (_ <? _)%nat. Qed.

Lemma metrics_guarded f :
  mo_SecureServing (metricsServerOptions f) = true <-> guarded (metricsServerOptions f).
Proof. unfold guarded, metricsServerOptions. simpl. destruct (bool_var f "metrics-secure"); naive_solver. Qed.

(** C19.  Whatever arguments the process is given, unless one of them is the flag
    [enable-http2] both the webhook and the metrics server negotiate HTTP/1.1 only,
    for any TLS configuration they start from; unless one is [metrics-secure] the
    metrics are served over TLS behind authentication and authorization; and metrics
    served over TLS are always behind them. *)
Theorem main_hardens_servers (args : list string) :
  obeys (hardened args) (main args) tt (fun _ _ => True).
Proof.
  unfold main, must. split; [done|]. intros [[]|e] _; simpl; [|done].
  split; [done|]. intros [[]|e] _; simpl; [|done].
  destruct (parse_flags default_flags args) as [f rest| |] eqn:E; [|done..].
  assert (unmentioned "enable-http2" args -> http1_only (tlsOpts f)) as Hh.
  { intros Hu. by apply tlsOpts_http1; rewrite (parse_unmentioned _ _ _ _ _ Hu E). }
  assert (unmentioned "metrics-secure" args -> guarded (metricsServerOptions f)) as Hm.
  { intros Hu. apply metrics_guarded. simpl.
    by rewrite (parse_unmentioned _ _ _ _ _ Hu E). }
  split; [done|]. intros [] _. split; [by simpl; rewrite webhook_tls|]. intros [] _.
  split; [done|]. intros [[]|e] _; simpl; [|done]. split.
  { simpl. rewrite webhook_tls. split; [intros Hu; split; by apply Hh|].
    split; [done|apply metrics_guarded]. }
  intros [mgr|e] _; simpl; [|done].
  do 3 (split; [done|]; intros [[]|e] _; simpl; [|done]).
  split; [done|]. intros [] _. split; [done|]. by intros [[]|e] _.
Qed.
End servers.
