(* ===== verification/Faults.v ===== *)
(** * Where errors come from, and where they go

    [Reconcile] stops at the first failed call to the API server that it does not
    handle, and returns that very error under a path that names the tier and the
    step.  Failures of the database are handled: they make it ask for a requeue. *)

From S2P Require Import Prelude GoLang K8s Types Heap Effects Api Logic Names ConfigMap.
From S2P Require Import Services StatefulSet Resources Plugins Reconciler Samples.
From S2P Require Import TierWalk PluginProps.
From stdpp Require Import options.

(** ** Failures *)




(** The failure met, and whether it was that of the status update. *)
Record failing := { failed_with : option error; at_status : bool }.


(** ** Paths *)

Definition wrapped (path : list string) (e : error) : error := foldr ErrWrap e path.

(** The step of [reconcileTier] that an error names. *)
Definition tier_step (step : string) : Prop :=
  step ∈ ["configmap"; "headless service"; "client service"; "cleanup statefulsets"; "ingress"]
  \/ exists i, step = "statefulset rs" +:+ Itoa i.

(** The path of an error of [Reconcile]: none, a tier, or a tier and a step. *)
Definition error_path (tiers : list string) (path : list string) : Prop :=
  path = [] \/
  exists t, t ∈ tiers /\
    (path = ["tier " +:+ t] \/ exists step, tier_step step /\ path = ["tier " +:+ t; step]).

(** An error that [SetControllerReference] returned. *)
Definition owner_error `{ControllerLib} (e : error) : Prop :=
  exists owner m, SetControllerReference owner m = Err e.

Section fail_fast.
Context {U : GoUnicode} {K : K8sLib} {C : ControllerLib}.

(** The failure behind an error. *)
Definition cause (s : failing) (e : error) : Prop :=
  match failed_with s with Some e' => e' = e | None => owner_error e end.















(** ** The handlers *)








(** What [Reconcile] may return after the failures that were met. *)
Definition returned (tiers : list string) (s : failing) (r : result Result) : Prop :=
  match r with
  | Ok res =>
      (failed_with s = None \/ at_status s = true /\ RequeueAfter res = Some 15%Z) /\
      (RequeueAfter res = None \/ RequeueAfter res = Some 15%Z)
  | Err er => exists path e, error_path tiers path /\ er = wrapped path e /\ cause s e
  end.


Lemma not_found_returned tiers s : failed_with s = None ->
  returned tiers s (Ok {| RequeueAfter := None |}).
Proof. by split; left. Qed.
End fail_fast.



