(* ===== verification/Tally.v ===== *)
(** * Counting faults

    A monitor that counts the answers which are faults of the API server or the
    database.  Every handler fails only where it meets one ([succeeds]); so a
    reconciliation that does not succeed has met at least one. *)

From S2P Require Import Prelude GoLang GoJson K8s Types Heap Effects Api Logic Names ConfigMap.
From S2P Require Import Services StatefulSet Resources Plugins Reconciler Samples.
From S2P Require Import TierWalk PluginProps Store Convergence Server.
From stdpp Require Import options.

(** ** Faults *)

Definition bad_rows {A} (rs : rows A) : bool :=
  match rows_err rs with
  | Some _ => true
  | None => negb (forallb is_ok (rows_scans rs))
  end.

(** An answer that the API server and the database would not have given by
    themselves: not found is an answer of a read and a deletion; creating what exists
    and patching what does not, be it the status, are errors of the caller. *)
Definition fault (st : store) {X} (e : Op X) : X -> bool :=
  match e in Op X return X -> bool with
  | Get _ _ => fun r => match r with Ok _ => false | Err er => negb (IsNotFound er) end
  | Create k o => fun r =>
      match r with
      | Ok _ => false
      | Err _ => match st k (obj_key k o) with Some _ => false | None => true end
      end
  | Patch k base new => fun r =>
      match r with
      | Ok _ => false
      | Err _ => match st k (obj_key k base) with
                 | Some _ => bool_decide (obj_key k new = obj_key k base)
                 | None => false
                 end
      end
  | Delete _ _ => fun r => match r with Ok _ => false | Err er => negb (IsNotFound er) end
  | ListObjs _ _ _ => fun r => negb (is_ok r)
  | StatusPatch _ new => fun r =>
      match r with
      | Ok _ => false
      | Err _ => match st KPicoclusterDB (obj_key KPicoclusterDB new) with
                 | Some _ => true
                 | None => false
                 end
      end
  | Connect _ => fun r => negb (is_ok r)
  | Exec _ => fun r => negb (is_ok r)
  | Query _ _ => fun r => match r with Ok rs => bad_rows rs | Err _ => true end
  | _ => fun _ => false
  end.

(** What is stored, and the faults met so far. *)
Record tally := { stored_now : store; faults : nat }.

Definition counting : monitor Op tally := {|
  allowed := fun s X e => allowed store_api (stored_now s) X e;
  expected := fun s X e x => expected store_api (stored_now s) X e x;
  advance := fun s X e x =>
    {| stored_now := advance store_api (stored_now s) X e x;
       faults := faults s + (if fault (stored_now s) e x then 1 else 0) |}
|}.

(** SetControllerReference succeeds on an object without owners, in the namespace of
    the owner: its documentation lists no other failures. *)
Class ControllerLibTotal (C : ControllerLib) := {
  owned_total : forall owner m,
    om_OwnerReferences m = [] -> om_Namespace m = om_Namespace owner ->
    is_ok (SetControllerReference owner m) = true
}.

Section counting.
Context {U : GoUnicode} {K : K8sLib} {C : ControllerLib}.
(** What is stored at the start, and the cluster that is reconciled. *)
Variables (st0 : store) (req : NamespacedName).

(** Nobody changes the Secrets and the clusters, but for the status of [req]. *)
Record kept (st : store) : Prop := {
  kept_secrets : forall n, st KSecret n = st0 KSecret n;
  kept_others : forall n, n <> req -> st KPicoclusterDB n = st0 KPicoclusterDB n;
  kept_cluster : same_but_status (st0 KPicoclusterDB req) (st KPicoclusterDB req)
}.

Lemma kept_start : kept st0.
Proof. by split. Qed.

(** [m] fails only where a fault is met. *)
Definition succeeds {A} (m : GoM A) : Prop := forall s h, kept (stored_now s) ->
  go_ok counting m s h (fun s' _ r =>
    kept (stored_now s') /\ faults s <= faults s' /\
    (is_ok r = false -> faults s < faults s')).

Lemma succeeds_ret {A} (a : A) : succeeds (go_ret a).
Proof. by intros s h Hs. Qed.

Lemma succeeds_heap {A} (f : heap -> heap * A) : succeeds (with_heap f).
Proof. intros s h Hs. by go_step. Qed.

Lemma succeeds_lift {A} (r : result A) : is_ok r = true -> succeeds (lift r).
Proof. intros Hr s h Hs. go_step. by rewrite Hr. Qed.

Lemma succeeds_bind {A B} (m : GoM A) (f : A -> GoM B) :
  succeeds m -> (forall a, succeeds (f a)) -> succeeds (go_bind m f).
Proof.
  intros Hm Hf s h Hs. go_step. eapply go_ok_mono; [by apply Hm|].
  intros s' h' [a|e] (Hk & Hle & Hlt); [|by specialize (Hlt eq_refl)].
  eapply go_ok_mono; [by apply Hf|]. intros s2 h2 r (? & ? & H). split_and!; [done|lia|].
  intros Hr. specialize (H Hr). lia.
Qed.

Lemma succeeds_after_ret {A B} (a : A) (f : A -> GoM B) :
  succeeds (f a) -> succeeds (go_bind (go_ret a) f).
Proof. intros H s h Hs. do 2 go_step. by apply H. Qed.

Lemma succeeds_wrap {A} p (m : GoM A) : succeeds m -> succeeds (wrap_err p m).
Proof.
  intros Hm s h Hs. go_step. eapply go_ok_mono; [by apply Hm|]. by intros s' h' [a|e].
Qed.

Lemma succeeds_try {A} (m : GoM A) : succeeds m -> succeeds (try m).
Proof.
  intros Hm s h Hs. go_step. eapply go_ok_mono; [by apply Hm|].
  by intros s' h' r (? & ? & _).
Qed.

Lemma succeeds_for_each {A} (l : list A) (f : A -> GoM unit) :
  (forall x, succeeds (f x)) -> succeeds (for_each l f).
Proof.
  intros Hf. induction l as [|x l IH]; [apply succeeds_ret|]. by apply succeeds_bind.
Qed.

Lemma succeeds_collect {A B} (l : list A) (f : A -> GoM B) :
  (forall x, succeeds (f x)) -> succeeds (collect l f).
Proof.
  intros Hf. induction l as [|x l IH]; [apply succeeds_ret|]. apply succeeds_bind; [done|].
  intros y. apply succeeds_bind; [done|]. intros r. apply succeeds_ret.
Qed.

(** A call that changes no object, and whose every error is a fault. *)
Lemma succeeds_request {A} (e : Op (result A)) :
  (forall st, allowed store_api st _ e) ->
  (forall st r, advance store_api st _ e r = st) ->
  (forall st er, fault st e (Err er) = true) -> succeeds (request e).
Proof.
  intros Ha Hadv Hf s h Hs. go_step; [exact (Ha (stored_now s))|]. intros r _. simpl in *. rewrite Hadv.
  split; [done|]. destruct r as [a|er]; simpl; [by split; [lia|]|]. rewrite Hf. split; lia.
Qed.

Lemma succeeds_ask {X} (e : Op X) :
  (forall st, allowed store_api st _ e) ->
  (forall st x, advance store_api st _ e x = st) -> succeeds (ask e).
Proof.
  intros Ha Hadv s h Hs. go_step; [exact (Ha (stored_now s))|]. intros x _. simpl in *. rewrite Hadv.
  split_and!; [done|lia|done].
Qed.

(** Objects of a tier are not clusters or Secrets. *)
Lemma kept_upd st k n o : tier_kind k -> kept st -> kept (upd k n o st).
Proof.
  intros Hk [H1 H2 H3]. split.
  - intros n'. rewrite upd_other; [done|]. left. by intros ->.
  - intros n' Hn. rewrite upd_other; [by apply H2|]. left. by intros ->.
  - rewrite upd_other; [done|]. left. by intros ->.
Qed.

Lemma get_create_or_patch_succeeds k merge (d : obj k) :
  tier_kind k ->
  (forall e, obj_key k e = obj_key k d -> obj_key k (merge e d) = obj_key k e) ->
  succeeds (get_create_or_patch k merge d).
Proof.
  intros Hk Hm s h Hs. unfold get_create_or_patch. do 3 (go_step; try done).
  intros [o|er] Ho; simpl in Ho |- *.
  - destruct Ho as [Hst Hkey]. do 2 (go_step; try done). intros [o'|er] _; simpl.
    + go_step. simpl. split_and!; [by apply kept_upd|lia|done].
    + rewrite Hkey, Hst, bool_decide_true by (by rewrite Hm).
      split_and!; [done|lia|lia].
  - destruct (IsNotFound er) eqn:Hn; simpl.
    + specialize (Ho eq_refl). go_step; [done|]. intros [o'|er'] _; simpl.
      * split_and!; [by apply kept_upd|lia|done].
      * rewrite Ho. split_and!; [done|lia|lia].
    + go_step. simpl. split_and!; [done|lia|lia].
Qed.

(** A query, where the rest fails by itself only on rows that are bad. *)
Lemma succeeds_query t sql {B} (f : rows (row t) -> GoM B) :
  (forall rs, succeeds (f rs) \/ bad_rows rs = true /\ exists e, f rs = throw e) ->
  succeeds (go_bind (request (Query t sql)) f).
Proof.
  intros Hf s h Hs. do 2 (go_step; try done). intros [rs|er] _; simpl.
  2: { split_and!; [done|lia|lia]. }
  destruct (Hf rs) as [H|[Hb [e ->]]].
  - eapply go_ok_mono; [by apply H|]. simpl. intros s' h' r (? & ? & Hr).
    split_and!; [done|lia|]. intros Hok. specialize (Hr Hok). lia.
  - go_step. simpl. rewrite Hb. split_and!; [done|lia|lia].
Qed.

Lemma bad_rows_err {A} (rs : rows A) e : rows_err rs = Some e -> bad_rows rs = true.
Proof. unfold bad_rows. by intros ->. Qed.

Lemma bad_rows_scan {A} (rs : rows A) e l : rows_scans rs = Err e :: l -> bad_rows rs = true.
Proof. unfold bad_rows. intros ->. by destruct (rows_err rs). Qed.

Lemma rows_result_succeeds {A B} (rs : rows A) (v : B) :
  succeeds (lift (rows_result rs v)) \/
  bad_rows rs = true /\ exists e, lift (rows_result rs v) = throw e.
Proof.
  unfold rows_result. destruct (rows_err rs) as [e|] eqn:E.
  - right. split; [by eapply bad_rows_err|]. by exists e.
  - left. by apply succeeds_lift.
Qed.

(** ** The plugin handlers *)

Lemma exec_succeeds what sql : succeeds (exec_wrapped what sql).
Proof. by apply succeeds_wrap, succeeds_request. Qed.

Lemma add_service_succeeds plugin svc tier : succeeds (add_service plugin svc tier).
Proof. apply exec_succeeds. Qed.

#[local] Hint Resolve exec_succeeds add_service_succeeds succeeds_ret : core.

Lemma bind_services_succeeds plugin tier : succeeds (bind_services plugin tier).
Proof.
  apply succeeds_bind.
  - apply succeeds_query. intros rs. apply rows_result_succeeds.
  - intros services. apply succeeds_for_each. intros svc. by destruct (containsString _ _).
Qed.

Lemma migrate_succeeds plugin tier : succeeds (migrate_plugin plugin tier).
Proof.
  apply succeeds_bind; [by apply succeeds_for_each|].
  intros _. apply succeeds_bind; [by apply succeeds_ask|]. intros order.
  apply succeeds_bind; [|done]. by apply succeeds_for_each.
Qed.

Lemma reconcilePlugin_succeeds plugin tier : succeeds (reconcilePlugin plugin tier).
Proof.
  apply succeeds_bind.
  { apply succeeds_query. intros rs.
    destruct (rows_scans rs) as [|[enabled|e] l] eqn:E; [apply rows_result_succeeds..|].
    right. split; [by eapply bad_rows_scan|by exists e]. }
  intros [exists_ enabled].
  apply succeeds_bind; [by destruct exists_|]. intros _.
  apply succeeds_bind; [destruct enabled; [done|apply migrate_succeeds]|]. intros _.
  apply succeeds_bind; [apply bind_services_succeeds|]. intros _.
  apply succeeds_bind; [|done]. destruct enabled; [done|]. by apply succeeds_bind.
Qed.

Lemma dropObsoletePlugins_succeeds {R} (tier : TierSpec R) :
  succeeds (dropObsoletePlugins tier).
Proof.
  apply succeeds_query. intros rs. destruct (rows_err rs) as [e|] eqn:E.
  - right. split; [by eapply bad_rows_err|by exists e].
  - left. apply succeeds_for_each. intros inst. destruct (is_desired tier inst); [done|].
    apply succeeds_bind; [by destruct (in_enabled inst)|done].
Qed.

Lemma with_close_succeeds {A} (m : GoM A) : succeeds m -> succeeds (with_close m).
Proof.
  intros Hm s h Hs. unfold with_close. do 2 go_step.
  eapply go_ok_mono; [by apply Hm|]. intros s' h' r (Hk & Hle & Hr).
  do 2 (go_step; try done). intros x _. simpl. go_step. simpl.
  split_and!; [done|lia|]. intros Hok. specialize (Hr Hok). lia.
Qed.

(** The Secret with the password of the administrator is there. *)
Definition has_password {R} (cluster : PicoclusterDB R) : Prop :=
  let ref := s_AdminPassword (db_Spec cluster) in
  exists sec, st0 KSecret {| nn_Name := skr_SecretName ref;
                             nn_Namespace := db_Namespace cluster |} = Some sec /\
              is_Some (sec_Data (sec : Secret) !! skr_Key ref).

Lemma getAdminPassword_succeeds {R} (cluster : PicoclusterDB R) :
  has_password cluster -> succeeds (getAdminPassword cluster).
Proof.
  intros (sec & Hsec & [pw Hpw]) s h Hs. unfold getAdminPassword. do 2 (go_step; try done).
  intros [o|er] Ho; simpl in Ho |- *.
  - destruct Ho as [Ho _]. rewrite (kept_secrets _ Hs) in Ho. simplify_eq.
    rewrite Hpw. go_step. simpl. split_and!; [done|lia|done].
  - destruct (IsNotFound er); simpl; [|split_and!; [done|lia|lia]].
    specialize (Ho eq_refl). rewrite (kept_secrets _ Hs) in Ho. by simplify_eq.
Qed.

Lemma reconcileTierPlugins_succeeds {R} (cluster : PicoclusterDB R) (tier : TierSpec R) :
  has_password cluster -> succeeds (reconcileTierPlugins cluster tier).
Proof.
  intros Hpw. unfold reconcileTierPlugins. destruct (t_Plugins tier) as [|p ps]; [done|].
  apply succeeds_bind; [by apply succeeds_wrap, getAdminPassword_succeeds|]. intros pw.
  apply succeeds_bind; [by apply succeeds_wrap, succeeds_request|]. intros _.
  apply with_close_succeeds, succeeds_bind.
  - apply succeeds_collect. intros plugin. apply succeeds_wrap, reconcilePlugin_succeeds.
  - intros sts. apply succeeds_bind; [|done]. apply succeeds_try, dropObsoletePlugins_succeeds.
Qed.

(** ** The objects of a tier *)

Context {CT : ControllerLibTotal C}.

Ltac owned_ok := unfold own_ConfigMap, own_Service, own_Ingress, own_StatefulSet;
  lazymatch goal with |- context [SetControllerReference ?o ?m] =>
    let H := fresh in pose proof (owned_total o m eq_refl eq_refl) as H;
    destruct (SetControllerReference o m); done end.

Lemma reconcileStatefulSet_succeeds (d : StatefulSet Mem) : succeeds (reconcileStatefulSet d).
Proof.
  apply succeeds_bind; [apply succeeds_heap|]. intros fz.
  apply succeeds_bind; [|done]. by apply get_create_or_patch_succeeds.
Qed.

Lemma built_unowned cluster tier i cd h :
  let b := (buildStatefulSet cluster tier i cd h).2 in
  om_OwnerReferences (sts_Meta b) = [] /\
  om_Namespace (sts_Meta b) = om_Namespace (db_Meta cluster).
Proof.
  unfold buildStatefulSet. destruct (pod_security_context _ _).
  by destruct (pod_affinity _ _ _ _).
Qed.

Lemma replicaset_succeeds cluster tier cd i : succeeds (reconcile_replicaset cluster tier cd i).
Proof using CT.
  intros s h Hs. unfold reconcile_replicaset. do 2 go_step.
  destruct (built_unowned cluster tier i cd h) as [Ho Hns].
  destruct (buildStatefulSet cluster tier i cd h) as [h' b]. simpl in *.
  apply (succeeds_bind (lift (own_StatefulSet (db_Meta cluster) b))); [| |done].
  - apply succeeds_lift. unfold own_StatefulSet.
    pose proof (owned_total (db_Meta cluster) (sts_Meta b) Ho Hns) as H.
    by destruct (SetControllerReference _ _).
  - intros d. apply succeeds_wrap, reconcileStatefulSet_succeeds.
Qed.

Lemma delete_extra_succeeds (cluster : PicoclusterDB Mem) (tier : TierSpec Mem) :
  succeeds (deleteExtraStatefulSets cluster tier).
Proof.
  apply succeeds_bind; [by apply succeeds_request|]. intros items.
  apply succeeds_for_each. intros sts. destruct (is_extra tier sts); [|done].
  intros s h Hs. do 3 (go_step; try done). intros [u|er] Ho; simpl; go_step; simpl.
  - split_and!; [by apply kept_upd|lia|done].
  - unfold IgnoreNotFound. destruct (IsNotFound er); simpl; split_and!; done || lia.
Qed.

Lemma reconcileTier_succeeds cluster tier :
  s_Tiers (db_Spec cluster) <> [] -> (t_Replicas tier < int32_max)%Z ->
  succeeds (reconcileTier cluster tier).
Proof using CT.
  intros Ht Hmax. unfold reconcileTier, buildConfigMap.
  destruct (s_Tiers (db_Spec cluster)) as [|t0 ts]; [done|]. clear Ht. simpl.
  apply succeeds_after_ret.
  apply succeeds_bind; [apply succeeds_lift; owned_ok|]. intros cm1.
  apply succeeds_bind; [by apply succeeds_wrap, get_create_or_patch_succeeds|]. intros cm2.
  apply succeeds_bind; [apply succeeds_lift; owned_ok|]. intros s1.
  apply succeeds_bind; [by apply succeeds_wrap, get_create_or_patch_succeeds|]. intros _.
  apply succeeds_bind; [apply succeeds_lift; owned_ok|]. intros s2.
  apply succeeds_bind; [by apply succeeds_wrap, get_create_or_patch_succeeds|]. intros _.
  rewrite for_int32_range by (unfold int32_min in *; simpl; lia).
  apply succeeds_bind; [by apply succeeds_for_each; intros; apply replicaset_succeeds|].
  intros _. apply succeeds_bind; [apply succeeds_wrap, delete_extra_succeeds|]. intros _.
  destruct (t_Ingress tier) as [spec|]; [|done]. destruct (is_Enabled spec); [|done].
  apply succeeds_bind; [apply succeeds_lift; owned_ok|]. intros d.
  apply succeeds_bind; [|done]. by apply succeeds_wrap, get_create_or_patch_succeeds.
Qed.

(** The status of the cluster can be written while the cluster is stored. *)
Lemma status_patch_succeeds (base new : PicoclusterDB Wire) :
  obj_key KPicoclusterDB new = req -> is_Some (st0 KPicoclusterDB req) ->
  succeeds (request (StatusPatch base new)).
Proof.
  intros Hkey [c0 Hc0] s h Hs. go_step; [done|]. intros r _. simpl. rewrite Hkey.
  pose proof (kept_cluster _ Hs) as Hc. rewrite Hc0 in Hc.
  destruct (stored_now s KPicoclusterDB req) as [c|] eqn:E; [|done].
  destruct r as [[]|er]; simpl; [|split_and!; [done|lia|lia]].
  split_and!; [|lia|done]. destruct Hs as [H1 H2 _]. split.
  - intros n. rewrite upd_other; [done|by left].
  - intros n Hn. rewrite upd_other; [by apply H2|]. right. congruence.
  - by rewrite upd_same, Hc0.
Qed.

Lemma updateStatus_succeeds cluster tiers ready :
  cluster_key cluster = req -> is_Some (st0 KPicoclusterDB req) ->
  succeeds (updateStatus cluster tiers ready).
Proof.
  intros Hkey Hst s h Hs. unfold updateStatus. do 2 (go_step; try done). intros now _. simpl.
  do 2 go_step. do 2 go_step.
  eapply go_ok_mono; [by apply status_patch_succeeds|]. simpl. intros s' h' r (? & ? & Hr).
  split_and!; [done|lia|]. intros Hok. specialize (Hr Hok). lia.
Qed.

Lemma tierStatus_succeeds {R} (cluster : PicoclusterDB R) (tier : TierSpec R) :
  succeeds (tierStatus cluster tier).
Proof. apply succeeds_bind; [by apply succeeds_request|]. done. Qed.

(** ** The whole reconciliation *)

Definition settled_result : result Result := Ok {| RequeueAfter := None |}.

(** [m] ends settled, or a fault was met. *)
Definition settles (m : GoM Result) : Prop := forall s h, kept (stored_now s) ->
  go_ok counting m s h (fun s' _ r =>
    kept (stored_now s') /\ faults s <= faults s' /\
    (r = settled_result \/ faults s < faults s')).

Lemma settles_bind {A} (m : GoM A) (f : A -> GoM Result) :
  succeeds m -> (forall a, settles (f a)) -> settles (go_bind m f).
Proof.
  intros Hm Hf s h Hs. go_step. eapply go_ok_mono; [by apply Hm|].
  intros s' h' [a|e] (Hk & Hle & Hlt).
  - eapply go_ok_mono; [by apply Hf|]. intros s2 h2 r (? & ? & H). split_and!; [done|lia|].
    destruct H as [->|H]; [by left|right; lia].
  - specialize (Hlt eq_refl). split_and!; [done|lia|by right].
Qed.

Lemma reconcile_tiers_settles cluster tiers acc ready :
  cluster_key cluster = req -> is_Some (st0 KPicoclusterDB req) ->
  s_Tiers (db_Spec cluster) <> [] ->
  Forall (fun t => t_Replicas t < int32_max)%Z tiers ->
  (Exists (fun t => t_Plugins t <> []) tiers -> has_password cluster) ->
  settles (reconcile_tiers cluster tiers acc ready).
Proof using CT.
  intros Hkey Hst Hne. revert acc ready.
  induction tiers as [|tier tiers IH]; intros acc ready Hmax Hpw; simpl.
  { apply settles_bind; [by apply updateStatus_succeeds|]. intros _ s h Hs. go_step.
    split_and!; [done..|by left]. }
  apply Forall_cons_iff in Hmax as [Hmax1 Hmax].
  assert (forall acc ready, settles (reconcile_tiers cluster tiers acc ready)) as IH'.
  { intros acc' ready'. apply IH; [done|]. intros H. apply Hpw. by right. }
  apply settles_bind; [by apply succeeds_wrap, reconcileTier_succeeds|]. intros _.
  apply settles_bind; [apply tierStatus_succeeds|]. intros [ts rd].
  destruct (rd && _) eqn:Hb; [|apply IH'].
  apply andb_true_iff in Hb as [_ Hb]. assert (has_password cluster) as Hsec.
  { apply Hpw. left. intros E. by rewrite E in Hb. }
  intros s h Hs. do 2 go_step.
  eapply go_ok_mono; [by apply (reconcileTierPlugins_succeeds cluster tier Hsec)|].
  intros s1 h1 [sts|e] (Hk & Hle & Hlt).
  - eapply go_ok_mono; [by apply IH'|]. intros s2 h2 r (? & ? & H). split_and!; [done|lia|].
    destruct H as [->|H]; [by left|right; lia].
  - specialize (Hlt eq_refl). do 2 go_step.
    eapply go_ok_mono; [by apply updateStatus_succeeds|]. intros s2 h2 r (? & ? & _).
    go_step. split_and!; [done|lia|right; lia].
Qed.

(** A cluster that can be reconciled without a fault: counts below the greatest
    [int32], and the password of the administrator, when a tier has plugins. *)
Definition recoverable {R} (c : PicoclusterDB R) : Prop :=
  s_Tiers (db_Spec c) <> [] /\
  Forall (fun t => t_Replicas t < int32_max)%Z (s_Tiers (db_Spec c)) /\
  (Exists (fun t => t_Plugins t <> []) (s_Tiers (db_Spec c)) -> has_password c).

Lemma recoverable_freeze h cluster :
  recoverable (freeze_cluster h cluster) -> recoverable cluster.
Proof.
  intros (Hne & Hmax & Hpw). split_and!.
  - intros E. apply Hne. simpl. by rewrite E.
  - by apply Forall_fmap in Hmax.
  - intros H. apply Hpw. simpl. by apply Exists_fmap.
Qed.

(** Whether a cluster can be reconciled does not depend on its status. *)
Lemma recoverable_same (c c' : PicoclusterDB Wire) :
  db_Meta c' = db_Meta c -> db_Spec c' = db_Spec c -> recoverable c -> recoverable c'.
Proof.
  intros Hm Hs. unfold recoverable, has_password, db_Namespace. by rewrite Hm, Hs.
Qed.

Lemma Reconcile_settles :
  (forall wire, st0 KPicoclusterDB req = Some wire -> recoverable wire) ->
  settles (Reconcile req).
Proof using CT.
  intros Hrec s h Hs. unfold Reconcile. do 3 (go_step; try done).
  intros [wire|er] Hw; simpl in Hw |- *.
  - destruct Hw as [Hw Hkey]. pose proof (kept_cluster _ Hs) as Hc. rewrite Hw in Hc.
    destruct (st0 KPicoclusterDB req) as [c0|] eqn:E0; [|done]. destruct Hc as [Hm Hsp].
    go_step. go_step. destruct (thaw_cluster wire h) as [h' cluster] eqn:E. simpl.
    destruct (freeze_thaw_cluster _ _ _ _ E) as (_ & _ & Hfr).
    assert (recoverable cluster) as (Hne & Hmax & Hpw).
    { apply (recoverable_freeze h'). rewrite Hfr. apply (recoverable_same c0 wire Hm Hsp).
      by apply Hrec. }
    assert (cluster_key cluster = req) as Hck by (by rewrite <-Hfr in Hkey).
    eapply go_ok_mono; [apply (reconcile_tiers_settles cluster); try done; by exists c0|]. simpl.
    intros s' h2 r (? & ? & H). split_and!; [done|lia|]. destruct H; [by left|right; lia].
  - destruct (IsNotFound er); simpl; go_step; simpl; (split_and!; [done|lia|]).
    + by left.
    + right. lia.
Qed.
End counting.

#[export] Hint Resolve succeeds_ret : operator.

(** The clusters of the request can be reconciled, and the Secret is stored. *)
Definition well_posed (req : NamespacedName) (st : store) : Prop :=
  forall wire, st KPicoclusterDB req = Some wire -> reconcilable wire /\ recoverable st wire.

(** C15.  Against an API server that keeps its promises, whatever else it answers:
    when the cluster can be reconciled and the Secret is there, [Reconcile] returns
    an error or asks for a requeue only if at least one call was answered with a
    fault; without one it succeeds.  It changes no Secret and no other cluster, and of
    the cluster it was called for the status alone. *)
Theorem Reconcile_needs_fault {U : GoUnicode} {K : K8sLib} {C : ControllerLib}
  {CT : ControllerLibTotal C} (req : NamespacedName) (st : store) (h : heap) :
  (forall wire, st KPicoclusterDB req = Some wire -> recoverable st wire) ->
  go_ok counting (Reconcile req) {| stored_now := st; faults := 0 |} h (fun s _ r =>
    (forall n, stored_now s KSecret n = st KSecret n) /\
    (forall n, n <> req -> stored_now s KPicoclusterDB n = st KPicoclusterDB n) /\
    same_but_status (st KPicoclusterDB req) (stored_now s KPicoclusterDB req) /\
    (r <> Ok {| RequeueAfter := None |} -> 1 <= faults s)).
Proof.
  intros Hrec. eapply go_ok_mono; [by apply (Reconcile_settles st req Hrec)|].
  simpl. intros s h' r ([H1 H2 H3] & _ & Hr). split_and!; [done..|].
  intros Hne. by destruct Hr.
Qed.

(** ** The sample: the cluster and its Secret *)

Lemma sample_controller_total : ControllerLibTotal sample_controller_lib.
Proof. by split. Qed.

Definition sample_secret : Secret :=
  {| sec_Meta := mk_meta "picodata-admin-secret" "picodata" ∅ ∅;
     sec_Data := {["password" := "T0psecret"]} |}.

Definition sample_world : list stored_obj :=
  [existT KSecret sample_secret; existT KPicoclusterDB sample_wire].

Lemma sample_well_posed : well_posed sample_req (contents sample_world).
Proof.
  intros wire [= <-]. split; [|split_and!].
  - by apply sample_reconcilable; unfold sample_store; rewrite upd_same.
  - done.
  - by repeat constructor.
  - intros _. exists sample_secret. split; [reflexivity|]. by eexists.
Qed.

Lemma Reconcile_needs_fault_witness :
  go_ok counting
    (@Reconcile ascii_unicode sample_k8s sample_controller_lib sample_req)
    {| stored_now := contents sample_world; faults := 0 |} empty_heap (fun s _ r =>
    (forall n, stored_now s KSecret n = contents sample_world KSecret n) /\
    (forall n, n <> sample_req ->
       stored_now s KPicoclusterDB n = contents sample_world KPicoclusterDB n) /\
    same_but_status (contents sample_world KPicoclusterDB sample_req)
      (stored_now s KPicoclusterDB sample_req) /\
    (r <> Ok {| RequeueAfter := None |} -> 1 <= faults s)).
Proof.
  apply (@Reconcile_needs_fault ascii_unicode sample_k8s sample_controller_lib
    sample_controller_total sample_req (contents sample_world) empty_heap).
  intros wire E. apply (proj2 (sample_well_posed wire E)).
Defined.
