(* ===== verification/Liveness.v ===== *)
(** * Recovery from failures

    On a server that fails some finite number of calls, in whatever places,
    repeating [Reconcile] (as controller-runtime does after an error or a requeue)
    succeeds after at most as many repetitions as there are faults, and then the
    tiers are in sync. *)

From S2P Require Import Prelude GoLang K8s Types Heap Effects Api Logic Names.
From S2P Require Import Reconciler Samples Store Convergence Server Tally.
From stdpp Require Import options.

(** ** A server that fails now and then *)

Definition unavailable : error := ErrOther "the server is unavailable".

(** The failed answer of a call that can fail. *)
Definition failed_answer {X} (e : Op X) : option X :=
  match e in Op X return option X with
  | Get _ _ => Some (Err unavailable)
  | Create _ _ => Some (Err unavailable)
  | Patch _ _ _ => Some (Err unavailable)
  | Delete _ _ => Some (Err unavailable)
  | ListObjs _ _ _ => Some (Err unavailable)
  | StatusPatch _ _ => Some (Err unavailable)
  | Connect _ => Some (Err unavailable)
  | Exec _ => Some (Err unavailable)
  | Query _ _ => Some (Err unavailable)
  | _ => None
  end.

(** The server of [Server] with a schedule: whether the next calls that can fail do. *)
Definition flaky_world : Type := list bool * list stored_obj.

Definition flaky (X : Type) (e : Op X) (w : flaky_world) : option (X * flaky_world) :=
  match failed_answer e, w.1 with
  | Some r, true :: sched => Some (r, (sched, w.2))
  | Some _, false :: sched =>
      match serve X e w.2 with Some (x, w') => Some (x, (sched, w')) | None => None end
  | _, sched =>
      match serve X e w.2 with Some (x, w') => Some (x, (sched, w')) | None => None end
  end.

Definition faults_left (sched : list bool) : nat := length (filter (fun b => b = true) sched).

(** The tally agrees with the world, and the faults met are among the [n] that the
    schedule started with. *)
Definition tallied (n : nat) (s : tally) (w : flaky_world) : Prop :=
  serves (stored_now s) w.2 /\ faults s + faults_left w.1 <= n.

(** What the server answers by itself is no fault. *)
Lemma serve_no_fault st w X (e : Op X) x w' :
  serves st w -> serve X e w = Some (x, w') -> fault st e x = false.
Proof.
  intros [_ Hf] H. destruct e as [k n|k o|k base new|k o|k ns l|base new| | | | | | |];
    simpl in *; try (by injection H as <- <-); try done.
  - injection H as <- <-. by destruct (find_obj k n w).
  - rewrite Hf. destruct (find_obj k (obj_key k o) w); by injection H as <- <-.
  - rewrite Hf. destruct (find_obj k (obj_key k base) w); [|by injection H as <- <-].
    case_decide as Hk; injection H as <- <-; [done|]. by apply bool_decide_false.
  - destruct (find_obj k (obj_key k o) w); by injection H as <- <-.
  - rewrite Hf. destruct (find_obj KPicoclusterDB _ w); by injection H as <- <-.
Qed.

(** An unavailable server promises nothing and stores nothing. *)
Lemma failed_expected st X (e : Op X) r :
  failed_answer e = Some r -> expected store_api st X e r /\ advance store_api st X e r = st.
Proof. destruct e; simpl; try done; intros [= <-]; done. Qed.

Lemma fault_le st X (e : Op X) x : (if fault st e x then 1 else 0) <= 1.
Proof. destruct (fault st e x); lia. Qed.

Lemma flaky_serves n s w sched X (e : Op X) :
  serves (stored_now s) w -> faults s + faults_left sched <= n -> allowed counting s X e ->
  exists x w', serve X e w = Some (x, w') /\ expected counting s X e x /\
               tallied n (advance counting s X e x) (sched, w').
Proof.
  intros Hs Hn Ha. destruct (serve_expected _ _ X e Hs Ha) as (x & w' & Hx & He & Hw').
  exists x, w'. split_and!; [done..|]. simpl. rewrite (serve_no_fault _ _ _ _ _ _ Hs Hx).
  split; simpl; [done|lia].
Qed.

Lemma flaky_expected n s w X (e : Op X) :
  tallied n s w -> allowed counting s X e ->
  exists x w', flaky X e w = Some (x, w') /\ expected counting s X e x /\
               tallied n (advance counting s X e x) w'.
Proof.
  intros [Hs Hn] Ha. unfold flaky. destruct w as [sched w]. simpl in *.
  assert (forall sched', faults_left sched' <= faults_left sched ->
    exists x w', match serve X e w with
                 | Some (x, w') => Some (x, (sched', w')) | None => None
                 end = Some (x, w') /\ expected counting s X e x /\
                 tallied n (advance counting s X e x) w') as Hserve.
  { intros sched' Hle. destruct (flaky_serves n s w sched' X e Hs) as (x & w' & -> & ?);
      [lia|done|]. by exists x, (sched', w'). }
  destruct (failed_answer e) as [r|] eqn:Ef; [|by apply Hserve].
  destruct sched as [|[|] sched]; [by apply Hserve| |by apply Hserve].
  destruct (failed_expected (stored_now s) X e r Ef) as [He Hadv].
  exists r, (sched, w). split_and!; [done..|].
  split; [change (serves (advance store_api (stored_now s) X e r) w); by rewrite Hadv|simpl].
  pose proof (fault_le (stored_now s) X e r) as Hle.
  unfold faults_left in Hn. rewrite filter_cons_True in Hn by done. simpl in Hn.
  unfold faults_left. lia.
Qed.

(** ** Running again *)

(** Whether controller-runtime leaves it at this result: after an error or a
    [RequeueAfter] it calls [Reconcile] again. *)
Definition is_settled (r : result Result) : bool :=
  match r with Ok {| RequeueAfter := None |} => true | _ => false end.

Section retry.
Context {U : GoUnicode} {K : K8sLib} {C : ControllerLib}.

(** At most [n] more runs after the first; the world after the one that settles. *)
Fixpoint retry (n : nat) (req : NamespacedName) (h : heap) (w : flaky_world)
  : option flaky_world :=
  match run flaky (Reconcile req h) w with
  | Some ((h', r), w') =>
      if is_settled r then Some w'
      else match n with O => None | S n' => retry n' req h' w' end
  | None => None
  end.

Context {CL : ControllerLibLaws C} {CT : ControllerLibTotal C}.

Lemma well_posed_kept req st st' : kept st req st' -> well_posed req st -> well_posed req st'.
Proof.
  intros [Hsec _ Hc] Hw wire' E. rewrite E in Hc.
  destruct (st KPicoclusterDB req) as [wire|] eqn:E0; [|done].
  destruct (Hw wire E0) as [Hr Hx]. split; [by apply (reconcilable_same wire)|].
  destruct Hc as [Hm Hs]. apply (recoverable_same st wire wire') in Hx; [|done..].
  destruct Hx as (H1 & H2 & H3). do 2 (split; [done|]). intros Hp.
  destruct (H3 Hp) as (sec & Hsec0 & Hd). exists sec. by rewrite Hsec.
Qed.

(** What holds against the server holds when faults are counted. *)
Lemma store_counted {A} (m : GoM A) s h (Q : store -> heap -> result A -> Prop) :
  go_ok store_api m (stored_now s) h Q ->
  go_ok counting m s h (fun s' h' r => Q (stored_now s') h' r).
Proof.
  intros H. eapply obeys_mono; [|eapply (obeys_sim store_api counting
    (fun st s => st = stored_now s)); [|reflexivity|exact H]].
  - by intros s' [h' r] (st' & -> & HQ).
  - intros st s' X e -> Ha. split; [done|]. intros x Hx. by split.
Qed.

(** One run: it ends, changes no Secret and no cluster, but for the status, and either uses up a fault or
    settles with the tiers in sync. *)
Lemma one_run req h w :
  NoDup (map id_of w.2) -> well_posed req (contents w.2) ->
  exists h' r w', run flaky (Reconcile req h) w = Some ((h', r), w') /\
    NoDup (map id_of w'.2) /\ kept (contents w.2) req (contents w'.2) /\
    (is_settled r = true \/ faults_left w'.1 < faults_left w.1) /\
    (is_settled r = true -> forall wire, contents w.2 KPicoclusterDB req = Some wire ->
       Forall (fun t => tier_synced wire t (contents w'.2)) (s_Tiers (db_Spec wire))).
Proof using CL CT.
  intros Hd Hwp. set (s := {| stored_now := contents w.2; faults := 0 |}).
  pose proof (obeys_and counting (Reconcile req h) s _ _
    (Reconcile_settles (contents w.2) req (fun wire E => proj2 (Hwp wire E)) s h
       (kept_start (contents w.2) req))
    (store_counted (Reconcile req) s h _ (Reconcile_store req (contents w.2) h
       (fun wire E => proj1 (Hwp wire E))))) as Hob.
  destruct (obeys_sound flaky counting (tallied (faults_left w.1)) (Reconcile req h) s w
    _ (flaky_expected _) (conj (conj Hd (fun _ _ => eq_refl)) (le_n _)) Hob)
    as ([h' r] & w' & s' & Hrun & [[Hd' Hs'] Hle] & (Hk & _ & Hr) & _ & Hsync).
  exists h', r, w'. split_and!; [done..| | |].
  - destruct Hk as [K1 K2 K3]. split.
    + intros n. by rewrite <-K1, Hs'.
    + intros n Hn. by rewrite <-K2, Hs'.
    + by rewrite Hs' in K3.
  - destruct Hr as [->|Hr]; [by left|right; lia].
  - intros Hset wire Hwire. destruct r as [[[|]]|e]; try done.
    specialize (Hsync eq_refl wire Hwire). revert Hsync. apply Forall_impl. intros t.
    by apply tier_synced_ext.
Qed.

(** C2.  Eventual success.  Let the API server and the database fail any of their
    calls, wherever they come in the runs, but only [n] of them altogether.  Then,
    whatever else is stored at the start with a cluster that can be reconciled and,
    when a tier has plugins, its Secret, running [Reconcile] again after every run that
    fails or asks for a requeue ends with success after at most [n] repetitions, and
    the tiers of the cluster are then in sync in what is stored. *)
Theorem Reconcile_eventually_succeeds (n : nat) (req : NamespacedName) (h : heap)
  (sched : list bool) (w : list stored_obj) :
  faults_left sched <= n -> NoDup (map id_of w) -> well_posed req (contents w) ->
  exists sched' w', retry n req h (sched, w) = Some (sched', w') /\
    forall wire, contents w KPicoclusterDB req = Some wire ->
    Forall (fun t => tier_synced wire t (contents w')) (s_Tiers (db_Spec wire)).
Proof using CL CT.
  revert h sched w. induction n as [|n IH]; intros h sched w Hn Hd Hwp;
    destruct (one_run req h (sched, w) Hd Hwp)
      as (h' & r & [sched' w'] & Hrun & Hd' & Hk & Hr & Hsync); simpl in *; rewrite Hrun.
  - destruct Hr as [Hr|Hr]; [|lia]. rewrite Hr. exists sched', w'. split; [done|]. by apply Hsync.
  - destruct (is_settled r); [exists sched', w'; split; [done|]; by apply Hsync|].
    destruct Hr as [Hr|Hr]; [done|].
    destruct (IH h' sched' w') as (s2 & w2 & Hrun2 & Hs2); [lia|done|by eapply well_posed_kept|].
    exists s2, w2. split; [done|]. intros wire Hwire. pose proof (kept_cluster _ _ _ Hk) as Hc.
    rewrite Hwire in Hc. destruct (contents w' KPicoclusterDB req) as [wire'|] eqn:E; [|done].
    pose proof (Hs2 wire' eq_refl) as Hsy. destruct (Hc) as [_ Hsp]. rewrite Hsp in Hsy.
    revert Hsy. apply Forall_impl. intros t. by apply tier_synced_same.
Qed.
End retry.

(** ** The sample, with a server that fails *)

(** The third and the ninth call fail. *)
Definition sample_schedule : list bool :=
  [false; false; true; false; false; false; false; false; true].

Lemma Reconcile_eventually_succeeds_witness :
  exists sched' w', @retry ascii_unicode sample_k8s sample_controller_lib 2 sample_req
      empty_heap (sample_schedule, sample_world) = Some (sched', w') /\
    forall wire, contents sample_world KPicoclusterDB sample_req = Some wire ->
    Forall (fun t => @tier_synced ascii_unicode _ wire t (contents w'))
      (s_Tiers (db_Spec wire)).
Proof.
  apply (@Reconcile_eventually_succeeds ascii_unicode sample_k8s sample_controller_lib
    sample_controller_laws sample_controller_total 2 sample_req empty_heap sample_schedule
    sample_world).
  - apply le_n.
  - apply list.NoDup_cons. split; [by intros [=]%list_elem_of_singleton|].
    apply list.NoDup_singleton.
  - exact sample_well_posed.
Defined.

(** Computed: with one repetition it has not succeeded yet, with two it has, and the
    four StatefulSets are there. *)
Example sample_retries :
  @retry ascii_unicode sample_k8s sample_controller_lib 1 sample_req empty_heap
    (sample_schedule, sample_world) = None /\
  match @retry ascii_unicode sample_k8s sample_controller_lib 2 sample_req empty_heap
    (sample_schedule, sample_world) with
  | Some (sched, w) => sched = [] /\ length (of_kind KStatefulSet w) = 4
  | None => False
  end.
Proof. vm_compute. by split_and!. Qed.
