(* ===== verification/Tenants.v ===== *)
(** * Several clusters

    The operator serves all PicoclusterDBs with the same code.  When the names of
    two clusters' objects do not meet, the reconciliation of one leaves the other in
    sync, whatever happens in it. *)

From S2P Require Import Prelude GoLang K8s Types Heap Effects Api Logic Names ConfigMap.
From S2P Require Import Services Reconciler Samples Store Convergence Server Tally Liveness.
From stdpp Require Import options.

Section apart.
Context {U : GoUnicode} {R1 R2 : PtrRep}.
Variables (a : PicoclusterDB R1) (b : PicoclusterDB R2).

(** The objects of two tiers, one of each cluster, have different names. *)
Definition names_apart (ta : TierSpec R1) (tb : TierSpec R2) : Prop :=
  clientServiceName a ta <> clientServiceName b tb /\
  interconnectServiceName a ta <> clientServiceName b tb /\
  clientServiceName a ta <> interconnectServiceName b tb.

(** Clusters of different namespaces, or with different names throughout. *)
Definition clusters_apart : Prop :=
  db_Namespace a <> db_Namespace b \/
  forall ta tb, ta ∈ s_Tiers (db_Spec a) -> tb ∈ s_Tiers (db_Spec b) -> names_apart ta tb.

Lemma statefulSetName_split {R} (c : PicoclusterDB R) (t : TierSpec R) i :
  statefulSetName c t i = clientServiceName c t +:+ String "-"%char (Itoa i).
Proof. unfold statefulSetName, clientServiceName. by rewrite !append_assoc. Qed.

Lemma interconnectServiceName_split {R} (c : PicoclusterDB R) (t : TierSpec R) :
  interconnectServiceName c t = clientServiceName c t +:+ "-interconnect".
Proof. unfold interconnectServiceName, clientServiceName. by rewrite !append_assoc. Qed.

Lemma keys_apart ta tb k n :
  clusters_apart -> ta ∈ s_Tiers (db_Spec a) -> tb ∈ s_Tiers (db_Spec b) ->
  (t_Replicas ta < int32_max)%Z -> (t_Replicas tb < int32_max)%Z ->
  tier_key b tb k n -> ~ tier_key a ta k n.
Proof.
  intros Hap Ha Hb Ba Bb [Nb Kb] [Na Ka]. destruct Hap as [Hns|Hap]; [congruence|].
  destruct (Hap ta tb Ha Hb) as (H1 & H2 & H3). destruct k; try done.
  - apply H1. by rewrite Ka in Kb.
  - destruct Ka as [Ka|Ka], Kb as [Kb|Kb]; rewrite Ka in Kb; try done.
    rewrite !interconnectServiceName_split in Kb. by apply append_inj_r in Kb.
  - destruct Ka as (i & Hi & Ei), Kb as (j & Hj & Ej). rewrite Ei in Ej.
    rewrite !statefulSetName_split in Ej.
    apply append_last_sep in Ej as [E _]; [done|apply Itoa_no_dash..];
      unfold in_int32, int32_min in *; lia.
  - apply H1. by rewrite Ka in Kb.
Qed.

(** The labels of one cluster's pods do not match the selector of the other's. *)
Lemma labels_apart ta tb i :
  labels_match (tierLabels b tb) (replicasetLabels a ta i) = true ->
  clientServiceName a ta = clientServiceName b tb.
Proof.
  unfold labels_match. rewrite bool_decide_eq_true. intros H.
  assert (tierLabels b tb !! "app.kubernetes.io/name" = Some (clientServiceName b tb)) as E
    by apply lookup_insert_eq.
  apply (lookup_weaken _ _ _ _ E) in H. unfold replicasetLabels in H.
  rewrite lookup_insert_ne in H by done. unfold tierLabels in H.
  rewrite lookup_insert_eq in H. by injection H.
Qed.
End apart.

Section kept_in_sync.
Context {U : GoUnicode}.
Variables (a b : PicoclusterDB Wire) (t : TierSpec Wire) (st st' : store).
Hypothesis Hap : clusters_apart a b.
Hypothesis Hmax : Forall (fun t => t_Replicas t < int32_max)%Z (s_Tiers (db_Spec a)).
Hypothesis Ht : t ∈ s_Tiers (db_Spec b).
Hypothesis Hb : (t_Replicas t < int32_max)%Z.
Hypothesis Hframe : cluster_frame a st st'.

Lemma not_of_a k n : tier_key b t k n -> forall ta, ta ∈ s_Tiers (db_Spec a) ->
  ~ tier_key a ta k n.
Proof using Hap Hmax Ht Hb.
  intros Hk ta Ha. rewrite Forall_forall in Hmax. eapply keys_apart; [done..| |done|done].
  apply Hmax. by apply list_elem_of_In.
Qed.

Lemma other_object k n : k <> KStatefulSet -> tier_key b t k n -> st' k n = st k n.
Proof using Hap Hmax Ht Hb Hframe.
  intros Hk Hn. destruct Hframe as [F _]. apply F; [done|by apply not_of_a|].
  left. intros ->. by destruct Hn.
Qed.

(** A StatefulSet with the labels of [b]'s tier, in its namespace, is no extra of [a]. *)
Lemma not_extra_of_a ta s i :
  ta ∈ s_Tiers (db_Spec a) -> om_Labels (sts_Meta s) = replicasetLabels b t i ->
  om_Namespace (sts_Meta s) = db_Namespace b -> ~ extra a ta s.
Proof using Hap Ht.
  intros Ha Hl Hns [[Hns' Hm] _].
  change (om_Namespace (sts_Meta s) = db_Namespace a) in Hns'.
  change (om_Labels (obj_meta KStatefulSet s)) with (om_Labels (sts_Meta s)) in Hm.
  rewrite Hl in Hm. apply (labels_apart b a) in Hm.
  destruct Hap as [Hd|Hd]; [congruence|]. by destruct (Hd ta t Ha Ht) as [[] _].
Qed.

Lemma other_cluster_synced : tier_synced b t st -> tier_synced b t st'.
Proof using Hap Hmax Ht Hb Hframe.
  intros [S1 Sh Sc Ss Sx Si]. destruct Hframe as (_ & _ & Fs & Fl). split.
  - destruct S1 as (cm & Hcm & o & Ho & Hag). exists cm. split; [done|]. exists o.
    rewrite other_object; [done..|]. unfold buildConfigMap in Hcm.
    destruct (s_Tiers (db_Spec b)); [done|]. by injection Hcm as <-.
  - destruct Sh as (o & Ho & Hag). exists o. rewrite other_object; [done..|].
    split; [done|by left].
  - destruct Sc as (o & Ho & Hag). exists o. rewrite other_object; [done..|].
    split; [done|by right].
  - intros i Hi. destruct (Ss i Hi) as (s & Hs & Hy). exists s. split; [|done].
    destruct (Fs (sts_key b t i)) as [->|(_ & ta & s' & Ha & Hs' & Hx)]; [|done|].
    + apply not_of_a. split; [done|]. by exists i.
    + rewrite Hs in Hs'. injection Hs' as <-. destruct Hy as (Hk & Hl & _).
      exfalso. apply (not_extra_of_a ta s i Ha Hl); [|done].
      by apply (f_equal nn_Namespace) in Hk.
  - intros s Hs Hx. destruct (Fl _ _ Hs) as [Hs0|(ta & i & Ha & Hl)]; [by apply (Sx s)|].
    destruct Hx as [[Hns Hm] Hxs].
    change (om_Namespace (sts_Meta s) = db_Namespace b) in Hns.
    change (om_Labels (obj_meta KStatefulSet s)) with (om_Labels (sts_Meta s)) in Hm.
    pose proof Hm as Hm'. rewrite Hl in Hm'. apply (labels_apart a b) in Hm'.
    destruct Hap as [Hd|Hd]; [|by destruct (Hd ta t Ha Ht) as [[] _]].
    destruct (Fs (obj_key KStatefulSet s)) as [E|[E _]]; [| |by rewrite E in Hs].
    + intros tx _ [Hk _]. apply Hd. by rewrite <-Hns, <-Hk.
    + rewrite E in Hs. by apply (Sx s Hs).
  - intros spec Hsp He. destruct (Si spec Hsp He) as (o & Ho & Hag). exists o.
    by rewrite other_object.
Qed.
End kept_in_sync.

(** C5.  Isolation of clusters.  Let the objects of two clusters be apart: in
    different namespaces, or with names that never meet.  Then reconciling the one,
    with any outcome and whatever is answered, leaves every tier of the other that was
    in sync in sync: its ConfigMap, Services, Ingress and StatefulSets are untouched,
    none of them is taken for a superfluous replicaset, and none that is created
    counts as superfluous for the other cluster. *)
Theorem Reconcile_keeps_other_clusters {U : GoUnicode} {K : K8sLib} {C : ControllerLib}
  {CL : ControllerLibLaws C} (req : NamespacedName) (a b : PicoclusterDB Wire)
  (st : store) (h : heap) :
  st KPicoclusterDB req = Some a -> reconcilable a -> clusters_apart a b ->
  Forall (fun t => t_Replicas t < int32_max)%Z (s_Tiers (db_Spec b)) ->
  Forall (fun t => tier_synced b t st) (s_Tiers (db_Spec b)) ->
  go_ok store_api (Reconcile req) st h (fun st' _ _ =>
    Forall (fun t => tier_synced b t st') (s_Tiers (db_Spec b))).
Proof.
  intros Ha Hrec Hap Hmax Hb.
  eapply go_ok_mono; [apply Reconcile_store; intros wire E; by simplify_eq|].
  intros st' h' r [[->|(wire & E & _ & Hframe)] _]; [done|]. simplify_eq.
  destruct Hrec as (_ & Hmaxa & _). rewrite Forall_forall in *. intros t Ht.
  apply (other_cluster_synced a b t st st'); [done|by apply Forall_forall|
    by apply list_elem_of_In|by apply Hmax|done|by apply Hb].
Qed.

(** ** Two clusters in one namespace *)

Definition other_req : NamespacedName :=
  {| nn_Name := "second"; nn_Namespace := "picodata" |}.

(** Another cluster with a tier of the same name as one of the sample. *)
Definition other_wire : PicoclusterDB Wire :=
  {| db_Meta := mk_meta "second" "picodata" ∅ ∅;
     db_Spec := db_Spec (sample_cluster [sample_tier "default" 3 1 true [] None None]);
     db_Status := db_Status sample_wire |}.

(** The server with both clusters, after the sample has been reconciled. *)
Definition shared_world : list stored_obj := existT KPicoclusterDB other_wire :: sample_world.

Lemma Reconcile_keeps_other_clusters_witness :
  exists w', Forall (fun t => @tier_synced ascii_unicode _ sample_wire t (contents w'))
      (s_Tiers (db_Spec sample_wire)) /\
    go_ok store_api
      (@Reconcile ascii_unicode sample_k8s sample_controller_lib other_req)
      (contents w') empty_heap (fun st' _ _ =>
        Forall (fun t => @tier_synced ascii_unicode _ sample_wire t st')
          (s_Tiers (db_Spec sample_wire))).
Proof.
  destruct (@one_run ascii_unicode sample_k8s sample_controller_lib sample_controller_laws
    sample_controller_total sample_req empty_heap ([], shared_world))
    as (h' & r & w' & _ & _ & Hk & Hr & Hsync).
  - apply list.NoDup_cons. split; [by intros [[=]|[[=]|?%elem_of_nil]%elem_of_cons]%elem_of_cons|].
    apply list.NoDup_cons. split; [by intros [=]%list_elem_of_singleton|].
    apply list.NoDup_singleton.
  - intros wire [= <-]. destruct (sample_well_posed sample_wire eq_refl) as (H1 & H2 & H3 & _).
    do 3 (split; [done|]). intros _. exists sample_secret. split; [reflexivity|by eexists].
  - assert (Forall (fun t => @tier_synced ascii_unicode _ sample_wire t (contents w'.2))
      (s_Tiers (db_Spec sample_wire))) as Hs.
    { apply Hsync; [|reflexivity]. destruct Hr as [Hr|Hr]; [exact Hr|]. by apply Nat.nlt_0_r in Hr. }
    exists w'.2. split; [exact Hs|].
    apply (@Reconcile_keeps_other_clusters ascii_unicode sample_k8s sample_controller_lib
      sample_controller_laws other_req other_wire sample_wire (contents w'.2) empty_heap).
    + rewrite (kept_others _ _ _ Hk) by done. reflexivity.
    + split_and!; [done|by repeat constructor|by repeat constructor].
    + right. intros ta tb Ha Hb. apply list_elem_of_singleton in Ha as ->.
      repeat (apply elem_of_cons in Hb as [->|Hb]; [by vm_compute|]). by apply elem_of_nil in Hb.
    + by repeat constructor.
    + exact Hs.
Defined.
